(* ===== verification/_CoqProject ===== *)
-Q . S2P
Prelude.v
CppString.v
BlockLayer.v
Inode.v
InodeFacts.v
FileBlocks.v
FileSystem.v
FileWrite.v
FileOps.v
ExtentServer.v
ExtentRefine.v
StorageProps.v
Marshall.v
MarshallFacts.v
WireTypes.v
Fifo.v
RpcServer.v
RpcServerFacts.v
RpcRetransmit.v
Sockaddr.v
RpcClient.v
RpcClientFacts.v
RpcCancel.v
RpcStub.v
RpcLink.v
RpcNetwork.v
RpcProps.v
ExtentClient.v
ExtentRemote.v
YfsClient.v
YfsView.v
YfsFacts.v
YfsShared.v
YfsHistory.v
YfsSerial.v
YfsSharedProps.v
YfsProps.v
Fuse.v
FuseFacts.v
FuseSpec.v
FuseRefine.v
FuseProps.v
LockServer.v
Handle.v
HandleFacts.v
LockClient.v
LockRemote.v
LockCallbacks.v
Demo.v
FsTest.v
FsTestSpec.v
FsTestCells.v
FsTestEnds.v
FsTestLogic.v
FsTestRules.v
FsTestFiles.v
FsTestSteps.v
FsTestParts.v
FsTestForks.v
FsTestShared.v
FsTestRaces.v
FsTestWrites.v
FsTestMains.v
FsTestMemory.v
FsTestProps.v
LockSystem.v
LockProgress.v
LockQuiesce.v
LockTester.v
LockTesterFacts.v
LockTesterEnds.v
LockProps.v
