(* ===== verification/Prelude.v ===== *)
(** * A verification of the yfs file system and its RPC library

    The program is a distributed file system for a course on systems: a FUSE
    server ([src/fuse.cc]) translates kernel requests into operations of a file
    system client ([src/yfs_client.cc]), which keeps directories as text in
    extents, takes a lock around every operation and reaches two servers over an
    RPC library ([src/rpc]): an extent server ([src/extent_server.cc]) that stores
    extents on a simulated disk with inodes and a block bitmap
    ([src/inode_manager.cc]), and a lock server with caching clients
    ([src/lock_server_cache.cc], [src/lock_client_cache.cc]).

    ** Files

    Foundations: [Prelude] has outcomes of C++ code, fixed-width integers, byte
    buffers, little-endian words, counted loops and the shared automation;
    [CppString] has what the code uses of std::string and of the streams.

    Storage.  [BlockLayer]: class disk and class block_manager; the disk is a list
    of 32768 blocks of 512 bytes, the bitmap is kept in the blocks themselves, and
    [alloc_block] scans it as the code does.  [Inode]: class inode_manager, every
    operation, on the bytes of the inode blocks.  [InodeFacts], [FileBlocks],
    [FileSystem], [FileWrite], [FileOps]: what the operations achieve, under the
    invariant [fs_ok] that no two files share a block and that every block of a
    file is marked.  [ExtentServer]: class extent_server, and beside it the abstract
    server, a finite map from inode numbers to extents ([spec_serve]), with the
    conditions [admissible] under which the code keeps to it; [ExtentRefine]: the
    simulation.

    RPC.  [Marshall]: classes marshall and unmarshall (rpc/marshall.h and the
    operators in rpc/rpc.cc), with the vector and map templates; [MarshallFacts]:
    the class [CodecOK] of operator pairs that agree, with an instance for every
    type; [WireTypes]: the class [Typed] of those whose reading end gives values of
    the type, whatever it reads.  [Fifo]: the job queue of rpc/fifo.h, with threads that sleep on its
    condition variables.  [RpcServer]: class rpcs; [dispatch] is split in two where
    its thread gives up its locks, so that requests interleave.  [RpcServerFacts]:
    the at-most-once invariant over all interleavings of requests as rpcc sends them,
    acknowledging nothing above their own number ([honest]; dispatch does not check it).
    [RpcRetransmit]: what becomes of a reply that the server remembers, until a request
    acknowledges it.  [Sockaddr]: make_sockaddr
    and rpcc::get_refconn.  [RpcClient]: class rpcc; [call1] in three parts, the
    timespec functions.  [RpcClientFacts]: the acknowledgement window and the
    retransmission loop.  [RpcCancel]: calls, replies, callers that leave and rpcc::cancel,
    in any order, and what they do to the window and to the calls under way.  [RpcStub]: the call and reg templates of rpc/rpc.h.
    [RpcLink]: a client and a server joined by a connection that loses nothing,
    from binding to calls.  [RpcNetwork]: the same two ends joined by a network that
    keeps every message for ever and delivers any of them at any time, as a step
    relation with its invariant.

    File system.  [ExtentClient]: extent_client.cc, extent_smain.cc, and the class
    [ExtentClientOK] that states what the file system relies on; [ExtentRemote]:
    the constructor, and that the stubs over the RPC library are an instance of it.
    [YfsClient]: class yfs_client, each operation without and with its lock;
    [YfsView], [YfsFacts]: directories as lists of entries and what each operation
    does.  [YfsShared]: the same operations while other clients, given by a function
    of their own ([env]), change the server between any two calls.  [YfsHistory]: histories of
    lock and extent calls of several clients, which of them are those of an operation, and
    what it is for operations to run one after the other; [YfsSerial]: calls under different
    locks commute, so that the events of an operation can be brought together.  [Fuse]: the
    request handlers of fuse.cc; [FuseFacts]: their effect, and the pairing of lock
    operations.  [FuseSpec]: the file system the kernel sees, a map from inode numbers to
    files, links and directories, with the requests it speaks of ([allowed]); [FuseRefine]:
    the handlers keep to it.

    Locks.  [LockServer]: Module Basic is class lock_server, Module Cache is class
    lock_server_cache, with its refinement of an abstract lock service.  [Handle],
    [HandleFacts]: the cache of RPC clients of handle.cc.  [LockClient]: class
    lock_client_cache, one step for each stretch of code under its mutex, and the
    stubs of lock_client.cc.  [LockRemote]: lock_smain.cc, and the clients' calls
    over the RPC library; [LockCallbacks]: the clients' constructors, and their
    handlers as the lock server reaches them.  [LockSystem]: clients, threads,
    server and messages together, as a step relation with its invariant; calls are
    answered, none is lost or fails, and a parameter says whether a wait on a condition
    variable ends only when it is signalled ([Signalled]) or at any time ([Spurious]).
    [LockProgress]: as long as a thread is inside the lock client, a step is possible
    or some thread has the lock; [LockQuiesce]: a measure that every step of the
    protocol makes smaller.  [LockTester]: the tests of lock_tester.cc as programs,
    their threads interleaved with the protocol, one [LockSystem.system] for each
    lock; [LockTesterFacts]: its invariant, and that some thread can go on;
    [LockTesterEnds]: that its runs are finite.  [Demo]: demo_server.cc,
    demo_client.cc and lock_demo.cc over the RPC library.

    Tests of the file system.  [FsTest]: the programs test-lab-3-a.c, test-lab-3-b.c and
    test-lab2-*.c as processes that make system calls, fork and wait, and a step relation
    that interleaves them over a kernel, which is a parameter.  [FsTestSpec]: what the
    calls mean, as a relation on a finite map of paths and the open files, and the class
    [KernelOK] of kernels that behave so.  [FsTestCells]: the same, one path at a time.
    [FsTestEnds]: every run of the programs is finite, and some process can go on.
    [FsTestLogic]: a separation logic for the processes, an instance of Iris, with its
    adequacy theorem; [FsTestRules]: a rule for every call; [FsTestFiles], [FsTestSteps]:
    the functions of the tests on one file and on a directory; [FsTestParts],
    [FsTestForks], [FsTestShared], [FsTestRaces], [FsTestWrites]: the parts of the tests,
    those of one process, of two on their own files, and of two on the same files;
    [FsTestMains]: the programs.  [FsTestMemory]: an executable kernel that satisfies
    [KernelOK].

    ** How code is modelled

    A method of a class is a function on a record of the class's members.  Code
    that can go wrong returns a [result]: undefined behaviour, an aborted process
    and a loop that does not end are told apart.  Integers are in Z with their
    wrap-around written out ([u32], [s32], ...), signed overflow is undefined.
    Memory without a defined content (malloc, stack variables) is a class parameter
    ([HeapMem], [Uninit]), so every theorem holds whatever it contains.  The time,
    random numbers, the order of threads and messages, the answers of libfuse, of
    the resolver and of the connection class (which is in a compiled library) are
    arguments.  The extent server serves one request after the other: its methods take no
    mutex, although rpcs runs them on a pool of threads, and requests that overlap in
    time are not modelled.

    ** Theorems

    [StorageProps]: the extent server refines the abstract map; files read back what
    was written and do not disturb each other; blocks and inodes are given back;
    what happens when the disk or the inode table is full. [RpcProps]: exactly one
    execution of every answered call over a bad network, at-most-once execution,
    equal replies to retransmissions until they are acknowledged, acknowledgements,
    termination of the retransmission loop, cancelled calls, round trips of the wire format, numbers
    that have their type whatever was sent, calls that arrive as they were made, the job queue. [YfsProps]: the system starts up;
    files, directories and links that are made are found, unlinked ones are gone,
    contents read back; errors for name conflicts; three defects. [YfsSharedProps]:
    operations of several clients, unlink and symlink apart, behave as if they were atomic,
    and a write that races with an unlink makes the server crash. [FuseProps]: the
    handlers, down to the disk, implement the file system the kernel sees, and every
    handler releases its locks. [LockProps]:
    mutual exclusion for threads of all clients as long as waits end only when signalled,
    and that it is lost otherwise; no check of the protocol fails, it
    neither deadlocks nor runs for ever between two calls, the lock tester passes and
    ends, hand-over, handles never dangle, names resolve, remote calls are local calls
    in both directions, the demonstration programs; the defects of the first lock
    server and of unprotected waits. [FsTestProps]: on a kernel that behaves, the file
    system tests end and pass under every interleaving of their processes; what one of
    their checks misses.

    ** Bounds and fuel

    [YfsClient.readdir_loop] has as many units of fuel as the directory has bytes,
    and each round uses up at least one byte or repeats for ever, so [Hang] means
    that the code does not return.  [RpcClient.normalize_ts] has one more unit than
    the seconds to carry.  [CppString.dec] has 20 units for the 20 digits of 2^64.
    [call1_loop] takes a list of passes; nine are enough for the longest timeout.
    All other recursion is structural.  The hypothesis [admissible] keeps writes
    within the free space of the disk and away from inode number 1023, whose block
    the allocator hands out for data (StorageProps).  [holds n] and [linked n] count
    down the calls a client can make before its call numbers reach 2^31.
    A request of the kernel takes ten calls at most.  The conditions [allowed] leave out
    requests on inodes that do not exist or are of another kind, files and directories for
    which the disk has no room, changes of times alone, and the removal of names that
    consist of digits.

    ** Not modelled

    The connection, polling and thread pool classes, of which the repository has
    only headers and a compiled library; the main functions' parsing of arguments
    and the session set-up of fuse.cc; the destructors that only free memory; the
    logging macros; gettime.cc, compiled on Mac OS only; the generated build files;
    of the test programs test-lab*, what they print and their sleeping. *)

From Stdlib Require Import ZArith Lia.
From Stdlib Require Export Strings.Byte.
From stdpp Require Export base tactics numbers list list_numbers gmap relations.

#[export] Set Default Goal Selector "!".

Declare Scope yfs_scope.
Delimit Scope yfs_scope with yfs.
#[global] Open Scope Z_scope.
#[global] Open Scope yfs_scope.

(** ** Automation

    [len] proves facts about lengths of lists; [ranges] is a database of the ranges
    of integer operations. *)

Create HintDb ranges.
#[export] Hint Extern 1 (_ <= _) => lia : ranges.
#[export] Hint Extern 1 (_ < _) => lia : ranges.
#[export] Hint Rewrite @length_app @length_take @length_drop @length_replicate @length_insert @length_fmap : len.
Ltac len := autorewrite with len; cbn [length]; lia.

(** An element of a list without repeated keys is the only one with its key. *)
Lemma filter_unique {A B} `{EqDecision B} (f : A -> B) (l : list A) e :
  NoDup (f <$> l) -> e ∈ l -> filter (fun a => f a = f e) l = [e].
Proof.
  induction l as [|a l IH]; intros Hn He; [by apply not_elem_of_nil in He|].
  rewrite fmap_cons in Hn. apply NoDup_cons in Hn as [Ha Hn]. apply elem_of_cons in He as [<-|He].
  - rewrite filter_cons_True by done. f_equal. apply elem_of_nil_inv.
    intros b [Hb Hb']%list_elem_of_filter. apply Ha. rewrite <- Hb. by apply list_elem_of_fmap_2.
  - rewrite filter_cons_False; [by apply IH|]. intros E. apply Ha. rewrite E. by apply list_elem_of_fmap_2.
Qed.

(** What holds at first and is kept by every step holds in every reachable state. *)
Lemma rtc_invariant {A} (R : relation A) (I : A -> Prop) x y :
  (forall a b, R a b -> I a -> I b) -> I x -> rtc R x y -> I y.
Proof. intros HI Hx Hr. induction Hr; eauto. Qed.

(** ** Outcomes of C++ code

    [Ok a] is a normal return.  [Undef] is undefined behaviour of the C++
    abstract machine (a null dereference, an access outside an array, a signed
    overflow).  [Abort] is a deliberate end of the process: a failed [VERIFY],
    an uncaught exception, [exit].  [Hang] is a loop that has not ended within
    the fuel it was given. *)

Inductive result (A : Type) : Type :=
| Ok (a : A)
| Undef
| Abort
| Hang.
Arguments Ok {A} _.
Arguments Undef {A}.
Arguments Abort {A}.
Arguments Hang {A}.

#[export] Instance result_ret : MRet result := fun A a => Ok a.
#[export] Instance result_bind : MBind result := fun A B f m =>
  match m with Ok a => f a | Undef => Undef | Abort => Abort | Hang => Hang end.
#[export] Instance result_fmap : FMap result := fun A B f m =>
  match m with Ok a => Ok (f a) | Undef => Undef | Abort => Abort | Hang => Hang end.

(** [deref p]: following a pointer that may be null. *)
Definition deref {A} (p : option A) : result A :=
  match p with Some a => Ok a | None => Undef end.

(** [verify b]: the [VERIFY(b)] macro of lang/verify.h. *)
Definition verify (b : bool) : result unit := if b then Ok tt else Abort.

#[global] Arguments Z.to_nat : simpl never.
#[global] Arguments Z.of_nat : simpl never.
#[global] Arguments Z.pow : simpl never.

Lemma bind_Ok {A B} (a : A) (f : A -> result B) : Ok a ≫= f = f a.
Proof. done. Qed.

Lemma deref_Some {A} (a : A) : deref (Some a) = Ok a.
Proof. done. Qed.

Lemma bind_ok {A B} (m : result A) (f : A -> result B) b :
  m ≫= f = Ok b -> exists a, m = Ok a /\ f a = Ok b.
Proof. destruct m as [a| | |]; cbn; [eauto|done..]. Qed.

(** [run_ok] performs the next steps of a computation that has returned [Ok]. *)
Ltac run_ok := repeat first [rewrite bind_Ok | progress cbv beta iota].

(** ** Fixed-width integers *)

Definition wrapU (n z : Z) : Z := z mod 2 ^ n.
Definition wrapS (n z : Z) : Z := (z + 2 ^ (n - 1)) mod 2 ^ n - 2 ^ (n - 1).
Abbreviation u8 := (wrapU 8).
Abbreviation u16 := (wrapU 16).
Abbreviation u32 := (wrapU 32).
Abbreviation u64 := (wrapU 64).
Abbreviation s8 := (wrapS 8).
Abbreviation s16 := (wrapS 16).
Abbreviation s32 := (wrapS 32).
Definition INT_MAX : Z := 2147483647.


(** The result of a signed computation: an overflow is undefined behaviour. *)
Definition chk_int (z : Z) : result Z := if (z <? -2147483648) || (INT_MAX <? z) then Undef else Ok z.

Lemma chk_int_ok z : - 2147483648 <= z <= INT_MAX -> chk_int z = Ok z.
Proof.
  intros. unfold chk_int. rewrite (proj2 (Z.ltb_ge _ _)), (proj2 (Z.ltb_ge _ _)); [done|lia|lia].
Qed.

Lemma wrapU_small n z : 0 <= z < 2 ^ n -> wrapU n z = z.
Proof. apply Z.mod_small. Qed.

Lemma wrapU_range n z : 0 <= n -> 0 <= wrapU n z < 2 ^ n.
Proof. intros. apply Z.mod_pos_bound. lia. Qed.

Lemma wrapS_small n z : 0 < n -> - 2 ^ (n - 1) <= z < 2 ^ (n - 1) -> wrapS n z = z.
Proof.
  intros Hn Hz. unfold wrapS.
  assert (2 ^ n = 2 * 2 ^ (n - 1)) as E by (rewrite <- Z.pow_succ_r by lia; f_equal; lia).
  rewrite Z.mod_small; lia.
Qed.

Lemma wrapS_range n z : 0 < n -> - 2 ^ (n - 1) <= wrapS n z < 2 ^ (n - 1).
Proof.
  intros Hn. unfold wrapS.
  assert (2 ^ n = 2 * 2 ^ (n - 1)) as E by (rewrite <- Z.pow_succ_r by lia; f_equal; lia).
  pose proof (Z.mod_pos_bound (z + 2 ^ (n - 1)) (2 ^ n)). lia.
Qed.

(** Signed and unsigned readings of the same bits. *)
Lemma wrapS_wrapU n z : 0 < n -> wrapS n (wrapU n z) = wrapS n z.
Proof. intros. unfold wrapS, wrapU. rewrite Zplus_mod_idemp_l. done. Qed.

Lemma wrapU_wrapS n z : 0 < n -> wrapU n (wrapS n z) = wrapU n z.
Proof.
  intros. unfold wrapS, wrapU. rewrite Zminus_mod_idemp_l. f_equal. lia.
Qed.

#[export] Hint Resolve wrapU_range wrapS_range : ranges.

(** ** Bytes *)

Definition b2z (b : byte) : Z := Z.of_N (Byte.to_N b).
Definition z2b (z : Z) : byte :=
  match Byte.of_N (Z.to_N (z mod 256)) with Some b => b | None => x00 end.

(** A [char] is signed on the platforms the makefile builds for. *)
Definition schar (b : byte) : Z := s8 (b2z b).

#[export] Instance byte_eq_dec : EqDecision byte := Byte.byte_eq_dec.

Lemma b2z_range b : 0 <= b2z b < 256.
Proof.
  unfold b2z. pose proof (Byte.to_N_bounded b). lia.
Qed.

Lemma b2z_z2b z : b2z (z2b z) = z mod 256.
Proof.
  unfold b2z, z2b. pose proof (Z.mod_pos_bound z 256 ltac:(lia)) as Hr.
  destruct (Byte.of_N _) as [b|] eqn:E.
  - apply Byte.to_of_N in E. rewrite E. lia.
  - apply Byte.of_N_None_iff in E. lia.
Qed.

Lemma b2z_inj b c : b2z b = b2z c -> b = c.
Proof.
  unfold b2z. intros H%N2Z.inj.
  assert (Byte.of_N (Byte.to_N b) = Byte.of_N (Byte.to_N c)) as E by (by rewrite H).
  rewrite !Byte.of_to_N in E. congruence.
Qed.

Lemma z2b_b2z b : z2b (b2z b) = b.
Proof. apply b2z_inj. rewrite b2z_z2b, Z.mod_small; [done|apply b2z_range]. Qed.

#[export] Hint Resolve b2z_range : ranges.

#[export] Instance byte_countable : Countable byte :=
  inj_countable' b2z z2b z2b_b2z.

(** ** Memory: byte buffers

    A buffer is a [list byte].  [memcpy dst off src] overwrites [dst] from
    offset [off]; [slice off n l] are the [n] elements from offset [off]. *)

Definition slice {A} (off n : nat) (l : list A) : list A := take n (drop off l).
Definition memcpy {A} (dst : list A) (off : nat) (src : list A) : list A :=
  take off dst ++ src ++ drop (off + length src) dst.

Section buffers.
Context {A : Type}.
Implicit Types l src dst : list A.

Lemma length_slice off n l : (off + n <= length l)%nat -> length (slice off n l) = n.
Proof. intros. unfold slice. rewrite length_take, length_drop. lia. Qed.

Lemma length_memcpy dst off src :
  (off + length src <= length dst)%nat -> length (memcpy dst off src) = length dst.
Proof.
  intros. unfold memcpy. rewrite !length_app, length_take, length_drop. lia.
Qed.

Lemma slice_memcpy_eq dst off src :
  (off <= length dst)%nat -> slice off (length src) (memcpy dst off src) = src.
Proof.
  intros. unfold slice, memcpy.
  rewrite drop_app_length' by len.
  by rewrite take_app_length.
Qed.

Lemma slice_memcpy_ne dst off src off' n :
  (off + length src <= length dst)%nat ->
  (off' + n <= off \/ off + length src <= off')%nat ->
  slice off' n (memcpy dst off src) = slice off' n dst.
Proof.
  intros Hlen Hd. unfold slice, memcpy. destruct Hd as [Hd|Hd].
  - rewrite drop_app_le by len.
    rewrite take_app_le by len.
    rewrite !take_drop_commute, take_take. by rewrite Nat.min_l by lia.
  - rewrite drop_app_ge by len.
    rewrite length_take, Nat.min_l by lia.
    rewrite drop_app_ge, drop_drop by lia. do 2 f_equal. lia.
Qed.

Lemma memcpy_0_all dst src : length src = length dst -> memcpy dst 0 src = src.
Proof.
  intros H. unfold memcpy. rewrite H. simpl.
  rewrite drop_ge by lia. by rewrite app_nil_r.
Qed.

Lemma slice_app off n l1 l2 :
  (off + n <= length l1)%nat -> slice off n (l1 ++ l2) = slice off n l1.
Proof.
  intros. unfold slice. rewrite drop_app_le by lia.
  rewrite take_app_le; [done|]. rewrite length_drop. lia.
Qed.

Lemma slice_slice off n off' n' l :
  (off' + n' <= n)%nat -> slice off' n' (slice off n l) = slice (off + off') n' l.
Proof.
  intros. unfold slice. rewrite !take_drop_commute, take_take, drop_drop.
  do 2 f_equal; lia.
Qed.

Lemma slice_split off a b l : slice off (a + b) l = slice off a l ++ slice (off + a) b l.
Proof.
  unfold slice. rewrite <- (drop_drop l a off).
  rewrite <- (take_drop a (take (a + b) (drop off l))), take_take, Nat.min_l by lia.
  f_equal. by rewrite <- take_drop_commute.
Qed.

Lemma slice_all l n : (length l <= n)%nat -> slice 0 n l = l.
Proof. intros. unfold slice. rewrite drop_0. by apply take_ge. Qed.

Lemma elem_of_drop_in k l x : x ∈ drop k l -> x ∈ l.
Proof. intros Hx. rewrite <- (take_drop k l), elem_of_app. by right. Qed.

End buffers.

(** What [malloc n] returns before anything is stored there, and what an [int]
    variable holds before it is assigned; [realloc]. *)
Class HeapMem := {
  heap_bytes : nat -> list byte;
  length_heap_bytes : forall n, length (heap_bytes n) = n;
  stack_int : Z;
  stack_int_range : - 2 ^ 31 <= stack_int < 2 ^ 31;
}.

(** Memory that happens to hold zeros, for concrete runs. *)
Definition zero_heap : HeapMem.
Proof. refine {| heap_bytes n := replicate n x00; stack_int := 0 |}; [intros; apply length_replicate|lia]. Defined.

Definition realloc `{HeapMem} (buf : list byte) (n : nat) : list byte :=
  take n buf ++ drop (length buf) (heap_bytes n).

Lemma length_realloc `{HeapMem} buf n : length (realloc buf n) = n.
Proof. unfold realloc. rewrite length_app, length_take, length_drop, length_heap_bytes. lia. Qed.

Lemma take_realloc `{HeapMem} buf n k :
  (k <= length buf)%nat -> (k <= n)%nat -> take k (realloc buf n) = take k buf.
Proof.
  intros. unfold realloc. rewrite take_app_le by len.
  by rewrite take_take, Nat.min_l by lia.
Qed.

(** Writing just behind the first [off] elements extends them. *)
Lemma take_memcpy {A} (dst src : list A) off :
  (off <= length dst)%nat -> take (off + length src) (memcpy dst off src) = take off dst ++ src.
Proof.
  intros. unfold memcpy. rewrite app_assoc. apply take_app_length'.
  rewrite length_app, length_take. lia.
Qed.

(** ** Little-endian words *)

Fixpoint le_dec (l : list byte) : Z :=
  match l with [] => 0 | b :: l => b2z b + 256 * le_dec l end.
Fixpoint le_enc (n : nat) (z : Z) : list byte :=
  match n with O => [] | S n => z2b z :: le_enc n (z / 256) end.

Lemma length_le_enc n z : length (le_enc n z) = n.
Proof. revert z. induction n; intros; simpl; auto. Qed.
#[export] Hint Rewrite length_le_enc : len.

Lemma le_dec_enc n z : le_dec (le_enc n z) = z mod 256 ^ Z.of_nat n.
Proof.
  revert z. induction n as [|n IH]; intros z; simpl le_dec.
  - change (256 ^ Z.of_nat 0) with 1. by rewrite Z.mod_1_r.
  - rewrite IH, b2z_z2b, Nat2Z.inj_succ, Z.pow_succ_r by lia.
    rewrite Z.rem_mul_r by lia. lia.
Qed.

Lemma le_dec_range l : 0 <= le_dec l < 256 ^ Z.of_nat (length l).
Proof.
  induction l as [|b l IH]; simpl le_dec; [simpl; lia|].
  cbn [length]. rewrite Nat2Z.inj_succ, Z.pow_succ_r by lia.
  pose proof (b2z_range b). lia.
Qed.

Lemma le_dec_zero n : le_dec (replicate n x00) = 0.
Proof. induction n as [|n IH]; [done|]. cbn [replicate le_dec]. by rewrite IH. Qed.

(** Loads and stores of 16- and 32-bit words at a byte offset. *)
Definition ld16 (buf : list byte) (off : nat) : Z := le_dec (slice off 2 buf).
Definition st16 (buf : list byte) (off : nat) (v : Z) : list byte := memcpy buf off (le_enc 2 v).
Definition ld32 (buf : list byte) (off : nat) : Z := le_dec (slice off 4 buf).
Definition st32 (buf : list byte) (off : nat) (v : Z) : list byte := memcpy buf off (le_enc 4 v).

(** [n] consecutive 32-bit words from byte offset [off]. *)
Definition ld_words (buf : list byte) (off n : nat) : list Z :=
  (fun k => ld32 buf (off + 4 * k)) <$> seq 0 n.

Lemma length_st16 buf off v : (off + 2 <= length buf)%nat -> length (st16 buf off v) = length buf.
Proof. intros. apply length_memcpy. rewrite length_le_enc. lia. Qed.

Lemma length_st32 buf off v : (off + 4 <= length buf)%nat -> length (st32 buf off v) = length buf.
Proof. intros. apply length_memcpy. rewrite length_le_enc. lia. Qed.

Lemma ld16_range buf off : 0 <= ld16 buf off < 2 ^ 16.
Proof.
  unfold ld16. pose proof (le_dec_range (slice off 2 buf)) as H.
  assert (length (slice off 2 buf) <= 2)%nat as L by (unfold slice; rewrite length_take; lia).
  assert (256 ^ Z.of_nat (length (slice off 2 buf)) <= 256 ^ 2)
    by (apply Z.pow_le_mono_r; lia). lia.
Qed.

Lemma ld32_range buf off : 0 <= ld32 buf off < 2 ^ 32.
Proof.
  unfold ld32. pose proof (le_dec_range (slice off 4 buf)) as H.
  assert (length (slice off 4 buf) <= 4)%nat as L by (unfold slice; rewrite length_take; lia).
  assert (256 ^ Z.of_nat (length (slice off 4 buf)) <= 256 ^ 4)
    by (apply Z.pow_le_mono_r; lia). lia.
Qed.

Lemma ld16_st16_eq buf off v : (off <= length buf)%nat -> ld16 (st16 buf off v) off = u16 v.
Proof.
  intros. unfold ld16, st16. rewrite <- (length_le_enc 2 v) at 1.
  by rewrite slice_memcpy_eq, le_dec_enc.
Qed.

Lemma ld32_st32_eq buf off v : (off <= length buf)%nat -> ld32 (st32 buf off v) off = u32 v.
Proof.
  intros. unfold ld32, st32. rewrite <- (length_le_enc 4 v) at 1.
  by rewrite slice_memcpy_eq, le_dec_enc.
Qed.

Lemma ld32_st32_ne buf off v off' :
  (off + 4 <= length buf)%nat -> (off' + 4 <= off \/ off + 4 <= off')%nat ->
  ld32 (st32 buf off v) off' = ld32 buf off'.
Proof. intros. unfold ld32, st32. rewrite slice_memcpy_ne; rewrite ?length_le_enc; auto; lia. Qed.

Lemma ld32_st16_ne buf off v off' :
  (off + 2 <= length buf)%nat -> (off' + 4 <= off \/ off + 2 <= off')%nat ->
  ld32 (st16 buf off v) off' = ld32 buf off'.
Proof. intros. unfold ld32, st16. rewrite slice_memcpy_ne; rewrite ?length_le_enc; auto; lia. Qed.

Lemma ld16_st32_ne buf off v off' :
  (off + 4 <= length buf)%nat -> (off' + 2 <= off \/ off + 4 <= off')%nat ->
  ld16 (st32 buf off v) off' = ld16 buf off'.
Proof. intros. unfold ld16, st32. rewrite slice_memcpy_ne; rewrite ?length_le_enc; auto; lia. Qed.

Lemma length_ld_words buf off n : length (ld_words buf off n) = n.
Proof. unfold ld_words. by rewrite length_fmap, length_seq. Qed.
#[export] Hint Rewrite length_ld_words : len.
#[export] Hint Resolve ld16_range ld32_range : ranges.

Lemma lookup_ld_words buf off n k :
  (k < n)%nat -> ld_words buf off n !! k = Some (ld32 buf (off + 4 * k)).
Proof. intros. unfold ld_words. by rewrite list_lookup_fmap, lookup_seq_lt. Qed.

Lemma ld_words_range buf off n w : w ∈ ld_words buf off n -> 0 <= w < 2 ^ 32.
Proof. unfold ld_words. intros (k & -> & _)%list_elem_of_fmap. auto with ranges. Qed.

Lemma ld_words_st32 buf off n k v :
  (k < n)%nat -> (off + 4 * n <= length buf)%nat ->
  ld_words (st32 buf (off + 4 * k) v) off n = <[k := u32 v]> (ld_words buf off n).
Proof.
  intros Hk Hb. apply list_eq. intros i. destruct (decide (i < n)%nat) as [Hi|Hi].
  - rewrite lookup_ld_words by done. destruct (decide (i = k)) as [->|Hne].
    + rewrite list_lookup_insert_eq by len.
      by rewrite ld32_st32_eq by lia.
    + rewrite list_lookup_insert_ne, lookup_ld_words by lia.
      by rewrite ld32_st32_ne by lia.
  - rewrite !lookup_ge_None_2; rewrite ?length_insert, ?length_ld_words; done || lia.
Qed.

Lemma ld_words_ext buf buf' off n :
  slice off (4 * n) buf = slice off (4 * n) buf' -> ld_words buf off n = ld_words buf' off n.
Proof.
  intros H. unfold ld_words. apply list_fmap_ext. intros i k Hk.
  apply lookup_seq in Hk as [-> Hk]. unfold ld32. f_equal.
  rewrite <- (slice_slice off (4 * n) _ 4 buf), <- (slice_slice off (4 * n) _ 4 buf') by lia.
  by rewrite H.
Qed.

(** ** Counted loops

    [for_up n i f a] runs the body [f] for the counter values [i], [i+1], ...,
    [i+n-1]; [for_range lo hi] is [for (i = lo; i < hi; ++i)]. *)

Fixpoint for_up {A} (n : nat) (i : Z) (f : Z -> A -> A) (a : A) : A :=
  match n with O => a | S n => for_up n (i + 1) f (f i a) end.
Definition for_range {A} (lo hi : Z) (f : Z -> A -> A) (a : A) : A :=
  for_up (Z.to_nat (hi - lo)) lo f a.

(** The same with a body that can fail. *)
Fixpoint for_upM {A} (n : nat) (i : Z) (f : Z -> A -> result A) (a : A) : result A :=
  match n with O => Ok a | S n => f i a ≫= for_upM n (i + 1) f end.
Definition for_rangeM {A} (lo hi : Z) (f : Z -> A -> result A) (a : A) : result A :=
  for_upM (Z.to_nat (hi - lo)) lo f a.

Lemma for_up_ind {A} (P : Z -> A -> Prop) n i f (a : A) :
  P i a -> (forall j a, i <= j < i + Z.of_nat n -> P j a -> P (j + 1) (f j a)) ->
  P (i + Z.of_nat n) (for_up n i f a).
Proof.
  revert i a. induction n as [|n IH]; intros i a H0 Hs; simpl.
  - by rewrite Z.add_0_r.
  - replace (i + Z.of_nat (S n)) with (i + 1 + Z.of_nat n) by lia.
    apply IH; [apply Hs; [lia|done]|]. intros. apply Hs; [lia|done].
Qed.

Lemma for_range_ind {A} (P : Z -> A -> Prop) lo hi f (a : A) :
  lo <= hi -> P lo a -> (forall j a, lo <= j < hi -> P j a -> P (j + 1) (f j a)) ->
  P hi (for_range lo hi f a).
Proof.
  intros Hle H0 Hs. unfold for_range.
  pose proof (for_up_ind P (Z.to_nat (hi - lo)) lo f a H0) as H.
  rewrite Z2Nat.id in H by lia. replace (lo + (hi - lo)) with hi in H by lia.
  apply H. intros. apply Hs; [lia|done].
Qed.

Lemma for_upM_ind {A} (P : Z -> A -> Prop) n i f (a : A) :
  P i a ->
  (forall j a, i <= j < i + Z.of_nat n -> P j a -> exists a', f j a = Ok a' /\ P (j + 1) a') ->
  exists a', for_upM n i f a = Ok a' /\ P (i + Z.of_nat n) a'.
Proof.
  revert i a. induction n as [|n IH]; intros i a H0 Hs; simpl.
  - rewrite Z.add_0_r. eauto.
  - destruct (Hs i a ltac:(lia) H0) as (a' & -> & Ha'). cbn.
    replace (i + Z.of_nat (S n)) with (i + 1 + Z.of_nat n) by lia.
    apply IH; [done|]. intros. apply Hs; [lia|done].
Qed.

Lemma for_rangeM_ind {A} (P : Z -> A -> Prop) lo hi f (a : A) :
  lo <= hi -> P lo a ->
  (forall j a, lo <= j < hi -> P j a -> exists a', f j a = Ok a' /\ P (j + 1) a') ->
  exists a', for_rangeM lo hi f a = Ok a' /\ P hi a'.
Proof.
  intros Hle H0 Hs. unfold for_rangeM.
  destruct (for_upM_ind P (Z.to_nat (hi - lo)) lo f a H0) as (a' & E & Ha').
  - intros. apply Hs; [lia|done].
  - exists a'. split; [done|]. by replace hi with (lo + Z.of_nat (Z.to_nat (hi - lo))) by lia.
Qed.
