(* ===== verification/CppString.v ===== *)
(** * CppString: the parts of std::string and of the streams that yfs uses

    A string is its list of characters.  Positions are [size_t] values; [npos]
    is the largest.  Exceptions end the process ([Abort]). *)

From Stdlib Require Import ZArith Lia.
From S2P Require Import Prelude.

Definition npos : Z := 2 ^ 64 - 1.
Definition STR_MAX : Z := 2 ^ 63 - 1.
Definition slash : byte := x2f.

(** [s.find(c)] *)
Fixpoint find_char (c : byte) (s : list byte) (i : Z) : Z :=
  match s with
  | [] => npos
  | b :: s => if bool_decide (b = c) then i else find_char c s (i + 1)
  end.

(** [s.find(t)] *)
Fixpoint is_prefix (t s : list byte) : bool :=
  match t, s with
  | [], _ => true
  | _, [] => false
  | a :: t, b :: s => bool_decide (a = b) && is_prefix t s
  end.
Fixpoint find_str (t s : list byte) (i : Z) : Z :=
  if is_prefix t s then i
  else match s with [] => npos | _ :: s => find_str t s (i + 1) end.

(** [s.substr(pos, n)] *)
Definition substr (s : list byte) (pos n : Z) : result (list byte) :=
  if Z.of_nat (length s) <? pos then Abort
  else Ok (take (Z.to_nat (Z.min n (Z.of_nat (length s) - pos))) (drop (Z.to_nat pos) s)).

(** [s.resize(n)] *)
Definition str_resize (s : list byte) (n : Z) : result (list byte) :=
  if STR_MAX <? n then Abort
  else Ok (take (Z.to_nat n) s ++ replicate (Z.to_nat n - length s) x00).

(** [s.replace(pos, n, t)] *)
Definition str_replace (s : list byte) (pos n : Z) (t : list byte) : result (list byte) :=
  if Z.of_nat (length s) <? pos then Abort
  else Ok (take (Z.to_nat pos) s ++ t
           ++ drop (Z.to_nat (pos + Z.min n (Z.of_nat (length s) - pos))) s).

(** ** Decimal numbers *)

Definition digit (d : Z) : byte := z2b (48 + d).
(** [ost << n] for an [unsigned long long], which has at most 20 digits. *)
Fixpoint dec_digits (fuel : nat) (n : Z) (acc : list byte) : list byte :=
  match fuel with
  | O => acc
  | S fuel =>
      let acc := digit (n mod 10) :: acc in
      if n / 10 =? 0 then acc else dec_digits fuel (n / 10) acc
  end.
Definition dec (n : Z) : list byte := dec_digits 20 n [].

Definition is_space (b : byte) : bool := let z := b2z b in ((9 <=? z) && (z <=? 13)) || (z =? 32).
Definition is_digit (b : byte) : bool := let z := b2z b in (48 <=? z) && (z <=? 57).
Fixpoint skip_space (s : list byte) : list byte :=
  match s with [] => [] | b :: r => if is_space b then skip_space r else s end.
Fixpoint read_digits (s : list byte) (acc : Z) : Z :=
  match s with
  | [] => acc
  | b :: s => if is_digit b then read_digits s (acc * 10 + (b2z b - 48)) else acc
  end.

(** [ist >> n] for an [unsigned long long n] that holds [old]: untouched when
    there is nothing to read, 0 without digits, the largest value on overflow;
    a minus sign negates modulo 2^64. *)
Definition stream_ull (s : list byte) (old : Z) : Z :=
  match skip_space s with
  | [] => old
  | c :: r =>
      let '(neg, ds) :=
        if bool_decide (c = x2d) then (true, r)
        else if bool_decide (c = x2b) then (false, r) else (false, c :: r) in
      let v := read_digits ds 0 in
      if 2 ^ 64 - 1 <? v then 2 ^ 64 - 1 else if (neg : bool) then u64 (- v) else v
  end.

(** ** Facts *)

Lemma find_char_npos c s i : c ∉ s -> find_char c s i = npos.
Proof.
  revert i. induction s as [|b s IH]; intros i Hn; [done|]. apply not_elem_of_cons in Hn as [Hne Hn].
  cbn [find_char]. rewrite bool_decide_false by congruence. by apply IH.
Qed.

Lemma find_char_app c s r i : c ∉ s -> find_char c (s ++ c :: r) i = i + Z.of_nat (length s).
Proof.
  revert i. induction s as [|b s IH]; intros i Hn; cbn [app find_char length].
  - rewrite bool_decide_true by done. lia.
  - apply not_elem_of_cons in Hn as [Hne Hn]. rewrite bool_decide_false by congruence.
    rewrite IH by done. lia.
Qed.

Lemma is_prefix_spec t s : is_prefix t s = true <-> exists r, s = t ++ r.
Proof.
  revert s. induction t as [|a t IH]; intros s; [cbn; split; [by exists s|done]|].
  destruct s as [|b s]; cbn [is_prefix]; [split; [done|by intros [r ?]]|].
  rewrite andb_true_iff, bool_decide_eq_true, IH. split.
  - intros [-> [r ->]]. by exists r.
  - intros [r [= -> ->]]. split; [done|]. by exists r.
Qed.

(** A first occurrence. *)
Lemma find_str_app t s r i :
  (forall k, (k < length s)%nat -> is_prefix t (drop k (s ++ t ++ r)) = false) ->
  find_str t (s ++ t ++ r) i = i + Z.of_nat (length s).
Proof.
  revert i. induction s as [|b s IH]; intros i Hk; cbn [app length].
  - assert (is_prefix t (t ++ r) = true) as E by (apply is_prefix_spec; by exists r).
    destruct (t ++ r); cbn [find_str]; rewrite E; lia.
  - cbn [find_str]. pose proof (Hk 0%nat ltac:(cbn; lia)) as H0. cbn [drop app] in H0. rewrite H0.
    rewrite IH; [lia|].
    intros k Hlt. apply (Hk (S k)). cbn. lia.
Qed.

Lemma substr_prefix s t : substr (s ++ t) 0 (Z.of_nat (length s)) = Ok s.
Proof.
  unfold substr. rewrite length_app. rewrite (proj2 (Z.ltb_ge _ _)) by lia. rewrite drop_0.
  f_equal. apply take_app_length'. lia.
Qed.

Lemma substr_suffix s t : Z.of_nat (length (s ++ t)) < 2 ^ 64 -> substr (s ++ t) (Z.of_nat (length s)) npos = Ok t.
Proof.
  unfold npos. intros Hl. unfold substr. rewrite length_app in *. rewrite (proj2 (Z.ltb_ge _ _)) by lia.
  f_equal. rewrite drop_app_length' by lia. apply take_ge. lia.
Qed.

Lemma substr_all s : substr s 0 npos = Ok s \/ 2 ^ 64 <= Z.of_nat (length s).
Proof.
  destruct (decide (Z.of_nat (length s) < 2 ^ 64)); [|lia]. left.
  by apply (substr_suffix [] s).
Qed.

Lemma str_replace_mid s o r t :
  str_replace (s ++ o ++ r) (Z.of_nat (length s)) (Z.of_nat (length o)) t = Ok (s ++ t ++ r).
Proof.
  unfold str_replace. rewrite !length_app, (proj2 (Z.ltb_ge _ _)) by lia. f_equal.
  rewrite take_app_length' by lia. do 2 f_equal.
  rewrite app_assoc. apply drop_app_length'. rewrite length_app. lia.
Qed.

(** *** Printing and reading numbers *)

Lemma b2z_digit d : 0 <= d < 10 -> b2z (digit d) = 48 + d.
Proof. intros. unfold digit. rewrite b2z_z2b. apply Z.mod_small. lia. Qed.

Lemma is_digit_digit d : 0 <= d < 10 -> is_digit (digit d) = true.
Proof.
  intros. unfold is_digit. rewrite b2z_digit by done. by rewrite (proj2 (Z.leb_le _ _)), (proj2 (Z.leb_le _ _)) by lia.
Qed.

Lemma read_digits_app ds s acc :
  Forall (fun b => is_digit b = true) ds -> read_digits (ds ++ s) acc = read_digits s (read_digits ds acc).
Proof.
  revert acc. induction ds as [|b ds IH]; intros acc Hd; [done|]. apply Forall_cons in Hd as [Hb Hd].
  cbn [app read_digits]. rewrite Hb. by apply IH.
Qed.

(** The digits of [n] in front of [acc]. *)
Lemma dec_digits_spec fuel : forall n acc, 0 <= n < 10 ^ Z.of_nat (S fuel) ->
  exists d ds, dec_digits (S fuel) n acc = (d :: ds) ++ acc /\
    Forall (fun b => is_digit b = true) (d :: ds) /\ read_digits (d :: ds) 0 = n.
Proof.
  induction fuel as [|fuel IH]; intros n acc Hn; pose proof (Z.mod_pos_bound n 10 ltac:(lia)) as Hm;
    pose proof (Z.div_mod n 10 ltac:(lia)) as Hd; cbn [dec_digits]; destruct (Z.eqb_spec (n / 10) 0) as [E|E].
  1, 3: exists (digit (n mod 10)), []; split; [done|]; split;
    [repeat constructor; by apply is_digit_digit|]; cbn [read_digits];
    rewrite is_digit_digit, b2z_digit by done; lia.
  - change (10 ^ Z.of_nat 1) with 10 in Hn. rewrite Z.div_small in E; lia.
  - destruct (IH (n / 10) (digit (n mod 10) :: acc)) as (d & ds & E' & Hf & Hr).
    { split; [apply Z.div_pos; lia|]. apply Z.div_lt_upper_bound; [lia|].
      rewrite (Nat2Z.inj_succ (S fuel)), Z.pow_succ_r in Hn by lia. lia. }
    exists d, (ds ++ [digit (n mod 10)]). split; [|split].
    + cbn [dec_digits] in E'. rewrite E'. cbn [app]. by rewrite <- app_assoc.
    + rewrite app_comm_cons. apply Forall_app. split; [done|]. repeat constructor. by apply is_digit_digit.
    + rewrite app_comm_cons, read_digits_app, Hr by done. cbn [read_digits].
      rewrite is_digit_digit, b2z_digit by done. lia.
Qed.

Lemma dec_spec n : 0 <= n < 2 ^ 64 ->
  exists d ds, dec n = d :: ds /\ Forall (fun b => is_digit b = true) (d :: ds) /\ read_digits (d :: ds) 0 = n.
Proof.
  intros Hn. destruct (dec_digits_spec 19 n []) as (d & ds & E & Hf & Hr); [lia|].
  exists d, ds. rewrite app_nil_r in E. done.
Qed.

(** Properties of the 256 characters. *)
Lemma digit_char b : is_digit b = true -> is_space b = false /\ b <> x2d /\ b <> x2b /\ b <> slash.
Proof. by destruct b. Qed.

Lemma stream_dec n old : 0 <= n < 2 ^ 64 -> stream_ull (dec n) old = n.
Proof.
  intros Hn. destruct (dec_spec n Hn) as (d & ds & -> & Hf & Hr).
  pose proof (Forall_inv Hf) as Hd. destruct (digit_char d Hd) as (Hs & H1 & H2 & _).
  unfold stream_ull. cbn [skip_space]. rewrite Hs, !bool_decide_false by done. rewrite Hr.
  by rewrite (proj2 (Z.ltb_ge _ _)) by lia.
Qed.

Lemma dec_no_slash n : 0 <= n < 2 ^ 64 -> slash ∉ dec n.
Proof.
  intros Hn Hin. destruct (dec_spec n Hn) as (d & ds & E & Hf & _). rewrite E in Hin.
  eapply Forall_forall in Hf; [|exact Hin]. by destruct (digit_char slash Hf) as (_ & _ & _ & ?).
Qed.

Lemma dec_inj n n' : 0 <= n < 2 ^ 64 -> 0 <= n' < 2 ^ 64 -> dec n = dec n' -> n = n'.
Proof. intros Hn Hn' E. rewrite <- (stream_dec n 0 Hn), E. by apply stream_dec. Qed.

Lemma length_dec n : 0 <= n < 2 ^ 64 -> (1 <= length (dec n))%nat.
Proof. intros Hn. destruct (dec_spec n Hn) as (d & ds & -> & _). cbn. lia. Qed.

Lemma length_dec_digits fuel : forall n acc, (length (dec_digits fuel n acc) <= fuel + length acc)%nat.
Proof.
  induction fuel as [|fuel IH]; intros n acc; cbn [dec_digits]; [lia|].
  destruct (n / 10 =? 0); [cbn; lia|]. eapply Nat.le_trans; [apply IH|]. cbn. lia.
Qed.

Lemma length_dec_le n : (length (dec n) <= 20)%nat.
Proof. apply (length_dec_digits 20 n []). Qed.
