(* ===== verification/BlockLayer.v ===== *)
(** * BlockLayer: the disk and the block manager (src/inode_manager.cc)

    The disk is the array [blocks] of [BLOCK_NUM] blocks of [BLOCK_SIZE] bytes;
    the block manager keeps its free-block bitmap on that disk.  The bit of
    block [b] is bit [b mod BPB mod 8] of byte [b mod BPB / 8] of the bitmap
    block [BBLOCK b]; [used] reads it.  The theorems describe [alloc_block],
    [free_block] and the format of a fresh disk in terms of [used] and of the
    contents of the other blocks. *)

From Stdlib Require Import ZArith Lia.
From S2P Require Import Prelude.

(** ** Layout constants (inode_manager.h) *)

Definition DISK_SIZE : Z := 1024 * 1024 * 16.
Definition BLOCK_SIZE : Z := 512.
Definition BLOCK_NUM : Z := DISK_SIZE / BLOCK_SIZE.
Definition INODE_NUM : Z := 1024.
Definition IPB : Z := 1.
Definition BPB : Z := BLOCK_SIZE * 8.
Definition BBLOCK (b : Z) : Z := b / BPB + 2.
Definition IBLOCK (i nblocks : Z) : Z := nblocks / BPB + i / IPB + 3.

(** Memory the program uses before it has written it: the bytes a local array
    of [BLOCK_SIZE] characters holds when a function starts, beside those of
    the heap.  Every operation below is defined for any such contents, and
    every theorem holds for all of them. *)
Class Uninit := {
  uninit_heap :: HeapMem;
  stack_bytes : list byte;
  length_stack_bytes : length stack_bytes = Z.to_nat BLOCK_SIZE;
}.

(** ** class disk *)

Record disk := mk_disk { blocks : list (list byte) }.

Definition zero_block : list byte := replicate (Z.to_nat BLOCK_SIZE) x00.

(** Memory that happens to hold zeros, for concrete runs. *)
Definition zero_mem : Uninit.
Proof. refine {| uninit_heap := zero_heap; stack_bytes := zero_block |}. apply length_replicate. Defined.

(** [disk::disk]: all blocks zeroed. *)
Definition disk_new : disk := mk_disk (replicate (Z.to_nat BLOCK_NUM) zero_block).

(** The content of block [bnum] (an array access inside the bounds). *)
Definition blk (d : disk) (bnum : Z) : list byte :=
  default zero_block (blocks d !! Z.to_nat bnum).

Definition bad_bnum (bnum : Z) : bool := (bnum <? 0) || (BLOCK_NUM <=? bnum).

(** [disk::read_block]: the buffer (a pointer that may be null) after the call. *)
Definition disk_read_block (d : disk) (bnum : Z) (buf : option (list byte)) : option (list byte) :=
  match buf with
  | None => None
  | Some m => if bad_bnum bnum then Some m else Some (memcpy m 0 (blk d bnum))
  end.

(** [disk::write_block]: the disk after the call; it copies the first
    [BLOCK_SIZE] bytes found at the pointer. *)
Definition disk_write_block (d : disk) (bnum : Z) (buf : option (list byte)) : disk :=
  match buf with
  | None => d
  | Some m =>
      if bad_bnum bnum then d
      else mk_disk (<[Z.to_nat bnum := memcpy (blk d bnum) 0 (take (Z.to_nat BLOCK_SIZE) m)]> (blocks d))
  end.

(** ** class block_manager *)

Record superblock := mk_superblock { sb_size : Z; sb_nblocks : Z; sb_ninodes : Z }.
Record block_manager := mk_bm { bm_d : disk; bm_sb : superblock }.

Definition set_disk (bm : block_manager) (d : disk) : block_manager := mk_bm d (bm_sb bm).

(** [block_manager::read_block] and [write_block], called with a pointer to a
    buffer: a local array, or a position inside a heap block. *)
Definition bm_read_block (bm : block_manager) (bnum : Z) (buf : list byte) : list byte :=
  default buf (disk_read_block (bm_d bm) bnum (Some buf)).
Definition bm_write_block (bm : block_manager) (bnum : Z) (buf : list byte) : block_manager :=
  set_disk bm (disk_write_block (bm_d bm) bnum (Some buf)).

(** [buf[off / 8] & mask] with [mask = (char) (1 << (off % 8))], both promoted
    from [char] to [int]. *)
Definition bit_mask (off : Z) : Z := s8 (Z.shiftl 1 (off mod 8)).
Definition byte_at (buf : list byte) (off : Z) : byte := default x00 (buf !! Z.to_nat (off / 8)).
Definition bit_is_free (buf : list byte) (off : Z) : bool :=
  Z.land (schar (byte_at buf off)) (bit_mask off) =? 0.
(** [buf[off / 8] |= mask] *)
Definition set_bit (buf : list byte) (off : Z) : list byte :=
  <[Z.to_nat (off / 8) := z2b (Z.lor (schar (byte_at buf off)) (bit_mask off))]> buf.
(** [buf[offset / 8] &= ~(1 << (offset % 8))] *)
Definition clear_bit (buf : list byte) (off : Z) : list byte :=
  <[Z.to_nat (off / 8) :=
      z2b (Z.land (schar (byte_at buf off)) (Z.lnot (Z.shiftl 1 (off mod 8))))]> buf.

(** The inner loop of [alloc_block]: [n] offsets are left, from [off] on. *)
Fixpoint find_free_bit (n : nat) (off : Z) (buf : list byte) : option Z :=
  match n with
  | O => None
  | S n => if bit_is_free buf off then Some off else find_free_bit n (off + 1) buf
  end.

(** The outer loop of [alloc_block]: [n] bitmap blocks are left, from the one
    that holds the bit of [bnum] on. *)
Fixpoint alloc_scan (n : nat) (bnum : Z) (bm : block_manager) (buf : list byte) : Z * block_manager :=
  match n with
  | O => (0, bm)
  | S n =>
      let buf := bm_read_block bm (BBLOCK bnum) buf in
      match find_free_bit (Z.to_nat BPB) 0 buf with
      | Some off => (bnum + off, bm_write_block bm (BBLOCK bnum) (set_bit buf off))
      | None => alloc_scan n (bnum + BPB) bm buf
      end
  end.

Section ops.
Context `{Uninit}.

(** [block_manager::alloc_block]; [for (bnum = 0; bnum < BLOCK_NUM; bnum += BPB)]
    runs [BLOCK_NUM / BPB] times. *)
Definition alloc_block (bm : block_manager) : Z * block_manager :=
  alloc_scan (Z.to_nat (BLOCK_NUM / BPB)) 0 bm stack_bytes.

(** [block_manager::free_block] *)
Definition free_block (bm : block_manager) (bnum : Z) : block_manager :=
  if bnum <=? BBLOCK BLOCK_NUM then bm
  else
    let buf := bm_read_block bm (BBLOCK bnum) stack_bytes in
    bm_write_block bm (BBLOCK bnum) (clear_bit buf (bnum mod BPB)).

(** [block_manager::block_manager]: the format of a fresh disk. *)
Definition RESERVED : Z := BLOCK_NUM / BPB + INODE_NUM / IPB + 2.
Definition bm_new : block_manager :=
  for_range 0 RESERVED (fun _ bm => snd (alloc_block bm))
    (mk_bm disk_new (mk_superblock (BLOCK_SIZE * BLOCK_NUM) BLOCK_NUM INODE_NUM)).

End ops.

(** Constants are computed by [lia] after these rewrites, never by unary numbers. *)
Lemma BLOCK_NUM_eq : BLOCK_NUM = 32768. Proof. done. Qed.
Lemma BPB_eq : BPB = 4096. Proof. done. Qed.
Lemma BBLOCK_eq b : BBLOCK b = b / 4096 + 2. Proof. done. Qed.
Lemma IBLOCK_eq i : IBLOCK i BLOCK_NUM = i + 11.
Proof. unfold IBLOCK, IPB. rewrite Z.div_1_r. change (BLOCK_NUM / BPB) with 8. lia. Qed.
Lemma RESERVED_eq : RESERVED = 1034. Proof. done. Qed.
Lemma BLOCK_SIZE_eq : BLOCK_SIZE = 512. Proof. done. Qed.
#[global] Opaque BLOCK_NUM BPB BBLOCK IBLOCK RESERVED BLOCK_SIZE.

(** ** Bit operations on a bitmap block *)

(** A property of a byte and a bit position is decided by its 2048 instances. *)
Lemma byte_bit_check (P : byte -> Z -> bool) :
  forallb (fun k => forallb (fun z => P (z2b z) k) (seqZ 0 256)) (seqZ 0 8) = true ->
  forall b k, 0 <= k < 8 -> P b k = true.
Proof.
  intros H b k Hk. rewrite forallb_forall in H.
  assert (In k (seqZ 0 8)) as Hin by (apply list_elem_of_In, elem_of_seqZ; lia).
  specialize (H k Hin). rewrite forallb_forall in H.
  rewrite <- (z2b_b2z b). apply H, list_elem_of_In, elem_of_seqZ.
  pose proof (b2z_range b). lia.
Qed.

Definition testbit_at (buf : list byte) (off : Z) : bool :=
  Z.testbit (b2z (byte_at buf off)) (off mod 8).

Lemma bit_is_free_spec buf off : bit_is_free buf off = negb (testbit_at buf off).
Proof.
  unfold bit_is_free, testbit_at, bit_mask.
  generalize (byte_at buf off); intros b.
  generalize (Z.mod_pos_bound off 8 ltac:(lia)). generalize (off mod 8). intros k Hk.
  apply eqb_prop. revert b k Hk. apply (byte_bit_check (fun b k => eqb
    (Z.land (schar b) (s8 (Z.shiftl 1 k)) =? 0) (negb (Z.testbit (b2z b) k)))).
  vm_compute. reflexivity.
Qed.

(** Rewriting one bit of a byte leaves its other bits alone. *)
Definition set_byte (b : byte) (k : Z) : byte := z2b (Z.lor (schar b) (s8 (Z.shiftl 1 k))).
Definition clear_byte (b : byte) (k : Z) : byte :=
  z2b (Z.land (schar b) (Z.lnot (Z.shiftl 1 k))).

Lemma testbit_set_byte b k j : 0 <= k < 8 -> 0 <= j < 8 ->
  Z.testbit (b2z (set_byte b k)) j = (j =? k) || Z.testbit (b2z b) j.
Proof.
  intros Hk Hj. apply eqb_prop. revert b k Hk.
  apply (byte_bit_check (fun b k => eqb (Z.testbit (b2z (set_byte b k)) j)
    ((j =? k) || Z.testbit (b2z b) j))).
  assert (In j (seqZ 0 8)) as Hin by (apply list_elem_of_In, elem_of_seqZ; lia).
  clear Hj. revert j Hin. apply forallb_forall. vm_compute. reflexivity.
Qed.

Lemma testbit_clear_byte b k j : 0 <= k < 8 -> 0 <= j < 8 ->
  Z.testbit (b2z (clear_byte b k)) j = negb (j =? k) && Z.testbit (b2z b) j.
Proof.
  intros Hk Hj. apply eqb_prop. revert b k Hk.
  apply (byte_bit_check (fun b k => eqb (Z.testbit (b2z (clear_byte b k)) j)
    (negb (j =? k) && Z.testbit (b2z b) j))).
  assert (In j (seqZ 0 8)) as Hin by (apply list_elem_of_In, elem_of_seqZ; lia).
  clear Hj. revert j Hin. apply forallb_forall. vm_compute. reflexivity.
Qed.

Lemma byte_at_insert buf off off' b :
  0 <= off -> 0 <= off' -> off / 8 < Z.of_nat (length buf) ->
  byte_at (<[Z.to_nat (off / 8) := b]> buf) off' = if off / 8 =? off' / 8 then b else byte_at buf off'.
Proof.
  intros. unfold byte_at.
  assert (0 <= off / 8 /\ 0 <= off' / 8) as [] by (split; apply Z.div_pos; lia).
  destruct (Z.eqb_spec (off / 8) (off' / 8)) as [E|E].
  - rewrite <- E, list_lookup_insert_eq by lia. done.
  - rewrite list_lookup_insert_ne by lia. done.
Qed.

Lemma same_bit off off' : off = off' <-> off / 8 = off' / 8 /\ off mod 8 = off' mod 8.
Proof.
  split; [by intros ->|]. intros [E1 E2].
  rewrite (Z.div_mod off 8), (Z.div_mod off' 8) by lia. lia.
Qed.

Lemma testbit_set_bit buf off off' :
  0 <= off -> 0 <= off' -> off / 8 < Z.of_nat (length buf) ->
  testbit_at (set_bit buf off) off' = (off' =? off) || testbit_at buf off'.
Proof.
  intros H1 H2 H3. unfold testbit_at, set_bit, bit_mask. rewrite byte_at_insert by done.
  pose proof (Z.mod_pos_bound off 8). pose proof (Z.mod_pos_bound off' 8).
  destruct (Z.eqb_spec (off / 8) (off' / 8)) as [E|E].
  - fold (set_byte (byte_at buf off) (off mod 8)). rewrite testbit_set_byte by lia.
    unfold byte_at. rewrite E. f_equal. apply eq_bool_prop_intro.
    rewrite !Is_true_true, !Z.eqb_eq, (same_bit off' off). intuition congruence.
  - replace (off' =? off) with false; [done|]. symmetry. apply Z.eqb_neq. congruence.
Qed.

Lemma testbit_clear_bit buf off off' :
  0 <= off -> 0 <= off' -> off / 8 < Z.of_nat (length buf) ->
  testbit_at (clear_bit buf off) off' = negb (off' =? off) && testbit_at buf off'.
Proof.
  intros H1 H2 H3. unfold testbit_at, clear_bit. rewrite byte_at_insert by done.
  pose proof (Z.mod_pos_bound off 8). pose proof (Z.mod_pos_bound off' 8).
  destruct (Z.eqb_spec (off / 8) (off' / 8)) as [E|E].
  - fold (clear_byte (byte_at buf off) (off mod 8)). rewrite testbit_clear_byte by lia.
    unfold byte_at. rewrite E. do 2 f_equal. apply eq_bool_prop_intro.
    rewrite !Is_true_true, !Z.eqb_eq, (same_bit off' off). intuition congruence.
  - replace (off' =? off) with false; [done|]. symmetry. apply Z.eqb_neq. congruence.
Qed.

(** ** Well-formed disks *)

Definition disk_wf (d : disk) : Prop :=
  length (blocks d) = Z.to_nat BLOCK_NUM /\
  Forall (fun b => length b = Z.to_nat BLOCK_SIZE) (blocks d).
Definition bm_wf (bm : block_manager) : Prop := disk_wf (bm_d bm).

(** Content of a block of the managed disk. *)
Definition bblk (bm : block_manager) (b : Z) : list byte := blk (bm_d bm) b.

Definition used (bm : block_manager) (b : Z) : bool :=
  testbit_at (bblk bm (BBLOCK b)) (b mod BPB).

Lemma bad_bnum_in b : 0 <= b < BLOCK_NUM -> bad_bnum b = false.
Proof. intros. unfold bad_bnum. apply orb_false_iff. split; [apply Z.ltb_ge|apply Z.leb_gt]; lia. Qed.

Lemma bad_bnum_out b : ~ (0 <= b < BLOCK_NUM) -> bad_bnum b = true.
Proof. intros. unfold bad_bnum. apply orb_true_iff. rewrite Z.ltb_lt, Z.leb_le. lia. Qed.

Lemma disk_new_wf : disk_wf disk_new.
Proof.
  unfold disk_wf, disk_new, zero_block. cbn [blocks]. split.
  - by rewrite length_replicate.
  - apply Forall_replicate. cbv beta. by rewrite length_replicate.
Qed.

Lemma length_blk d b : disk_wf d -> length (blk d b) = Z.to_nat BLOCK_SIZE.
Proof.
  intros [_ Hf]. unfold blk. destruct (blocks d !! Z.to_nat b) as [x|] eqn:E; cbn [default from_option id].
  - by eapply Forall_lookup_1 in Hf.
  - unfold zero_block. by rewrite length_replicate.
Qed.

Lemma blk_disk_new b : blk disk_new b = zero_block.
Proof.
  unfold blk, disk_new. cbn [blocks].
  destruct (_ !! _) as [x|] eqn:E; [|done]. by apply lookup_replicate in E as [-> _].
Qed.

Lemma disk_write_wf d b m :
  disk_wf d -> (Z.to_nat BLOCK_SIZE <= length m)%nat -> disk_wf (disk_write_block d b (Some m)).
Proof.
  intros Hwf Hm. pose proof (length_blk d b Hwf) as Hl. destruct Hwf as [Hl' Hf].
  unfold disk_write_block. destruct (bad_bnum b); [done|]. split; cbn [blocks].
  - by rewrite length_insert.
  - apply Forall_insert; [done|]. rewrite length_memcpy; [done|]. rewrite length_take. lia.
Qed.

Lemma blk_write d b m b' :
  disk_wf d -> (Z.to_nat BLOCK_SIZE <= length m)%nat -> 0 <= b < BLOCK_NUM -> 0 <= b' ->
  blk (disk_write_block d b (Some m)) b' =
  if b' =? b then take (Z.to_nat BLOCK_SIZE) m else blk d b'.
Proof.
  intros Hwf Hm Hb Hb'. pose proof (length_blk d b Hwf) as Hl. destruct Hwf as [Hn _].
  unfold disk_write_block. rewrite bad_bnum_in by done.
  unfold blk at 1. cbn [blocks]. destruct (Z.eqb_spec b' b) as [->|Hne].
  - rewrite list_lookup_insert_eq by (rewrite Hn; lia). simpl.
    apply memcpy_0_all. rewrite Hl, length_take. lia.
  - by rewrite list_lookup_insert_ne by lia.
Qed.

(** ** The manager's block accesses *)

Lemma bm_read_in bm b buf :
  bm_wf bm -> 0 <= b < BLOCK_NUM -> length buf = Z.to_nat BLOCK_SIZE ->
  bm_read_block bm b buf = bblk bm b.
Proof.
  intros Hwf Hb Hl. unfold bm_read_block, disk_read_block. rewrite bad_bnum_in by done. cbn [default from_option id].
  apply memcpy_0_all. rewrite Hl. by apply length_blk.
Qed.

(** Reading into the middle of a larger buffer. *)
Lemma bm_read_in_ge bm b buf :
  bm_wf bm -> 0 <= b < BLOCK_NUM -> 
  bm_read_block bm b buf = bblk bm b ++ drop (Z.to_nat BLOCK_SIZE) buf.
Proof.
  intros Hwf Hb. unfold bm_read_block, disk_read_block. rewrite bad_bnum_in by done.
  cbn [default from_option id]. unfold memcpy, bblk. by rewrite length_blk by done.
Qed.

Lemma bm_write_wf bm b buf :
  bm_wf bm -> (Z.to_nat BLOCK_SIZE <= length buf)%nat -> bm_wf (bm_write_block bm b buf).
Proof. intros. by apply disk_write_wf. Qed.

Lemma bblk_write bm b buf b' :
  bm_wf bm -> (Z.to_nat BLOCK_SIZE <= length buf)%nat -> 0 <= b < BLOCK_NUM -> 0 <= b' ->
  bblk (bm_write_block bm b buf) b' =
  if b' =? b then take (Z.to_nat BLOCK_SIZE) buf else bblk bm b'.
Proof. intros. by apply blk_write. Qed.

Lemma length_bblk bm b : bm_wf bm -> length (bblk bm b) = Z.to_nat BLOCK_SIZE.
Proof. apply length_blk. Qed.

Lemma BBLOCK_range b : 0 <= b < BLOCK_NUM -> 2 <= BBLOCK b <= 9.
Proof.
  rewrite BBLOCK_eq, BLOCK_NUM_eq. intros.
  assert (0 <= b / 4096 < 8) by (split; [apply Z.div_pos|apply Z.div_lt_upper_bound]; lia). lia.
Qed.

(** Writing outside the bitmap does not change any bit. *)
Lemma used_write_other bm b buf b' :
  bm_wf bm -> (Z.to_nat BLOCK_SIZE <= length buf)%nat -> 10 <= b < BLOCK_NUM ->
  0 <= b' < BLOCK_NUM -> used (bm_write_block bm b buf) b' = used bm b'.
Proof.
  intros Hwf Hl Hb Hb'. unfold used. pose proof (BBLOCK_range b' Hb').
  rewrite bblk_write by (done || lia).
  destruct (Z.eqb_spec (BBLOCK b') b); [lia|done].
Qed.

(** Rewriting the bitmap block of [b] with one bit changed. *)
Lemma used_write_bitmap bm b buf v b' :
  bm_wf bm -> 0 <= b < BLOCK_NUM -> 0 <= b' < BLOCK_NUM ->
  length buf = Z.to_nat BLOCK_SIZE ->
  (forall off, 0 <= off < BPB -> testbit_at buf off =
     if off =? b mod BPB then v else testbit_at (bblk bm (BBLOCK b)) off) ->
  used (bm_write_block bm (BBLOCK b) buf) b' = if b' =? b then v else used bm b'.
Proof.
  intros Hwf Hb Hb' Hl Ht. unfold used. pose proof (BBLOCK_range b Hb).
  pose proof (BBLOCK_range b' Hb'). rewrite BLOCK_NUM_eq in *.
  assert (0 <= b' mod BPB < BPB) as Hm by (rewrite BPB_eq; apply Z.mod_pos_bound; lia).
  rewrite bblk_write by (rewrite ?BLOCK_NUM_eq; done || lia).
  rewrite take_ge by lia. destruct (Z.eqb_spec (BBLOCK b') (BBLOCK b)) as [E|E].
  - rewrite Ht by done. rewrite E. rewrite !BBLOCK_eq in E. rewrite BPB_eq in *.
    destruct (Z.eqb_spec (b' mod 4096) (b mod 4096)) as [E2|E2];
      destruct (Z.eqb_spec b' b) as [E3|E3]; try done; [|congruence].
    exfalso. apply E3. rewrite (Z.div_mod b' 4096), (Z.div_mod b 4096) by lia. lia.
  - destruct (Z.eqb_spec b' b); [congruence|done].
Qed.

(** ** Marking a block used or free in the bitmap *)

Definition mark (bm : block_manager) (b : Z) : block_manager :=
  bm_write_block bm (BBLOCK b) (set_bit (bblk bm (BBLOCK b)) (b mod BPB)).
Definition unmark (bm : block_manager) (b : Z) : block_manager :=
  bm_write_block bm (BBLOCK b) (clear_bit (bblk bm (BBLOCK b)) (b mod BPB)).

(** What a bitmap update leaves alone: every block outside the bitmap. *)
Definition same_data (bm bm' : block_manager) : Prop :=
  bm_sb bm' = bm_sb bm /\
  forall b, 0 <= b -> ~ (2 <= b <= 9) -> bblk bm' b = bblk bm b.

#[export] Instance same_data_preorder : PreOrder same_data.
Proof.
  split.
  - intros bm. done.
  - intros bm1 bm2 bm3 [E1 H1] [E2 H2]. split; [congruence|].
    intros b Hb Hn. rewrite H2, H1; done.
Qed.

Lemma mod_BPB_range b : 0 <= b mod BPB < BPB.
Proof. rewrite BPB_eq. apply Z.mod_pos_bound. lia. Qed.

Lemma bit_in_block bm b off :
  bm_wf bm -> 0 <= off < BPB -> off / 8 < Z.of_nat (length (bblk bm b)).
Proof.
  intros Hwf Ho. rewrite length_bblk, BLOCK_SIZE_eq by done. rewrite BPB_eq in Ho.
  apply Z.div_lt_upper_bound; lia.
Qed.

Lemma length_set_bit buf off : length (set_bit buf off) = length buf.
Proof. apply length_insert. Qed.
Lemma length_clear_bit buf off : length (clear_bit buf off) = length buf.
Proof. apply length_insert. Qed.

Lemma bitmap_write_same_data bm b buf :
  bm_wf bm -> 0 <= b < BLOCK_NUM -> length buf = Z.to_nat BLOCK_SIZE ->
  same_data bm (bm_write_block bm (BBLOCK b) buf).
Proof.
  intros Hwf Hb Hl. split; [done|]. intros b' Hb' Hn. pose proof (BBLOCK_range b Hb).
  rewrite BLOCK_NUM_eq in *. rewrite bblk_write by (rewrite ?BLOCK_NUM_eq; done || lia).
  destruct (Z.eqb_spec b' (BBLOCK b)); [lia|done].
Qed.

Lemma mark_spec bm b :
  bm_wf bm -> 0 <= b < BLOCK_NUM ->
  bm_wf (mark bm b) /\ same_data bm (mark bm b) /\
  forall b', 0 <= b' < BLOCK_NUM -> used (mark bm b) b' = (b' =? b) || used bm b'.
Proof.
  intros Hwf Hb. pose proof (length_bblk bm (BBLOCK b) Hwf) as Hl.
  pose proof (mod_BPB_range b) as Hm. split_and!.
  - apply bm_write_wf; [done|]. rewrite length_set_bit. lia.
  - apply bitmap_write_same_data; [done..|]. by rewrite length_set_bit.
  - intros b' Hb'. unfold mark. erewrite used_write_bitmap with (v := true);
      [|done..|by rewrite length_set_bit|].
    + by destruct (b' =? b).
    + intros off Ho. rewrite testbit_set_bit; [|lia..|by apply bit_in_block].
      by destruct (off =? b mod BPB).
Qed.

Lemma unmark_spec bm b :
  bm_wf bm -> 0 <= b < BLOCK_NUM ->
  bm_wf (unmark bm b) /\ same_data bm (unmark bm b) /\
  forall b', 0 <= b' < BLOCK_NUM -> used (unmark bm b) b' = negb (b' =? b) && used bm b'.
Proof.
  intros Hwf Hb. pose proof (length_bblk bm (BBLOCK b) Hwf) as Hl.
  pose proof (mod_BPB_range b) as Hm. split_and!.
  - apply bm_write_wf; [done|]. rewrite length_clear_bit. lia.
  - apply bitmap_write_same_data; [done..|]. by rewrite length_clear_bit.
  - intros b' Hb'. unfold unmark. erewrite used_write_bitmap with (v := false);
      [|done..|by rewrite length_clear_bit|].
    + by destruct (b' =? b).
    + intros off Ho. rewrite testbit_clear_bit; [|lia..|by apply bit_in_block].
      by destruct (off =? b mod BPB).
Qed.

(** ** alloc_block *)

Lemma find_free_bit_spec n off buf :
  match find_free_bit n off buf with
  | Some o => off <= o < off + Z.of_nat n /\ testbit_at buf o = false /\
              forall o', off <= o' < o -> testbit_at buf o' = true
  | None => forall o', off <= o' < off + Z.of_nat n -> testbit_at buf o' = true
  end.
Proof.
  revert off. induction n as [|n IH]; intros off; cbn [find_free_bit]; [lia|].
  rewrite bit_is_free_spec. destruct (testbit_at buf off) eqn:E; cbn [negb].
  - specialize (IH (off + 1)). destruct (find_free_bit n (off + 1) buf) as [o|].
    + destruct IH as (Ho & Hf & Hb). split_and!; [lia|lia|done|].
      intros o' Ho'. destruct (decide (o' = off)) as [->|]; [done|]. apply Hb. lia.
    + intros o' Ho'. destruct (decide (o' = off)) as [->|]; [done|]. apply IH. lia.
  - split_and!; [lia|lia|done|lia].
Qed.

Definition first_free (bm : block_manager) (lo b : Z) : Prop :=
  lo <= b < BLOCK_NUM /\ used bm b = false /\ forall b', lo <= b' < b -> used bm b' = true.

Lemma bitmap_index k off :
  0 <= off < 4096 -> BBLOCK (k * 4096 + off) = k + 2 /\ (k * 4096 + off) mod BPB = off.
Proof.
  intros. rewrite BBLOCK_eq, BPB_eq. split.
  - rewrite Z.div_add_l, Z.div_small by lia. lia.
  - by rewrite Z.add_comm, Z_mod_plus_full, Z.mod_small.
Qed.

Lemma alloc_scan_spec n k bm buf :
  bm_wf bm -> length buf = Z.to_nat BLOCK_SIZE -> 0 <= k -> k + Z.of_nat n = 8 ->
  (exists b, first_free bm (k * 4096) b /\ alloc_scan n (k * 4096) bm buf = (b, mark bm b)) \/
  ((forall b, k * 4096 <= b < BLOCK_NUM -> used bm b = true) /\
   alloc_scan n (k * 4096) bm buf = (0, bm)).
Proof.
  intros Hwf. revert k buf. induction n as [|n IH]; intros k buf Hl Hk Hn.
  { right. split; [rewrite BLOCK_NUM_eq; lia|done]. }
  cbn [alloc_scan]. destruct (bitmap_index k 0) as [HB _]; [lia|].
  rewrite Z.add_0_r in HB. rewrite HB.
  rewrite bm_read_in by (rewrite ?BLOCK_NUM_eq; done || lia).
  pose proof (find_free_bit_spec (Z.to_nat BPB) 0 (bblk bm (k + 2))) as Hf.
  assert (forall off, 0 <= off < 4096 ->
    used bm (k * 4096 + off) = testbit_at (bblk bm (k + 2)) off) as Hu.
  { intros off Ho. unfold used. by destruct (bitmap_index k off Ho) as [-> ->]. }
  destruct (find_free_bit _ _ _) as [o|]; rewrite BPB_eq in Hf.
  - destruct Hf as (Ho & Hfree & Hbelow). left. exists (k * 4096 + o).
    destruct (bitmap_index k o) as [E1 E2]; [lia|]. split.
    + split_and!; rewrite ?BLOCK_NUM_eq; [lia..|by rewrite Hu by lia|].
      intros b' Hb'. replace b' with (k * 4096 + (b' - k * 4096)) by lia.
      rewrite Hu by lia. apply Hbelow. lia.
    + unfold mark. by rewrite E1, E2.
  - replace (k * 4096 + BPB) with ((k + 1) * 4096) by (rewrite BPB_eq; lia).
    assert (forall b, k * 4096 <= b < (k + 1) * 4096 -> used bm b = true) as Hfull.
    { intros b Hb. replace b with (k * 4096 + (b - k * 4096)) by lia.
      rewrite Hu by lia. apply Hf. lia. }
    destruct (IH (k + 1) (bblk bm (k + 2))) as [(b & (Hr & Hfr & Hb) & ->)|[Hall ->]];
      [by apply length_bblk|lia|lia|left; exists b|right]; split; try done.
    + split_and!; [lia..|done|]. intros b' Hb'.
      destruct (decide (b' < (k + 1) * 4096)); [apply Hfull|apply Hb]; lia.
    + intros b Hb. destruct (decide (b < (k + 1) * 4096)); [apply Hfull|apply Hall]; lia.
Qed.

Section theorems.
Context `{Uninit}.

Lemma alloc_block_cases bm :
  bm_wf bm ->
  (exists b, first_free bm 0 b /\ alloc_block bm = (b, mark bm b)) \/
  ((forall b, 0 <= b < BLOCK_NUM -> used bm b = true) /\ alloc_block bm = (0, bm)).
Proof.
  intros Hwf. unfold alloc_block. 
  apply (alloc_scan_spec _ 0); [done|apply length_stack_bytes|lia|].
  rewrite BLOCK_NUM_eq, BPB_eq. done.
Qed.

Lemma alloc_block_first bm b :
  bm_wf bm -> first_free bm 0 b -> alloc_block bm = (b, mark bm b).
Proof.
  intros Hwf (Hb & Hf & Hl).
  destruct (alloc_block_cases bm Hwf) as [(b' & (Hb' & Hf' & Hl') & ->)|[Hall _]].
  - assert (b' = b) as ->; [|done].
    destruct (Z.lt_trichotomy b b') as [|[|]]; [|done|].
    + rewrite Hl' in Hf by lia. done.
    + rewrite Hl in Hf' by lia. done.
  - rewrite Hall in Hf by lia. done.
Qed.

(** ** free_block *)

Lemma free_block_low bm b : b <= 10 -> free_block bm b = bm.
Proof.
  intros. unfold free_block.
  replace (b <=? BBLOCK BLOCK_NUM) with true; [done|]. symmetry. apply Z.leb_le.
  rewrite BBLOCK_eq, BLOCK_NUM_eq. change (32768 / 4096) with 8. lia.
Qed.

Lemma free_block_unmark bm b :
  bm_wf bm -> 10 < b < BLOCK_NUM -> free_block bm b = unmark bm b.
Proof.
  intros Hwf Hb. unfold free_block, unmark.
  replace (b <=? BBLOCK BLOCK_NUM) with false.
  - pose proof (BBLOCK_range b ltac:(lia)). rewrite bm_read_in; [done..| |apply length_stack_bytes].
    rewrite BLOCK_NUM_eq. lia.
  - symmetry. apply Z.leb_gt. rewrite BBLOCK_eq, BLOCK_NUM_eq. change (32768 / 4096) with 8. lia.
Qed.

(** ** Formatting *)

(** After [n] allocations on an empty disk exactly the blocks below [n] are in use. *)
Definition formatted (n : Z) (bm : block_manager) : Prop :=
  bm_wf bm /\
  same_data (mk_bm disk_new (mk_superblock (BLOCK_SIZE * BLOCK_NUM) BLOCK_NUM INODE_NUM)) bm /\
  forall b, 0 <= b < BLOCK_NUM -> used bm b = (b <? n).

Lemma alloc_formatted n bm :
  0 <= n < BLOCK_NUM -> formatted n bm ->
  alloc_block bm = (n, mark bm n) /\ formatted (n + 1) (mark bm n).
Proof.
  intros Hn (Hwf & Hs & Hu). split.
  - apply alloc_block_first; [done|]. split_and!; [lia..| |].
    + rewrite Hu by lia. apply Z.ltb_irrefl.
    + intros b' Hb'. rewrite Hu by lia. apply Z.ltb_lt. lia.
  - destruct (mark_spec bm n Hwf Hn) as (Hwf' & Hs' & Hu'). split_and!; [done|by etrans|].
    intros b Hb. rewrite Hu', Hu by done.
    destruct (Z.eqb_spec b n), (Z.ltb_spec b n), (Z.ltb_spec b (n + 1)); done || lia.
Qed.

Lemma bm_new_formatted : formatted RESERVED bm_new.
Proof.
  unfold bm_new. apply (for_range_ind formatted).
  - rewrite RESERVED_eq. lia.
  - split_and!; [apply disk_new_wf|done|]. intros b Hb. unfold used, bblk. cbn [bm_d].
    rewrite blk_disk_new. unfold testbit_at, byte_at, zero_block.
    destruct (_ !! _) as [x|] eqn:E; cbn [default from_option id].
    + apply lookup_replicate in E as [-> _]. rewrite Z.bits_0. symmetry. apply Z.ltb_ge. lia.
    + rewrite Z.bits_0. symmetry. apply Z.ltb_ge. lia.
  - intros n bm Hn Hf. rewrite RESERVED_eq in Hn.
    destruct (alloc_formatted n bm) as [-> Hf']; [rewrite BLOCK_NUM_eq; lia|done..].
Qed.

End theorems.

#[global] Opaque bm_new.
