(* ===== verification/Inode.v ===== *)
(** * Inode: the inode manager (src/inode_manager.cc)

    The on-disk inode, [get_inode]/[put_inode], the allocation and removal of
    inodes, and the reading and writing of whole files through 32 direct block
    addresses and one indirect block of 128 addresses.  All the operations of
    [class inode_manager] are here; what they achieve is stated and proved in
    [FileSystem]. *)

From Stdlib Require Import ZArith Lia.
From S2P Require Import Prelude BlockLayer.

Definition NDIRECT : Z := 32.
Definition NINDIRECT : Z := BLOCK_SIZE / 4.

(** ** struct inode

    The fields as they lie in memory: [type] at offset 0, [size], [atime],
    [mtime] and [ctime] at 4, 8, 12 and 16, and the block addresses from 20. *)
Record inode := mk_inode {
  i_type : Z;           (* short *)
  i_size : Z;           (* unsigned int, as the fields below *)
  i_atime : Z;
  i_mtime : Z;
  i_ctime : Z;
  i_blocks : list Z;    (* blockid_t[NDIRECT + 1] *)
}.

Definition sizeof_inode : nat := 152.
Definition ino_type (buf : list byte) (p : nat) : Z := s16 (ld16 buf p).

(** [*ino_disk] as a value, and [*ino_disk = *inode]. *)
Definition load_inode (buf : list byte) (p : nat) : inode :=
  mk_inode (ino_type buf p) (ld32 buf (p + 4)) (ld32 buf (p + 8)) (ld32 buf (p + 12))
    (ld32 buf (p + 16)) (ld_words buf (p + 20) 33).
Definition le_words (ws : list Z) : list byte := concat (le_enc 4 <$> ws).
Definition store_inode (buf : list byte) (p : nat) (ino : inode) : list byte :=
  memcpy (st16 buf p (i_type ino)) (p + 4)
    (le_words (i_size ino :: i_atime ino :: i_mtime ino :: i_ctime ino :: i_blocks ino)).

(** [memset(inode, 0, sizeof(inode_t))] *)
Definition zero_inode : inode := mk_inode 0 0 0 0 0 (replicate 33 0).

Definition blk_addr (ino : inode) (i : Z) : Z := nth (Z.to_nat i) (i_blocks ino) 0.

(** ** class inode_manager *)

Record inode_manager := mk_im { im_bm : block_manager }.

(** extent_protocol::types *)
Definition T_DIR : Z := 1.
Definition T_FILE : Z := 2.
Definition T_SYMLINK : Z := 3.

(** [BLOCKS(b)] on an [unsigned int] and on an [int]. *)
Definition BLOCKS_uint (b : Z) : Z := u32 (b + BLOCK_SIZE - 1) / BLOCK_SIZE.
Definition BLOCKS_int (b : Z) : result Z :=
  if INT_MAX <? b + BLOCK_SIZE - 1 then Undef
  else Ok (u32 (Z.quot (b + BLOCK_SIZE - 1) BLOCK_SIZE)).

Section ops.
Context `{Uninit}.

Definition iblock (im : inode_manager) (inum : Z) : Z := IBLOCK inum (sb_nblocks (bm_sb (im_bm im))).

(** [get_inode]: [None] is the null pointer. *)
Definition get_inode (im : inode_manager) (inum : Z) : option inode :=
  if (inum <? 0) || (INODE_NUM <=? inum) then None
  else
    let buf := bm_read_block (im_bm im) (iblock im inum) stack_bytes in
    let p := (Z.to_nat (inum mod IPB) * sizeof_inode)%nat in
    if ino_type buf p =? 0 then None else Some (load_inode buf p).

(** [put_inode] *)
Definition put_inode (im : inode_manager) (inum : Z) (ino : option inode) : inode_manager :=
  match ino with
  | None => im
  | Some ino =>
      let buf := bm_read_block (im_bm im) (iblock im inum) stack_bytes in
      let p := (Z.to_nat (inum mod IPB) * sizeof_inode)%nat in
      mk_im (bm_write_block (im_bm im) (iblock im inum) (store_inode buf p ino))
  end.

(** The loop of [alloc_inode]: [n] inode numbers are left, from [inum] on. *)
Fixpoint alloc_inode_scan (n : nat) (inum : Z) (im : inode_manager) (buf : list byte)
    (type now : Z) : Z * inode_manager :=
  match n with
  | O => (1, im)
  | S n =>
      let off := (inum - 1) mod IPB in
      let buf := if off =? 0 then bm_read_block (im_bm im) (iblock im inum) buf else buf in
      let p := (Z.to_nat off * sizeof_inode)%nat in
      if ino_type buf p =? 0 then
        let buf := st16 buf p (s16 type) in
        let buf := st32 buf (p + 16) (u32 now) in
        (inum, mk_im (bm_write_block (im_bm im) (iblock im inum) buf))
      else alloc_inode_scan n (inum + 1) im buf type now
  end.

(** [alloc_inode]; [now] is what [std::time(0)] returns. *)
Definition alloc_inode (im : inode_manager) (type now : Z) : Z * inode_manager :=
  alloc_inode_scan (Z.to_nat (sb_ninodes (bm_sb (im_bm im)) - 1)) 1 im stack_bytes type now.

(** [inode_manager::inode_manager] *)
Definition im_new (now : Z) : result inode_manager :=
  let r := alloc_inode (mk_im bm_new) T_DIR now in
  let root_dir := r.1 in
  if root_dir =? 1 then Ok r.2 else Abort.

(** [free_inode] *)
Definition free_inode (im : inode_manager) (inum : Z) : result inode_manager :=
  ino ← deref (get_inode im inum);
  if i_type ino =? 0 then Ok im else Ok (put_inode im inum (Some zero_inode)).

(** [getattr]: [None] leaves the caller's attributes untouched. *)
Record attr := mk_attr { a_type : Z; a_atime : Z; a_mtime : Z; a_ctime : Z; a_size : Z }.
Definition getattr (im : inode_manager) (inum : Z) (a : attr) : attr :=
  match get_inode im inum with
  | Some ino => mk_attr (u32 (i_type ino)) (i_atime ino) (i_mtime ino) (i_ctime ino) (i_size ino)
  | None => a
  end.

(** ** read_file *)

(** The two loops over block addresses, [n] addresses left from index [bnum] on:
    [rsize] bytes have been read into [res]. *)
Fixpoint read_loop (n : nat) (bm : block_manager) (addr : Z -> Z) (bnum fsize rsize : Z)
    (res buf : list byte) : Z * list byte * list byte :=
  match n with
  | O => (rsize, res, buf)
  | S n =>
      if rsize <? fsize then
        let toread := Z.min BLOCK_SIZE (fsize - rsize) in
        if u32 (rsize + BLOCK_SIZE) <? fsize then
          let res := take (Z.to_nat rsize) res
                     ++ bm_read_block bm (addr bnum) (drop (Z.to_nat rsize) res) in
          read_loop n bm addr (bnum + 1) fsize (rsize + toread) res buf
        else
          let buf := bm_read_block bm (addr bnum) buf in
          let res := memcpy res (Z.to_nat rsize) (take (Z.to_nat (fsize - rsize)) buf) in
          read_loop n bm addr (bnum + 1) fsize (rsize + toread) res buf
      else (rsize, res, buf)
  end.

(** [read_file]: the bytes left in [*buf_out] and the number in [*size], or
    [None] when neither is written. *)
Definition read_file (im : inode_manager) (inum now : Z)
    : option (list byte * Z) * inode_manager :=
  match get_inode im inum with
  | None => (None, im)
  | Some ino =>
      let fsize := i_size ino in
      let '(rsize, res, buf) := read_loop (Z.to_nat NDIRECT) (im_bm im) (blk_addr ino) 0 fsize 0
                                  (heap_bytes (Z.to_nat fsize)) stack_bytes in
      let res :=
        if rsize <? fsize then
          let indnum := bm_read_block (im_bm im) (blk_addr ino NDIRECT) stack_bytes in
          let '(_, res, _) := read_loop (Z.to_nat NINDIRECT) (im_bm im)
                                (fun i => ld32 indnum (4 * Z.to_nat i)) 0 fsize rsize res buf in
          res
        else res in
      let ino' := mk_inode (i_type ino) (i_size ino) (u32 now) (i_mtime ino) (u32 now) (i_blocks ino) in
      (Some (res, s32 fsize), put_inode im inum (Some ino'))
  end.

(** ** write_file *)

(** Index [i] of the 128-word array [indnum]. *)
Definition ind_get (indnum : list byte) (i : Z) : result Z :=
  if NINDIRECT <=? i then Undef else Ok (ld32 indnum (4 * Z.to_nat i)).
Definition ind_set (indnum : list byte) (i v : Z) : result (list byte) :=
  if NINDIRECT <=? i then Undef else Ok (st32 indnum (4 * Z.to_nat i) v).

(** "free all blocks" *)
Definition free_old_blocks (bm : block_manager) (ino : inode) : result block_manager :=
  let osize := BLOCKS_uint (i_size ino) in
  let bm := for_range 0 (Z.min osize NDIRECT) (fun i bm => free_block bm (blk_addr ino i)) bm in
  if NDIRECT <? osize then
    let indnum := bm_read_block bm (blk_addr ino NDIRECT) stack_bytes in
    bm ← for_rangeM 0 (osize - NDIRECT)
           (fun i bm => b ← ind_get indnum i; Ok (free_block bm b)) bm;
    Ok (free_block bm (blk_addr ino NDIRECT))
  else Ok bm.

(** "alloc new blocks": the manager, [inode->blocks] and [indnum] afterwards. *)
Definition alloc_new_blocks (bm : block_manager) (bl : list Z) (nsize : Z)
    : result (block_manager * list Z * list byte) :=
  let '(bm, bl) := for_range 0 (Z.min nsize NDIRECT)
        (fun i '(bm, bl) => let '(b, bm) := alloc_block bm in (bm, <[Z.to_nat i := b]> bl))
        (bm, bl) in
  if NDIRECT <? nsize then
    let '(b, bm) := alloc_block bm in
    let bl := <[Z.to_nat NDIRECT := b]> bl in
    '(bm, indnum) ← for_rangeM 0 (nsize - NDIRECT)
        (fun i '(bm, indnum) =>
           let '(b, bm) := alloc_block bm in
           indnum ← ind_set indnum i b; Ok (bm, indnum))
        (bm, zero_block);
    Ok (bm_write_block bm (nth (Z.to_nat NDIRECT) bl 0) indnum, bl, indnum)
  else Ok (bm, bl, stack_bytes).

(** The two "write blocks" loops: [rsize] bytes of [data] have been written. *)
Fixpoint write_loop (n : nat) (bm : block_manager) (addr : Z -> Z) (bnum size rsize : Z)
    (data block : list byte) : Z * block_manager * list byte :=
  match n with
  | O => (rsize, bm, block)
  | S n =>
      if rsize <? size then
        let towrite := Z.min BLOCK_SIZE (size - rsize) in
        if BLOCK_SIZE <? size - rsize then
          let bm := bm_write_block bm (addr bnum) (drop (Z.to_nat rsize) data) in
          write_loop n bm addr (bnum + 1) size (rsize + towrite) data block
        else
          let block := memcpy block 0 (slice (Z.to_nat rsize) (Z.to_nat (size - rsize)) data) in
          let bm := bm_write_block bm (addr bnum) block in
          write_loop n bm addr (bnum + 1) size (rsize + towrite) data block
      else (rsize, bm, block)
  end.

(** "write blocks" *)
Definition write_blocks (bm : block_manager) (bl : list Z) (indnum data : list byte) (size : Z)
    : block_manager :=
  let '(rsize, bm, block) := write_loop (Z.to_nat NDIRECT) bm (fun i => nth (Z.to_nat i) bl 0)
                               0 size 0 data stack_bytes in
  if rsize <? size then
    let indnum := bm_read_block bm (nth (Z.to_nat NDIRECT) bl 0) indnum in
    let '(_, bm, _) := write_loop (Z.to_nat NINDIRECT) bm (fun i => ld32 indnum (4 * Z.to_nat i))
                         0 size rsize data block in
    bm
  else bm.

(** [write_file]: a missing inode is dereferenced as a null pointer. *)
Definition write_file (im : inode_manager) (inum : Z) (data : list byte) (size now : Z)
    : result inode_manager :=
  ino ← deref (get_inode im inum);
  nsize ← BLOCKS_int size;
  bm ← free_old_blocks (im_bm im) ino;
  '(bm, bl, indnum) ← alloc_new_blocks bm (i_blocks ino) nsize;
  let bm := write_blocks bm bl indnum data size in
  let ino' := mk_inode (i_type ino) (u32 size) (i_atime ino) (u32 now) (u32 now) bl in
  Ok (put_inode (mk_im bm) inum (Some ino')).

(** ** remove_file: the blocks behind the indirect block first, then the direct ones. *)
Definition remove_blocks (bm : block_manager) (ino : inode) : result block_manager :=
  let bnum := BLOCKS_uint (i_size ino) in
  bm ← (if NDIRECT <? bnum then
          let indnum := bm_read_block bm (blk_addr ino NDIRECT) stack_bytes in
          bm ← for_rangeM 0 (bnum - NDIRECT)
                 (fun i bm => b ← ind_get indnum i; Ok (free_block bm b)) bm;
          Ok (free_block bm (blk_addr ino NDIRECT))
        else Ok bm);
  Ok (for_range 0 (Z.min bnum NDIRECT) (fun i bm => free_block bm (blk_addr ino i)) bm).

Definition remove_file (im : inode_manager) (inum : Z) : result inode_manager :=
  match get_inode im inum with
  | None => Ok im
  | Some ino =>
      bm ← remove_blocks (im_bm im) ino;
      free_inode (mk_im bm) inum
  end.

End ops.
