(* ===== verification/InodeFacts.v ===== *)
(** * InodeFacts: the inode manager's accesses to the inode table

    The layout of [struct inode] is read back as it was stored, and the
    accessors [get_inode], [put_inode] and [alloc_inode] are described by the
    inode [ino_at] that a disk holds for each number. *)

From Stdlib Require Import ZArith Lia.
From S2P Require Import Prelude BlockLayer Inode.

(** ** Layout of struct inode *)

(** Fields inside the range of their C types. *)
Record ino_wf (ino : inode) : Prop := {
  wf_type : - 2 ^ 15 <= i_type ino < 2 ^ 15;
  wf_size : 0 <= i_size ino < 2 ^ 32;
  wf_atime : 0 <= i_atime ino < 2 ^ 32;
  wf_mtime : 0 <= i_mtime ino < 2 ^ 32;
  wf_ctime : 0 <= i_ctime ino < 2 ^ 32;
  wf_len : length (i_blocks ino) = 33%nat;
  wf_blocks : Forall (fun b => 0 <= b < 2 ^ 32) (i_blocks ino);
}.

Lemma length_le_words ws : length (le_words ws) = (4 * length ws)%nat.
Proof.
  unfold le_words. induction ws as [|w ws IH]; [done|].
  cbn [fmap list_fmap concat length]. rewrite length_app, length_le_enc.
  change (list_fmap _ _ (le_enc 4) ws) with (le_enc 4 <$> ws). lia.
Qed.

Lemma le_words_app ws ws' : le_words (ws ++ ws') = le_words ws ++ le_words ws'.
Proof. unfold le_words. by rewrite fmap_app, concat_app. Qed.

Lemma slice_le_words ws k w :
  ws !! k = Some w -> slice (4 * k) 4 (le_words ws) = le_enc 4 w.
Proof.
  intros Hk. rewrite <- (take_drop_middle ws k w Hk).
  rewrite le_words_app. change (w :: drop (S k) ws) with ([w] ++ drop (S k) ws).
  rewrite le_words_app. pose proof (lookup_lt_Some _ _ _ Hk).
  unfold slice. rewrite drop_app_length' by (rewrite length_le_words, length_take; lia).
  unfold le_words at 1. cbn [fmap list_fmap concat]. rewrite app_nil_r.
  apply take_app_length'. by rewrite length_le_enc.
Qed.

Lemma ld32_memcpy_words buf off ws k w :
  (off + 4 * length ws <= length buf)%nat -> ws !! k = Some w ->
  ld32 (memcpy buf off (le_words ws)) (off + 4 * k) = u32 w.
Proof.
  intros Hl Hk. pose proof (lookup_lt_Some _ _ _ Hk). unfold ld32.
  rewrite <- (slice_slice off (length (le_words ws))) by (rewrite length_le_words; lia).
  rewrite slice_memcpy_eq by lia. erewrite slice_le_words by done. by rewrite le_dec_enc.
Qed.

Lemma load_inode_wf buf p : ino_wf (load_inode buf p).
Proof.
  split; cbn [i_type i_size i_atime i_mtime i_ctime i_blocks load_inode]; auto with ranges.
  - apply (wrapS_range 16). lia.
  - apply Forall_forall. intros w. apply ld_words_range.
Qed.

Lemma zero_inode_wf : ino_wf zero_inode.
Proof.
  split; cbn [i_type i_size i_atime i_mtime i_ctime i_blocks zero_inode]; try lia.
  - done.
  - apply Forall_replicate. lia.
Qed.

(** Storing an inode and loading it back. *)
Lemma load_store_inode buf p ino :
  (p + sizeof_inode <= length buf)%nat -> ino_wf ino ->
  load_inode (store_inode buf p ino) p = ino.
Proof.
  intros Hl [Ht Hs Ha Hm Hc Hn Hb]. unfold sizeof_inode in Hl.
  destruct ino as [t s a m c bl]; cbn [i_type i_size i_atime i_mtime i_ctime i_blocks] in *.
  unfold load_inode, store_inode; cbn [i_type i_size i_atime i_mtime i_ctime i_blocks].
  set (ws := s :: a :: m :: c :: bl).
  assert (length ws = 37)%nat as Hws by (unfold ws; cbn [length]; lia).
  set (buf' := st16 buf p t). assert (length buf' = length buf) as Hl' by (apply length_st16; lia).
  assert (forall k w, ws !! k = Some w -> ld32 (memcpy buf' (p + 4) (le_words ws)) (p + 4 + 4 * k) = u32 w)
    as Hld by (intros; apply ld32_memcpy_words; [lia|done]).
  f_equal.
  - unfold ino_type, ld16. rewrite slice_memcpy_ne by (rewrite ?length_le_words; lia).
    fold (ld16 buf' p). unfold buf'. rewrite ld16_st16_eq by lia.
    rewrite wrapS_wrapU, wrapS_small; lia.
  - replace (p + 4)%nat with (p + 4 + 4 * 0)%nat at 2 by lia. rewrite (Hld 0%nat s) by done. by apply wrapU_small.
  - replace (p + 8)%nat with (p + 4 + 4 * 1)%nat by lia. rewrite (Hld 1%nat a) by done. by apply wrapU_small.
  - replace (p + 12)%nat with (p + 4 + 4 * 2)%nat by lia. rewrite (Hld 2%nat m) by done. by apply wrapU_small.
  - replace (p + 16)%nat with (p + 4 + 4 * 3)%nat by lia. rewrite (Hld 3%nat c) by done. by apply wrapU_small.
  - apply list_eq_same_length with 33%nat; [done|apply length_ld_words|].
    intros i x y Hi Hx Hy. rewrite lookup_ld_words in Hx by lia.
    replace (p + 20 + 4 * i)%nat with (p + 4 + 4 * (4 + i))%nat in Hx by lia.
    rewrite (Hld (4 + i)%nat y) in Hx by done. simplify_eq.
    apply wrapU_small. by eapply (Forall_lookup_1 (fun b => 0 <= b < 2 ^ 32)).
Qed.

Lemma length_store_inode buf p ino :
  (p + sizeof_inode <= length buf)%nat -> length (i_blocks ino) = 33%nat ->
  length (store_inode buf p ino) = length buf.
Proof.
  intros Hl Hn. unfold sizeof_inode in Hl. unfold store_inode.
  rewrite length_memcpy; rewrite ?length_st16 by lia; [done|].
  rewrite length_le_words. cbn [length]. lia.
Qed.

(** ** The inode table *)

(** A well-formed disk under a superblock that describes it. *)
Record fs_wf (bm : block_manager) : Prop := {
  fs_bm_wf : bm_wf bm;
  fs_nblocks : sb_nblocks (bm_sb bm) = BLOCK_NUM;
  fs_ninodes : sb_ninodes (bm_sb bm) = INODE_NUM;
}.

Definition ino_at (bm : block_manager) (i : Z) : inode := load_inode (bblk bm (i + 11)) 0.

Lemma ino_at_wf bm i : ino_wf (ino_at bm i).
Proof. apply load_inode_wf. Qed.

Lemma same_data_fs_wf bm bm' : fs_wf bm -> bm_wf bm' -> same_data bm bm' -> fs_wf bm'.
Proof. intros [? ? ?] ? [E _]. split; rewrite ?E; done. Qed.

Lemma same_data_ino bm bm' i : same_data bm bm' -> 0 <= i -> ino_at bm' i = ino_at bm i.
Proof. intros [_ H] Hi. unfold ino_at. rewrite H; [done|lia..]. Qed.

Lemma iblock_spec im i : fs_wf (im_bm im) -> iblock im i = i + 11.
Proof. intros Hwf. unfold iblock. rewrite (fs_nblocks _ Hwf). apply IBLOCK_eq. Qed.

Lemma ipb_offset i : (Z.to_nat (i mod IPB) * sizeof_inode)%nat = 0%nat.
Proof. unfold IPB. by rewrite Z.mod_1_r. Qed.

Section accessors.
Context `{Uninit}.

Lemma read_inode_block im i :
  fs_wf (im_bm im) -> 0 <= i < INODE_NUM ->
  bm_read_block (im_bm im) (iblock im i) stack_bytes = bblk (im_bm im) (i + 11).
Proof.
  intros Hwf Hi. rewrite iblock_spec by done. unfold INODE_NUM in Hi.
  apply bm_read_in; [apply Hwf|rewrite BLOCK_NUM_eq; lia|apply length_stack_bytes].
Qed.

Lemma get_inode_spec im i :
  fs_wf (im_bm im) -> 0 <= i < INODE_NUM ->
  get_inode im i = if i_type (ino_at (im_bm im) i) =? 0 then None else Some (ino_at (im_bm im) i).
Proof.
  intros Hwf Hi. unfold get_inode. replace ((i <? 0) || (INODE_NUM <=? i)) with false.
  - by rewrite read_inode_block, ipb_offset.
  - symmetry. apply orb_false_iff. split; [apply Z.ltb_ge|apply Z.leb_gt]; lia.
Qed.

Lemma get_inode_out im i : ~ (0 <= i < INODE_NUM) -> get_inode im i = None.
Proof.
  intros Hi. unfold get_inode. replace ((i <? 0) || (INODE_NUM <=? i)) with true; [done|].
  symmetry. apply orb_true_iff. rewrite Z.ltb_lt, Z.leb_le. lia.
Qed.

(** Writing one block outside the bitmap. *)
Record wrote (bm : block_manager) (b : Z) (c : list byte) (bm' : block_manager) : Prop := {
  wrote_fs : fs_wf bm';
  wrote_at : bblk bm' b = c;
  wrote_other : forall b', 0 <= b' -> b' <> b -> bblk bm' b' = bblk bm b';
  wrote_used : forall b', 0 <= b' < BLOCK_NUM -> used bm' b' = used bm b';
}.

Lemma write_block_wrote bm b buf :
  fs_wf bm -> 10 <= b < BLOCK_NUM -> (Z.to_nat BLOCK_SIZE <= length buf)%nat ->
  wrote bm b (take (Z.to_nat BLOCK_SIZE) buf) (bm_write_block bm b buf).
Proof.
  intros Hwf Hb Hl. pose proof (fs_bm_wf _ Hwf) as Hbm. split.
  - split; [by apply bm_write_wf|apply Hwf..].
  - rewrite bblk_write by (done || lia). by rewrite Z.eqb_refl.
  - intros b' Hb' Hne. rewrite bblk_write by (done || lia). by rewrite (proj2 (Z.eqb_neq b' b)).
  - intros b' Hb'. by apply used_write_other.
Qed.

Lemma put_inode_spec im i ino :
  fs_wf (im_bm im) -> 0 <= i < INODE_NUM -> ino_wf ino ->
  exists c, wrote (im_bm im) (i + 11) c (im_bm (put_inode im i (Some ino))) /\
    ino_at (im_bm (put_inode im i (Some ino))) i = ino.
Proof.
  intros Hwf Hi Hino. unfold put_inode. rewrite read_inode_block, ipb_offset by done. cbn [im_bm].
  set (buf := store_inode _ _ _).
  assert (length (bblk (im_bm im) (i + 11)) = 512%nat) as Hlb
    by (rewrite length_bblk, BLOCK_SIZE_eq by apply Hwf; done).
  assert (length buf = Z.to_nat BLOCK_SIZE) as Hlen.
  { unfold buf. rewrite length_store_inode; [|unfold sizeof_inode; lia|apply Hino].
    by rewrite Hlb, BLOCK_SIZE_eq. }
  exists (take (Z.to_nat BLOCK_SIZE) buf). rewrite iblock_spec by done.
  assert (wrote (im_bm im) (i + 11) (take (Z.to_nat BLOCK_SIZE) buf)
    (bm_write_block (im_bm im) (i + 11) buf)) as Hw.
  { apply write_block_wrote; [done| |lia]. rewrite BLOCK_NUM_eq. unfold INODE_NUM in Hi. lia. }
  split; [done|]. unfold ino_at. rewrite (wrote_at _ _ _ _ Hw), take_ge by lia.
  unfold buf. apply load_store_inode; [unfold sizeof_inode; lia|done].
Qed.

(** ** alloc_inode *)

(** The inode [alloc_inode] leaves behind in a zeroed entry of the table. *)
Definition fresh_inode (type now : Z) : inode := mk_inode (s16 type) 0 0 0 (u32 now) (replicate 33 0).

Lemma alloc_inode_block buf type now :
  length buf = 512%nat ->
  load_inode (st32 (st16 buf 0 (s16 type)) 16 (u32 now)) 0 =
  let i := load_inode buf 0 in
  mk_inode (s16 type) (i_size i) (i_atime i) (i_mtime i) (u32 now) (i_blocks i).
Proof.
  intros Hl. assert (length (st16 buf 0 (s16 type)) = 512%nat) as Hl' by (rewrite length_st16; lia).
  unfold load_inode, ino_type. cbn [i_size i_atime i_mtime i_blocks]. f_equal.
  - rewrite ld16_st32_ne, ld16_st16_eq by lia.
    rewrite wrapS_wrapU by lia. apply wrapS_small; [lia|]. apply (wrapS_range 16). lia.
  - rewrite ld32_st32_ne, ld32_st16_ne by lia. done.
  - rewrite ld32_st32_ne, ld32_st16_ne by lia. done.
  - rewrite ld32_st32_ne, ld32_st16_ne by lia. done.
  - rewrite ld32_st32_eq by lia. apply wrapU_small, wrapU_range. lia.
  - apply ld_words_ext. unfold st32.
    rewrite slice_memcpy_ne by len. unfold st16.
    rewrite slice_memcpy_ne by len. done.
Qed.

Lemma alloc_inode_scan_skip n m im buf type now i :
  fs_wf (im_bm im) -> length buf = Z.to_nat BLOCK_SIZE ->
  1 <= i -> i + Z.of_nat m <= INODE_NUM ->
  (forall j, i <= j < i + Z.of_nat m -> i_type (ino_at (im_bm im) j) <> 0) ->
  exists buf', length buf' = Z.to_nat BLOCK_SIZE /\
    alloc_inode_scan (m + n) i im buf type now = alloc_inode_scan n (i + Z.of_nat m) im buf' type now.
Proof.
  intros Hwf. revert i buf. induction m as [|m IH]; intros i buf Hl Hi Hm Hlive.
  { exists buf. split; [done|]. by rewrite Z.add_0_r. }
  cbn [Nat.add alloc_inode_scan]. replace ((i - 1) mod IPB) with 0 by (unfold IPB; by rewrite Z.mod_1_r).
  cbn [Z.eqb]. rewrite iblock_spec by done. unfold INODE_NUM in *.
  rewrite bm_read_in; [|apply Hwf|rewrite BLOCK_NUM_eq; lia|done].
  change (Z.to_nat 0 * sizeof_inode)%nat with 0%nat.
  replace (ino_type _ _ =? 0) with false
    by (symmetry; apply Z.eqb_neq; apply (Hlive i); lia).
  destruct (IH (i + 1) (bblk (im_bm im) (i + 11))) as (buf' & Hl' & E);
    [apply length_bblk, Hwf|lia|lia|intros; apply Hlive; lia|].
  exists buf'. split; [done|]. rewrite E. f_equal. lia.
Qed.

(** The scan stops at the first number whose inode is free. *)
Lemma alloc_inode_first im type now i :
  fs_wf (im_bm im) -> 1 <= i < INODE_NUM ->
  (forall j, 1 <= j < i -> i_type (ino_at (im_bm im) j) <> 0) ->
  i_type (ino_at (im_bm im) i) = 0 ->
  exists c im', alloc_inode im type now = (i, im') /\ wrote (im_bm im) (i + 11) c (im_bm im') /\
    ino_at (im_bm im') i =
      let o := ino_at (im_bm im) i in
      mk_inode (s16 type) (i_size o) (i_atime o) (i_mtime o) (u32 now) (i_blocks o).
Proof.
  intros Hwf Hi Hlive Hfree. unfold alloc_inode. rewrite (fs_ninodes _ Hwf). unfold INODE_NUM in *.
  replace (Z.to_nat (1024 - 1)) with (Z.to_nat (i - 1) + S (Z.to_nat (1023 - i)))%nat by lia.
  destruct (alloc_inode_scan_skip (S (Z.to_nat (1023 - i))) (Z.to_nat (i - 1)) im stack_bytes type now 1)
    as (buf & Hl & ->); [done|apply length_stack_bytes|lia|unfold INODE_NUM; lia|intros; apply Hlive; lia|].
  replace (1 + Z.of_nat (Z.to_nat (i - 1))) with i by lia. cbn [alloc_inode_scan].
  replace ((i - 1) mod IPB) with 0 by (unfold IPB; by rewrite Z.mod_1_r). cbn [Z.eqb].
  rewrite iblock_spec by done. rewrite bm_read_in; [|apply Hwf|rewrite BLOCK_NUM_eq; lia|done].
  change (Z.to_nat 0 * sizeof_inode)%nat with 0%nat. cbn [Nat.add].
  replace (ino_type _ _ =? 0) with true by (symmetry; by apply Z.eqb_eq).
  set (buf' := st32 _ _ _).
  assert (length (bblk (im_bm im) (i + 11)) = 512%nat) as Hlb
    by (rewrite length_bblk, BLOCK_SIZE_eq by apply Hwf; done).
  assert (length buf' = Z.to_nat BLOCK_SIZE) as Hlen.
  { unfold buf'. rewrite length_st32, length_st16, BLOCK_SIZE_eq; rewrite ?length_st16; lia. }
  eexists _, _. split; [done|]. cbn [im_bm].
  pose proof (write_block_wrote (im_bm im) (i + 11) buf') as Hw.
  specialize (Hw Hwf ltac:(rewrite BLOCK_NUM_eq; lia) ltac:(lia)). split; [done|].
  unfold ino_at at 1. rewrite (wrote_at _ _ _ _ Hw), take_ge by lia.
  unfold buf'. by rewrite alloc_inode_block.
Qed.

(** With every inode in use the scan runs off the table and answers 1. *)
Lemma alloc_inode_exhausted im type now :
  fs_wf (im_bm im) ->
  (forall j, 1 <= j < INODE_NUM -> i_type (ino_at (im_bm im) j) <> 0) ->
  alloc_inode im type now = (1, im).
Proof.
  intros Hwf Hlive. unfold alloc_inode. rewrite (fs_ninodes _ Hwf). unfold INODE_NUM in *.
  destruct (alloc_inode_scan_skip 0 1023 im stack_bytes type now 1)
    as (buf & Hl & E); [done|apply length_stack_bytes|lia|unfold INODE_NUM; lia|intros; apply Hlive; lia|].
  rewrite Nat.add_0_r in E. replace (Z.to_nat (1024 - 1)) with 1023%nat by lia. by rewrite E.
Qed.

End accessors.
