(* ===== verification/FileBlocks.v ===== *)
(** * FileBlocks: sequences of allocations, frees, reads and writes

    The loops of [write_file], [read_file] and [remove_file] as operations on
    lists of blocks: allocating or freeing a list, copying the blocks of a list
    into a buffer and a buffer into the blocks of a list. *)

From Stdlib Require Import ZArith Lia.
From S2P Require Import Prelude BlockLayer Inode InodeFacts.

(** ** Counting the free blocks *)

Definition count (p : Z -> bool) (l : list Z) : nat := length (filter (fun b => p b = true) l).

Lemma count_cons p x l : count p (x :: l) = ((if p x then 1 else 0) + count p l)%nat.
Proof.
  unfold count. rewrite filter_cons. destruct (p x) eqn:E; cbn [decide decide_rel bool_eq_dec].
  - by destruct (decide (true = true)).
  - by destruct (decide (false = true)).
Qed.

Lemma count_ext p q l : (forall b, b ∈ l -> p b = q b) -> count p l = count q l.
Proof.
  induction l as [|x l IH]; intros H; [done|]. rewrite !count_cons, (H x), IH; [done| |set_solver].
  intros b Hb. apply H. set_solver.
Qed.

(** Changing the answer for one element of a duplicate-free list. *)
Lemma count_flip p q l b :
  NoDup l -> b ∈ l -> p b = true -> q b = false ->
  (forall x, x ∈ l -> x <> b -> q x = p x) -> count p l = S (count q l).
Proof.
  induction l as [|x l IH]; intros Hnd Hin Hp Hq Hx; [set_solver|].
  apply NoDup_cons in Hnd as [Hxl Hnd]. rewrite !count_cons.
  destruct (decide (x = b)) as [->|Hne].
  - rewrite Hp, Hq, (count_ext q p); [done|]. intros y Hy. apply Hx; set_solver.
  - rewrite (Hx x), IH; [|done|set_solver|done|done| |set_solver|done]; [lia|].
    intros y Hy Hyb. apply Hx; set_solver.
Qed.

Definition all_bnums : list Z := seqZ 0 BLOCK_NUM.
Definition is_free (bm : block_manager) (b : Z) : bool := negb (used bm b).
Definition free_count (bm : block_manager) : nat := count (is_free bm) all_bnums.

Lemma elem_of_all_bnums b : b ∈ all_bnums <-> 0 <= b < BLOCK_NUM.
Proof. unfold all_bnums. rewrite elem_of_seqZ. lia. Qed.

Lemma NoDup_all_bnums : NoDup all_bnums.
Proof. apply NoDup_seqZ. Qed.

Lemma free_count_ext bm bm' :
  (forall b, 0 <= b < BLOCK_NUM -> used bm' b = used bm b) -> free_count bm' = free_count bm.
Proof.
  intros H. apply count_ext. intros b Hb%elem_of_all_bnums. unfold is_free. by rewrite H.
Qed.

Lemma free_count_pos bm : (0 < free_count bm)%nat -> exists b, 0 <= b < BLOCK_NUM /\ used bm b = false.
Proof.
  unfold free_count, count. intros H.
  destruct (filter _ _) as [|b l] eqn:E; [cbn in H; lia|].
  assert (b ∈ filter (fun b => is_free bm b = true) all_bnums) as Hb by (rewrite E; set_solver).
  apply list_elem_of_filter in Hb as [Hf Hb%elem_of_all_bnums]. exists b. split; [done|].
  unfold is_free in Hf. by destruct (used bm b).
Qed.

(** ** Allocating a list of blocks *)

Record allocs (bm : block_manager) (bs : list Z) (bm' : block_manager) : Prop := {
  al_wf : bm_wf bm';
  al_data : same_data bm bm';
  al_nodup : NoDup bs;
  al_fresh : forall b, b ∈ bs -> 0 <= b < BLOCK_NUM /\ used bm b = false;
  al_used : forall b, 0 <= b < BLOCK_NUM -> used bm' b = used bm b || bool_decide (b ∈ bs);
  al_count : (free_count bm' + length bs = free_count bm)%nat;
}.

Lemma allocs_nil bm : bm_wf bm -> allocs bm [] bm.
Proof.
  intros. split; [done|done|constructor|set_solver| |cbn; lia].
  intros b _. by rewrite orb_false_r.
Qed.

(** ** Freeing a list of blocks *)

Record frees (bm : block_manager) (bs : list Z) (bm' : block_manager) : Prop := {
  fr_wf : bm_wf bm';
  fr_data : same_data bm bm';
  fr_used : forall b, 0 <= b < BLOCK_NUM -> used bm' b = used bm b && bool_decide (b ∉ bs);
  fr_count : (free_count bm' = free_count bm + length bs)%nat;
}.

Lemma frees_nil bm : bm_wf bm -> frees bm [] bm.
Proof.
  intros. split; [done|done| |cbn; lia]. intros b _.
  rewrite bool_decide_true by set_solver. by rewrite andb_true_r.
Qed.

Section steps.
Context `{Uninit}.

Lemma allocs_snoc bm bs bm1 :
  allocs bm bs bm1 -> (0 < free_count bm1)%nat ->
  exists b, alloc_block bm1 = (b, mark bm1 b) /\ allocs bm (bs ++ [b]) (mark bm1 b).
Proof.
  intros [Hwf Hd Hnd Hfr Hu Hc] Hpos. apply free_count_pos in Hpos as (b0 & Hb0 & Hf0).
  destruct (alloc_block_cases bm1 Hwf) as [(b & (Hb & Hf & _) & E)|[Hall _]].
  2: { rewrite Hall in Hf0 by done. done. }
  exists b. split; [done|]. destruct (mark_spec bm1 b Hwf Hb) as (Hwf' & Hd' & Hu').
  rewrite Hu in Hf by done. apply orb_false_iff in Hf as [Hf Hnin%bool_decide_eq_false].
  split; [done|by etrans| | | |].
  - apply NoDup_app. split_and!; [done|set_solver|apply NoDup_singleton].
  - intros b' [Hb'|Hb']%elem_of_app; [by apply Hfr|].
    apply list_elem_of_singleton in Hb' as ->. done.
  - intros b' Hb'. rewrite Hu', Hu by done.
    destruct (Z.eqb_spec b' b) as [->|Hne]; cbn [orb].
    + rewrite bool_decide_true by set_solver. by rewrite orb_true_r.
    + f_equal. apply bool_decide_ext. set_solver.
  - rewrite length_app. cbn [length].
    assert (free_count bm1 = S (free_count (mark bm1 b))) as Hs; [|lia].
    unfold free_count, is_free. apply count_flip with b.
    + apply NoDup_all_bnums.
    + by apply elem_of_all_bnums.
    + rewrite Hu, Hf, bool_decide_false by done. done.
    + rewrite Hu', Z.eqb_refl by done. done.
    + intros x Hx%elem_of_all_bnums Hne. rewrite Hu' by done. by rewrite (proj2 (Z.eqb_neq x b)).
Qed.

Lemma frees_snoc bm bs bm1 b :
  frees bm bs bm1 -> 10 < b < BLOCK_NUM -> used bm b = true -> b ∉ bs ->
  frees bm (bs ++ [b]) (free_block bm1 b).
Proof.
  intros [Hwf Hd Hu Hc] Hb Hub Hnin. rewrite free_block_unmark by done.
  destruct (unmark_spec bm1 b Hwf ltac:(lia)) as (Hwf' & Hd' & Hu').
  split; [done|by etrans| |].
  - intros b' Hb'. rewrite Hu', Hu by done. rewrite andb_comm, <- andb_assoc. f_equal.
    destruct (Z.eqb_spec b' b) as [->|Hne]; cbn [negb].
    + rewrite andb_false_r. symmetry. apply bool_decide_eq_false. set_solver.
    + rewrite andb_true_r. apply bool_decide_ext. set_solver.
  - rewrite length_app. cbn [length].
    assert (free_count (unmark bm1 b) = S (free_count bm1)) as Hs; [|lia].
    unfold free_count, is_free. apply count_flip with b.
    + apply NoDup_all_bnums.
    + apply elem_of_all_bnums. lia.
    + rewrite Hu', Z.eqb_refl by lia. done.
    + rewrite Hu, Hub, bool_decide_true by (done || lia). done.
    + intros x Hx%elem_of_all_bnums Hne. rewrite Hu' by done. by rewrite (proj2 (Z.eqb_neq x b)).
Qed.

(** A loop that frees the addresses [addr i] of a duplicate-free list of used blocks. *)
Definition freeable (bm : block_manager) (bs : list Z) : Prop :=
  NoDup bs /\ forall b, b ∈ bs -> 10 < b < BLOCK_NUM /\ used bm b = true.

Lemma addr_seqZ_snoc (addr : Z -> Z) j :
  0 <= j -> addr <$> seqZ 0 (j + 1) = (addr <$> seqZ 0 j) ++ [addr j].
Proof.
  intros. rewrite seqZ_app, fmap_app by lia. do 2 f_equal.
Qed.

Lemma addr_prefix (addr : Z -> Z) j n :
  0 <= j < n -> addr <$> seqZ 0 n = (addr <$> seqZ 0 j) ++ addr j :: (addr <$> seqZ (j + 1) (n - j - 1)).
Proof.
  intros. replace n with (j + (1 + (n - j - 1))) at 1 by lia.
  rewrite !seqZ_app, !fmap_app by lia. rewrite Z.add_0_l. done.
Qed.

Lemma free_loop bm pre bm1 (addr : Z -> Z) n :
  0 <= n -> frees bm pre bm1 -> freeable bm (pre ++ (addr <$> seqZ 0 n)) ->
  frees bm (pre ++ (addr <$> seqZ 0 n)) (for_range 0 n (fun i bm => free_block bm (addr i)) bm1).
Proof.
  intros Hn Hf [Hnd Hin].
  apply (for_range_ind (fun j bm' => frees bm (pre ++ (addr <$> seqZ 0 j)) bm')).
  - done.
  - by rewrite app_nil_r.
  - intros j bm' Hj Hfr. rewrite addr_seqZ_snoc, app_assoc by lia.
    rewrite (addr_prefix addr j n Hj), app_assoc in Hnd, Hin.
    destruct (Hin (addr j)) as [Hr Hu]; [set_solver|].
    apply frees_snoc; [done..|]. apply NoDup_app in Hnd as (_ & Hd & _).
    intros Hx. apply (Hd (addr j) Hx). set_solver.
Qed.

Lemma free_ind_loop bm pre bm1 indnum n :
  0 <= n <= NINDIRECT -> frees bm pre bm1 ->
  let addr i := ld32 indnum (4 * Z.to_nat i) in
  freeable bm (pre ++ (addr <$> seqZ 0 n)) ->
  exists bm2,
    for_rangeM 0 n (fun i bm => b ← ind_get indnum i; Ok (free_block bm b)) bm1 = Ok bm2 /\
    frees bm (pre ++ (addr <$> seqZ 0 n)) bm2.
Proof.
  intros Hn Hf addr [Hnd Hin].
  apply (for_rangeM_ind (fun j bm' => frees bm (pre ++ (addr <$> seqZ 0 j)) bm')).
  - lia.
  - by rewrite app_nil_r.
  - intros j bm' Hj Hfr. unfold ind_get.
    rewrite (proj2 (Z.leb_gt NINDIRECT j)) by lia. cbn. eexists. split; [done|].
    rewrite addr_seqZ_snoc, app_assoc by lia.
    rewrite (addr_prefix addr j n Hj), app_assoc in Hnd, Hin.
    destruct (Hin (addr j)) as [Hr Hu]; [set_solver|].
    apply frees_snoc; [done..|]. apply NoDup_app in Hnd as (_ & Hd & _).
    intros Hx. apply (Hd (addr j) Hx). set_solver.
Qed.

(** ** The allocation loops of [write_file] *)

Lemma insert_after_prefix (bs l : list Z) n b :
  length bs = n -> (n < length l)%nat ->
  <[n := b]> (bs ++ drop n l) = (bs ++ [b]) ++ drop (S n) l.
Proof.
  intros Hb Hn. rewrite insert_app_r_alt by lia. rewrite Hb, Nat.sub_diag.
  destruct (lookup_lt_is_Some_2 l n Hn) as [x Hx]. rewrite (drop_S _ _ _ Hx).
  cbn. by rewrite <- app_assoc.
Qed.

Lemma alloc_direct_loop bm pre bm1 bl n :
  0 <= n <= Z.of_nat (length bl) -> allocs bm pre bm1 -> (Z.to_nat n <= free_count bm1)%nat ->
  exists bs bm2,
    for_range 0 n
      (fun i '(bm, bl) => let '(b, bm) := alloc_block bm in (bm, <[Z.to_nat i := b]> bl)) (bm1, bl)
      = (bm2, bs ++ drop (Z.to_nat n) bl) /\
    length bs = Z.to_nat n /\ allocs bm (pre ++ bs) bm2.
Proof.
  intros Hn Ha Hc.
  apply (for_range_ind (fun j st => exists bs bm2, st = (bm2, bs ++ drop (Z.to_nat j) bl) /\
    length bs = Z.to_nat j /\ allocs bm (pre ++ bs) bm2)).
  - lia.
  - exists [], bm1. split_and!; [by rewrite drop_0|done|by rewrite app_nil_r].
  - intros j st Hj (bs & bm2' & -> & Hl & Ha').
    destruct (allocs_snoc _ _ _ Ha') as (b & -> & Ha'').
    { pose proof (al_count _ _ _ Ha). pose proof (al_count _ _ _ Ha') as Hc'.
      rewrite length_app in Hc'. lia. }
    exists (bs ++ [b]), (mark bm2' b). rewrite app_assoc. split_and!; [|rewrite length_app; cbn; lia|done].
    rewrite insert_after_prefix by lia. by replace (Z.to_nat (j + 1)) with (S (Z.to_nat j)) by lia.
Qed.

Lemma alloc_ind_loop bm pre bm1 indnum n :
  0 <= n <= NINDIRECT -> length indnum = Z.to_nat BLOCK_SIZE ->
  allocs bm pre bm1 -> (Z.to_nat n <= free_count bm1)%nat ->
  exists bs bm2 indnum',
    for_rangeM 0 n
      (fun i '(bm, indnum) =>
         let '(b, bm) := alloc_block bm in
         indnum ← ind_set indnum i b; Ok (bm, indnum)) (bm1, indnum) = Ok (bm2, indnum') /\
    length indnum' = Z.to_nat BLOCK_SIZE /\
    ld_words indnum' 0 128 = bs ++ drop (Z.to_nat n) (ld_words indnum 0 128) /\
    length bs = Z.to_nat n /\ allocs bm (pre ++ bs) bm2.
Proof.
  intros Hn Hli Ha Hc. assert (NINDIRECT = 128) as HN by (unfold NINDIRECT; by rewrite BLOCK_SIZE_eq).
  destruct (for_rangeM_ind (fun j '(bm2, ind2) => length ind2 = Z.to_nat BLOCK_SIZE /\ exists bs,
      ld_words ind2 0 128 = bs ++ drop (Z.to_nat j) (ld_words indnum 0 128) /\
      length bs = Z.to_nat j /\ allocs bm (pre ++ bs) bm2) 0 n
      (fun i '(bm, indnum) => let '(b, bm) := alloc_block bm in
         indnum ← ind_set indnum i b; Ok (bm, indnum)) (bm1, indnum))
    as ([bm2 ind2] & E & Hl2 & bs & Hw & Hl & Ha2).
  - lia.
  - split; [done|]. exists []. split_and!; [by rewrite drop_0|done|by rewrite app_nil_r].
  - intros j [bm2 ind2] Hj (Hl2 & bs & Hw & Hl & Ha').
    destruct (allocs_snoc _ _ _ Ha') as (b & -> & Ha'').
    { pose proof (al_count _ _ _ Ha). pose proof (al_count _ _ _ Ha') as Hc'.
      rewrite length_app in Hc'. lia. }
    unfold ind_set. rewrite (proj2 (Z.leb_gt NINDIRECT j)) by lia. cbn [mbind result_bind].
    rewrite BLOCK_SIZE_eq in Hl2. eexists. split; [done|]. split; [rewrite BLOCK_SIZE_eq, length_st32; lia|].
    exists (bs ++ [b]). change (4 * Z.to_nat j)%nat with (0 + 4 * Z.to_nat j)%nat.
    rewrite (ld_words_st32 ind2 0 128), Hw by lia.
    destruct (al_fresh _ _ _ Ha'' b) as [Hb _]; [set_solver|]. rewrite BLOCK_NUM_eq in Hb.
    rewrite wrapU_small by lia. rewrite insert_after_prefix; [|lia|rewrite length_ld_words; lia].
    split_and!; [by replace (Z.to_nat (j + 1)) with (S (Z.to_nat j)) by lia|rewrite length_app; cbn; lia|].
    by rewrite app_assoc.
  - exists bs, bm2, ind2. done.
Qed.

End steps.

(** ** Copying between a buffer and a list of blocks *)

Definition nblocks (z : Z) : Z := (z + 511) / 512.

Lemma nblocks_pos z : 0 < z -> 0 < nblocks z.
Proof. intros. unfold nblocks. apply Z.div_str_pos. lia. Qed.

Lemma nblocks_nonneg z : 0 <= z -> 0 <= nblocks z.
Proof. intros. unfold nblocks. apply Z.div_pos; lia. Qed.

Lemma nblocks_step z : 0 < z -> nblocks (z - Z.min 512 z) = nblocks z - 1.
Proof.
  intros. unfold nblocks. destruct (Z.min_spec 512 z) as [[? ->]|[? ->]].
  - replace (z + 511) with (z - 512 + 511 + 1 * 512) by lia. rewrite Z.div_add by lia. lia.
  - replace (z - z + 511) with 511 by lia. change (511 / 512) with 0.
    replace (z + 511) with ((z - 1) + 1 * 512) by lia.
    rewrite Z.div_add, Z.div_small by lia. lia.
Qed.

Lemma nblocks_0 : nblocks 0 = 0.
Proof. done. Qed.

(** The blocks of a list have been overwritten, and nothing else. *)
Record wrote_blocks (bm : block_manager) (bs : list Z) (bm' : block_manager) : Prop := {
  wb_fs : fs_wf bm';
  wb_other : forall b, 0 <= b -> b ∉ bs -> bblk bm' b = bblk bm b;
  wb_used : forall b, 0 <= b < BLOCK_NUM -> used bm' b = used bm b;
}.

Lemma wrote_blocks_nil bm : fs_wf bm -> wrote_blocks bm [] bm.
Proof. intros. by split. Qed.

Lemma wrote_blocks_cons bm b c bm1 bs bm2 :
  wrote bm b c bm1 -> wrote_blocks bm1 bs bm2 -> wrote_blocks bm (b :: bs) bm2.
Proof.
  intros [_ _ Ho1 Hu1] [Hf Ho2 Hu2]. split; [done| |].
  - intros b' Hb' [Hne Hnin]%not_elem_of_cons. by rewrite Ho2, Ho1.
  - intros b' Hb'. by rewrite Hu2, Hu1.
Qed.

Lemma wrote_blocks_app bm bs bm1 bs' bm2 :
  wrote_blocks bm bs bm1 -> wrote_blocks bm1 bs' bm2 -> wrote_blocks bm (bs ++ bs') bm2.
Proof.
  intros [_ Ho1 Hu1] [Hf Ho2 Hu2]. split; [done| |].
  - intros b' Hb' [Hne Hnin]%not_elem_of_app. by rewrite Ho2, Ho1.
  - intros b' Hb'. by rewrite Hu2, Hu1.
Qed.

(** One chunk of [t] bytes in front of the chunks of the remaining blocks. *)
Lemma take_chunk {A} (c rest : list A) t k :
  length c = 512%nat -> (t = 512 \/ t <= 512 /\ k = 0)%nat ->
  take (t + k) (c ++ rest) = take t c ++ take k rest.
Proof.
  intros Hc [->|[Ht ->]].
  - rewrite (take_ge c) by lia. rewrite <- Hc at 1. by rewrite take_app_add.
  - rewrite Nat.add_0_r, take_0, app_nil_r. apply take_app_le. lia.
Qed.

Lemma seqZ_head (addr : Z -> Z) bnum m :
  0 < m -> addr <$> seqZ bnum m = addr bnum :: (addr <$> seqZ (bnum + 1) (m - 1)).
Proof. intros. by rewrite seqZ_cons. Qed.

Section copying.
Context `{Uninit}.

(** One turn of the write loop stores a block that starts with the next [t]
    bytes of the data. *)
Lemma write_turn n bm addr bnum size rsize data block :
  fs_wf bm -> 10 <= addr bnum < BLOCK_NUM -> length block = 512%nat -> 0 <= rsize < size ->
  size = Z.of_nat (length data) ->
  let t := Z.min BLOCK_SIZE (size - rsize) in
  exists c bm1 block1,
    write_loop (S n) bm addr bnum size rsize data block =
      write_loop n bm1 addr (bnum + 1) size (rsize + t) data block1 /\
    wrote bm (addr bnum) c bm1 /\ length c = 512%nat /\ length block1 = 512%nat /\
    take (Z.to_nat t) c = slice (Z.to_nat rsize) (Z.to_nat t) data.
Proof.
  intros Hfs Hb Hbl Hr Hs t. cbn [write_loop]. rewrite (proj2 (Z.ltb_lt rsize size)) by lia.
  fold t. assert (t = Z.min 512 (size - rsize)) as Ht by (unfold t; by rewrite BLOCK_SIZE_eq).
  rewrite BLOCK_SIZE_eq. destruct (Z.ltb_spec 512 (size - rsize)) as [Hlt|Hge].
  - exists (take 512 (drop (Z.to_nat rsize) data)). eexists _, block. split_and!; [done| |..].
    + rewrite <- (f_equal Z.to_nat BLOCK_SIZE_eq : _ = 512%nat).
      apply write_block_wrote; [done..|]. rewrite length_drop, BLOCK_SIZE_eq. lia.
    + rewrite length_take, length_drop. lia.
    + done.
    + unfold slice. rewrite take_take. f_equal. lia.
  - set (sl := slice _ (Z.to_nat (size - rsize)) data).
    assert (length sl = Z.to_nat t) as Hsl by (unfold sl; rewrite length_slice; lia).
    assert (length (memcpy block 0 sl) = 512%nat) as Hm by (rewrite length_memcpy; lia).
    exists (memcpy block 0 sl). eexists _, _. split_and!; [done| |done..|].
    + pose proof (write_block_wrote bm (addr bnum) (memcpy block 0 sl) Hfs Hb) as Hw.
      rewrite Hm, BLOCK_SIZE_eq in Hw. rewrite take_ge in Hw by lia. apply Hw. lia.
    + replace (slice _ (Z.to_nat t) data) with sl by (unfold sl; f_equal; lia).
      rewrite <- Hsl. apply (slice_memcpy_eq block 0 sl). lia.
Qed.

Lemma write_loop_spec n bm addr bnum size rsize data block :
  fs_wf bm -> length block = 512%nat -> 0 <= rsize <= size -> size = Z.of_nat (length data) ->
  let bs := addr <$> seqZ bnum (Z.min (Z.of_nat n) (nblocks (size - rsize))) in
  let r := Z.min size (rsize + 512 * Z.of_nat n) in
  NoDup bs -> (forall b, b ∈ bs -> 10 <= b < BLOCK_NUM) ->
  exists bm' block',
    write_loop n bm addr bnum size rsize data block = (r, bm', block') /\
    length block' = 512%nat /\ wrote_blocks bm bs bm' /\
    take (Z.to_nat (r - rsize)) (concat (bblk bm' <$> bs)) =
      slice (Z.to_nat rsize) (Z.to_nat (r - rsize)) data.
Proof.
  revert bm bnum rsize block.
  induction n as [|n IH]; intros bm bnum rsize block Hfs Hbl Hr Hs bs r Hnd Hbs.
  { exists bm, block. replace r with rsize by (unfold r; lia). rewrite Z.sub_diag.
    pose proof (nblocks_nonneg (size - rsize) ltac:(lia)) as Hn0.
    subst bs. rewrite (Z.min_l (Z.of_nat 0)) by exact Hn0.
    split_and!; [done..|by apply wrote_blocks_nil|done]. }
  destruct (decide (rsize < size)) as [Hlt|Hge].
  2: { exists bm, block. assert (rsize = size) as -> by lia.
    cbn [write_loop]. rewrite Z.ltb_irrefl.
    replace r with size by (unfold r; lia). subst bs. rewrite Z.sub_diag, nblocks_0.
    rewrite (Z.min_r (Z.of_nat (S n))) by lia. split_and!; [done..|by apply wrote_blocks_nil|done]. }
  set (t := Z.min BLOCK_SIZE (size - rsize)).
  assert (t = Z.min 512 (size - rsize)) as Ht by (unfold t; by rewrite BLOCK_SIZE_eq).
  pose proof (nblocks_step (size - rsize) ltac:(lia)) as Hstep.
  pose proof (nblocks_pos (size - rsize) ltac:(lia)) as Hpos.
  set (bs1 := addr <$> seqZ (bnum + 1) (Z.min (Z.of_nat n) (nblocks (size - (rsize + t))))).
  assert (bs = addr bnum :: bs1) as E.
  { unfold bs, bs1. rewrite seqZ_head by lia. do 3 f_equal.
    replace (size - (rsize + t)) with (size - rsize - Z.min 512 (size - rsize)) by lia. lia. }
  clearbody bs. subst bs. apply NoDup_cons in Hnd as [Hnin Hnd].
  destruct (write_turn n bm addr bnum size rsize data block)
    as (c & bm1 & block1 & Eq & Hw & Hc & Hbl' & Htk);
    [done|apply Hbs; set_solver|done|lia|done|]. fold t in Eq, Htk. rewrite Eq.
  destruct (IH bm1 (bnum + 1) (rsize + t) block1) as (bm' & block' & Eq' & Hl' & Hwb & Hcat);
    [apply Hw|done|lia|done|done|intros; apply Hbs; set_solver|]. fold bs1 in Hwb, Hcat.
  assert (Z.min size (rsize + t + 512 * Z.of_nat n) = r) as Er by (unfold r; lia).
  rewrite Er in Eq', Hcat. exists bm', block'. split_and!; [done..| |].
  - by eapply wrote_blocks_cons.
  - rewrite fmap_cons. cbn [concat].
    rewrite (wb_other _ _ _ Hwb (addr bnum)), (wrote_at _ _ _ _ Hw);
      [|pose proof (Hbs (addr bnum)); set_solver by lia|done].
    replace (Z.to_nat (r - rsize)) with (Z.to_nat t + Z.to_nat (r - (rsize + t)))%nat by lia.
    rewrite take_chunk by lia. rewrite Htk, Hcat, slice_split.
    by replace (Z.to_nat (rsize + t)) with (Z.to_nat rsize + Z.to_nat t)%nat by lia.
Qed.

Lemma read_turn n bm addr bnum fsize rsize res buf :
  bm_wf bm -> 0 <= addr bnum < BLOCK_NUM -> length buf = 512%nat -> 0 <= rsize < fsize ->
  fsize = Z.of_nat (length res) -> fsize <= INT_MAX ->
  let t := Z.min BLOCK_SIZE (fsize - rsize) in
  exists buf1, length buf1 = 512%nat /\
    read_loop (S n) bm addr bnum fsize rsize res buf =
      read_loop n bm addr (bnum + 1) fsize (rsize + t)
        (take (Z.to_nat rsize) res ++ take (Z.to_nat t) (bblk bm (addr bnum))
         ++ drop (Z.to_nat (rsize + t)) res) buf1.
Proof.
  intros Hwf Hb Hbl Hr Hs Hmax t. cbn [read_loop]. rewrite (proj2 (Z.ltb_lt rsize fsize)) by lia.
  fold t. assert (t = Z.min 512 (fsize - rsize)) as Ht by (unfold t; by rewrite BLOCK_SIZE_eq).
  unfold INT_MAX in Hmax. pose proof (length_bblk bm (addr bnum) Hwf) as Hlb.
  rewrite BLOCK_SIZE_eq, wrapU_small in * by lia.
  destruct (Z.ltb_spec (rsize + 512) fsize) as [Hlt|Hge].
  - exists buf. split; [done|]. f_equal. f_equal.
    rewrite bm_read_in_ge, BLOCK_SIZE_eq by done. rewrite take_ge, drop_drop by lia. do 3 f_equal. lia.
  - assert (bm_read_block bm (addr bnum) buf = bblk bm (addr bnum)) as ->
      by (apply bm_read_in; rewrite ?BLOCK_SIZE_eq; done).
    exists (bblk bm (addr bnum)). split; [lia|]. f_equal. unfold memcpy.
    do 2 f_equal; [f_equal; lia|]. f_equal. rewrite length_take. lia.
Qed.

(** The read loop gathers the blocks of a list into the result buffer. *)
Lemma read_loop_spec n bm addr bnum fsize rsize res buf :
  bm_wf bm -> length buf = 512%nat -> 0 <= rsize <= fsize ->
  fsize = Z.of_nat (length res) -> fsize <= INT_MAX ->
  let bs := addr <$> seqZ bnum (Z.min (Z.of_nat n) (nblocks (fsize - rsize))) in
  let r := Z.min fsize (rsize + 512 * Z.of_nat n) in
  (forall b, b ∈ bs -> 0 <= b < BLOCK_NUM) ->
  exists buf', length buf' = 512%nat /\
    read_loop n bm addr bnum fsize rsize res buf =
      (r, take (Z.to_nat rsize) res ++ take (Z.to_nat (r - rsize)) (concat (bblk bm <$> bs))
          ++ drop (Z.to_nat r) res, buf').
Proof.
  intros Hwf. revert bnum rsize res buf.
  induction n as [|n IH]; intros bnum rsize res buf Hbl Hr Hs Hmax bs r Hbs.
  { exists buf. split; [done|]. replace r with rsize by (unfold r; lia).
    by rewrite Z.sub_diag, take_0, app_nil_l, take_drop. }
  destruct (decide (rsize < fsize)) as [Hlt|Hge].
  2: { exists buf. split; [done|]. assert (rsize = fsize) as -> by lia.
    cbn [read_loop]. rewrite Z.ltb_irrefl. replace r with fsize by (unfold r; lia).
    by rewrite Z.sub_diag, take_0, app_nil_l, take_drop. }
  set (t := Z.min BLOCK_SIZE (fsize - rsize)).
  assert (t = Z.min 512 (fsize - rsize)) as Ht by (unfold t; by rewrite BLOCK_SIZE_eq).
  pose proof (nblocks_step (fsize - rsize) ltac:(lia)) as Hstep.
  pose proof (nblocks_pos (fsize - rsize) ltac:(lia)) as Hpos.
  set (bs1 := addr <$> seqZ (bnum + 1) (Z.min (Z.of_nat n) (nblocks (fsize - (rsize + t))))).
  assert (bs = addr bnum :: bs1) as E.
  { unfold bs, bs1. rewrite seqZ_head by lia. do 3 f_equal.
    replace (fsize - (rsize + t)) with (fsize - rsize - Z.min 512 (fsize - rsize)) by lia. lia. }
  clearbody bs. subst bs.
  destruct (read_turn n bm addr bnum fsize rsize res buf) as (buf1 & Hb1 & ->);
    [done|apply Hbs; set_solver|done|lia|done|done|]. fold t.
  pose proof (length_bblk bm (addr bnum) Hwf) as Hlb. rewrite BLOCK_SIZE_eq in Hlb.
  set (c := take (Z.to_nat t) (bblk bm (addr bnum))).
  assert (length c = Z.to_nat t) as Hc by (unfold c; rewrite length_take; lia).
  set (res1 := take _ res ++ c ++ _).
  assert (length res1 = length res) as Hl1
    by (unfold res1; rewrite !length_app, length_take, length_drop; lia).
  destruct (IH (bnum + 1) (rsize + t) res1 buf1) as (buf' & Hb' & ->);
    [done|lia|lia|done|intros; apply Hbs; set_solver|]. fold bs1.
  exists buf'. split; [done|].
  replace (Z.min fsize (rsize + t + 512 * Z.of_nat n)) with r by (unfold r; lia).
  f_equal. f_equal. rewrite fmap_cons. cbn [concat].
  replace (Z.to_nat (r - rsize)) with (Z.to_nat t + Z.to_nat (r - (rsize + t)))%nat by lia.
  rewrite take_chunk by lia. fold c. rewrite <- !app_assoc.
  assert (rsize + t <= r) by (unfold r; lia).
  unfold res1. rewrite (app_assoc (take _ _) c).
  rewrite take_app_length' by len.
  rewrite drop_app_ge by len.
  rewrite length_app, length_take, drop_drop, <- !app_assoc. do 4 f_equal. lia.
Qed.

End copying.
