(* ===== verification/FileSystem.v ===== *)
(** * FileSystem: what the inode manager keeps true of the disk

    [file_blocks] are the blocks a file occupies, [content] the bytes it holds.
    [fs_ok] is the invariant: the files' blocks lie in the data area, no block
    belongs to two files or twice to one, and the bitmap marks exactly the
    reserved blocks and the files' blocks.  The operations of the inode manager
    preserve it and act on one file only. *)

From Stdlib Require Import ZArith Lia.
From S2P Require Import Prelude BlockLayer Inode InodeFacts FileBlocks.

(** The largest inode number whose table entry lies in the reserved area. *)
Definition LAST_INO : Z := RESERVED - 12.
Lemma LAST_INO_eq : LAST_INO = 1022. Proof. unfold LAST_INO. by rewrite RESERVED_eq. Qed.
#[global] Opaque LAST_INO.

Definition MAXFILE : Z := (NDIRECT + NINDIRECT) * BLOCK_SIZE.
Lemma MAXFILE_eq : MAXFILE = 81920.
Proof. unfold MAXFILE, NINDIRECT. by rewrite BLOCK_SIZE_eq. Qed.
#[global] Opaque MAXFILE.
Lemma NINDIRECT_eq : NINDIRECT = 128.
Proof. unfold NINDIRECT. by rewrite BLOCK_SIZE_eq. Qed.

Definition valid_ino (i : Z) : Prop := 1 <= i <= LAST_INO.

(** ** The blocks and the content of a file *)

Definition nblk (ino : inode) : Z := nblocks (i_size ino).
Definition ind_addr (ino : inode) : Z := blk_addr ino NDIRECT.
Definition direct_blocks (ino : inode) : list Z :=
  take (Z.to_nat (Z.min (nblk ino) NDIRECT)) (i_blocks ino).
Definition indirect_blocks (bm : block_manager) (ino : inode) : list Z :=
  take (Z.to_nat (nblk ino - NDIRECT)) (ld_words (bblk bm (ind_addr ino)) 0 128).
Definition data_blocks (bm : block_manager) (ino : inode) : list Z :=
  direct_blocks ino ++ indirect_blocks bm ino.
Definition table_blocks (ino : inode) : list Z :=
  if NDIRECT <? nblk ino then [ind_addr ino] else [].
Definition file_blocks (bm : block_manager) (ino : inode) : list Z :=
  data_blocks bm ino ++ table_blocks ino.
Definition content (bm : block_manager) (ino : inode) : list byte :=
  take (Z.to_nat (i_size ino)) (concat (bblk bm <$> data_blocks bm ino)).

Record file_ok (bm : block_manager) (ino : inode) : Prop := {
  fk_size : 0 <= i_size ino <= MAXFILE;
  fk_nodup : NoDup (file_blocks bm ino);
  fk_range : forall b, b ∈ file_blocks bm ino -> RESERVED <= b < BLOCK_NUM;
}.

Definition fb (bm : block_manager) (i : Z) : list Z := file_blocks bm (ino_at bm i).

Record fs_ok (bm : block_manager) : Prop := {
  ok_fs : fs_wf bm;
  ok_file : forall i, valid_ino i -> file_ok bm (ino_at bm i);
  ok_ino0 : i_type (ino_at bm 0) = 0;
  ok_zero : forall i, valid_ino i -> i_type (ino_at bm i) = 0 -> ino_at bm i = zero_inode;
  ok_disj : forall i j b, valid_ino i -> valid_ino j -> i <> j -> b ∈ fb bm i -> b ∉ fb bm j;
  ok_used : forall b, 0 <= b < BLOCK_NUM ->
    used bm b = true <-> b < RESERVED \/ exists i, valid_ino i /\ b ∈ fb bm i;
}.

(** ** Framing *)

Lemma table_in_blocks bm ino : NDIRECT < nblk ino -> ind_addr ino ∈ file_blocks bm ino.
Proof.
  intros Hn. unfold file_blocks, table_blocks. rewrite (proj2 (Z.ltb_lt _ _) Hn). set_solver.
Qed.

(** A file whose blocks are unchanged has the same blocks and the same content. *)
Lemma data_blocks_frame bm bm' ino :
  (forall b, b ∈ file_blocks bm ino -> bblk bm' b = bblk bm b) ->
  data_blocks bm' ino = data_blocks bm ino.
Proof.
  intros Hb. unfold data_blocks, indirect_blocks. f_equal.
  destruct (decide (NDIRECT < nblk ino)) as [Hn|Hn].
  - by rewrite (Hb (ind_addr ino)) by by apply table_in_blocks.
  - replace (Z.to_nat (nblk ino - NDIRECT)) with 0%nat by lia. by rewrite !take_0.
Qed.

Lemma file_blocks_frame bm bm' ino :
  (forall b, b ∈ file_blocks bm ino -> bblk bm' b = bblk bm b) ->
  file_blocks bm' ino = file_blocks bm ino.
Proof. intros Hb. unfold file_blocks. by rewrite (data_blocks_frame bm bm'). Qed.

Lemma content_frame bm bm' ino :
  (forall b, b ∈ file_blocks bm ino -> bblk bm' b = bblk bm b) ->
  content bm' ino = content bm ino.
Proof.
  intros Hb. unfold content. rewrite (data_blocks_frame bm bm') by done. do 2 f_equal.
  apply list_fmap_ext. intros k b Hk. apply Hb. unfold file_blocks.
  apply elem_of_app. left. by eapply list_elem_of_lookup_2.
Qed.

Lemma file_ok_frame bm bm' ino :
  (forall b, b ∈ file_blocks bm ino -> bblk bm' b = bblk bm b) ->
  file_ok bm ino -> file_ok bm' ino.
Proof.
  intros Hb [Hs Hnd Hr]. split; [done|..]; rewrite (file_blocks_frame bm bm'); done.
Qed.

(** ** Changing one file *)

(** [bm'] is [bm] with the inode and the blocks of file [i] replaced. *)
Record one_file (bm : block_manager) (i : Z) (bm' : block_manager) : Prop := {
  of_fs : fs_wf bm';
  of_ino0 : ino_at bm' 0 = ino_at bm 0;
  of_ino : forall j, valid_ino j -> j <> i -> ino_at bm' j = ino_at bm j;
  of_blk : forall j b, valid_ino j -> j <> i -> b ∈ fb bm j -> bblk bm' b = bblk bm b;
  of_ok : file_ok bm' (ino_at bm' i);
  of_zero : i_type (ino_at bm' i) = 0 -> ino_at bm' i = zero_inode;
  of_new : forall b, b ∈ fb bm' i -> b ∈ fb bm i \/ used bm b = false;
  of_used : forall b, 0 <= b < BLOCK_NUM ->
    used bm' b = true <-> (used bm b = true /\ b ∉ fb bm i) \/ b ∈ fb bm' i;
}.

Lemma one_file_fb bm i bm' j :
  one_file bm i bm' -> valid_ino j -> j <> i -> fb bm' j = fb bm j.
Proof.
  intros Hof Hj Hne. unfold fb. rewrite (of_ino _ _ _ Hof) by done.
  apply file_blocks_frame. intros b. by apply (of_blk _ _ _ Hof).
Qed.

Lemma one_file_content bm i bm' j :
  one_file bm i bm' -> valid_ino j -> j <> i ->
  content bm' (ino_at bm' j) = content bm (ino_at bm j).
Proof.
  intros Hof Hj Hne. rewrite (of_ino _ _ _ Hof) by done.
  apply content_frame. intros b. by apply (of_blk _ _ _ Hof).
Qed.

(** The new blocks of the changed file belong to no other file. *)
Lemma one_file_fresh bm i bm' j b :
  fs_ok bm -> valid_ino i -> one_file bm i bm' -> valid_ino j -> j <> i ->
  b ∈ fb bm j -> b ∉ fb bm' i.
Proof.
  intros Hok Hi Hof Hj Hne Hbj Hbi. destruct (of_new _ _ _ Hof b Hbi) as [Hold|Hfree].
  - by apply (ok_disj _ Hok j i b).
  - pose proof (fk_range _ _ (ok_file _ Hok j Hj) b Hbj) as Hr. rewrite RESERVED_eq in Hr.
    assert (used bm b = true) as Hu; [|congruence].
    apply (ok_used _ Hok); [lia|]. right. by exists j.
Qed.

Lemma one_file_ok bm i bm' : fs_ok bm -> valid_ino i -> one_file bm i bm' -> fs_ok bm'.
Proof.
  intros Hok Hi Hof. split.
  - apply Hof.
  - intros j Hj. destruct (decide (j = i)) as [->|Hne]; [apply Hof|].
    rewrite (of_ino _ _ _ Hof) by done. apply (file_ok_frame bm); [|by apply Hok].
    intros b. by apply (of_blk _ _ _ Hof).
  - rewrite (of_ino0 _ _ _ Hof). apply Hok.
  - intros j Hj. destruct (decide (j = i)) as [->|Hne]; [apply Hof|].
    rewrite (of_ino _ _ _ Hof) by done. by apply Hok.
  - intros j k b Hj Hk Hne Hbj. destruct (decide (j = i)) as [->|Hji], (decide (k = i)) as [->|Hki].
    + done.
    + rewrite (one_file_fb bm i) by done. intros Hbk. by apply (one_file_fresh bm i bm' k b).
    + rewrite (one_file_fb bm i) in Hbj by done. by apply (one_file_fresh bm i bm' j b).
    + rewrite (one_file_fb bm i) in * by done. by apply (ok_disj _ Hok j k b).
  - intros b Hb. rewrite (of_used _ _ _ Hof), (ok_used _ Hok) by done. split.
    + intros [[[Hr|(j & Hj & Hbj)] Hn]|Hn]; [by left| |right; by exists i].
      right. exists j. split; [done|]. rewrite (one_file_fb bm i); [done..|].
      intros ->. done.
    + intros [Hr|(j & Hj & Hbj)].
      * left. split; [by left|]. intros Hbi.
        pose proof (fk_range _ _ (ok_file _ Hok i Hi) b Hbi). lia.
      * destruct (decide (j = i)) as [->|Hne]; [by right|]. left.
        rewrite (one_file_fb bm i) in Hbj by done. split; [right; by exists j|].
        by apply (ok_disj _ Hok j i b).
Qed.

(** ** Address loops as lists *)

Lemma addr_nth (l : list Z) m :
  0 <= m <= Z.of_nat (length l) ->
  (fun i => nth (Z.to_nat i) l 0) <$> seqZ 0 m = take (Z.to_nat m) l.
Proof.
  intros Hm. apply list_eq_same_length with (Z.to_nat m);
    [rewrite length_take; lia|by rewrite length_fmap, length_seqZ|].
  intros k x y Hk Hx Hy. rewrite list_lookup_fmap, lookup_seqZ_lt in Hx by lia. cbn in Hx.
  rewrite lookup_take_lt in Hy by lia. simplify_eq. apply nth_lookup_Some.
  by replace (Z.to_nat (0 + Z.of_nat k)) with k by lia.
Qed.

Lemma addr_ld buf m :
  0 <= m <= NINDIRECT ->
  (fun i => ld32 buf (4 * Z.to_nat i)) <$> seqZ 0 m = take (Z.to_nat m) (ld_words buf 0 128).
Proof.
  rewrite NINDIRECT_eq. intros Hm. apply list_eq_same_length with (Z.to_nat m);
    [rewrite length_take, length_ld_words; lia|by rewrite length_fmap, length_seqZ|].
  intros k x y Hk Hx Hy. rewrite list_lookup_fmap, lookup_seqZ_lt in Hx by lia. cbn in Hx.
  rewrite lookup_take_lt, lookup_ld_words in Hy by lia. simplify_eq. unfold ld32, slice. do 3 f_equal. lia.
Qed.

Lemma nblocks_bound z n : 0 <= z <= 512 * n -> 0 <= nblocks z <= n.
Proof.
  intros. unfold nblocks. split; [apply Z.div_pos; lia|].
  apply Z.lt_succ_r, Z.div_lt_upper_bound; lia.
Qed.

Lemma nblk_bound bm ino : file_ok bm ino -> 0 <= nblk ino <= NDIRECT + NINDIRECT.
Proof.
  intros Hok. apply nblocks_bound. pose proof (fk_size _ _ Hok) as Hs.
  rewrite MAXFILE_eq in Hs. rewrite NINDIRECT_eq. unfold NDIRECT. lia.
Qed.

Lemma BLOCKS_uint_spec z : 0 <= z <= MAXFILE -> BLOCKS_uint z = nblocks z.
Proof.
  rewrite MAXFILE_eq. intros. unfold BLOCKS_uint, nblocks. rewrite BLOCK_SIZE_eq, wrapU_small by lia.
  f_equal. lia.
Qed.

Lemma BLOCKS_int_spec z : 0 <= z <= MAXFILE -> BLOCKS_int z = Ok (nblocks z).
Proof.
  rewrite MAXFILE_eq. intros. unfold BLOCKS_int. rewrite BLOCK_SIZE_eq.
  rewrite (proj2 (Z.ltb_ge _ _)) by (unfold INT_MAX; lia). f_equal.
  rewrite Z.quot_div_nonneg by lia. pose proof (nblocks_bound z 160 ltac:(lia)) as Hn.
  unfold nblocks in *. replace (z + 512 - 1) with (z + 511) by lia. apply wrapU_small. lia.
Qed.

Lemma direct_addrs ino : ino_wf ino -> 0 <= nblk ino ->
  blk_addr ino <$> seqZ 0 (Z.min (nblk ino) NDIRECT) = direct_blocks ino.
Proof.
  intros Hwf Hn. unfold direct_blocks, blk_addr.
  rewrite <- (addr_nth (i_blocks ino)); [done|]. rewrite (wf_len _ Hwf). unfold NDIRECT. lia.
Qed.

Lemma indirect_addrs bm ino : file_ok bm ino -> NDIRECT < nblk ino ->
  (fun i => ld32 (bblk bm (ind_addr ino)) (4 * Z.to_nat i)) <$> seqZ 0 (nblk ino - NDIRECT)
  = indirect_blocks bm ino.
Proof.
  intros Hok Hn. apply addr_ld. pose proof (nblk_bound _ _ Hok). lia.
Qed.

Lemma small_no_indirect bm ino : nblk ino <= NDIRECT ->
  indirect_blocks bm ino = [] /\ table_blocks ino = [].
Proof.
  intros Hn. unfold indirect_blocks, table_blocks.
  replace (Z.to_nat (nblk ino - NDIRECT)) with 0%nat by lia.
  by rewrite (proj2 (Z.ltb_ge _ _) Hn), take_0.
Qed.

(** ** Freeing a file's blocks *)

Lemma frees_perm bm bs bs' bm' : frees bm bs bm' -> bs ≡ₚ bs' -> frees bm bs' bm'.
Proof.
  intros [Hwf Hd Hu Hc] Hp. split; [done..| |by rewrite <- Hp].
  intros b Hb. rewrite Hu by done. f_equal. apply bool_decide_ext. by rewrite Hp.
Qed.

Lemma frees_blk bm bs bm' b : frees bm bs bm' -> RESERVED <= b < BLOCK_NUM -> bblk bm' b = bblk bm b.
Proof. intros Hf. rewrite RESERVED_eq. intros. apply (fr_data _ _ _ Hf); lia. Qed.

Section freeing.
Context `{Uninit}.

Lemma file_freeable bm ino :
  file_ok bm ino -> (forall b, b ∈ file_blocks bm ino -> used bm b = true) ->
  freeable bm (file_blocks bm ino).
Proof.
  intros Hok Hu. split; [apply Hok|]. intros b Hb. split; [|by apply Hu].
  pose proof (fk_range _ _ Hok b Hb) as Hr. rewrite RESERVED_eq in Hr. lia.
Qed.

Lemma freeable_perm bm bs bs' : freeable bm bs -> bs ≡ₚ bs' -> freeable bm bs'.
Proof.
  intros [Hnd Hin] Hp. split; [by rewrite <- Hp|]. intros b. rewrite <- Hp. apply Hin.
Qed.

Lemma freeable_app bm bs bs' : freeable bm (bs ++ bs') -> freeable bm bs.
Proof.
  intros [(Hnd & _)%NoDup_app Hin]. split; [done|]. intros b Hb. apply Hin. set_solver.
Qed.

(** The part of both routines that frees what hangs off the indirect block. *)
Lemma free_indirect bm ino pre bm1 :
  file_ok bm ino -> NDIRECT < nblk ino -> frees bm pre bm1 ->
  freeable bm (pre ++ indirect_blocks bm ino ++ table_blocks ino) ->
  exists bm2,
    (bm ← for_rangeM 0 (nblk ino - NDIRECT)
       (fun i bm => b ← ind_get (bm_read_block bm1 (ind_addr ino) stack_bytes) i;
                    Ok (free_block bm b)) bm1;
     Ok (free_block bm (ind_addr ino))) = Ok bm2 /\
    frees bm (pre ++ indirect_blocks bm ino ++ table_blocks ino) bm2.
Proof.
  intros Hok Hn Hf Hfr. pose proof (nblk_bound _ _ Hok).
  pose proof (fk_range _ _ Hok _ (table_in_blocks bm ino Hn)) as Hr.
  rewrite bm_read_in; [|apply Hf|rewrite RESERVED_eq in Hr; lia|apply length_stack_bytes].
  rewrite (frees_blk bm pre bm1) by done.
  destruct (free_ind_loop bm pre bm1 (bblk bm (ind_addr ino)) (nblk ino - NDIRECT))
    as (bm2 & -> & Hf2); [lia|done|rewrite indirect_addrs by done; by eapply freeable_app; rewrite <- app_assoc|].
  rewrite indirect_addrs in Hf2 by done. cbn. eexists. split; [done|].
  unfold table_blocks in *. rewrite (proj2 (Z.ltb_lt _ _) Hn) in *. rewrite app_assoc in *.
  destruct Hfr as [(_ & Hd & _)%NoDup_app Hin].
  destruct (Hin (ind_addr ino)) as [Hr' Hu]; [set_solver|].
  apply frees_snoc; [done..|]. intros Hx. apply (Hd _ Hx). set_solver.
Qed.

Lemma free_old_spec bm ino :
  bm_wf bm -> ino_wf ino -> file_ok bm ino ->
  (forall b, b ∈ file_blocks bm ino -> used bm b = true) ->
  exists bm1, free_old_blocks bm ino = Ok bm1 /\ frees bm (file_blocks bm ino) bm1.
Proof.
  intros Hwf Hiw Hok Hu. pose proof (nblk_bound _ _ Hok) as Hn.
  pose proof (file_freeable bm ino Hok Hu) as Hfr. unfold file_blocks, data_blocks in *.
  rewrite <- app_assoc in *. unfold free_old_blocks.
  rewrite BLOCKS_uint_spec by apply Hok. fold (nblk ino).
  pose proof (free_loop bm [] bm (blk_addr ino) (Z.min (nblk ino) NDIRECT)) as Hd.
  rewrite direct_addrs, app_nil_l in Hd by (done || lia).
  specialize (Hd ltac:(unfold NDIRECT; lia) (frees_nil bm Hwf) (freeable_app _ _ _ Hfr)).
  destruct (Z.ltb_spec NDIRECT (nblk ino)) as [Hlt|Hge].
  - fold (ind_addr ino). by apply free_indirect.
  - destruct (small_no_indirect bm ino Hge) as [-> ->]. rewrite !app_nil_r. eauto.
Qed.

Lemma remove_blocks_spec bm ino :
  bm_wf bm -> ino_wf ino -> file_ok bm ino ->
  (forall b, b ∈ file_blocks bm ino -> used bm b = true) ->
  exists bm1, remove_blocks bm ino = Ok bm1 /\ frees bm (file_blocks bm ino) bm1.
Proof.
  intros Hwf Hiw Hok Hu. pose proof (nblk_bound _ _ Hok) as Hn.
  pose proof (file_freeable bm ino Hok Hu) as Hfr.
  assert (file_blocks bm ino ≡ₚ (indirect_blocks bm ino ++ table_blocks ino) ++ direct_blocks ino) as Hp
    by (unfold file_blocks, data_blocks; rewrite <- app_assoc; apply Permutation_app_comm).
  pose proof (freeable_perm _ _ _ Hfr Hp) as Hfr'. unfold remove_blocks.
  rewrite BLOCKS_uint_spec by apply Hok. fold (nblk ino). 
  assert (exists bm1, (if NDIRECT <? nblk ino then
          bm' ← for_rangeM 0 (nblk ino - NDIRECT)
                 (fun i bm' => b ← ind_get (bm_read_block bm (ind_addr ino) stack_bytes) i; Ok (free_block bm' b)) bm;
          Ok (free_block bm' (ind_addr ino)) else Ok bm) = Ok bm1 /\
          frees bm (indirect_blocks bm ino ++ table_blocks ino) bm1) as (bm1 & E & Hf1).
  { destruct (Z.ltb_spec NDIRECT (nblk ino)) as [Hlt|Hge].
    - apply (free_indirect bm ino []); [done..|by apply frees_nil|by eapply freeable_app].
    - destruct (small_no_indirect bm ino Hge) as [-> ->]. exists bm. split; [done|]. by apply frees_nil. }
  fold (ind_addr ino). rewrite E. cbn. eexists. split; [done|]. eapply frees_perm; [|done].
  rewrite <- direct_addrs in * by (done || lia). apply free_loop; [unfold NDIRECT; lia|done..].
Qed.

End freeing.
