(* ===== verification/FileWrite.v ===== *)
(** * FileWrite: the effect of [write_file] *)

From Stdlib Require Import ZArith Lia.
From S2P Require Import Prelude BlockLayer Inode InodeFacts FileBlocks FileSystem.

(** Blocks a file of [n] data blocks occupies, the indirect block included. *)
Definition need (n : Z) : Z := n + (if NDIRECT <? n then 1 else 0).

Definition reserved_used (bm : block_manager) : Prop :=
  forall b, 0 <= b < RESERVED -> used bm b = true.

Lemma allocs_range bm bs bm' b :
  reserved_used bm -> allocs bm bs bm' -> b ∈ bs -> RESERVED <= b < BLOCK_NUM.
Proof.
  intros Hres Ha Hb. destruct (al_fresh _ _ _ Ha b Hb) as [Hr Hf].
  destruct (decide (b < RESERVED)) as [Hlt|]; [|lia]. rewrite Hres in Hf by lia. done.
Qed.

Lemma allocs_fs bm bs bm' : fs_wf bm -> allocs bm bs bm' -> fs_wf bm'.
Proof. intros Hfs [Hwf Hd]. by eapply same_data_fs_wf. Qed.

Section alloc.
Context `{Uninit}.

(** What [alloc_new_blocks] leaves: a list [bs] of freshly allocated blocks
    that are the blocks of any inode with the new addresses. *)
Record alloced (bm : block_manager) (nsize : Z) (bm2 : block_manager) (bl2 : list Z)
    (bs : list Z) (bm1 : block_manager) : Prop := {
  ad_allocs : allocs bm bs bm1;
  ad_len : length bl2 = 33%nat;
  ad_range : Forall (fun b => 0 <= b < 2 ^ 32) bl2;
  ad_ino : forall ino, i_blocks ino = bl2 -> nblk ino = nsize ->
    file_blocks bm2 ino ≡ₚ bs /\ wrote_blocks bm1 (table_blocks ino) bm2;
}.

Lemma allocs_u32 bm bs bm' bl :
  allocs bm bs bm' -> Forall (fun b => 0 <= b < 2 ^ 32) bl -> forall pre,
  (forall b, b ∈ pre -> b ∈ bs) -> forall n, Forall (fun b => 0 <= b < 2 ^ 32) (pre ++ drop n bl).
Proof.
  intros Ha Hbl pre Hpre n. apply Forall_app. split; [|by apply Forall_drop].
  apply Forall_forall. intros b Hb%Hpre. destruct (al_fresh _ _ _ Ha b Hb) as [Hr _].
  rewrite BLOCK_NUM_eq in Hr. lia.
Qed.

Lemma alloc_small bm bl nsize :
  fs_wf bm -> length bl = 33%nat -> Forall (fun b => 0 <= b < 2 ^ 32) bl ->
  0 <= nsize <= NDIRECT -> (Z.to_nat nsize <= free_count bm)%nat ->
  exists bs bm2 bl2, alloc_new_blocks bm bl nsize = Ok (bm2, bl2, stack_bytes) /\
    alloced bm nsize bm2 bl2 bs bm2.
Proof.
  intros Hfs Hl Hu Hn Hc. unfold alloc_new_blocks. rewrite Z.min_l by lia.
  assert (0 <= nsize <= Z.of_nat (length bl)) as Hr by (rewrite Hl; unfold NDIRECT in Hn; lia).
  destruct (alloc_direct_loop bm [] bm bl nsize Hr (allocs_nil bm (fs_bm_wf _ Hfs)) Hc)
    as (bs & bm2 & -> & Hlb & Ha). rewrite (proj2 (Z.ltb_ge NDIRECT nsize)) by lia.
  exists bs, bm2. eexists. split; [done|]. split; [done|rewrite length_app, length_drop; lia| |].
  - by eapply allocs_u32.
  - intros ino Hi Hnb. assert (nblk ino <= NDIRECT) as Hle by lia.
    destruct (small_no_indirect bm2 ino Hle) as [E1 E2].
    unfold file_blocks, data_blocks. rewrite E1, E2, !app_nil_r. split.
    + unfold direct_blocks. rewrite Hi, Hnb, Z.min_l, take_app_length' by lia. done.
    + apply wrote_blocks_nil. by eapply allocs_fs.
Qed.

Lemma alloc_large bm bl nsize :
  fs_wf bm -> reserved_used bm -> length bl = 33%nat -> Forall (fun b => 0 <= b < 2 ^ 32) bl ->
  NDIRECT < nsize <= NDIRECT + NINDIRECT -> (Z.to_nat nsize + 1 <= free_count bm)%nat ->
  exists bs bm1 bm2 bl2 indnum, alloc_new_blocks bm bl nsize = Ok (bm2, bl2, indnum) /\
    length indnum = Z.to_nat BLOCK_SIZE /\ alloced bm nsize bm2 bl2 bs bm1.
Proof.
  intros Hfs Hres Hl Hu Hn Hc. unfold alloc_new_blocks. rewrite Z.min_r by lia.
  rewrite NINDIRECT_eq in Hn. unfold NDIRECT in Hn |- *.
  destruct (alloc_direct_loop bm [] bm bl 32) as (D & bm1 & -> & HlD & Ha);
    [lia|apply allocs_nil, Hfs|lia|]. rewrite app_nil_l in Ha.
  pose proof (al_count _ _ _ Ha) as Hc1. rewrite (proj2 (Z.ltb_lt 32 nsize)) by lia.
  destruct (allocs_snoc _ _ _ Ha) as (x & -> & Hax); [lia|].
  pose proof (al_count _ _ _ Hax) as Hc2. rewrite length_app in Hc2. cbn [length] in Hc2.
  destruct (alloc_ind_loop bm (D ++ [x]) (mark bm1 x) zero_block (nsize - 32))
    as (I & bm2 & indnum & -> & Hli & Hw & HlI & HaI);
    [rewrite NINDIRECT_eq; lia|unfold zero_block; by rewrite length_replicate|done|lia|].
  cbn [mbind result_bind]. rewrite insert_after_prefix by lia.
  rewrite (drop_ge bl) by lia. rewrite app_nil_r.
  assert (nth (Z.to_nat 32) (D ++ [x]) 0 = x) as Ex
    by (rewrite app_nth2 by lia; by replace (Z.to_nat 32 - length D)%nat with 0%nat by lia).
  rewrite Ex. pose proof (allocs_fs _ _ _ Hfs HaI) as Hfs2.
  assert (RESERVED <= x < BLOCK_NUM) as Hx by (apply (allocs_range bm _ _ x Hres HaI); set_solver).
  rewrite RESERVED_eq in Hx.
  pose proof (write_block_wrote bm2 x indnum Hfs2 ltac:(lia) ltac:(lia)) as Hwr.
  rewrite take_ge in Hwr by lia. rewrite <- app_assoc in HaI.
  eexists (D ++ [x] ++ I), bm2, _, _, indnum. split; [done|]. split; [done|]. split; [done| | |].
  - rewrite length_app. cbn [length]. lia.
  - pose proof (allocs_u32 bm _ _ bl HaI Hu (D ++ [x])) as Hr.
    specialize (Hr ltac:(intros b; rewrite !elem_of_app; tauto) 33%nat).
    by rewrite drop_ge, app_nil_r in Hr by lia.
  - intros ino Hi Hnb.
    assert (ind_addr ino = x) as Eaddr by (unfold ind_addr, blk_addr; by rewrite Hi).
    unfold file_blocks, data_blocks, direct_blocks, indirect_blocks, table_blocks.
    rewrite Eaddr, Hnb, Hi, (wrote_at _ _ _ _ Hwr), Hw. unfold NDIRECT.
    rewrite (proj2 (Z.ltb_lt 32 nsize)), Z.min_r by lia.
    rewrite take_app_length', take_app_length' by lia. split.
    + rewrite <- app_assoc. apply Permutation_app_head, Permutation_app_comm.
    + eapply wrote_blocks_cons; [done|]. apply wrote_blocks_nil, Hwr.
Qed.

Lemma alloc_new_spec bm bl nsize :
  fs_wf bm -> reserved_used bm -> length bl = 33%nat -> Forall (fun b => 0 <= b < 2 ^ 32) bl ->
  0 <= nsize <= NDIRECT + NINDIRECT -> need nsize <= Z.of_nat (free_count bm) ->
  exists bs bm1 bm2 bl2 indnum, alloc_new_blocks bm bl nsize = Ok (bm2, bl2, indnum) /\
    length indnum = Z.to_nat BLOCK_SIZE /\ alloced bm nsize bm2 bl2 bs bm1.
Proof.
  intros Hfs Hres Hl Hu Hn Hc. unfold need in Hc.
  destruct (Z.ltb_spec NDIRECT nsize) as [Hlt|Hge].
  - apply alloc_large; done || lia.
  - destruct (alloc_small bm bl nsize) as (bs & bm2 & bl2 & E & Ha); [done || lia..|].
    exists bs, bm2, bm2, bl2, stack_bytes. split_and!; [done|apply length_stack_bytes|done].
Qed.

(** ** Storing the data *)

Lemma length_concat_blocks bm bs :
  bm_wf bm -> length (concat (bblk bm <$> bs)) = (512 * length bs)%nat.
Proof.
  intros Hwf. induction bs as [|b bs IH]; [done|]. rewrite fmap_cons. cbn [concat length].
  rewrite length_app, IH, length_bblk, BLOCK_SIZE_eq by done. lia.
Qed.

Lemma data_blocks_ext bm bm' ino :
  (NDIRECT < nblk ino -> bblk bm' (ind_addr ino) = bblk bm (ind_addr ino)) ->
  data_blocks bm' ino = data_blocks bm ino.
Proof.
  intros Hb. unfold data_blocks, indirect_blocks. f_equal.
  destruct (decide (NDIRECT < nblk ino)) as [Hn|Hn]; [by rewrite Hb|].
  replace (Z.to_nat (nblk ino - NDIRECT)) with 0%nat by lia. by rewrite !take_0.
Qed.

Lemma nblocks_minus z : NDIRECT * 512 <= z -> nblocks (z - NDIRECT * 512) = nblocks z - NDIRECT.
Proof.
  unfold NDIRECT, nblocks. intros. replace (z + 511) with (z - 32 * 512 + 511 + 32 * 512) by lia.
  rewrite Z.div_add by lia. lia.
Qed.

Lemma nblocks_gt z n : 0 <= z -> n < nblocks z <-> n * 512 < z.
Proof.
  intros Hz. unfold nblocks. split; intros Hn.
  - assert (n * 512 + 512 <= (z + 511)); [|lia].
    transitivity (512 * ((z + 511) / 512)); [lia|apply Z.mul_div_le; lia].
  - apply Z.le_succ_l, Z.div_le_lower_bound; lia.
Qed.

Lemma fmap_wrote_other bm (bs bs' : list Z) bm' :
  wrote_blocks bm bs' bm' -> (forall b, b ∈ bs -> 0 <= b /\ b ∉ bs') ->
  bblk bm' <$> bs = bblk bm <$> bs.
Proof.
  intros Hw Hb. apply list_fmap_ext. intros k b Hk%list_elem_of_lookup_2.
  destruct (Hb b Hk). by apply (wb_other _ _ _ Hw).
Qed.

(** The first loop: the direct blocks hold the data, or its first 16384 bytes. *)
Lemma write_direct bm ino data :
  fs_wf bm -> ino_wf ino -> file_ok bm ino -> i_size ino = Z.of_nat (length data) ->
  let r := Z.min (i_size ino) (512 * NDIRECT) in
  exists bm1 block1,
    write_loop (Z.to_nat NDIRECT) bm (fun i => nth (Z.to_nat i) (i_blocks ino) 0)
      0 (i_size ino) 0 data stack_bytes = (r, bm1, block1) /\
    length block1 = 512%nat /\ wrote_blocks bm (direct_blocks ino) bm1 /\
    take (Z.to_nat r) (concat (bblk bm1 <$> direct_blocks ino)) = take (Z.to_nat r) data.
Proof.
  intros Hfs Hiw Hok Hsz r. pose proof (nblk_bound _ _ Hok) as Hnb.
  pose proof (fk_size _ _ Hok) as Hsize. pose proof (fk_nodup _ _ Hok) as Hnd.
  pose proof (write_loop_spec (Z.to_nat NDIRECT) bm (fun i => nth (Z.to_nat i) (i_blocks ino) 0)
    0 (i_size ino) 0 data stack_bytes Hfs) as Hloop.
  rewrite length_stack_bytes, BLOCK_SIZE_eq, !Z.sub_0_r, Z2Nat.id in Hloop by (unfold NDIRECT; lia).
  fold (nblk ino) in Hloop. rewrite (Z.min_comm NDIRECT), Z.add_0_l in Hloop. fold r in Hloop.
  pose proof (direct_addrs ino Hiw ltac:(lia)) as HD. unfold blk_addr in HD. rewrite HD in Hloop.
  destruct Hloop as (bm1 & block1 & E & Hb1 & Hw & Hc); [done|lia|done|..].
  - unfold file_blocks, data_blocks in Hnd. rewrite <- app_assoc in Hnd. by apply NoDup_app in Hnd as [? _].
  - intros b Hb. assert (b ∈ file_blocks bm ino) as Hb'%(fk_range _ _ Hok)
      by (unfold file_blocks, data_blocks; set_solver). rewrite RESERVED_eq in Hb'. lia.
  - exists bm1, block1. rewrite Z.sub_0_r in Hc. done.
Qed.

(** The second loop: the blocks behind the indirect block hold the rest. *)
Lemma write_indirect bm ino bm1 indnum data block :
  fs_wf bm -> file_ok bm ino -> i_size ino = Z.of_nat (length data) -> NDIRECT < nblk ino ->
  wrote_blocks bm (direct_blocks ino) bm1 -> length indnum = Z.to_nat BLOCK_SIZE ->
  length block = 512%nat ->
  let ind := bm_read_block bm1 (ind_addr ino) indnum in
  exists bm2 block2,
    write_loop (Z.to_nat NINDIRECT) bm1 (fun i => ld32 ind (4 * Z.to_nat i))
      0 (i_size ino) (512 * NDIRECT) data block = (i_size ino, bm2, block2) /\
    wrote_blocks bm1 (indirect_blocks bm ino) bm2 /\
    take (Z.to_nat (i_size ino - 512 * NDIRECT)) (concat (bblk bm2 <$> indirect_blocks bm ino)) =
      drop (Z.to_nat (512 * NDIRECT)) data.
Proof.
  intros Hfs Hok Hsz Hbig Hw1 Hli Hbl ind. pose proof (nblk_bound _ _ Hok) as Hnb.
  pose proof (fk_size _ _ Hok) as Hsize. pose proof (fk_nodup _ _ Hok) as Hnd.
  assert (NDIRECT * 512 < i_size ino) as Hgt by (apply nblocks_gt; [lia|done]).
  pose proof (fk_range _ _ Hok _ (table_in_blocks bm ino Hbig)) as Hr. rewrite RESERVED_eq in Hr.
  unfold file_blocks, data_blocks, table_blocks in Hnd. rewrite (proj2 (Z.ltb_lt _ _) Hbig) in Hnd.
  apply NoDup_app in Hnd as (HndD & HDt & _). apply NoDup_app in HndD as (_ & _ & HndI).
  assert (ind = bblk bm (ind_addr ino)) as ->.
  { unfold ind. rewrite bm_read_in; [|apply Hw1|lia|done]. apply (wb_other _ _ _ Hw1); [lia|].
    intros Hin. apply (HDt (ind_addr ino)); set_solver. }
  pose proof (write_loop_spec (Z.to_nat NINDIRECT) bm1 (fun i => ld32 (bblk bm (ind_addr ino)) (4 * Z.to_nat i))
    0 (i_size ino) (512 * NDIRECT) data block (wb_fs _ _ _ Hw1) Hbl) as Hloop.
  rewrite NINDIRECT_eq, MAXFILE_eq in *. rewrite Z2Nat.id in Hloop by lia.
  rewrite (Z.mul_comm 512 NDIRECT) in *. rewrite nblocks_minus in Hloop by lia. fold (nblk ino) in Hloop.
  rewrite (Z.min_r 128), indirect_addrs in Hloop by (done || lia).
  rewrite (Z.min_l (i_size ino)) in Hloop by (unfold NDIRECT; lia).
  destruct Hloop as (bm2 & block2 & E & _ & Hw2 & Hc); [unfold NDIRECT in *; lia|done|done| |].
  - intros b Hb. assert (b ∈ file_blocks bm ino) as Hb'%(fk_range _ _ Hok)
      by (unfold file_blocks, data_blocks; set_solver). rewrite RESERVED_eq in Hb'. lia.
  - exists bm2, block2. split_and!; [done..|]. rewrite Hc. unfold slice. apply take_ge.
    rewrite length_drop. lia.
Qed.

Lemma write_blocks_spec bm ino indnum data :
  fs_wf bm -> length indnum = Z.to_nat BLOCK_SIZE -> ino_wf ino -> file_ok bm ino ->
  i_size ino = Z.of_nat (length data) ->
  let bm' := write_blocks bm (i_blocks ino) indnum data (i_size ino) in
  wrote_blocks bm (data_blocks bm ino) bm' /\ content bm' ino = data.
Proof.
  intros Hfs Hli Hiw Hok Hsz bm'. subst bm'. unfold write_blocks.
  pose proof (nblk_bound _ _ Hok) as Hnb. pose proof (fk_size _ _ Hok) as Hsize.
  destruct (write_direct bm ino data) as (bm1 & block1 & -> & Hbl & Hw1 & Hc1); [done..|].
  destruct (Z.ltb_spec (Z.min (i_size ino) (512 * NDIRECT)) (i_size ino)) as [Hlt|Hge].
  - assert (NDIRECT < nblk ino) as Hbig by (unfold nblk; apply nblocks_gt; lia).
    rewrite Z.min_r in * by lia.
    destruct (write_indirect bm ino bm1 indnum data block1) as (bm2 & block2 & E & Hw2 & Hc2); [done..|].
    unfold ind_addr, blk_addr in E. rewrite E. cbn zeta iota. split; [by eapply wrote_blocks_app|].
    pose proof (fk_nodup _ _ Hok) as Hnd. unfold file_blocks in Hnd.
    apply NoDup_app in Hnd as (HndD & HDt & _). unfold content.
    rewrite (data_blocks_ext bm).
    2: { intros _. pose proof (fk_range _ _ Hok _ (table_in_blocks bm ino Hbig)) as Hr.
      rewrite RESERVED_eq in Hr. apply (wb_other _ _ _ (wrote_blocks_app _ _ _ _ _ Hw1 Hw2)); [lia|].
      intros Hin. apply (HDt (ind_addr ino)); [done|].
      unfold table_blocks. rewrite (proj2 (Z.ltb_lt _ _) Hbig). set_solver. }
    unfold data_blocks in HndD |- *. apply NoDup_app in HndD as (_ & HDI & _).
    rewrite fmap_app, concat_app, (fmap_wrote_other bm1 (direct_blocks ino) _ _ Hw2).
    2: { intros b Hb. split; [|by apply HDI].
      assert (b ∈ file_blocks bm ino) as Hb'%(fk_range _ _ Hok)
        by (unfold file_blocks, data_blocks; set_solver). rewrite RESERVED_eq in Hb'. lia. }
    assert (length (concat (bblk bm1 <$> direct_blocks ino)) = Z.to_nat (512 * NDIRECT)) as HlD.
    { rewrite length_concat_blocks by apply Hw1. unfold direct_blocks.
      rewrite length_take, (wf_len _ Hiw), Z.min_r by lia. done. }
    rewrite take_ge in Hc1 by lia. rewrite Hc1.
    replace (Z.to_nat (i_size ino))
      with (length (take (Z.to_nat (512 * NDIRECT)) data) + Z.to_nat (i_size ino - 512 * NDIRECT))%nat
      by (rewrite length_take; unfold NDIRECT in *; lia).
    rewrite take_app_add, Hc2. apply take_drop.
  - assert (nblk ino <= NDIRECT) as Hsmall.
    { apply Z.nlt_ge. intros Hx. apply nblocks_gt in Hx; lia. }
    rewrite Z.min_l in Hc1 by lia. rewrite (take_ge data) in Hc1 by lia.
    unfold content, data_blocks.
    destruct (small_no_indirect bm ino Hsmall) as [-> _].
    destruct (small_no_indirect bm1 ino Hsmall) as [-> _]. rewrite app_nil_r. done.
Qed.

End alloc.

(** ** From the old blocks to the new ones *)

(** [bm'] has the blocks of [ino] freed and those of [ino'] allocated and filled. *)
Record replaced (bm : block_manager) (ino : inode) (bm' : block_manager) (ino' : inode) : Prop := {
  rp_fs : fs_wf bm';
  rp_ok : file_ok bm' ino';
  rp_new : forall b, b ∈ file_blocks bm' ino' -> b ∈ file_blocks bm ino \/ used bm b = false;
  rp_blk : forall b, 0 <= b -> ~ (2 <= b <= 9) -> b ∉ file_blocks bm' ino' -> bblk bm' b = bblk bm b;
  rp_used : forall b, 0 <= b < BLOCK_NUM ->
    used bm' b = true <-> (used bm b = true /\ b ∉ file_blocks bm ino) \/ b ∈ file_blocks bm' ino';
  rp_count : (free_count bm' + length (file_blocks bm' ino') =
              free_count bm + length (file_blocks bm ino))%nat;
}.

Section replace.
Context `{Uninit}.

Lemma wrote_file_blocks bm ino bm' :
  file_ok bm ino -> wrote_blocks bm (data_blocks bm ino) bm' ->
  file_blocks bm' ino = file_blocks bm ino.
Proof.
  intros Hok Hw. unfold file_blocks. f_equal. apply data_blocks_ext. intros Hbig.
  pose proof (fk_range _ _ Hok _ (table_in_blocks bm ino Hbig)) as Hr. rewrite RESERVED_eq in Hr.
  apply (wb_other _ _ _ Hw); [lia|]. intros Hin.
  pose proof (fk_nodup _ _ Hok) as (_ & Hd & _)%NoDup_app. apply (Hd _ Hin).
  unfold table_blocks. rewrite (proj2 (Z.ltb_lt _ _) Hbig). set_solver.
Qed.

(** The bookkeeping of the four phases: freed, allocated, indirect block
    written, data written. *)
Lemma replaced_intro bm ino bm1 bs bm1a bm2 ino' bm3 :
  frees bm (file_blocks bm ino) bm1 -> allocs bm1 bs bm1a ->
  wrote_blocks bm1a (table_blocks ino') bm2 -> file_ok bm2 ino' ->
  file_blocks bm2 ino' ≡ₚ bs -> wrote_blocks bm2 (data_blocks bm2 ino') bm3 ->
  replaced bm ino bm3 ino'.
Proof.
  intros Hf Ha Hw2 Hok Hp Hw3. pose proof (wrote_file_blocks _ _ _ Hok Hw3) as E.
  split; rewrite ?E.
  - apply Hw3.
  - split; rewrite ?E; apply Hok.
  - intros b Hb. rewrite Hp in Hb. destruct (al_fresh _ _ _ Ha b Hb) as [Hr Hu].
    rewrite (fr_used _ _ _ Hf) in Hu by done. destruct (used bm b); [left|by right].
    cbn in Hu. apply bool_decide_eq_false in Hu. by apply dec_stable.
  - intros b Hb Hnb Hnin. unfold file_blocks in Hnin. apply not_elem_of_app in Hnin as [Hn1 Hn2].
    rewrite (wb_other _ _ _ Hw3), (wb_other _ _ _ Hw2) by done.
    rewrite (proj2 (al_data _ _ _ Ha)), (proj2 (fr_data _ _ _ Hf)) by done. done.
  - intros b Hb. rewrite (wb_used _ _ _ Hw3), (wb_used _ _ _ Hw2), (al_used _ _ _ Ha),
      (fr_used _ _ _ Hf) by done.
    rewrite orb_true_iff, andb_true_iff, !bool_decide_eq_true. by rewrite Hp.
  - rewrite Hp. pose proof (al_count _ _ _ Ha). pose proof (fr_count _ _ _ Hf).
    rewrite (free_count_ext bm2) by apply Hw3. rewrite (free_count_ext bm1a) by apply Hw2. lia.
Qed.

Lemma length_file_blocks bm ino :
  ino_wf ino -> file_ok bm ino -> Z.of_nat (length (file_blocks bm ino)) = need (nblk ino).
Proof.
  intros Hiw Hok. pose proof (nblk_bound _ _ Hok) as Hn. rewrite NINDIRECT_eq in Hn.
  unfold file_blocks, data_blocks, direct_blocks, indirect_blocks, table_blocks, need.
  rewrite !length_app, !length_take, (wf_len _ Hiw), length_ld_words. unfold NDIRECT in *.
  destruct (Z.ltb_spec 32 (nblk ino)); cbn [length]; lia.
Qed.

(** The middle of [write_file]: everything between [get_inode] and [put_inode]. *)
Lemma rewrite_spec bm ino data now :
  fs_wf bm -> ino_wf ino -> file_ok bm ino -> reserved_used bm ->
  (forall b, b ∈ file_blocks bm ino -> used bm b = true) ->
  Z.of_nat (length data) <= MAXFILE ->
  need (nblocks (Z.of_nat (length data))) <=
    Z.of_nat (free_count bm) + Z.of_nat (length (file_blocks bm ino)) ->
  exists bm1 bm2 bl indnum bm3,
    let size := Z.of_nat (length data) in
    let ino' := mk_inode (i_type ino) (u32 size) (i_atime ino) (u32 now) (u32 now) bl in
    free_old_blocks bm ino = Ok bm1 /\
    alloc_new_blocks bm1 (i_blocks ino) (nblocks size) = Ok (bm2, bl, indnum) /\
    write_blocks bm2 bl indnum data size = bm3 /\
    ino_wf ino' /\ replaced bm ino bm3 ino' /\ content bm3 ino' = data.
Proof.
  intros Hfs Hiw Hok Hres Hu Hmax Hneed. set (size := Z.of_nat (length data)) in *.
  destruct (free_old_spec bm ino) as (bm1 & E1 & Hf); [apply Hfs|done..|].
  assert (reserved_used bm1) as Hres1.
  { intros b Hb. rewrite (fr_used _ _ _ Hf) by (rewrite RESERVED_eq, BLOCK_NUM_eq in *; lia).
    rewrite Hres by done. cbn. apply bool_decide_eq_true. intros Hin%(fk_range _ _ Hok). lia. }
  assert (fs_wf bm1) as Hfs1 by (eapply same_data_fs_wf; [done|apply Hf..]).
  rewrite MAXFILE_eq in Hmax.
  destruct (alloc_new_spec bm1 (i_blocks ino) (nblocks size))
    as (bs & bm1a & bm2 & bl & indnum & E2 & Hli & [Ha Hlb Hrb Hino]).
  { done. } { done. } { apply Hiw. } { apply Hiw. }
  { rewrite NINDIRECT_eq. apply nblocks_bound. unfold NDIRECT. lia. }
  { rewrite (fr_count _ _ _ Hf). lia. }
  set (ino' := mk_inode (i_type ino) (u32 size) (i_atime ino) (u32 now) (u32 now) bl).
  assert (i_size ino' = size) as Esz by (cbn [i_size ino']; apply wrapU_small; lia).
  assert (ino_wf ino') as Hiw'.
  { destruct Hiw. split; cbn [i_type i_size i_atime i_mtime i_ctime i_blocks ino'];
      try apply wrapU_range; done || lia. }
  destruct (Hino ino' eq_refl) as [Hp Hw2]; [unfold nblk; by rewrite Esz|].
  assert (file_ok bm2 ino') as Hok2.
  { split; [rewrite Esz, MAXFILE_eq; lia|rewrite Hp; apply Ha|].
    intros b Hb. rewrite Hp in Hb. by eapply (allocs_range bm1). }
  pose proof (write_blocks_spec bm2 ino' indnum data (wb_fs _ _ _ Hw2) Hli Hiw' Hok2 Esz) as [Hw3 Hc].
  rewrite Esz in Hw3, Hc. cbn [i_blocks ino'] in Hw3, Hc.
  eexists bm1, bm2, bl, indnum, _. split_and!; [done|done|reflexivity|done| |done].
  by eapply replaced_intro.
Qed.

End replace.
