(* ===== verification/FileOps.v ===== *)
(** * FileOps: each operation of the inode manager changes one file

    [alloc_inode], [write_file], [read_file], [remove_file] and [getattr] on a
    disk that satisfies [fs_ok]: the result, the new content and attributes of
    the file, and that nothing else changes. *)

From Stdlib Require Import ZArith Lia.
From S2P Require Import Prelude BlockLayer Inode InodeFacts FileBlocks FileSystem FileWrite.

Definition live (bm : block_manager) (i : Z) : Prop := i_type (ino_at bm i) <> 0.

Lemma valid_ino_range i : valid_ino i -> 1 <= i <= 1022 /\ 0 <= i < INODE_NUM.
Proof. unfold valid_ino, INODE_NUM. rewrite LAST_INO_eq. lia. Qed.

Lemma ok_reserved bm : fs_ok bm -> reserved_used bm.
Proof.
  intros Hok b Hb. rewrite RESERVED_eq in Hb. apply (ok_used _ Hok); [rewrite BLOCK_NUM_eq; lia|].
  left. rewrite RESERVED_eq. lia.
Qed.

Lemma ok_blocks_used bm i b : fs_ok bm -> valid_ino i -> b ∈ fb bm i -> used bm b = true.
Proof.
  intros Hok Hi Hb. pose proof (fk_range _ _ (ok_file _ Hok i Hi) b Hb) as Hr.
  rewrite RESERVED_eq in Hr. apply (ok_used _ Hok); [lia|]. right. by exists i.
Qed.

(** The inode blocks of valid inodes lie below the data area and above the bitmap. *)
Lemma inode_block_apart i b : valid_ino i -> RESERVED <= b -> b <> i + 11.
Proof. intros Hi%valid_ino_range Hb. rewrite RESERVED_eq in Hb. lia. Qed.

(** Replacing the blocks of file [i] and then its inode changes one file. *)
Lemma replaced_one_file bm i bm3 ino' c bm4 :
  fs_ok bm -> valid_ino i -> replaced bm (ino_at bm i) bm3 ino' ->
  (i_type ino' = 0 -> ino' = zero_inode) ->
  wrote bm3 (i + 11) c bm4 -> ino_at bm4 i = ino' ->
  one_file bm i bm4 /\ content bm4 ino' = content bm3 ino' /\ fb bm4 i = file_blocks bm3 ino' /\
  free_count bm4 = free_count bm3.
Proof.
  intros Hok Hi Hrp Hz Hw Hino. pose proof (valid_ino_range i Hi) as [Hir _].
  assert (forall b, b ∈ file_blocks bm3 ino' -> bblk bm4 b = bblk bm3 b) as Hsame.
  { intros b Hb. pose proof (fk_range _ _ (rp_ok _ _ _ _ Hrp) b Hb) as Hr.
    apply (wrote_other _ _ _ _ Hw); [rewrite RESERVED_eq in Hr; lia|by apply inode_block_apart, Hr]. }
  assert (fb bm4 i = file_blocks bm3 ino') as Efb
    by (unfold fb; rewrite Hino; by apply file_blocks_frame).
  split; [|split; [by apply content_frame|split; [done|by apply free_count_ext, Hw]]].
  assert (forall b, 0 <= b -> ~ (2 <= b <= 9) -> b <> i + 11 -> b ∉ file_blocks bm3 ino' ->
    bblk bm4 b = bblk bm b) as Hblk.
  { intros b Hb Hn Hne Hnin. rewrite (wrote_other _ _ _ _ Hw) by done. by apply (rp_blk _ _ _ _ Hrp). }
  assert (forall b, b ∈ file_blocks bm3 ino' -> RESERVED <= b) as Hlow
    by (intros b Hb%(fk_range _ _ (rp_ok _ _ _ _ Hrp)); lia).
  split.
  - apply Hw.
  - unfold ino_at. rewrite Hblk; [done|lia..|]. intros Hb%Hlow. rewrite RESERVED_eq in Hb. lia.
  - intros j Hj Hne. pose proof (valid_ino_range j Hj) as [Hjr _]. unfold ino_at.
    rewrite Hblk; [done|lia..|]. intros Hb%Hlow. rewrite RESERVED_eq in Hb. lia.
  - intros j b Hj Hne Hb. pose proof (fk_range _ _ (ok_file _ Hok j Hj) b Hb) as Hr.
    apply Hblk; [rewrite RESERVED_eq in Hr; lia..|apply inode_block_apart; [done|lia]|].
    intros Hb'. destruct (rp_new _ _ _ _ Hrp b Hb') as [Hold|Hfree].
    + by apply (ok_disj _ Hok j i b).
    + rewrite (ok_blocks_used bm j b) in Hfree by done. done.
  - rewrite Hino. apply (file_ok_frame bm3); [done|apply Hrp].
  - by rewrite Hino.
  - intros b. rewrite Efb. apply (rp_new _ _ _ _ Hrp).
  - intros b Hb. rewrite Efb, (wrote_used _ _ _ _ Hw) by done. by apply (rp_used _ _ _ _ Hrp).
Qed.

Section ops.
Context `{Uninit}.

#[local] Opaque write_blocks alloc_new_blocks free_old_blocks put_inode.

(** ** write_file *)

Record written (bm : block_manager) (i : Z) (data : list byte) (now : Z) (bm' : block_manager) : Prop := {
  wn_one : one_file bm i bm';
  wn_type : i_type (ino_at bm' i) = i_type (ino_at bm i);
  wn_size : i_size (ino_at bm' i) = Z.of_nat (length data);
  wn_atime : i_atime (ino_at bm' i) = i_atime (ino_at bm i);
  wn_mtime : i_mtime (ino_at bm' i) = u32 now;
  wn_ctime : i_ctime (ino_at bm' i) = u32 now;
  wn_content : content bm' (ino_at bm' i) = data;
}.

Lemma write_file_written im i data now :
  fs_ok (im_bm im) -> valid_ino i -> live (im_bm im) i ->
  Z.of_nat (length data) <= MAXFILE ->
  need (nblocks (Z.of_nat (length data))) <=
    Z.of_nat (free_count (im_bm im)) + Z.of_nat (length (fb (im_bm im) i)) ->
  exists im', write_file im i data (Z.of_nat (length data)) now = Ok im' /\
    written (im_bm im) i data now (im_bm im').
Proof.
  intros Hok Hi Hlive Hmax Hneed. pose proof (valid_ino_range i Hi) as [_ Hir].
  unfold write_file. rewrite get_inode_spec by (apply Hok || done).
  rewrite (proj2 (Z.eqb_neq _ _) Hlive). rewrite deref_Some, bind_Ok.
  rewrite BLOCKS_int_spec by lia. rewrite bind_Ok.
  destruct (rewrite_spec (im_bm im) (ino_at (im_bm im) i) data now)
    as (bm1 & bm2 & bl & indnum & bm3 & -> & E2 & <- & Hiw & Hrp & Hc);
    [apply Hok|apply ino_at_wf|by apply Hok|by apply ok_reserved|intros b; by apply ok_blocks_used|done..|].
  rewrite bind_Ok. rewrite E2, bind_Ok. cbv beta iota.
  set (ino' := mk_inode _ _ _ _ _ bl) in *. set (bm3 := write_blocks _ _ _ _ _) in *.
  destruct (put_inode_spec (mk_im bm3) i ino') as (c & Hw & Hino); [apply Hrp|done..|].
  eexists. split; [done|]. cbn [im_bm] in Hw.
  assert (i_type ino' = 0 -> ino' = zero_inode) as Hz by (intros Hz; by destruct Hlive).
  destruct (replaced_one_file (im_bm im) i bm3 ino' c _ Hok Hi Hrp Hz Hw Hino) as (Hone & Hc' & Hfb & _).
  rewrite MAXFILE_eq in Hmax.
  split; rewrite ?Hino; [done|done|cbn; apply wrapU_small; lia|done..|]. by rewrite Hc', Hc.
Qed.

(** ** put_inode of an inode with the same size and addresses *)

Lemma same_blocks bm ino ino' :
  i_size ino' = i_size ino -> i_blocks ino' = i_blocks ino ->
  file_blocks bm ino' = file_blocks bm ino /\ content bm ino' = content bm ino.
Proof.
  intros Es Eb. unfold content, file_blocks, data_blocks, direct_blocks, indirect_blocks,
    table_blocks, ind_addr, blk_addr, nblk. by rewrite Es, Eb.
Qed.

Lemma same_blocks_replaced bm i ino' :
  fs_ok bm -> valid_ino i ->
  i_size ino' = i_size (ino_at bm i) -> i_blocks ino' = i_blocks (ino_at bm i) ->
  replaced bm (ino_at bm i) bm ino'.
Proof.
  intros Hok Hi Es Eb. destruct (same_blocks bm _ _ Es Eb) as [E _].
  split; rewrite ?E; [apply Hok| |by left|done| |done].
  - split; rewrite ?Es, ?E; by apply Hok.
  - intros b Hb. split; [|intros [[? _]|Hin]; [done|by apply (ok_blocks_used bm i)]].
    intros Hu. destruct (decide (b ∈ file_blocks bm (ino_at bm i))); auto.
Qed.

(** ** read_file *)

Lemma read_loops im ino :
  fs_wf (im_bm im) -> ino_wf ino -> file_ok (im_bm im) ino ->
  let fsize := i_size ino in
  (let '(rsize, res, buf) := read_loop (Z.to_nat NDIRECT) (im_bm im) (blk_addr ino) 0 fsize 0
                                  (heap_bytes (Z.to_nat fsize)) stack_bytes in
   if rsize <? fsize then
     let indnum := bm_read_block (im_bm im) (blk_addr ino NDIRECT) stack_bytes in
     let '(_, res, _) := read_loop (Z.to_nat NINDIRECT) (im_bm im)
                           (fun i => ld32 indnum (4 * Z.to_nat i)) 0 fsize rsize res buf in
     res
   else res) = content (im_bm im) ino.
Proof.
  intros Hfs Hiw Hok fsize. set (bm := im_bm im) in *.
  pose proof (nblk_bound _ _ Hok) as Hnb. pose proof (fk_size _ _ Hok) as Hsize.
  rewrite MAXFILE_eq in Hsize. rewrite NINDIRECT_eq in *. fold fsize in Hsize.
  assert (forall b, b ∈ file_blocks bm ino -> 0 <= b < BLOCK_NUM) as Hrange
    by (intros b Hb%(fk_range _ _ Hok); rewrite RESERVED_eq in Hb; lia).
  pose proof (length_heap_bytes (Z.to_nat fsize)) as Hlh.
  pose proof (read_loop_spec (Z.to_nat NDIRECT) bm (blk_addr ino) 0 fsize 0
    (heap_bytes (Z.to_nat fsize)) stack_bytes (fs_bm_wf _ Hfs)) as Hloop.
  rewrite length_stack_bytes, BLOCK_SIZE_eq, !Z.sub_0_r, Z2Nat.id in Hloop by (unfold NDIRECT; lia).
  fold (nblk ino) in Hloop. rewrite (Z.min_comm NDIRECT), direct_addrs in Hloop by (done || lia).
  destruct Hloop as (buf' & Hb' & ->); [done|lia|rewrite Hlh; lia|unfold INT_MAX; lia| |].
  { intros b Hb. apply Hrange. unfold file_blocks, data_blocks. set_solver. }
  change (Z.to_nat 0) with 0%nat. rewrite take_0, app_nil_l, Z.sub_0_r, Z.add_0_l.
  destruct (Z.ltb_spec (Z.min fsize (512 * NDIRECT)) fsize) as [Hlt|Hge].
  - assert (NDIRECT < nblk ino) as Hbig by (apply nblocks_gt; lia). rewrite Z.min_r by lia.
    fold (ind_addr ino). rewrite bm_read_in; [|apply Hfs|by apply Hrange, table_in_blocks|apply length_stack_bytes].
    assert (length (concat (bblk bm <$> direct_blocks ino)) = Z.to_nat (512 * NDIRECT)) as HlD.
    { rewrite length_concat_blocks by apply Hfs. unfold direct_blocks.
      rewrite length_take, (wf_len _ Hiw), Z.min_r by lia. done. }
    rewrite (take_ge (concat _)) by lia. set (D := concat _) in *.
    set (res := D ++ _). pose proof (read_loop_spec (Z.to_nat 128) bm
      (fun i => ld32 (bblk bm (ind_addr ino)) (4 * Z.to_nat i)) 0 fsize (512 * NDIRECT)
      res buf' (fs_bm_wf _ Hfs) Hb') as Hloop.
    rewrite Z2Nat.id in Hloop by lia. rewrite (Z.mul_comm 512 NDIRECT) in *.
    rewrite nblocks_minus in Hloop by lia. change (nblocks fsize) with (nblk ino) in Hloop.
    rewrite (Z.min_r 128), indirect_addrs in Hloop by (done || lia).
    cbv zeta. destruct Hloop as (buf2 & _ & ->).
    { unfold NDIRECT in *. lia. }
    { unfold res. rewrite length_app, length_drop, HlD, Hlh. unfold NDIRECT in *. lia. }
    { unfold INT_MAX. lia. }
    { intros b Hb. apply Hrange. unfold file_blocks, data_blocks. set_solver. }
    rewrite (Z.min_l fsize) by (unfold NDIRECT in *; lia). unfold content, data_blocks.
    rewrite fmap_app, concat_app. fold D. fold fsize.
    replace (take (Z.to_nat (NDIRECT * 512)) res) with D
      by (unfold res; by rewrite take_app_length' by lia).
    rewrite drop_ge, app_nil_r by (unfold res; rewrite length_app, length_drop; lia).
    replace (Z.to_nat fsize) with (length D + Z.to_nat (fsize - NDIRECT * 512))%nat
      by (rewrite HlD; unfold NDIRECT in *; lia).
    by rewrite take_app_add.
  - assert (nblk ino <= NDIRECT) as Hsmall.
    { apply Z.nlt_ge. intros Hx. apply nblocks_gt in Hx; lia. }
    rewrite Z.min_l by lia. unfold content, data_blocks.
    destruct (small_no_indirect bm ino Hsmall) as [-> _]. rewrite app_nil_r.
    rewrite drop_ge, app_nil_r by lia. done.
Qed.

(** [read_file] returns the content of the file and touches its times. *)
Record touched (bm : block_manager) (i now : Z) (bm' : block_manager) : Prop := {
  td_one : one_file bm i bm';
  td_ino : ino_at bm' i =
    let o := ino_at bm i in mk_inode (i_type o) (i_size o) (u32 now) (i_mtime o) (u32 now) (i_blocks o);
  td_content : content bm' (ino_at bm' i) = content bm (ino_at bm i);
}.

Lemma read_file_spec im i now :
  fs_ok (im_bm im) -> valid_ino i -> live (im_bm im) i ->
  exists im', read_file im i now =
      (Some (content (im_bm im) (ino_at (im_bm im) i), i_size (ino_at (im_bm im) i)), im') /\
    touched (im_bm im) i now (im_bm im').
Proof.
  intros Hok Hi Hlive. pose proof (valid_ino_range i Hi) as [_ Hir].
  pose proof (ino_at_wf (im_bm im) i) as Hiw. pose proof (ok_file _ Hok i Hi) as Hfok.
  pose proof (read_loops im (ino_at (im_bm im) i) (ok_fs _ Hok) Hiw Hfok) as Hread.
  unfold read_file. rewrite get_inode_spec by (apply Hok || done).
  rewrite (proj2 (Z.eqb_neq _ _) Hlive). set (o := ino_at (im_bm im) i) in *.
  revert Hread. cbv zeta. destruct (read_loop (Z.to_nat NDIRECT) _ _ _ _ _ _ _) as [[rsize res] buf].
  intros Hread. rewrite Hread.
  assert (s32 (i_size o) = i_size o) as ->.
  { pose proof (fk_size _ _ Hfok) as Hs. rewrite MAXFILE_eq in Hs. apply wrapS_small; lia. }
  set (ino' := mk_inode _ _ _ _ _ _). eexists. split; [done|].
  assert (ino_wf ino') as Hiw'.
  { destruct Hiw. split; cbn [i_type i_size i_atime i_mtime i_ctime i_blocks ino'];
      try apply wrapU_range; done || lia. }
  destruct (put_inode_spec im i ino') as (c & Hw & Hino); [apply Hok|done..|].
  assert (i_type ino' = 0 -> ino' = zero_inode) as Hz by (intros Hz; by destruct Hlive).
  assert (replaced (im_bm im) o (im_bm im) ino') as Hrp by by apply same_blocks_replaced.
  destruct (replaced_one_file (im_bm im) i (im_bm im) ino' c _ Hok Hi Hrp Hz Hw Hino) as (Hone & Hc' & _ & _).
  split; [done|by rewrite Hino|]. rewrite Hino, Hc'. by apply same_blocks.
Qed.

(** ** remove_file *)

Lemma zero_inode_empty bm : file_blocks bm zero_inode = [].
Proof.
  unfold file_blocks, data_blocks, direct_blocks, indirect_blocks, table_blocks. done.
Qed.

Lemma frees_replaced bm i bm1 :
  fs_ok bm -> valid_ino i -> frees bm (fb bm i) bm1 -> replaced bm (ino_at bm i) bm1 zero_inode.
Proof.
  intros Hok Hi Hf. split; rewrite ?zero_inode_empty.
  - eapply same_data_fs_wf; [apply Hok|apply Hf..].
  - split; rewrite ?zero_inode_empty; [cbn; rewrite MAXFILE_eq; lia|constructor|set_solver].
  - set_solver.
  - intros b Hb Hn _. by apply (fr_data _ _ _ Hf).
  - intros b Hb. rewrite (fr_used _ _ _ Hf), andb_true_iff, bool_decide_eq_true by done. set_solver.
  - rewrite (fr_count _ _ _ Hf). unfold fb. cbn [length]. lia.
Qed.

Lemma remove_file_spec im i :
  fs_ok (im_bm im) -> valid_ino i -> live (im_bm im) i ->
  exists im', remove_file im i = Ok im' /\ one_file (im_bm im) i (im_bm im') /\
    ino_at (im_bm im') i = zero_inode.
Proof.
  intros Hok Hi Hlive. pose proof (valid_ino_range i Hi) as [Hir' Hir].
  unfold remove_file. rewrite get_inode_spec by (apply Hok || done).
  rewrite (proj2 (Z.eqb_neq _ _) Hlive).
  destruct (remove_blocks_spec (im_bm im) (ino_at (im_bm im) i)) as (bm1 & -> & Hf);
    [apply Hok|apply ino_at_wf|by apply Hok|intros b; by apply ok_blocks_used|].
  cbn [mbind result_bind]. pose proof (frees_replaced _ i bm1 Hok Hi Hf) as Hrp.
  assert (ino_at bm1 i = ino_at (im_bm im) i) as Esame by (apply same_data_ino; [apply Hf|lia]).
  unfold free_inode. rewrite get_inode_spec by (apply Hrp || done). cbn [im_bm].
  rewrite Esame, (proj2 (Z.eqb_neq _ _) Hlive). cbn [deref mbind result_bind].
  rewrite (proj2 (Z.eqb_neq _ _) Hlive). eexists. split; [done|].
  destruct (put_inode_spec (mk_im bm1) i zero_inode) as (c & Hw & Hino);
    [apply Hrp|done|apply zero_inode_wf|]. cbn [im_bm] in Hw.
  by destruct (replaced_one_file (im_bm im) i bm1 zero_inode c _ Hok Hi Hrp (fun _ => eq_refl) Hw Hino)
    as (Hone & _).
Qed.

Lemma remove_file_missing im i : get_inode im i = None -> remove_file im i = Ok im.
Proof. intros E. unfold remove_file. by rewrite E. Qed.

(** ** alloc_inode *)

Lemma alloc_inode_spec im type now i :
  fs_ok (im_bm im) -> valid_ino i -> s16 type <> 0 ->
  (forall j, 1 <= j < i -> live (im_bm im) j) -> ~ live (im_bm im) i ->
  exists im', alloc_inode im type now = (i, im') /\ one_file (im_bm im) i (im_bm im') /\
    ino_at (im_bm im') i = fresh_inode type now.
Proof.
  intros Hok Hi Htype Hlow Hfree. pose proof (valid_ino_range i Hi) as [Hir' Hir].
  assert (i_type (ino_at (im_bm im) i) = 0) as Hz by (apply dec_stable; exact Hfree).
  destruct (alloc_inode_first im type now i) as (c & im' & E & Hw & Hino);
    [apply Hok|lia|done|done|]. cbn zeta in Hino.
  pose proof (ok_zero _ Hok i Hi Hz) as Ez. rewrite Ez in Hino. cbn in Hino.
  exists im'. split; [done|]. split; [|done].
  assert (replaced (im_bm im) (ino_at (im_bm im) i) (im_bm im) (fresh_inode type now)) as Hrp
    by (apply same_blocks_replaced; [done..| |]; by rewrite Ez).
  assert (i_type (fresh_inode type now) = 0 -> fresh_inode type now = zero_inode) as Hz' by done.
  by destruct (replaced_one_file (im_bm im) i (im_bm im) _ c _ Hok Hi Hrp Hz' Hw Hino) as (Hone & _).
Qed.

(** ** The inode manager's constructor *)

Lemma load_zero_block : load_inode zero_block 0 = zero_inode.
Proof.
  unfold zero_block. rewrite BLOCK_SIZE_eq. reflexivity.
Qed.

Lemma formatted_ino bm i : formatted RESERVED bm -> 0 <= i -> ino_at bm i = zero_inode.
Proof.
  intros (_ & [_ Hd] & _) Hi. unfold ino_at. rewrite Hd by lia. unfold bblk. cbn [bm_d].
  rewrite blk_disk_new. apply load_zero_block.
Qed.

(** A freshly formatted disk holds no file. *)
Lemma formatted_ok bm : formatted RESERVED bm -> fs_ok bm.
Proof.
  intros Hf. pose proof Hf as (Hwf & [Hsb Hd] & Hu).
  assert (forall i, valid_ino i -> ino_at bm i = zero_inode) as Hz
    by (intros i Hi; apply formatted_ino; [done|unfold valid_ino in Hi; lia]).
  assert (forall i b, valid_ino i -> b ∉ fb bm i) as Hno
    by (intros i b Hi; unfold fb; rewrite Hz, zero_inode_empty by done; set_solver).
  split.
  - split; [done|by rewrite Hsb..].
  - intros i Hi. rewrite Hz by done. split; rewrite ?zero_inode_empty;
      [cbn; rewrite MAXFILE_eq; lia|constructor|set_solver].
  - by rewrite formatted_ino.
  - auto.
  - intros i j b Hi Hj Hne Hb. by apply Hno in Hb.
  - intros b Hb. rewrite Hu, Z.ltb_lt by done. split; [by left|].
    intros [?|(i & Hi & Hin)]; [done|]. by apply Hno in Hin.
Qed.

(** The constructor succeeds: inode 1 is the root directory, everything else is free. *)
Lemma im_new_spec now :
  exists im, im_new now = Ok im /\ fs_ok (im_bm im) /\
    ino_at (im_bm im) 1 = fresh_inode T_DIR now /\
    forall i, valid_ino i -> i <> 1 -> ino_at (im_bm im) i = zero_inode.
Proof.
  pose proof bm_new_formatted as Hf. pose proof (formatted_ok bm_new Hf) as Hok.
  unfold im_new. generalize dependent bm_new. intros bm Hf Hok.
  assert (valid_ino 1) as H1 by (unfold valid_ino; rewrite LAST_INO_eq; lia).
  destruct (alloc_inode_spec (mk_im bm) T_DIR now 1) as (im & E & Hone & Hino); [done..| | |].
  - lia.
  - unfold live. cbn [im_bm]. rewrite (formatted_ino bm 1) by (done || lia). auto.
  - exists im. rewrite E. cbn [fst snd]. rewrite Z.eqb_refl.
    split; [done|]. split; [by apply (one_file_ok bm 1)|]. split; [done|].
    intros i Hi Hne. rewrite (of_ino _ _ _ Hone) by done. cbn [im_bm].
    apply formatted_ino; [done|unfold valid_ino in Hi; lia].
Qed.

End ops.
