(* ===== verification/ExtentServer.v ===== *)
(** * ExtentServer: the extent server and its specification

    [class extent_server] (src/extent_server.cc) answers the five requests of
    the extent protocol with the inode manager.  Its specification keeps a
    finite map from inode numbers to extents; [repr] relates such a map to a
    disk. *)

From Stdlib Require Import ZArith Lia.
From S2P Require Import Prelude BlockLayer Inode InodeFacts FileBlocks FileSystem FileWrite.
From S2P Require Import FileOps.

(** ** class extent_server *)

(** extent_protocol::xxstatus *)
Definition extent_OK : Z := 0.
Definition extent_RPCERR : Z := 1.
Definition extent_NOENT : Z := 2.
Definition extent_IOERR : Z := 3.

Record extent_server := mk_es { es_im : inode_manager }.

(** [id &= 0x7fffffff] and the cast to [uint32_t]. *)
Definition eid (id : Z) : Z := u32 (Z.land id 0x7fffffff).

Definition zero_attr : attr := mk_attr 0 0 0 0 0.

Section ops.
Context `{Uninit}.

Definition es_new (now : Z) : result extent_server := mk_es <$> im_new now.

Definition es_create (es : extent_server) (type now : Z) : Z * Z * extent_server :=
  let '(id, im) := alloc_inode (es_im es) type now in (extent_OK, id, mk_es im).

Definition es_put (es : extent_server) (id : Z) (buf : list byte) (now : Z)
    : result (Z * extent_server) :=
  let id := eid id in
  let size := s32 (Z.of_nat (length buf)) in
  im ← write_file (es_im es) id buf size now;
  Ok (extent_OK, mk_es im).

(** [size] starts at 0 and is left so when there is no inode; a negative size
    is an absurd length for [std::string::assign]. *)
Definition es_get (es : extent_server) (id now : Z) : result (Z * list byte * extent_server) :=
  let id := eid id in
  let '(out, im) := read_file (es_im es) id now in
  match out with
  | None => Ok (extent_OK, [], mk_es im)
  | Some (cbuf, size) =>
      if size =? 0 then Ok (extent_OK, [], mk_es im)
      else if size <? 0 then Abort
      else Ok (extent_OK, take (Z.to_nat size) cbuf, mk_es im)
  end.

Definition es_getattr (es : extent_server) (id : Z) : Z * attr :=
  (extent_OK, getattr (es_im es) (eid id) zero_attr).

Definition es_remove (es : extent_server) (id : Z) : result (Z * extent_server) :=
  im ← remove_file (es_im es) (eid id);
  Ok (extent_OK, mk_es im).

(** ** The requests a server receives, as registered in extent_smain.cc *)

Inductive request :=
| ReqCreate (type : Z)
| ReqPut (id : Z) (buf : list byte)
| ReqGet (id : Z)
| ReqGetattr (id : Z)
| ReqRemove (id : Z).

Inductive reply :=
| RepCreate (id : Z)
| RepPut
| RepGet (buf : list byte)
| RepGetattr (a : attr)
| RepRemove.

(** A status and a reply; [now] is the time of day during the request. *)
Definition serve (es : extent_server) (q : request) (now : Z) : result (Z * reply * extent_server) :=
  match q with
  | ReqCreate type => let '(r, id, es) := es_create es type now in Ok (r, RepCreate id, es)
  | ReqPut id buf => '(r, es) ← es_put es id buf now; Ok (r, RepPut, es)
  | ReqGet id => '(r, buf, es) ← es_get es id now; Ok (r, RepGet buf, es)
  | ReqGetattr id => let '(r, a) := es_getattr es id in Ok (r, RepGetattr a, es)
  | ReqRemove id => '(r, es) ← es_remove es id; Ok (r, RepRemove, es)
  end.

Fixpoint serve_all (es : extent_server) (qs : list (request * Z))
    : result (list (Z * reply) * extent_server) :=
  match qs with
  | [] => Ok ([], es)
  | (q, now) :: qs =>
      '(r, a, es) ← serve es q now;
      '(rs, es) ← serve_all es qs;
      Ok ((r, a) :: rs, es)
  end.

End ops.

(** ** Specification *)

Record extent := mk_extent {
  e_type : Z; e_data : list byte; e_atime : Z; e_mtime : Z; e_ctime : Z;
}.

Definition inos : list Z := seqZ 1 LAST_INO.

(** Blocks taken by an extent, and by all of them. *)
Definition e_blocks (e : extent) : Z := need (nblocks (Z.of_nat (length (e_data e)))).
Definition blocks_at (m : gmap Z extent) (i : Z) : Z :=
  match m !! i with Some e => e_blocks e | None => 0 end.
Definition zsum (l : list Z) : Z := foldr Z.add 0 l.
Definition space_used (m : gmap Z extent) : Z := zsum (blocks_at m <$> inos).
Definition CAPACITY : Z := BLOCK_NUM - RESERVED.

(** The smallest inode number with no extent. *)
Definition first_ino (m : gmap Z extent) : option Z :=
  head (filter (fun i => m !! i = None) inos).

Definition spec_attr (e : extent) : attr :=
  mk_attr (u32 (e_type e)) (e_atime e) (e_mtime e) (e_ctime e) (Z.of_nat (length (e_data e))).

(** What a request does to the map, and its reply. *)
Definition spec_serve (m : gmap Z extent) (q : request) (now : Z) : reply * gmap Z extent :=
  match q with
  | ReqCreate type =>
      match first_ino m with
      | Some i => (RepCreate i, <[i := mk_extent (s16 type) [] 0 0 (u32 now)]> m)
      | None => (RepCreate 1, m)
      end
  | ReqPut id buf =>
      (RepPut, alter (fun e => mk_extent (e_type e) buf (e_atime e) (u32 now) (u32 now)) (eid id) m)
  | ReqGet id =>
      (RepGet (default [] (e_data <$> m !! eid id)),
       alter (fun e => mk_extent (e_type e) (e_data e) (u32 now) (e_mtime e) (u32 now)) (eid id) m)
  | ReqGetattr id => (RepGetattr (default zero_attr (spec_attr <$> m !! eid id)), m)
  | ReqRemove id => (RepRemove, delete (eid id) m)
  end.

(** The inode number whose table entry lies in the data area. *)
Definition ALIASED_INO : Z := 1023.

(** Requests inside the server's means: a creation with a type and with an
    inode to spare, a write to an existing extent that is not too long and for
    which the disk has room, any other request not about inode 1023. *)
Definition admissible (m : gmap Z extent) (q : request) : Prop :=
  match q with
  | ReqCreate type => s16 type <> 0 /\ is_Some (first_ino m)
  | ReqPut id buf =>
      is_Some (m !! eid id) /\ Z.of_nat (length buf) <= MAXFILE /\
      space_used m - blocks_at m (eid id) + need (nblocks (Z.of_nat (length buf))) <= CAPACITY
  | ReqGet id | ReqGetattr id | ReqRemove id => eid id <> ALIASED_INO
  end.

#[export] Instance admissible_dec m q : Decision (admissible m q).
Proof. destruct q; cbn; apply _. Defined.

(** ** Representation *)

Definition extent_of (bm : block_manager) (ino : inode) : extent :=
  mk_extent (i_type ino) (content bm ino) (i_atime ino) (i_mtime ino) (i_ctime ino).
Definition extent_at (bm : block_manager) (i : Z) : option extent :=
  if decide (i_type (ino_at bm i) = 0) then None else Some (extent_of bm (ino_at bm i)).

Record repr (m : gmap Z extent) (es : extent_server) : Prop := {
  rp_inv : fs_ok (im_bm (es_im es));
  rp_at : forall i, valid_ino i -> m !! i = extent_at (im_bm (es_im es)) i;
  rp_dom : forall i, ~ valid_ino i -> m !! i = None;
}.
