(* ===== verification/ExtentRefine.v ===== *)
(** * ExtentRefine: the extent server implements its specification

    Space accounting (the free blocks of the bitmap are the capacity less what
    the extents take), then, request by request, that the server's reply and
    new disk are those of [spec_serve], and the same for whole runs. *)

From Stdlib Require Import ZArith Lia.
From S2P Require Import Prelude BlockLayer Inode InodeFacts FileBlocks FileSystem FileWrite.
From S2P Require Import FileOps ExtentServer.

(** ** Accounting *)

Lemma elem_of_inos i : i ∈ inos <-> valid_ino i.
Proof. unfold inos, valid_ino. rewrite elem_of_seqZ. lia. Qed.

Lemma length_filter_split {A} (P : A -> Prop) `{!forall x, Decision (P x)} (l : list A) :
  length l = (length (filter P l) + length (filter (fun x => ~ P x) l))%nat.
Proof.
  induction l as [|x l IH]; [done|]. rewrite !filter_cons.
  destruct (decide (P x)), (decide (~ P x)); cbn [length]; tauto || lia.
Qed.

Lemma NoDup_concat_fmap {A B} (f : A -> list B) (l : list A) :
  NoDup l -> (forall x, x ∈ l -> NoDup (f x)) ->
  (forall x y b, x ∈ l -> y ∈ l -> x <> y -> b ∈ f x -> b ∉ f y) -> NoDup (concat (f <$> l)).
Proof.
  induction 1 as [|x l Hx Hnd IH]; intros Hf Hd; [constructor|]. rewrite fmap_cons. cbn [concat].
  apply NoDup_app. split_and!.
  - apply Hf. left.
  - intros b Hb Hin. apply list_elem_of_In, in_concat in Hin as (l' & Hl' & Hb').
    apply list_elem_of_In, list_elem_of_fmap in Hl' as (y & -> & Hy). apply list_elem_of_In in Hb'.
    apply (Hd x y b); [left|by right|by intros ->|done|done].
  - apply IH; [intros; apply Hf; by right|]. intros y z b Hy Hz. apply Hd; by right.
Qed.

Lemma elem_of_concat_fmap {A B} (f : A -> list B) (l : list A) b :
  b ∈ concat (f <$> l) <-> exists x, x ∈ l /\ b ∈ f x.
Proof.
  rewrite list_elem_of_In, in_concat. split.
  - intros (l' & Hl' & Hb). apply list_elem_of_In, list_elem_of_fmap in Hl' as (x & -> & Hx).
    exists x. split; [done|]. by apply list_elem_of_In.
  - intros (x & Hx & Hb). exists (f x). split; apply list_elem_of_In; [|done].
    by apply list_elem_of_fmap_2.
Qed.

Definition file_space (bm : block_manager) : Z :=
  zsum ((fun i => Z.of_nat (length (fb bm i))) <$> inos).

Lemma zsum_length {A B} (f : A -> list B) l :
  zsum ((fun i => Z.of_nat (length (f i))) <$> l) = Z.of_nat (length (concat (f <$> l))).
Proof.
  induction l as [|x l IH]; [done|]. rewrite !fmap_cons. cbn [zsum foldr concat].
  rewrite length_app. unfold zsum in IH. lia.
Qed.

Lemma zsum_change (f g : Z -> Z) l i : NoDup l -> i ∈ l -> (forall j, j <> i -> g j = f j) ->
  zsum (g <$> l) = zsum (f <$> l) - f i + g i.
Proof.
  intros Hnd Hi Hfg. induction Hnd as [|x l Hx Hnd IH]; [by apply not_elem_of_nil in Hi|].
  rewrite !fmap_cons. cbn [zsum foldr]. fold (zsum (f <$> l)) (zsum (g <$> l)).
  apply elem_of_cons in Hi as [->|Hi].
  - rewrite (list_fmap_ext g f); [lia|]. intros k j Hj%list_elem_of_lookup_2. apply Hfg. by intros ->.
  - rewrite IH by done. rewrite (Hfg x) by by intros ->. lia.
Qed.

Lemma space_used_delete m i : valid_ino i -> space_used (delete i m) = space_used m - blocks_at m i.
Proof.
  intros Hi. unfold space_used. rewrite (zsum_change (blocks_at m) _ inos i).
  - unfold blocks_at at 3. rewrite lookup_delete_eq. lia.
  - apply NoDup_seqZ.
  - by apply elem_of_inos.
  - intros j Hj. unfold blocks_at. by rewrite lookup_delete_ne.
Qed.

Lemma space_used_insert_new m i e : valid_ino i -> m !! i = None ->
  space_used (<[i := e]> m) = space_used m + e_blocks e.
Proof.
  intros Hi Hm. unfold space_used. rewrite (zsum_change (blocks_at m) _ inos i).
  - unfold blocks_at at 2 3. rewrite lookup_insert_eq, Hm. lia.
  - apply NoDup_seqZ.
  - by apply elem_of_inos.
  - intros j Hj. unfold blocks_at. by rewrite lookup_insert_ne.
Qed.

(** The used blocks are the reserved ones and those of the files. *)
Lemma used_perm bm : fs_ok bm ->
  filter (fun b => ~ is_free bm b = true) all_bnums ≡ₚ seqZ 0 RESERVED ++ concat (fb bm <$> inos).
Proof.
  intros Hok. apply NoDup_Permutation.
  - apply NoDup_filter, NoDup_all_bnums.
  - apply NoDup_app. split_and!; [apply NoDup_seqZ| |].
    + intros b Hb%elem_of_seqZ (i & Hi%elem_of_inos & Hin)%elem_of_concat_fmap.
      pose proof (fk_range _ _ (ok_file _ Hok i Hi) b Hin). lia.
    + apply NoDup_concat_fmap; [apply NoDup_seqZ| |].
      * intros i Hi%elem_of_inos. by apply (ok_file _ Hok).
      * intros i j b Hi%elem_of_inos Hj%elem_of_inos. by apply (ok_disj _ Hok).
  - intros b. rewrite list_elem_of_filter, elem_of_all_bnums, elem_of_app, elem_of_seqZ, elem_of_concat_fmap.
    unfold is_free. rewrite negb_true_iff, not_false_iff_true. split.
    + intros [Hu Hb]. apply (ok_used _ Hok) in Hu as [Hu|(i & Hi & Hin)]; [left; lia| |done].
      right. exists i. by rewrite elem_of_inos.
    + intros [Hb|(i & Hi%elem_of_inos & Hin)].
      * rewrite RESERVED_eq in Hb. rewrite BLOCK_NUM_eq. split; [|lia].
        apply (ok_used _ Hok); rewrite ?BLOCK_NUM_eq, ?RESERVED_eq; lia.
      * pose proof (fk_range _ _ (ok_file _ Hok i Hi) b Hin) as Hr. rewrite RESERVED_eq in Hr.
        split; [|lia]. by apply (ok_blocks_used bm i).
Qed.

Lemma free_space bm : fs_ok bm -> Z.of_nat (free_count bm) = CAPACITY - file_space bm.
Proof.
  intros Hok. pose proof (length_filter_split (fun b => is_free bm b = true) all_bnums) as Hs.
  rewrite (used_perm bm Hok), length_app, length_seqZ in Hs. unfold all_bnums in Hs at 1.
  rewrite length_seqZ in Hs. unfold file_space. rewrite zsum_length.
  unfold free_count, count, CAPACITY. rewrite RESERVED_eq, BLOCK_NUM_eq in *. lia.
Qed.

(** ** Contents have the length their inode says *)

Lemma nblocks_cover z : 0 <= z -> z <= 512 * nblocks z.
Proof.
  intros Hz. unfold nblocks. pose proof (Z.div_mod (z + 511) 512 ltac:(lia)).
  pose proof (Z.mod_pos_bound (z + 511) 512). lia.
Qed.

Lemma length_content bm ino :
  bm_wf bm -> ino_wf ino -> file_ok bm ino -> Z.of_nat (length (content bm ino)) = i_size ino.
Proof.
  intros Hwf Hiw Hok. pose proof (nblk_bound _ _ Hok) as Hn. rewrite NINDIRECT_eq in Hn.
  pose proof (fk_size _ _ Hok) as Hs. pose proof (nblocks_cover (i_size ino) ltac:(lia)) as Hc.
  fold (nblk ino) in Hc. unfold content. rewrite length_take, length_concat_blocks by done.
  unfold data_blocks, direct_blocks, indirect_blocks.
  rewrite length_app, !length_take, (wf_len _ Hiw), length_ld_words. unfold NDIRECT in *. lia.
Qed.

(** ** Representation *)

Lemma repr_blocks m es i : repr m es -> valid_ino i ->
  blocks_at m i = Z.of_nat (length (fb (im_bm (es_im es)) i)).
Proof.
  intros [Hok Hat _] Hi. unfold blocks_at, fb. rewrite (Hat i Hi). unfold extent_at.
  destruct (decide _) as [Hz|Hz].
  - rewrite (ok_zero _ Hok i Hi Hz), zero_inode_empty. done.
  - pose proof (ok_file _ Hok i Hi) as Hf.
    rewrite length_file_blocks by (apply ino_at_wf || done). unfold e_blocks, extent_of. cbn [e_data].
    by rewrite length_content by (apply ino_at_wf || apply fs_bm_wf, Hok || done).
Qed.

Lemma repr_space m es : repr m es -> space_used m = file_space (im_bm (es_im es)).
Proof.
  intros Hr. unfold space_used, file_space. f_equal. apply list_fmap_ext.
  intros k i Hk%list_elem_of_lookup_2%elem_of_inos. by apply repr_blocks.
Qed.

Lemma repr_live m es i : repr m es -> valid_ino i -> live (im_bm (es_im es)) i <-> is_Some (m !! i).
Proof.
  intros [_ Hat _] Hi. rewrite (Hat i Hi). unfold extent_at, live. destruct (decide _); cbn; [|done].
  split; [done|]. by intros [? ?].
Qed.

Lemma repr_some m es i : repr m es -> is_Some (m !! i) -> valid_ino i.
Proof.
  intros [_ _ Hdom] [e He]. destruct (decide (1 <= i <= LAST_INO)) as [Hi|Hi]; [done|].
  rewrite Hdom in He by done. done.
Qed.

Lemma repr_extent m es i : repr m es -> valid_ino i -> live (im_bm (es_im es)) i ->
  m !! i = Some (extent_of (im_bm (es_im es)) (ino_at (im_bm (es_im es)) i)).
Proof.
  intros [_ Hat _] Hi Hl. rewrite (Hat i Hi). unfold extent_at. by rewrite decide_False.
Qed.

(** A change of file [i] is a change of the map at [i]. *)
Lemma repr_one_file m im i im' o :
  repr m (mk_es im) -> valid_ino i -> one_file (im_bm im) i (im_bm im') ->
  extent_at (im_bm im') i = o -> repr (partial_alter (fun _ => o) i m) (mk_es im').
Proof.
  intros [Hok Hat Hdom] Hi Hof Ho. cbn [es_im] in *. split; cbn [es_im].
  - by eapply one_file_ok.
  - intros j Hj. destruct (decide (j = i)) as [->|Hne]; [by rewrite lookup_partial_alter_eq|].
    rewrite lookup_partial_alter_ne, Hat by done. unfold extent_at, extent_of.
    rewrite (of_ino _ _ _ Hof) by done. destruct (decide _); [done|].
    pose proof (one_file_content _ _ _ j Hof Hj Hne) as Hc. rewrite (of_ino _ _ _ Hof) in Hc by done.
    by rewrite Hc.
  - intros j Hj. rewrite lookup_partial_alter_ne by by intros ->. by apply Hdom.
Qed.

Lemma alter_partial (f : extent -> extent) (m : gmap Z extent) i e :
  m !! i = Some e -> alter f i m = partial_alter (fun _ => Some (f e)) i m.
Proof.
  intros He. unfold alter, map_alter. apply map_eq. intros j.
  destruct (decide (j = i)) as [->|Hne].
  - by rewrite !lookup_partial_alter_eq, He.
  - by rewrite !lookup_partial_alter_ne.
Qed.

Lemma alter_id_None (f : extent -> extent) (m : gmap Z extent) i :
  m !! i = None -> alter f i m = m.
Proof.
  intros Hm. apply map_eq. intros j. destruct (decide (j = i)) as [->|Hne].
  - by rewrite lookup_alter_eq, Hm.
  - by rewrite lookup_alter_ne.
Qed.

(** ** Choosing an inode number *)

Lemma head_filter_seqZ (P : Z -> Prop) `{!forall x, Decision (P x)} n a i :
  head (filter P (seqZ a (Z.of_nat n))) = Some i ->
  a <= i < a + Z.of_nat n /\ P i /\ forall j, a <= j < i -> ~ P j.
Proof.
  revert a. induction n as [|n IH]; intros a; [done|].
  rewrite seqZ_cons, filter_cons by lia. replace (Z.pred (Z.of_nat (S n))) with (Z.of_nat n) by lia.
  destruct (decide (P a)) as [Ha|Ha]; cbn [head].
  - intros [= <-]. split_and!; [lia|lia|done|lia].
  - intros (Hr & HP & Hlow)%IH. split_and!; [lia|lia|done|]. intros j Hj.
    destruct (decide (j = a)) as [->|]; [done|]. apply Hlow. lia.
Qed.

Lemma first_ino_spec m i : first_ino m = Some i ->
  valid_ino i /\ m !! i = None /\ forall j, 1 <= j < i -> is_Some (m !! j).
Proof.
  unfold first_ino, inos, valid_ino. rewrite <- (Z2Nat.id LAST_INO) by (rewrite LAST_INO_eq; lia).
  intros (Hr & Hm & Hlow)%(head_filter_seqZ _ _ 1). rewrite Z2Nat.id in * by (rewrite LAST_INO_eq; lia).
  split_and!; [lia|lia|done|]. intros j Hj. apply not_eq_None_Some. by apply Hlow.
Qed.

Lemma eid_range id : 0 <= eid id.
Proof. unfold eid. apply wrapU_range. lia. Qed.

Section refine.
Context `{Uninit}.

(** An id with no extent has no inode, the aliased one excepted. *)
Lemma repr_missing m es e :
  repr m es -> 0 <= e -> e <> ALIASED_INO -> m !! e = None -> get_inode (es_im es) e = None.
Proof.
  intros [Hok Hat _] H0 Hne Hm. unfold ALIASED_INO in Hne.
  destruct (decide (0 <= e < INODE_NUM)) as [Hr|Hr]; [|by apply get_inode_out].
  rewrite get_inode_spec by (apply Hok || done). unfold INODE_NUM in Hr.
  destruct (decide (e = 0)) as [->|]; [by rewrite (ok_ino0 _ Hok)|].
  assert (valid_ino e) as He by (unfold valid_ino; rewrite LAST_INO_eq; lia).
  rewrite (Hat e He) in Hm. unfold extent_at in Hm. destruct (decide _) as [->|]; done.
Qed.

(** What the server answers and becomes, against the specification. *)
Definition refines (m : gmap Z extent) (es : extent_server) (q : request) (now : Z) : Prop :=
  exists es', serve es q now = Ok (extent_OK, (spec_serve m q now).1, es') /\
    repr (spec_serve m q now).2 es'.

Lemma refines_create m es type now :
  repr m es -> s16 type <> 0 -> is_Some (first_ino m) -> refines m es (ReqCreate type) now.
Proof.
  intros Hr Ht [i Hf]. pose proof (first_ino_spec m i Hf) as (Hi & Hm & Hlow). destruct es as [im].
  destruct (alloc_inode_spec im type now i) as (im' & E & Hof & Hino); [apply Hr|done|done|..].
  - intros j Hj. apply (repr_live m (mk_es im)); [done| |by apply Hlow]. unfold valid_ino in *. lia.
  - intros [e He]%(repr_live m (mk_es im)); [|done|done]. congruence.
  - unfold refines. cbn [serve spec_serve]. rewrite Hf. unfold es_create. cbn [es_im]. rewrite E.
    eexists. split; [done|]. apply (repr_one_file m im i im'); [done..|].
    unfold extent_at. rewrite decide_False by (rewrite Hino; done). rewrite Hino. done.
Qed.

Lemma refines_put m es id buf now :
  repr m es -> admissible m (ReqPut id buf) -> refines m es (ReqPut id buf) now.
Proof.
  intros Hr (Hs & Hmax & Hsp). pose proof (repr_some _ _ _ Hr Hs) as Hi.
  pose proof (proj2 (repr_live _ _ _ Hr Hi) Hs) as Hl.
  pose proof (repr_blocks _ _ _ Hr Hi) as Hb. pose proof (repr_space _ _ Hr) as Hu.
  pose proof (free_space _ (rp_inv _ _ Hr)) as Hfree.
  pose proof (repr_extent _ _ _ Hr Hi Hl) as Hm. destruct es as [im]. cbn [es_im] in *.
  destruct (write_file_written im (eid id) buf now) as (im' & E & Hw); [apply Hr|done|done|done|lia|].
  unfold refines. cbn [serve spec_serve fst snd]. unfold es_put. cbn [es_im].
  rewrite MAXFILE_eq in Hmax. rewrite wrapS_small, E by lia. cbn [mbind result_bind].
  eexists. split; [done|]. rewrite (alter_partial _ _ _ _ Hm).
  apply (repr_one_file m im (eid id) im'); [done|done|apply Hw|].
  unfold extent_at. rewrite decide_False by (rewrite (wn_type _ _ _ _ _ Hw); done).
  destruct Hw as [_ Ht _ Ha Hmt Hct Hc]. unfold extent_of. cbn [e_type e_data e_atime e_mtime e_ctime]. by rewrite Hc, Ht, Ha, Hmt, Hct.
Qed.

Lemma take_content bm ino :
  bm_wf bm -> ino_wf ino -> file_ok bm ino ->
  take (Z.to_nat (i_size ino)) (content bm ino) = content bm ino.
Proof. intros. apply take_ge. rewrite <- (length_content bm ino) by done. lia. Qed.

Lemma refines_get m es id now :
  repr m es -> eid id <> ALIASED_INO -> refines m es (ReqGet id) now.
Proof.
  intros Hr Hne. unfold refines. cbn [serve spec_serve fst snd]. unfold es_get.
  destruct (m !! eid id) as [e|] eqn:Em.
  - assert (is_Some (m !! eid id)) as Hs by eauto. pose proof (repr_some _ _ _ Hr Hs) as Hi.
    pose proof (proj2 (repr_live _ _ _ Hr Hi) Hs) as Hl.
    rewrite (repr_extent _ _ _ Hr Hi Hl) in Em. injection Em as <-.
    pose proof (repr_extent _ _ _ Hr Hi Hl) as Hm. destruct es as [im]. cbn [es_im] in *.
    destruct (read_file_spec im (eid id) now) as (im' & -> & Ht); [apply Hr|done|done|].
    set (ino := ino_at (im_bm im) (eid id)) in *.
    pose proof (ok_file _ (rp_inv _ _ Hr) _ Hi) as Hok. cbn [es_im] in Hok. fold ino in Hok.
    pose proof (ino_at_wf (im_bm im) (eid id)) as Hiw. fold ino in Hiw.
    pose proof (fs_bm_wf _ (ok_fs _ (rp_inv _ _ Hr))) as Hwf. cbn [es_im] in Hwf.
    pose proof (length_content _ _ Hwf Hiw Hok) as Hlen. pose proof (fk_size _ _ Hok) as Hsz.
    exists (mk_es im'). split.
    + destruct (Z.eqb_spec (i_size ino) 0) as [Hz|Hz].
      * rewrite Hz in Hlen. cbn. destruct (content (im_bm im) ino); [done|cbn in Hlen; lia].
      * rewrite (proj2 (Z.ltb_ge _ _)) by lia. by rewrite take_content.
    + rewrite (alter_partial _ _ _ _ Hm).
      apply (repr_one_file m im (eid id) im'); [done|done|apply Ht|].
      destruct Ht as [_ Hino Hc]. unfold extent_at.
      rewrite decide_False by (rewrite Hino; done). unfold extent_of. rewrite Hc, Hino. done.
  - pose proof (repr_missing m es (eid id) Hr (eid_range id) Hne Em) as Hg. unfold read_file. rewrite Hg.
    exists es. split; [by destruct es|]. by rewrite alter_id_None.
Qed.

Lemma refines_getattr m es id now :
  repr m es -> eid id <> ALIASED_INO -> refines m es (ReqGetattr id) now.
Proof.
  intros Hr Hne. unfold refines. cbn [serve spec_serve fst snd]. unfold es_getattr, getattr.
  exists es. split; [|done]. do 4 f_equal. destruct (m !! eid id) as [e|] eqn:Em.
  - assert (is_Some (m !! eid id)) as Hs by eauto. pose proof (repr_some _ _ _ Hr Hs) as Hi.
    pose proof (proj2 (repr_live _ _ _ Hr Hi) Hs) as Hl.
    rewrite (repr_extent _ _ _ Hr Hi Hl) in Em. injection Em as <-.
    rewrite get_inode_spec; [|apply ok_fs, Hr|by apply valid_ino_range].
    rewrite (proj2 (Z.eqb_neq _ _) Hl). unfold spec_attr, extent_of. cbn. f_equal.
    symmetry. apply length_content; [apply fs_bm_wf, ok_fs, Hr|apply ino_at_wf|].
    by apply (ok_file _ (rp_inv _ _ Hr)).
  - by rewrite (repr_missing m es (eid id) Hr (eid_range id) Hne Em).
Qed.

Lemma refines_remove m es id now :
  repr m es -> eid id <> ALIASED_INO -> refines m es (ReqRemove id) now.
Proof.
  intros Hr Hne. unfold refines. cbn [serve spec_serve fst snd]. unfold es_remove.
  destruct (m !! eid id) as [e|] eqn:Em.
  - assert (is_Some (m !! eid id)) as Hs by eauto. pose proof (repr_some _ _ _ Hr Hs) as Hi.
    pose proof (proj2 (repr_live _ _ _ Hr Hi) Hs) as Hl. destruct es as [im]. cbn [es_im] in *.
    destruct (remove_file_spec im (eid id)) as (im' & -> & Hof & Hz); [apply Hr|done|done|].
    eexists. split; [done|]. apply (repr_one_file m im (eid id) im'); [done..|].
    unfold extent_at. by rewrite decide_True by by rewrite Hz.
  - rewrite remove_file_missing by by apply (repr_missing m es (eid id) Hr (eid_range id) Hne Em).
    exists es. split; [by destruct es|]. by rewrite delete_id.
Qed.

Lemma serve_refines m es q now : repr m es -> admissible m q -> refines m es q now.
Proof.
  intros Hr Ha. destruct q; [by destruct Ha; apply refines_create|by apply refines_put|
    by apply refines_get|by apply refines_getattr|by apply refines_remove].
Qed.

(** Runs of requests, each with its time. *)
Fixpoint spec_run (m : gmap Z extent) (qs : list (request * Z)) : list (Z * reply) * gmap Z extent :=
  match qs with
  | [] => ([], m)
  | (q, now) :: qs =>
      let r := spec_serve m q now in
      let rs := spec_run r.2 qs in
      ((extent_OK, r.1) :: rs.1, rs.2)
  end.

Fixpoint admissible_run (m : gmap Z extent) (qs : list (request * Z)) : Prop :=
  match qs with
  | [] => True
  | (q, now) :: qs => admissible m q /\ admissible_run (spec_serve m q now).2 qs
  end.

#[export] Instance admissible_run_dec qs : forall m, Decision (admissible_run m qs).
Proof. induction qs as [|[q now] qs IH]; intros m; cbn [admissible_run]; apply _. Defined.

Lemma run_refines qs : forall m es, repr m es -> admissible_run m qs ->
  exists es', serve_all es qs = Ok ((spec_run m qs).1, es') /\ repr (spec_run m qs).2 es'.
Proof.
  induction qs as [|[q now] qs IH]; intros m es Hr; cbn [admissible_run]; [by eexists|].
  intros [Ha Hrun]. destruct (serve_refines m es q now Hr Ha) as (es1 & E1 & Hr1).
  destruct (IH _ _ Hr1 Hrun) as (es2 & E2 & Hr2). exists es2. cbn [serve_all spec_run fst snd].
  rewrite E1. cbn [mbind result_bind]. rewrite E2. done.
Qed.

(** The map of a new server: an empty root directory. *)
Definition spec_init (now : Z) : gmap Z extent := {[1 := mk_extent T_DIR [] 0 0 (u32 now)]}.

Lemma es_new_repr now : exists es, es_new now = Ok es /\ repr (spec_init now) es.
Proof.
  destruct (im_new_spec now) as (im & E & Hok & H1 & Hz). exists (mk_es im). unfold es_new. rewrite E.
  split; [done|]. split; cbn [es_im].
  - done.
  - intros i Hi. unfold spec_init, extent_at. destruct (decide (i = 1)) as [->|Hne].
    + rewrite lookup_singleton_eq, H1. done.
    + by rewrite lookup_singleton_ne, Hz by done.
  - intros i Hi. apply lookup_singleton_ne. intros <-. apply Hi. unfold valid_ino. rewrite LAST_INO_eq. lia.
Qed.

End refine.
