(* ===== verification/StorageProps.v ===== *)
(** * StorageProps: the guarantees of the storage server

    The main theorems about blocks, inodes, files and the extent server, each
    with an instance at a concrete disk. *)

From Stdlib Require Import ZArith Lia.
From S2P Require Import Prelude BlockLayer Inode InodeFacts FileBlocks FileSystem FileWrite.
From S2P Require Import FileOps ExtentServer ExtentRefine.

(** ** Concrete disks for the instances *)

(** A disk whose blocks all have the content [c]. *)
Definition const_bm (c : list byte) : block_manager :=
  mk_bm (mk_disk (replicate (Z.to_nat BLOCK_NUM) c)) (mk_superblock (BLOCK_SIZE * BLOCK_NUM) BLOCK_NUM INODE_NUM).

Lemma const_bm_wf c : length c = Z.to_nat BLOCK_SIZE -> fs_wf (const_bm c).
Proof.
  intros Hc. split; [|done..]. split; cbn [const_bm bm_d blocks].
  - apply length_replicate.
  - apply Forall_replicate. done.
Qed.

Lemma const_bm_blk c b : 0 <= b < BLOCK_NUM -> bblk (const_bm c) b = c.
Proof.
  intros Hb. unfold bblk, blk. cbn [const_bm bm_d blocks]. rewrite lookup_replicate_2 by lia. done.
Qed.

(** ** The extent server *)

(** C1: from a freshly formatted disk, a run of creations, reads, writes,
    attribute requests and removals, in any order and within the means of the disk,
    gets exactly the replies of a finite map from inode numbers to extents; the
    server neither crashes nor hangs, and ends on a disk that represents the final
    map.  *)
Theorem server_implements_map `{Uninit} t0 qs :
  admissible_run (spec_init t0) qs ->
  exists es0 es, es_new t0 = Ok es0 /\
    serve_all es0 qs = Ok ((spec_run (spec_init t0) qs).1, es) /\
    repr (spec_run (spec_init t0) qs).2 es.
Proof.
  intros Ha. destruct (es_new_repr t0) as (es0 & E0 & Hr).
  destruct (run_refines qs _ _ Hr Ha) as (es & E & Hr'). exists es0, es. exact (conj E0 (conj E Hr')).
Qed.

Definition demo_run : list (request * Z) :=
  [(ReqCreate T_FILE, 10); (ReqPut 2 [x68; x69], 11); (ReqGet 2, 12); (ReqGetattr 2, 13);
   (ReqCreate T_DIR, 14); (ReqRemove 2, 15); (ReqGet 2, 16)].

Lemma server_implements_map_witness :
  exists es0 es, @es_new zero_mem 7 = Ok es0 /\
    @serve_all zero_mem es0 demo_run =
      Ok ([(0, RepCreate 2); (0, RepPut); (0, RepGet [x68; x69]); (0, RepGetattr (mk_attr 2 12 11 12 2));
           (0, RepCreate 3); (0, RepRemove); (0, RepGet [])], es).
Proof.
  assert (admissible_run (spec_init 7) demo_run) as Ha by (apply (bool_decide_unpack _); vm_compute; exact I).
  destruct (@server_implements_map zero_mem 7 demo_run Ha) as (es0 & es & E0 & E & _).
  exists es0, es. split; [exact E0|]. rewrite E.
  assert ((spec_run (spec_init 7) demo_run).1 =
      [(0, RepCreate 2); (0, RepPut); (0, RepGet [x68; x69]); (0, RepGetattr (mk_attr 2 12 11 12 2));
       (0, RepCreate 3); (0, RepRemove); (0, RepGet [])]) as -> by (vm_compute; reflexivity).
  reflexivity.
Defined.

(** Writing to an inode number that has no extent makes the server dereference
    a null pointer, whatever the data. *)
Theorem put_missing_undefined `{Uninit} m es id buf now :
  repr m es -> eid id <> ALIASED_INO -> m !! eid id = None -> es_put es id buf now = Undef.
Proof.
  intros Hr Hne Hm. unfold es_put, write_file.
  by rewrite (repr_missing m es (eid id) Hr (eid_range id) Hne Hm).
Qed.

Lemma put_missing_undefined_witness :
  exists es, @es_new zero_mem 7 = Ok es /\ @es_put zero_mem es 5 [x61] 8 = Undef.
Proof.
  destruct (@es_new_repr zero_mem 7) as (es & E & Hr). exists es. split; [exact E|].
  apply (@put_missing_undefined zero_mem (spec_init 7) es 5 [x61] 8 Hr); [done|by vm_compute].
Defined.

(** C37: removing an extent gives its blocks back: the disk has that many more free
    blocks, and represents the same extents without the removed one. *)
Theorem remove_returns_blocks `{Uninit} m es id :
  repr m es -> is_Some (m !! eid id) -> eid id <> ALIASED_INO ->
  exists es', es_remove es id = Ok (extent_OK, es') /\ repr (delete (eid id) m) es' /\
    Z.of_nat (free_count (im_bm (es_im es'))) =
      Z.of_nat (free_count (im_bm (es_im es))) + blocks_at m (eid id).
Proof.
  intros Hr Hs Hne. destruct (refines_remove m es id 0 Hr Hne) as (es' & E & Hr').
  pose proof (space_used_delete m (eid id) (repr_some _ _ _ Hr Hs)) as Hd.
  cbn [serve spec_serve fst snd] in *. exists es'. split_and!; [|exact Hr'|].
  - destruct (es_remove es id) as [[r es1]| | |]; cbn in E; by simplify_eq.
  - rewrite (free_space _ (rp_inv _ _ Hr)), (free_space _ (rp_inv _ _ Hr')).
    rewrite <- (repr_space _ _ Hr), <- (repr_space _ _ Hr'). lia.
Qed.

Lemma remove_returns_blocks_witness :
  exists es es', repr (spec_run (spec_init 7) (take 2 demo_run)).2 es /\
    @es_remove zero_mem es 2 = Ok (0, es') /\
    Z.of_nat (free_count (im_bm (es_im es'))) = Z.of_nat (free_count (im_bm (es_im es))) + 1.
Proof.
  destruct (@es_new_repr zero_mem 7) as (es0 & _ & Hr0).
  destruct (@run_refines zero_mem (take 2 demo_run) _ _ Hr0) as (es & _ & Hr);
    [apply (bool_decide_unpack _); vm_compute; exact I|].
  destruct (@remove_returns_blocks zero_mem _ es 2 Hr) as (es' & E & _ & Hf);
    [vm_compute; by eexists|done|].
  exists es, es'. split; [exact Hr|]. split; [exact E|]. exact Hf.
Defined.

(** ** Blocks *)

(** C36: allocating a block takes the free block with the smallest number, marks
    it and nothing else, and freeing it gives the bitmap back, while no other
    block changes. *)
Theorem alloc_free_roundtrip `{Uninit} bm b :
  bm_wf bm -> first_free bm 0 b -> 10 < b ->
  exists bm', alloc_block bm = (b, bm') /\ bm_wf bm' /\ same_data bm bm' /\
    (forall b', 0 <= b' < BLOCK_NUM -> used bm' b' = (b' =? b) || used bm b') /\
    same_data bm (free_block bm' b) /\
    (forall b', 0 <= b' < BLOCK_NUM -> used (free_block bm' b) b' = used bm b').
Proof.
  intros Hwf Hff Hb. pose proof Hff as (Hr & Hf & _). exists (mark bm b).
  destruct (mark_spec bm b Hwf Hr) as (Hwf1 & Hd1 & Hu1).
  destruct (unmark_spec (mark bm b) b Hwf1 Hr) as (_ & Hd2 & Hu2).
  rewrite (alloc_block_first bm b), free_block_unmark by (done || lia).
  split_and!; [done..|by etrans|]. intros b' Hb'. rewrite Hu2, Hu1 by done.
  destruct (Z.eqb_spec b' b) as [->|]; by rewrite ?Hf.
Qed.

Lemma alloc_free_roundtrip_witness :
  first_free (@bm_new zero_mem) 0 1034 /\ (@alloc_block zero_mem (@bm_new zero_mem)).1 = 1034.
Proof.
  pose proof (@bm_new_formatted zero_mem) as Hf. generalize dependent (@bm_new zero_mem). intros bm Hf.
  destruct Hf as (Hwf & _ & Hu). rewrite RESERVED_eq in Hu.
  assert (first_free bm 0 1034) as Hff.
  { split; [rewrite BLOCK_NUM_eq; lia|]. split; [by rewrite Hu by (rewrite BLOCK_NUM_eq; lia)|].
    intros b' Hb'. rewrite Hu by (rewrite BLOCK_NUM_eq; lia). apply Z.ltb_lt. lia. }
  split; [done|].
  destruct (@alloc_free_roundtrip zero_mem bm 1034 Hwf Hff ltac:(lia)) as (bm' & E & _). by rewrite E.
Defined.

(** With every block in use, allocation answers 0, the number of the boot
    block, and changes nothing. *)
Theorem alloc_block_full `{Uninit} bm :
  bm_wf bm -> (forall b, 0 <= b < BLOCK_NUM -> used bm b = true) -> alloc_block bm = (0, bm).
Proof.
  intros Hwf Hall. destruct (alloc_block_cases bm Hwf) as [(b & (Hb & Hf & _) & _)|[_ E]]; [|done].
  rewrite Hall in Hf by done. done.
Qed.

Definition full_block : list byte := replicate 512 xff.

Lemma full_block_used b : 0 <= b < BLOCK_NUM -> used (const_bm full_block) b = true.
Proof.
  intros Hb. unfold used. pose proof (BBLOCK_range b Hb). rewrite const_bm_blk by (rewrite BLOCK_NUM_eq; lia).
  unfold testbit_at, byte_at, full_block. pose proof (mod_BPB_range b) as Hm. rewrite BPB_eq in Hm.
  rewrite BPB_eq. assert (0 <= b mod 4096 / 8 < 512) as Hq
    by (split; [apply Z.div_pos; lia|apply Z.div_lt_upper_bound; lia]).
  rewrite lookup_replicate_2 by lia.
  cbn [default from_option id]. change (b2z xff) with (Z.ones 8). apply Z.ones_spec_low.
  apply Z.mod_pos_bound. lia.
Qed.

Lemma alloc_block_full_witness : (@alloc_block zero_mem (const_bm full_block)).1 = 0.
Proof.
  rewrite (@alloc_block_full zero_mem (const_bm full_block)); [done|..].
  - apply fs_bm_wf, const_bm_wf. unfold full_block. by rewrite length_replicate, BLOCK_SIZE_eq.
  - apply full_block_used.
Defined.

(** C40: on a freshly formatted disk the first block handed out for data is the
    block in which inode 1023 is kept. *)
Theorem first_data_block_holds_inode `{Uninit} :
  (alloc_block bm_new).1 = iblock (mk_im bm_new) 1023.
Proof.
  pose proof bm_new_formatted as Hf. generalize dependent bm_new. intros bm Hf.
  destruct (alloc_formatted RESERVED bm) as [E _]; [rewrite RESERVED_eq, BLOCK_NUM_eq; lia|done|].
  rewrite E. cbn [fst]. rewrite iblock_spec by apply (formatted_ok bm Hf). by rewrite RESERVED_eq.
Qed.

(** ** Inodes *)

(** When every inode is taken, a creation reports success with inode 1, the
    root directory, and changes nothing. *)
Theorem create_exhausted `{Uninit} es type now :
  fs_wf (im_bm (es_im es)) ->
  (forall j, 1 <= j < INODE_NUM -> i_type (ino_at (im_bm (es_im es)) j) <> 0) ->
  es_create es type now = (extent_OK, 1, es).
Proof.
  intros Hwf Hlive. unfold es_create. rewrite alloc_inode_exhausted by done. by destruct es.
Qed.

Lemma create_exhausted_witness :
  @es_create zero_mem (mk_es (mk_im (const_bm full_block))) T_FILE 5 =
    (extent_OK, 1, mk_es (mk_im (const_bm full_block))).
Proof.
  apply (@create_exhausted zero_mem); cbn [es_im im_bm].
  - apply const_bm_wf. unfold full_block. by rewrite length_replicate, BLOCK_SIZE_eq.
  - intros j Hj. unfold INODE_NUM in Hj. unfold ino_at. rewrite const_bm_blk by (rewrite BLOCK_NUM_eq; lia).
    by vm_compute.
Defined.

(** What [put_inode] stores, [get_inode] finds again, whatever the inode's
    fields; the other inodes are untouched. *)
Theorem put_get_inode `{Uninit} im i ino :
  fs_wf (im_bm im) -> 0 <= i < INODE_NUM -> ino_wf ino -> i_type ino <> 0 ->
  get_inode (put_inode im i (Some ino)) i = Some ino /\
  forall j, 0 <= j < INODE_NUM -> j <> i -> get_inode (put_inode im i (Some ino)) j = get_inode im j.
Proof.
  intros Hwf Hi Hino Ht. destruct (put_inode_spec im i ino Hwf Hi Hino) as (c & Hw & Hat).
  pose proof (wrote_fs _ _ _ _ Hw) as Hwf'. split.
  - rewrite get_inode_spec, Hat by done. by rewrite (proj2 (Z.eqb_neq _ _) Ht).
  - intros j Hj Hne. rewrite !get_inode_spec by done. unfold ino_at.
    by rewrite (wrote_other _ _ _ _ Hw) by lia.
Qed.

Lemma put_get_inode_witness :
  let im := mk_im (const_bm zero_block) in
  let ino := mk_inode T_FILE 700 1 2 3 (1034 :: 1035 :: replicate 31 0) in
  @get_inode zero_mem (@put_inode zero_mem im 5 (Some ino)) 5 = Some ino.
Proof.
  intros im ino. apply (@put_get_inode zero_mem im 5 ino).
  - apply const_bm_wf. apply length_replicate.
  - done.
  - split; try done. cbn [i_blocks]. by repeat (apply Forall_cons; split; [lia|]).
  - done.
Defined.

(** ** Files *)

(** C13: what [write_file] stores, up to 81920 bytes through the direct and the
    indirect blocks, [read_file] returns; every other file keeps its inode and its
    content, and the disk stays consistent. *)
Theorem write_file_read_file `{Uninit} im i data now now' :
  fs_ok (im_bm im) -> valid_ino i -> live (im_bm im) i -> Z.of_nat (length data) <= MAXFILE ->
  need (nblocks (Z.of_nat (length data))) <=
    Z.of_nat (free_count (im_bm im)) + Z.of_nat (length (fb (im_bm im) i)) ->
  exists im1 im2, write_file im i data (Z.of_nat (length data)) now = Ok im1 /\
    read_file im1 i now' = (Some (data, Z.of_nat (length data)), im2) /\
    fs_ok (im_bm im1) /\ fs_ok (im_bm im2) /\
    forall j, valid_ino j -> j <> i -> ino_at (im_bm im2) j = ino_at (im_bm im) j /\
      content (im_bm im2) (ino_at (im_bm im2) j) = content (im_bm im) (ino_at (im_bm im) j).
Proof.
  intros Hok Hi Hl Hmax Hneed.
  destruct (write_file_written im i data now Hok Hi Hl Hmax Hneed) as (im1 & E1 & Hw).
  pose proof (wn_one _ _ _ _ _ Hw) as Hof. pose proof (one_file_ok _ _ _ Hok Hi Hof) as Hok1.
  assert (live (im_bm im1) i) as Hl1 by (unfold live; rewrite (wn_type _ _ _ _ _ Hw); done).
  destruct (read_file_spec im1 i now' Hok1 Hi Hl1) as (im2 & E2 & Ht).
  pose proof (td_one _ _ _ _ Ht) as Hof2. exists im1, im2.
  rewrite (wn_content _ _ _ _ _ Hw), (wn_size _ _ _ _ _ Hw) in E2.
  split_and!; [done|done|done|by eapply one_file_ok|]. intros j Hj Hne. split.
  - by rewrite (of_ino _ _ _ Hof2), (of_ino _ _ _ Hof).
  - by rewrite (one_file_content _ _ _ j Hof2), (one_file_content _ _ _ j Hof).
Qed.

(** The new server has all its data blocks free. *)
Lemma new_free_count now es : repr (spec_init now) es ->
  Z.of_nat (free_count (im_bm (es_im es))) = CAPACITY.
Proof.
  intros Hr. rewrite free_space, <- (repr_space _ _ Hr) by apply Hr.
  assert (space_used (spec_init now) = 0) as ->; [|lia].
  unfold space_used. assert (forall l, zsum (blocks_at (spec_init now) <$> l) = 0) as Hz; [|apply Hz].
  induction l as [|i l IH]; [done|]. rewrite fmap_cons. unfold zsum. cbn [foldr]. fold (zsum (blocks_at (spec_init now) <$> l)).
  rewrite IH, Z.add_0_r. unfold blocks_at, spec_init. destruct (decide (i = 1)) as [->|Hne].
  - by rewrite lookup_singleton_eq.
  - by rewrite lookup_singleton_ne.
Qed.

Lemma valid_root : valid_ino 1.
Proof. unfold valid_ino. rewrite LAST_INO_eq. lia. Qed.

Lemma CAPACITY_eq : CAPACITY = 31734.
Proof. unfold CAPACITY. by rewrite BLOCK_NUM_eq, RESERVED_eq. Qed.

Lemma write_file_read_file_witness :
  exists im im1 im2, @im_new zero_mem 7 = Ok im /\
    @write_file zero_mem im 1 (replicate (Z.to_nat 20000) x61) 20000 8 = Ok im1 /\
    @read_file zero_mem im1 1 9 = (Some (replicate (Z.to_nat 20000) x61, 20000), im2).
Proof.
  destruct (@es_new_repr zero_mem 7) as (es & E & Hr).
  assert (@im_new zero_mem 7 = Ok (es_im es)) as Ei.
  { unfold es_new in E. destruct (@im_new zero_mem 7); cbn in E; [by injection E as <-|done..]. }
  assert (live (im_bm (es_im es)) 1) as Hl
    by (apply (repr_live _ _ 1 Hr valid_root); unfold spec_init; rewrite lookup_singleton_eq; by eexists).
  destruct (@write_file_read_file zero_mem (es_im es) 1 (replicate (Z.to_nat 20000) x61) 8 9) as (im1 & im2 & E1 & E2 & _);
    [apply Hr|apply valid_root|done|rewrite length_replicate, Z2Nat.id, MAXFILE_eq; lia| |].
  - rewrite (new_free_count 7 es Hr), CAPACITY_eq, length_replicate, Z2Nat.id by lia.
    change (need (nblocks 20000)) with 41. lia.
  - rewrite length_replicate, Z2Nat.id in E1, E2 by lia. exists (es_im es), im1, im2. exact (conj Ei (conj E1 E2)).
Defined.
