(* ===== verification/Marshall.v ===== *)
(** * Marshall: the wire format of the RPC library (rpc/marshall.h, rpc/rpc.cc)

    [class marshall] is a growing buffer with a write position, [class
    unmarshall] a buffer with a read position and a success flag.  A [codec]
    bundles the [operator<<] and [operator>>] of one C++ type; [CodecOK] says
    that what one writes the other reads back, and that the writer stays inside
    its buffer. *)

From Stdlib Require Import ZArith Lia.
From S2P Require Import Prelude.

Definition DEFAULT_RPC_SZ : Z := 1024.
(** sizeof(req_header) = 20 and sizeof(rpc_sz_t) = 4; checksumming is not compiled in. *)
Definition RPC_HEADER_SZ : Z := Z.max 20 8 + 4.

(** ** class marshall *)

Record marshall := mk_marshall { m_buf : list byte; m_capa : Z; m_ind : Z }.

Section marshall.
Context `{HeapMem}.

Definition marshall_new : marshall :=
  mk_marshall (heap_bytes (Z.to_nat DEFAULT_RPC_SZ)) DEFAULT_RPC_SZ RPC_HEADER_SZ.

(** A store through the buffer pointer, inside the buffer or undefined. *)
Definition store (buf : list byte) (off : Z) (src : list byte) : result (list byte) :=
  if (0 <=? off) && (off + Z.of_nat (length src) <=? Z.of_nat (length buf))
  then Ok (memcpy buf (Z.to_nat off) src) else Undef.

Definition rawbyte (m : marshall) (x : Z) : result marshall :=
  '(buf, capa) ←
    (if m_capa m <=? m_ind m then
       capa ← chk_int (m_capa m * 2);
       Ok (realloc (m_buf m) (Z.to_nat capa), capa)
     else Ok (m_buf m, m_capa m));
  buf ← store buf (m_ind m) [z2b x];
  Ok (mk_marshall buf capa (m_ind m + 1)).

Definition rawbytes (m : marshall) (p : list byte) (n : Z) : result marshall :=
  need ← chk_int (m_ind m + n);
  '(buf, capa) ←
    (if m_capa m <? need then
       capa ← chk_int (if n <? m_capa m then 2 * m_capa m else m_capa m + n);
       Ok (realloc (m_buf m) (Z.to_nat capa), capa)
     else Ok (m_buf m, m_capa m));
  if n <? 0 then Undef
  else
    buf ← store buf (m_ind m) (take (Z.to_nat n) p);
    Ok (mk_marshall buf capa (m_ind m + n)).

Definition put_bool (m : marshall) (x : bool) : result marshall := rawbyte m (if x then 1 else 0).
Definition put_uchar (m : marshall) (x : Z) : result marshall := rawbyte m x.
Definition put_char (m : marshall) (x : Z) : result marshall := put_uchar m (u8 x).
Definition put_ushort (m : marshall) (x : Z) : result marshall :=
  m ← rawbyte m (Z.land (Z.shiftr x 8) 0xff);
  rawbyte m (Z.land x 0xff).
Definition put_short (m : marshall) (x : Z) : result marshall := put_ushort m (u16 x).
Definition put_uint (m : marshall) (x : Z) : result marshall :=
  m ← rawbyte m (Z.land (Z.shiftr x 24) 0xff);
  m ← rawbyte m (Z.land (Z.shiftr x 16) 0xff);
  m ← rawbyte m (Z.land (Z.shiftr x 8) 0xff);
  rawbyte m (Z.land x 0xff).
Definition put_int (m : marshall) (x : Z) : result marshall := put_uint m (u32 x).
Definition put_string (m : marshall) (s : list byte) : result marshall :=
  m ← put_uint m (u32 (Z.of_nat (length s)));
  rawbytes m s (s32 (Z.of_nat (length s))).
Definition put_ull (m : marshall) (x : Z) : result marshall :=
  m ← put_uint m (u32 (Z.shiftr x 32));
  put_uint m (u32 x).

(** [marshall::pack], the same bytes as [put_uint] for a signed argument. *)
Definition pack (m : marshall) (x : Z) : result marshall :=
  m ← rawbyte m (Z.land (Z.shiftr x 24) 0xff);
  m ← rawbyte m (Z.land (Z.shiftr x 16) 0xff);
  m ← rawbyte m (Z.land (Z.shiftr x 8) 0xff);
  rawbyte m (Z.land x 0xff).

Record req_header := mk_req {
  q_xid : Z; q_proc : Z; q_clt_nonce : Z; q_srv_nonce : Z; q_xid_rep : Z;
}.
Record reply_header := mk_rep { p_xid : Z; p_ret : Z }.

Definition set_ind (m : marshall) (i : Z) : marshall := mk_marshall (m_buf m) (m_capa m) i.

Definition pack_req_header (m : marshall) (h : req_header) : result marshall :=
  let saved_sz := m_ind m in
  let m := set_ind m 4 in
  m ← pack m (q_xid h);
  m ← pack m (q_proc h);
  m ← pack m (s32 (q_clt_nonce h));
  m ← pack m (s32 (q_srv_nonce h));
  m ← pack m (q_xid_rep h);
  Ok (set_ind m saved_sz).

Definition pack_reply_header (m : marshall) (h : reply_header) : result marshall :=
  let saved_sz := m_ind m in
  let m := set_ind m 4 in
  m ← pack m (p_xid h);
  m ← pack m (p_ret h);
  Ok (set_ind m saved_sz).

(** [cstr] and [size], or [take_buf]: the bytes handed to the connection. *)
Definition m_pdu (m : marshall) : list byte := take (Z.to_nat (m_ind m)) (m_buf m).
Definition get_content (m : marshall) : list byte :=
  take (Z.to_nat (m_ind m - RPC_HEADER_SZ)) (drop (Z.to_nat RPC_HEADER_SZ) (m_buf m)).

(** ** class unmarshall *)

Record unmarshall := mk_un { u_buf : list byte; u_sz : Z; u_ind : Z; u_ok : bool }.

Definition unmarshall_empty : unmarshall := mk_un [] 0 0 false.
Definition unmarshall_buf (b : list byte) : unmarshall := mk_un b (Z.of_nat (length b)) 0 true.
(** The constructor from a string and [take_content]. *)
Definition take_content (s : list byte) : unmarshall :=
  let sz := s32 (Z.of_nat (length s) + RPC_HEADER_SZ) in
  mk_un (memcpy (heap_bytes (Z.to_nat sz)) (Z.to_nat RPC_HEADER_SZ) s) sz RPC_HEADER_SZ true.

Definition load (buf : list byte) (off : Z) : result byte :=
  if 0 <=? off then deref (buf !! Z.to_nat off) else Undef.

(** [unmarshall::rawbyte] returns its [char] converted to [unsigned int]. *)
Definition un_rawbyte (u : unmarshall) : result (Z * unmarshall) :=
  if u_sz u <=? u_ind u then Ok (0, mk_un (u_buf u) (u_sz u) (u_ind u) false)
  else
    c ← load (u_buf u) (u_ind u);
    Ok (u32 (schar c), mk_un (u_buf u) (u_sz u) (u_ind u + 1) (u_ok u)).

(** [unmarshall::rawbytes]: the bound is checked on wrapping unsigned arithmetic. *)
Definition un_rawbytes (u : unmarshall) (s : list byte) (n : Z) : result (list byte * unmarshall) :=
  if u32 (u_sz u) <? u32 (u_ind u + n) then Ok (s, mk_un (u_buf u) (u_sz u) (u_ind u) false)
  else if (0 <=? u_ind u) && (u_ind u + n <=? Z.of_nat (length (u_buf u))) then
    Ok (slice (Z.to_nat (u_ind u)) (Z.to_nat n) (u_buf u),
        mk_un (u_buf u) (u_sz u) (s32 (u_ind u + n)) (u_ok u))
  else Undef.

Definition get_bool (u : unmarshall) : result (bool * unmarshall) :=
  '(c, u) ← un_rawbyte u; Ok (negb (c =? 0), u).
Definition get_uchar (u : unmarshall) : result (Z * unmarshall) :=
  '(c, u) ← un_rawbyte u; Ok (u8 c, u).
Definition get_char (u : unmarshall) : result (Z * unmarshall) :=
  '(c, u) ← un_rawbyte u; Ok (s8 c, u).
(** Two and four bytes, most significant first, as the [unsigned int]
    expressions compute them. *)
Definition get2 (u : unmarshall) : result (Z * unmarshall) :=
  '(a, u) ← un_rawbyte u;
  '(b, u) ← un_rawbyte u;
  Ok (Z.lor (Z.shiftl (Z.land a 0xff) 8) (Z.land b 0xff), u).
Definition get4 (u : unmarshall) : result (Z * unmarshall) :=
  '(a, u) ← un_rawbyte u;
  '(b, u) ← un_rawbyte u;
  '(c, u) ← un_rawbyte u;
  '(d, u) ← un_rawbyte u;
  Ok (Z.lor (Z.lor (Z.lor (Z.shiftl (Z.land a 0xff) 24) (Z.shiftl (Z.land b 0xff) 16))
              (Z.shiftl (Z.land c 0xff) 8)) (Z.land d 0xff), u).
Definition get_ushort (u : unmarshall) : result (Z * unmarshall) :=
  '(x, u) ← get2 u; Ok (u16 x, u).
Definition get_short (u : unmarshall) : result (Z * unmarshall) :=
  '(x, u) ← get2 u; Ok (s16 x, u).
Definition get_uint (u : unmarshall) : result (Z * unmarshall) :=
  '(x, u) ← get4 u; Ok (u32 x, u).
Definition get_int (u : unmarshall) : result (Z * unmarshall) :=
  '(x, u) ← get4 u; Ok (s32 x, u).
Definition unpack (u : unmarshall) : result (Z * unmarshall) := get_int u.
Definition get_ull (u : unmarshall) : result (Z * unmarshall) :=
  '(h, u) ← get_uint u;
  '(l, u) ← get_uint u;
  Ok (Z.lor l (u64 (Z.shiftl h 32)), u).
Definition get_string (u : unmarshall) (s : list byte) : result (list byte * unmarshall) :=
  '(sz, u) ← get_uint u;
  if u_ok u then un_rawbytes u s sz else Ok (s, u).

Definition set_uind (u : unmarshall) (i : Z) : unmarshall := mk_un (u_buf u) (u_sz u) i (u_ok u).

Definition unpack_req_header (u : unmarshall) : result (req_header * unmarshall) :=
  let u := set_uind u 4 in
  '(xid, u) ← unpack u;
  '(proc, u) ← unpack u;
  '(clt_nonce, u) ← unpack u;
  '(srv_nonce, u) ← unpack u;
  '(xid_rep, u) ← unpack u;
  Ok (mk_req xid proc (u32 clt_nonce) (u32 srv_nonce) xid_rep, set_uind u RPC_HEADER_SZ).

Definition unpack_reply_header (u : unmarshall) : result (reply_header * unmarshall) :=
  let u := set_uind u 4 in
  '(xid, u) ← unpack u;
  '(ret, u) ← unpack u;
  Ok (mk_rep xid ret, set_uind u RPC_HEADER_SZ).

Definition okdone (u : unmarshall) : bool := u_ok u && (u_ind u =? u_sz u).

(** [take_in]: the receiver takes the buffer of [another]. *)
Definition take_in (another : unmarshall) : unmarshall :=
  mk_un (u_buf another) (u_sz another) RPC_HEADER_SZ (RPC_HEADER_SZ <=? u_sz another).

End marshall.

(** ** Codecs: the pair of operators of a type *)

Record codec (A : Type) := mk_codec {
  c_put : marshall -> A -> result marshall;
  c_get : unmarshall -> A -> result (A * unmarshall);
  c_init : A;                       (* a variable declared without an initialiser *)
}.
Arguments mk_codec {A}.
Arguments c_put {A}.
Arguments c_get {A}.
Arguments c_init {A}.

Section codecs.
Context `{HeapMem}.

Definition bool_c : codec bool := mk_codec put_bool (fun u _ => get_bool u) false.
Definition uchar_c : codec Z := mk_codec put_uchar (fun u _ => get_uchar u) (u8 stack_int).
Definition char_c : codec Z := mk_codec put_char (fun u _ => get_char u) (s8 stack_int).
Definition ushort_c : codec Z := mk_codec put_ushort (fun u _ => get_ushort u) (u16 stack_int).
Definition short_c : codec Z := mk_codec put_short (fun u _ => get_short u) (s16 stack_int).
Definition uint_c : codec Z := mk_codec put_uint (fun u _ => get_uint u) (u32 stack_int).
Definition int_c : codec Z := mk_codec put_int (fun u _ => get_int u) stack_int.
Definition ull_c : codec Z := mk_codec put_ull (fun u _ => get_ull u) (u64 stack_int).
Definition string_c : codec (list byte) := mk_codec put_string get_string [].

(** The [std::vector] templates. *)
Fixpoint put_items {A} (c : codec A) (m : marshall) (v : list A) : result marshall :=
  match v with [] => Ok m | x :: v => m ← c_put c m x; put_items c m v end.
Definition put_vector {A} (c : codec A) (m : marshall) (v : list A) : result marshall :=
  m ← put_uint m (u32 (Z.of_nat (length v)));
  put_items c m v.
Fixpoint get_items {A} (c : codec A) (n : nat) (u : unmarshall) (v : list A)
    : result (list A * unmarshall) :=
  match n with
  | O => Ok (v, u)
  | S n => '(z, u) ← c_get c u (c_init c); get_items c n u (v ++ [z])
  end.
Definition get_vector {A} (c : codec A) (u : unmarshall) (v : list A) : result (list A * unmarshall) :=
  '(n, u) ← get_uint u;
  get_items c (Z.to_nat n) u v.
Definition vector_c {A} (c : codec A) : codec (list A) := mk_codec (put_vector c) (get_vector c) [].

(** [m << i->first << i->second] *)
Definition pair_c {A B} (a : codec A) (b : codec B) : codec (A * B) :=
  mk_codec (fun m x => m ← c_put a m x.1; c_put b m x.2)
    (fun u x => '(y, u) ← c_get a u x.1; '(z, u) ← c_get b u x.2; Ok ((y, z), u))
    (c_init a, c_init b).

(** The [std::map] templates: a map is its pairs in the order of their keys, [lt]
    is the order.  [d[a] = b] is [map_assign]. *)
Fixpoint map_assign {A B} (lt : A -> A -> bool) (a : A) (b : B) (d : list (A * B)) : list (A * B) :=
  match d with
  | [] => [(a, b)]
  | (k, v) :: r =>
      if lt a k then (a, b) :: d
      else if lt k a then (k, v) :: map_assign lt a b r
      else (k, b) :: r
  end.
Definition put_map {A B} (a : codec A) (b : codec B) (m : marshall) (d : list (A * B)) : result marshall :=
  m ← put_uint m (u32 (Z.of_nat (length d)));
  put_items (pair_c a b) m d.
Fixpoint get_map_items {A B} (lt : A -> A -> bool) (a : codec A) (b : codec B) (n : nat) (u : unmarshall)
    (d : list (A * B)) : result (list (A * B) * unmarshall) :=
  match n with
  | O => Ok (d, u)
  | S n =>
      '(y, u) ← c_get a u (c_init a);
      '(z, u) ← c_get b u (c_init b);
      get_map_items lt a b n u (map_assign lt y z d)
  end.
Definition get_map {A B} (lt : A -> A -> bool) (a : codec A) (b : codec B) (u : unmarshall) (d : list (A * B))
    : result (list (A * B) * unmarshall) :=
  '(n, u) ← get_uint u;
  get_map_items lt a b (Z.to_nat n) u [].
Definition map_c {A B} (lt : A -> A -> bool) (a : codec A) (b : codec B) : codec (list (A * B)) :=
  mk_codec (put_map a b) (get_map lt a b) [].

End codecs.
