(* ===== verification/MarshallFacts.v ===== *)
(** * MarshallFacts: what is marshalled is unmarshalled

    The wire encodings, the writer's invariant (it never leaves its buffer, and
    no size computation overflows while a message stays below [MAX_PDU]), and
    the instances of [CodecOK] for every type with a pair of operators. *)

From Stdlib Require Import ZArith Lia.
From stdpp Require Import sorting.
From S2P Require Import Prelude Marshall.

(** ** Wire encodings *)

Definition be2 (x : Z) : list byte := [z2b (x / 2 ^ 8); z2b x].
Definition be4 (x : Z) : list byte := [z2b (x / 2 ^ 24); z2b (x / 2 ^ 16); z2b (x / 2 ^ 8); z2b x].
Definition be8 (x : Z) : list byte := be4 (x / 2 ^ 32) ++ be4 x.
Definition enc_string (s : list byte) : list byte := be4 (Z.of_nat (length s)) ++ s.

Lemma z2b_mod z : z2b (z mod 256) = z2b z.
Proof. apply b2z_inj. rewrite !b2z_z2b. by rewrite Z.mod_mod by lia. Qed.

Lemma z2b_land z : z2b (Z.land z 0xff) = z2b z.
Proof. change 0xff with (Z.ones 8). rewrite Z.land_ones by lia. apply z2b_mod. Qed.

Lemma z2b_byte k x : 0 <= k -> z2b (Z.land (Z.shiftr x k) 0xff) = z2b (x / 2 ^ k).
Proof. intros. by rewrite z2b_land, Z.shiftr_div_pow2. Qed.

(** A [char] read back as an [unsigned int] and masked. *)
Lemma land_schar b : Z.land (u32 (schar b)) 0xff = b2z b.
Proof. by destruct b. Qed.

Lemma lor_shiftl h k l : 0 <= k -> 0 <= l < 2 ^ k -> Z.lor (Z.shiftl h k) l = h * 2 ^ k + l.
Proof.
  intros Hk Hl. rewrite <- Z.shiftl_mul_pow2 by done. rewrite <- Z.add_lor_land.
  assert (Z.land (Z.shiftl h k) l = 0) as ->; [|lia].
  apply Z.bits_inj'. intros n Hn. rewrite Z.land_spec, Z.bits_0.
  destruct (Z.lt_ge_cases n k) as [Hlt|Hge]; [by rewrite Z.shiftl_spec_low|].
  rewrite <- (Z.mod_small l (2 ^ k)) by lia. by rewrite Z.mod_pow2_bits_high, andb_false_r by lia.
Qed.

Lemma join2 a b : 0 <= b < 256 -> Z.lor (Z.shiftl a 8) b = a * 256 + b.
Proof. intros. by rewrite lor_shiftl. Qed.

Lemma join4 a b c d :
  0 <= b < 256 -> 0 <= c < 256 -> 0 <= d < 256 ->
  Z.lor (Z.lor (Z.lor (Z.shiftl a 24) (Z.shiftl b 16)) (Z.shiftl c 8)) d
  = a * 2 ^ 24 + b * 2 ^ 16 + c * 2 ^ 8 + d.
Proof.
  intros Hb Hc Hd.
  assert (Z.lor (Z.shiftl a 24) (Z.shiftl b 16) = Z.shiftl (a * 2 ^ 8 + b) 16) as ->.
  { rewrite lor_shiftl by (rewrite ?Z.shiftl_mul_pow2; lia). rewrite !Z.shiftl_mul_pow2; lia. }
  assert (Z.lor (Z.shiftl (a * 2 ^ 8 + b) 16) (Z.shiftl c 8)
    = Z.shiftl ((a * 2 ^ 8 + b) * 2 ^ 8 + c) 8) as ->.
  { rewrite lor_shiftl by (rewrite ?Z.shiftl_mul_pow2; lia). rewrite !Z.shiftl_mul_pow2; lia. }
  rewrite lor_shiftl by lia. lia.
Qed.

Lemma bytes4 x :
  (x / 2 ^ 24) mod 256 * 2 ^ 24 + (x / 2 ^ 16) mod 256 * 2 ^ 16 + (x / 2 ^ 8) mod 256 * 2 ^ 8 + x mod 256
  = x mod 2 ^ 32.
Proof.
  change (2 ^ 24) with (256 * (256 * 256)). change (2 ^ 16) with (256 * 256). change (2 ^ 8) with 256.
  change (2 ^ 32) with (256 * (256 * (256 * 256))). rewrite <- !Z.div_div by lia.
  rewrite !Z.rem_mul_r by lia. lia.
Qed.

Lemma bytes2 x : (x / 2 ^ 8) mod 256 * 256 + x mod 256 = x mod 2 ^ 16.
Proof.
  change (2 ^ 16) with (256 * 256). change (2 ^ 8) with 256. rewrite Z.rem_mul_r by lia. lia.
Qed.

(** ** The writer *)

(** Messages shorter than this keep every size computation in an [int]. *)
Definition MAX_PDU : Z := 1073741823.

Record marshall_wf (m : marshall) : Prop := {
  mw_len : Z.of_nat (length (m_buf m)) = m_capa m;
  mw_hdr : RPC_HEADER_SZ <= m_capa m;
  mw_ind : 0 <= m_ind m <= m_capa m;
}.

(** [m'] is [m] with [bs] written at the end. *)
Record extends (m : marshall) (bs : list byte) (m' : marshall) : Prop := {
  ex_wf : marshall_wf m';
  ex_ind : m_ind m' = m_ind m + Z.of_nat (length bs);
  ex_pdu : m_pdu m' = m_pdu m ++ bs;
}.

Lemma extends_app m bs m1 bs' m2 : extends m bs m1 -> extends m1 bs' m2 -> extends m (bs ++ bs') m2.
Proof.
  intros [_ Hi Hp] [Hwf Hi' Hp']. split; [done|rewrite length_app; lia|].
  by rewrite Hp', Hp, app_assoc.
Qed.

Lemma extends_nil m : marshall_wf m -> extends m [] m.
Proof. intros. split; [done|cbn; lia|by rewrite app_nil_r]. Qed.

Lemma header_sz : RPC_HEADER_SZ = 24. Proof. done. Qed.

Section writer.
Context `{HeapMem}.

Lemma marshall_new_wf : marshall_wf marshall_new.
Proof.
  split; cbn [marshall_new m_buf m_capa m_ind]; rewrite ?length_heap_bytes; unfold DEFAULT_RPC_SZ;
    rewrite ?header_sz; lia.
Qed.

(** Writing [src] behind the written part of a buffer with room for it. *)
Lemma store_extends m buf capa src :
  marshall_wf m -> Z.of_nat (length buf) = capa -> m_capa m <= capa ->
  take (Z.to_nat (m_ind m)) buf = m_pdu m -> m_ind m + Z.of_nat (length src) <= capa ->
  exists buf', store buf (m_ind m) src = Ok buf' /\
    extends m src (mk_marshall buf' capa (m_ind m + Z.of_nat (length src))).
Proof.
  intros [Hl Hh Hi] Hb Hc Ht Hroom. unfold store.
  rewrite (proj2 (Z.leb_le _ _)), (proj2 (Z.leb_le _ _)) by lia. eexists. split; [done|].
  split; cbn [m_buf m_capa m_ind].
  - split; cbn [m_buf m_capa m_ind]; rewrite ?length_memcpy; lia.
  - done.
  - unfold m_pdu at 1. cbn [m_buf m_ind].
    replace (Z.to_nat (m_ind m + Z.of_nat (length src))) with (Z.to_nat (m_ind m) + length src)%nat by lia.
    rewrite take_memcpy by lia. by rewrite Ht.
Qed.

Lemma rawbyte_spec m x : marshall_wf m -> m_ind m + 1 <= MAX_PDU ->
  exists m', rawbyte m x = Ok m' /\ extends m [z2b x] m'.
Proof.
  intros Hwf Hmax. pose proof Hwf as [Hl Hh Hi]. unfold MAX_PDU in Hmax. rewrite header_sz in Hh.
  unfold rawbyte. destruct (Z.leb_spec (m_capa m) (m_ind m)) as [Hfull|Hroom].
  - rewrite chk_int_ok by (unfold INT_MAX; lia). cbn [mbind result_bind].
    destruct (store_extends m (realloc (m_buf m) (Z.to_nat (m_capa m * 2))) (m_capa m * 2) [z2b x])
      as (buf & E & Hex); [done|rewrite length_realloc; lia|lia|apply take_realloc; lia|cbn; lia|].
    rewrite E. cbn [mbind result_bind]. eauto.
  - cbn [mbind result_bind].
    destruct (store_extends m (m_buf m) (m_capa m) [z2b x]) as (buf & E & Hex); [done..|cbn; lia|].
    rewrite E. cbn [mbind result_bind]. eauto.
Qed.

Lemma rawbytes_spec m s : marshall_wf m -> m_ind m + Z.of_nat (length s) <= MAX_PDU ->
  exists m', rawbytes m s (s32 (Z.of_nat (length s))) = Ok m' /\ extends m s m'.
Proof.
  intros Hwf Hmax. pose proof Hwf as [Hl Hh Hi]. unfold MAX_PDU in Hmax. rewrite header_sz in Hh.
  unfold rawbytes. rewrite wrapS_small by lia.
  assert (take (Z.to_nat (Z.of_nat (length s))) s = s) as -> by (apply take_ge; lia).
  remember (Z.of_nat (length s)) as n eqn:En. assert (0 <= n) by lia.
  rewrite (chk_int_ok (m_ind m + n)) by (unfold INT_MAX; lia). cbn [mbind result_bind].
  rewrite (proj2 (Z.ltb_ge n 0)) by lia.
  destruct (Z.ltb_spec (m_capa m) (m_ind m + n)) as [Hfull|Hroom].
  - set (capa := if n <? m_capa m then 2 * m_capa m else m_capa m + n).
    assert (m_capa m <= capa /\ m_ind m + n <= capa /\ capa <= 2147483646) as (H1 & H2 & H3)
      by (unfold capa; destruct (Z.ltb_spec n (m_capa m)); lia).
    rewrite chk_int_ok by (unfold INT_MAX; lia). cbn [mbind result_bind].
    destruct (store_extends m (realloc (m_buf m) (Z.to_nat capa)) capa s)
      as (buf & E & Hex); [done|rewrite length_realloc; lia|lia|apply take_realloc; lia|lia|].
    rewrite E. cbn [mbind result_bind]. rewrite En. eauto.
  - cbn [mbind result_bind].
    destruct (store_extends m (m_buf m) (m_capa m) s) as (buf & E & Hex); [done..|lia|].
    rewrite E. cbn [mbind result_bind]. rewrite En. eauto.
Qed.

Lemma put_uint_spec m x : marshall_wf m -> m_ind m + 4 <= MAX_PDU ->
  exists m', put_uint m x = Ok m' /\ extends m (be4 x) m'.
Proof.
  intros Hwf Hmax. unfold put_uint.
  destruct (rawbyte_spec m (Z.land (Z.shiftr x 24) 0xff)) as (m1 & -> & H1); [done|lia|]. rewrite bind_Ok.
  pose proof (ex_ind _ _ _ H1) as I1. cbn [length] in I1.
  destruct (rawbyte_spec m1 (Z.land (Z.shiftr x 16) 0xff)) as (m2 & -> & H2); [apply H1|lia|]. rewrite bind_Ok.
  pose proof (ex_ind _ _ _ H2) as I2. cbn [length] in I2.
  destruct (rawbyte_spec m2 (Z.land (Z.shiftr x 8) 0xff)) as (m3 & -> & H3); [apply H2|lia|]. rewrite bind_Ok.
  pose proof (ex_ind _ _ _ H3) as I3. cbn [length] in I3.
  destruct (rawbyte_spec m3 (Z.land x 0xff)) as (m4 & -> & H4); [apply H3|lia|].
  exists m4. split; [done|]. rewrite !z2b_byte in * by lia. rewrite z2b_land in H4.
  exact (extends_app _ _ _ _ _ H1 (extends_app _ _ _ _ _ H2 (extends_app _ _ _ _ _ H3 H4))).
Qed.

Lemma put_ushort_spec m x : marshall_wf m -> m_ind m + 2 <= MAX_PDU ->
  exists m', put_ushort m x = Ok m' /\ extends m (be2 x) m'.
Proof.
  intros Hwf Hmax. unfold put_ushort.
  destruct (rawbyte_spec m (Z.land (Z.shiftr x 8) 0xff)) as (m1 & -> & H1); [done|lia|]. rewrite bind_Ok.
  pose proof (ex_ind _ _ _ H1) as I1. cbn [length] in I1.
  destruct (rawbyte_spec m1 (Z.land x 0xff)) as (m2 & -> & H2); [apply H1|lia|].
  exists m2. split; [done|]. rewrite z2b_byte in * by lia. rewrite z2b_land in H2.
  exact (extends_app _ _ _ _ _ H1 H2).
Qed.

End writer.

(** ** The reader *)

(** The reader is healthy and has [bs] in front of it. *)
Record reads (u : unmarshall) (bs : list byte) : Prop := {
  rd_ok : u_ok u = true;
  rd_sz : u_sz u = Z.of_nat (length (u_buf u));
  rd_max : u_sz u <= INT_MAX;
  rd_ind : 0 <= u_ind u <= u_sz u;
  rd_rest : drop (Z.to_nat (u_ind u)) (u_buf u) = bs;
}.

(** A reader that has consumed [bs]. *)
Definition advance (u : unmarshall) (n : nat) : unmarshall := set_uind u (u_ind u + Z.of_nat n).

Lemma reads_length u bs : reads u bs -> u_ind u + Z.of_nat (length bs) = u_sz u.
Proof. intros [_ Hs _ Hi Hr]. rewrite <- Hr, length_drop. lia. Qed.

Lemma reads_advance u bs rest :
  reads u (bs ++ rest) -> reads (advance u (length bs)) rest.
Proof.
  intros Hr. pose proof (reads_length _ _ Hr) as Hl. rewrite length_app in Hl.
  destruct Hr as [Hok Hs Hm Hi Hd]. split; cbn [advance set_uind u_ok u_sz u_buf u_ind]; [done..|lia|].
  replace (Z.to_nat (u_ind u + Z.of_nat (length bs))) with (Z.to_nat (u_ind u) + length bs)%nat by lia.
  rewrite <- drop_drop, Hd. apply drop_app_length.
Qed.

Lemma advance_add u n k : advance (advance u n) k = advance u (n + k).
Proof. unfold advance, set_uind. cbn [u_ind u_buf u_sz u_ok]. f_equal. lia. Qed.

Section reader.

Lemma un_rawbyte_spec u b rest : reads u (b :: rest) ->
  un_rawbyte u = Ok (u32 (schar b), advance u 1) /\ reads (advance u 1) rest.
Proof.
  intros Hr. pose proof (reads_length _ _ Hr) as Hl. cbn [length] in Hl. split.
  - unfold un_rawbyte. rewrite (proj2 (Z.leb_gt _ _)) by lia. unfold load.
    destruct Hr as [Hok _ _ Hi Hd]. rewrite (proj2 (Z.leb_le _ _)) by lia.
    assert (u_buf u !! Z.to_nat (u_ind u) = Some b) as ->
      by (rewrite <- (Nat.add_0_r (Z.to_nat _)), <- lookup_drop, Hd; done).
    cbn. unfold advance, set_uind. by rewrite Hok.
  - by apply (reads_advance u [b]).
Qed.

Lemma get2_spec u x rest : reads u (be2 x ++ rest) ->
  get2 u = Ok (x mod 2 ^ 16, advance u 2) /\ reads (advance u 2) rest.
Proof.
  intros Hr. split; [|by apply (reads_advance u (be2 x))]. unfold get2, be2 in *. cbn [app] in Hr.
  apply un_rawbyte_spec in Hr as [-> Hr]. run_ok.
  apply un_rawbyte_spec in Hr as [-> Hr]. run_ok.
  rewrite !land_schar, !b2z_z2b, join2, bytes2, advance_add; [done|]. apply Z.mod_pos_bound. lia.
Qed.

Lemma get4_spec u x rest : reads u (be4 x ++ rest) ->
  get4 u = Ok (x mod 2 ^ 32, advance u 4) /\ reads (advance u 4) rest.
Proof.
  intros Hr. split; [|by apply (reads_advance u (be4 x))]. unfold get4, be4 in *. cbn [app] in Hr.
  do 4 (apply un_rawbyte_spec in Hr as [-> Hr]; run_ok).
  rewrite !land_schar, !b2z_z2b, join4, bytes4, !advance_add; [done|apply Z.mod_pos_bound; lia..].
Qed.

Lemma get_uint_spec u x rest : reads u (be4 x ++ rest) ->
  get_uint u = Ok (u32 x, advance u 4) /\ reads (advance u 4) rest.
Proof.
  intros [E Hr]%get4_spec. unfold get_uint. rewrite E. run_ok. split; [|done].
  do 2 f_equal. unfold wrapU. by rewrite Z.mod_mod by lia.
Qed.

Lemma un_rawbytes_spec u s0 s rest : reads u (s ++ rest) ->
  un_rawbytes u s0 (Z.of_nat (length s)) = Ok (s, advance u (length s)).
Proof.
  intros Hr. pose proof (reads_length _ _ Hr) as Hl. rewrite length_app in Hl.
  destruct Hr as [Hok Hs Hm Hi Hd]. unfold INT_MAX in Hm. unfold un_rawbytes.
  rewrite !wrapU_small, (proj2 (Z.ltb_ge _ _)), (proj2 (Z.leb_le _ _)), (proj2 (Z.leb_le _ _)) by lia.
  cbn [andb]. unfold slice. rewrite Hd, take_app_length' by lia. unfold advance, set_uind.
  rewrite wrapS_small by lia. done.
Qed.

End reader.

(** ** Codecs whose two operators agree *)

(** On the values [valid], [c] writes the bytes [enc] and reads them back. *)
Class CodecOK `{HeapMem} {A} (c : codec A) (valid : A -> Prop) (enc : A -> list byte) : Prop := {
  put_ok : forall m x, marshall_wf m -> valid x -> m_ind m + Z.of_nat (length (enc x)) <= MAX_PDU ->
    exists m', c_put c m x = Ok m' /\ extends m (enc x) m';
  get_ok : forall u x rest, valid x -> reads u (enc x ++ rest) ->
    c_get c u (c_init c) = Ok (x, advance u (length (enc x)));
}.

Section instances.
Context `{HeapMem}.

(** Reading a value back, with what is left. *)
Lemma get_reads {A} (c : codec A) valid enc `{!CodecOK c valid enc} u x rest :
  valid x -> reads u (enc x ++ rest) ->
  c_get c u (c_init c) = Ok (x, advance u (length (enc x))) /\ reads (advance u (length (enc x))) rest.
Proof. intros Hv Hr. split; [by apply (get_ok u x rest)|by apply reads_advance]. Qed.

#[export] Instance bool_ok : CodecOK bool_c (fun _ => True) (fun x : bool => [z2b (if x then 1 else 0)]).
Proof.
  split.
  - intros m x Hwf _ Hm. by apply rawbyte_spec.
  - intros u x rest _ [E _]%un_rawbyte_spec. cbn [c_get bool_c]. unfold get_bool.
    rewrite E, bind_Ok. by destruct x.
Qed.

#[export] Instance uchar_ok : CodecOK uchar_c (fun x => 0 <= x < 2 ^ 8) (fun x => [z2b x]).
Proof.
  split.
  - intros m x Hwf _ Hm. by apply rawbyte_spec.
  - intros u x rest Hx [E _]%un_rawbyte_spec. cbn [c_get uchar_c]. unfold get_uchar.
    rewrite E. run_ok. do 2 f_equal. unfold wrapU at 1. change (2 ^ 8) with (2 ^ 8 * 1).
    rewrite <- (Z.land_ones _ 8) by lia. change (Z.ones 8) with 0xff.
    rewrite land_schar, b2z_z2b. by apply Z.mod_small.
Qed.

Lemma s8_of_byte x : - 2 ^ 7 <= x < 2 ^ 7 -> s8 (u32 (schar (z2b x))) = x.
Proof.
  intros Hx. unfold schar. rewrite b2z_z2b. unfold wrapS, wrapU.
  pose proof (Z.mod_pos_bound x 256 ltac:(lia)). pose proof (Z.div_mod x 256 ltac:(lia)).
  assert (x / 256 = 0 \/ x / 256 = -1) as [Hq|Hq] by lia.
  - rewrite (Z.mod_small (x mod 256 + _)) by lia. rewrite (Z.mod_small (_ - _)) by lia.
    rewrite Z.mod_small; lia.
  - replace (x mod 256 + 2 ^ (8 - 1)) with (x + 2 ^ 7 + 1 * 2 ^ 8) by lia.
    rewrite Z.mod_add, (Z.mod_small (x + _)) by lia.
    replace (x + 2 ^ 7 - 2 ^ (8 - 1)) with (x + 2 ^ 32 + -1 * 2 ^ 32) by lia.
    rewrite Z.mod_add, (Z.mod_small (x + _)) by lia.
    replace (x + 2 ^ 32 + 2 ^ (8 - 1)) with (x + 2 ^ 7 + 2 ^ 24 * 2 ^ 8) by lia.
    rewrite Z.mod_add, Z.mod_small; lia.
Qed.

#[export] Instance char_ok : CodecOK char_c (fun x => - 2 ^ 7 <= x < 2 ^ 7) (fun x => [z2b x]).
Proof.
  split.
  - intros m x Hwf _ Hm. cbn [c_put char_c]. unfold put_char, put_uchar, wrapU.
    rewrite <- (z2b_mod x). change 256 with (2 ^ 8) at 1. by apply rawbyte_spec.
  - intros u x rest Hx [E _]%un_rawbyte_spec. cbn [c_get char_c]. unfold get_char.
    rewrite E. run_ok. by rewrite s8_of_byte.
Qed.

(** A word and its signed reading have the same bytes. *)
Lemma z2b_ext x y : x mod 256 = y mod 256 -> z2b x = z2b y.
Proof. intros E. by rewrite <- (z2b_mod x), E, z2b_mod. Qed.

Lemma mod_mul_mod x a b : 0 < a -> 0 < b -> (x mod (a * b)) mod a = x mod a.
Proof.
  intros. rewrite Z.rem_mul_r by lia. rewrite (Z.mul_comm a), Z.mod_add by lia. by apply Z.mod_mod; lia.
Qed.

Lemma div_mod_mod x a b : 0 < a -> 0 < b -> (x mod (a * b)) / a = (x / a) mod b.
Proof.
  intros Ha Hb. rewrite Z.rem_mul_r by lia. rewrite (Z.mul_comm a), Z.div_add, Z.div_small; [lia| |lia].
  by apply Z.mod_pos_bound.
Qed.

Lemma be4_mod x : be4 (x mod 2 ^ 32) = be4 x.
Proof.
  unfold be4. f_equal; [|f_equal; [|f_equal; [|f_equal]]]; apply z2b_ext.
  - change (2 ^ 32) with (2 ^ 24 * 256). rewrite div_mod_mod by lia. by rewrite Z.mod_mod by lia.
  - change (2 ^ 32) with (2 ^ 16 * (256 * 256)). rewrite div_mod_mod by lia. by apply mod_mul_mod.
  - change (2 ^ 32) with (2 ^ 8 * (256 * (256 * 256))). rewrite div_mod_mod by lia. by apply mod_mul_mod.
  - change (2 ^ 32) with (256 * (256 * (256 * 256))). by apply mod_mul_mod.
Qed.

Lemma be2_mod x : be2 (x mod 2 ^ 16) = be2 x.
Proof.
  unfold be2. f_equal; [|f_equal]; apply z2b_ext.
  - change (2 ^ 16) with (2 ^ 8 * 256). rewrite div_mod_mod by lia. by rewrite Z.mod_mod by lia.
  - change (2 ^ 16) with (256 * 256). by apply mod_mul_mod.
Qed.

#[export] Instance ushort_ok : CodecOK ushort_c (fun x => 0 <= x < 2 ^ 16) be2.
Proof.
  split.
  - intros m x Hwf _ Hm. by apply put_ushort_spec.
  - intros u x rest Hx [E _]%get2_spec. cbn [c_get ushort_c]. unfold get_ushort.
    rewrite E. run_ok. by rewrite Z.mod_small, wrapU_small.
Qed.

#[export] Instance short_ok : CodecOK short_c (fun x => - 2 ^ 15 <= x < 2 ^ 15) be2.
Proof.
  split.
  - intros m x Hwf _ Hm. cbn [c_put short_c]. unfold put_short, wrapU. rewrite <- be2_mod.
    by apply put_ushort_spec.
  - intros u x rest Hx [E _]%get2_spec. cbn [c_get short_c]. unfold get_short.
    rewrite E. run_ok. fold (u16 x). by rewrite wrapS_wrapU, wrapS_small by lia.
Qed.

#[export] Instance uint_ok : CodecOK uint_c (fun x => 0 <= x < 2 ^ 32) be4.
Proof.
  split.
  - intros m x Hwf _ Hm. by apply put_uint_spec.
  - intros u x rest Hx [E _]%get_uint_spec. cbn [c_get uint_c]. by rewrite E, wrapU_small.
Qed.

#[export] Instance int_ok : CodecOK int_c (fun x => - 2 ^ 31 <= x < 2 ^ 31) be4.
Proof.
  split.
  - intros m x Hwf _ Hm. cbn [c_put int_c]. unfold put_int, wrapU. rewrite <- be4_mod.
    by apply put_uint_spec.
  - intros u x rest Hx [E _]%get4_spec. cbn [c_get int_c]. unfold get_int.
    rewrite E. run_ok. fold (u32 x). by rewrite wrapS_wrapU, wrapS_small by lia.
Qed.

#[export] Instance ull_ok : CodecOK ull_c (fun x => 0 <= x < 2 ^ 64) be8.
Proof.
  split.
  - intros m x Hwf _ Hm. unfold be8 in *. rewrite length_app in Hm. cbn [length be4] in Hm.
    cbn [c_put ull_c]. unfold put_ull, wrapU. rewrite Z.shiftr_div_pow2 by lia.
    rewrite <- (be4_mod x), <- (be4_mod (x / 2 ^ 32)).
    destruct (put_uint_spec m ((x / 2 ^ 32) mod 2 ^ 32)) as (m1 & -> & H1); [done|lia|]. rewrite bind_Ok.
    destruct (put_uint_spec m1 (x mod 2 ^ 32)) as (m2 & -> & H2);
      [apply H1|rewrite (ex_ind _ _ _ H1); cbn [length be4]; lia|].
    exists m2. split; [done|]. by eapply extends_app.
  - intros u x rest Hx Hr. unfold be8 in *. rewrite <- app_assoc in Hr.
    apply get_uint_spec in Hr as [E Hr]. apply get_uint_spec in Hr as [E' _].
    cbn [c_get ull_c]. unfold get_ull. rewrite E. run_ok.
    rewrite E'. run_ok. rewrite advance_add. do 2 f_equal.
    assert (0 <= x / 2 ^ 32 < 2 ^ 32) as Hq
      by (split; [apply Z.div_pos; lia|apply Z.div_lt_upper_bound; lia]).
    rewrite (wrapU_small 32 (x / 2 ^ 32)) by done.
    rewrite (wrapU_small 64) by (rewrite Z.shiftl_mul_pow2; lia).
    rewrite Z.lor_comm, lor_shiftl by (apply wrapU_range || idtac; lia).
    unfold wrapU. pose proof (Z.div_mod x (2 ^ 32) ltac:(lia)). lia.
Qed.

#[export] Instance string_ok : CodecOK string_c (fun s => Z.of_nat (length s) <= MAX_PDU) enc_string.
Proof.
  split.
  - intros m s Hwf Hs Hm. unfold enc_string in *. rewrite length_app in Hm. cbn [length be4] in Hm.
    cbn [c_put string_c]. unfold put_string. unfold MAX_PDU in Hs. rewrite wrapU_small by lia.
    destruct (put_uint_spec m (Z.of_nat (length s))) as (m1 & -> & H1); [done|lia|]. rewrite bind_Ok.
    destruct (rawbytes_spec m1 s) as (m2 & -> & H2);
      [apply H1|rewrite (ex_ind _ _ _ H1); cbn [length be4]; lia|].
    exists m2. split; [done|]. by eapply extends_app.
  - intros u s rest Hs Hr. unfold enc_string in *. rewrite <- app_assoc in Hr.
    apply get_uint_spec in Hr as [E Hr]. cbn [c_get string_c]. unfold get_string.
    rewrite E. run_ok. rewrite (rd_ok _ _ Hr). unfold MAX_PDU in Hs.
    rewrite wrapU_small, (un_rawbytes_spec _ _ s rest) by (done || lia).
    by rewrite advance_add, length_app.
Qed.

#[export] Instance pair_ok {A B} (a : codec A) (b : codec B) va ea vb eb
    `{!CodecOK a va ea} `{!CodecOK b vb eb} :
  CodecOK (pair_c a b) (fun x => va x.1 /\ vb x.2) (fun x => ea x.1 ++ eb x.2).
Proof.
  split.
  - intros m x Hwf [Ha Hb] Hm. rewrite length_app in Hm. cbn [c_put pair_c].
    destruct (put_ok m x.1) as (m1 & -> & H1); [done..|lia|]. rewrite bind_Ok.
    destruct (put_ok m1 x.2) as (m2 & -> & H2); [apply H1|done|rewrite (ex_ind _ _ _ H1); lia|].
    exists m2. split; [done|]. by eapply extends_app.
  - intros u [x y] rest [Ha Hb] Hr. cbn [fst snd] in *. rewrite <- app_assoc in Hr.
    apply (get_reads a va ea) in Hr as [E Hr]; [|done]. cbn [c_get c_init pair_c fst snd].
    rewrite E. run_ok.
    apply (get_reads b vb eb) in Hr as [E' Hr]; [|done].
    rewrite E'. run_ok. by rewrite advance_add, length_app.
Qed.

Definition enc_items {A} (enc : A -> list byte) (v : list A) : list byte := concat (enc <$> v).

Lemma put_items_ok {A} (c : codec A) valid enc `{!CodecOK c valid enc} v : forall m,
  marshall_wf m -> Forall valid v -> m_ind m + Z.of_nat (length (enc_items enc v)) <= MAX_PDU ->
  exists m', put_items c m v = Ok m' /\ extends m (enc_items enc v) m'.
Proof.
  induction v as [|x v IH]; intros m Hwf Hv Hm.
  { exists m. split; [done|]. by apply extends_nil. }
  apply Forall_cons in Hv as [Hx Hv]. unfold enc_items in *. rewrite fmap_cons in *. cbn [concat] in *.
  rewrite length_app in Hm. cbn [put_items].
  destruct (put_ok m x) as (m1 & -> & H1); [done..|lia|]. rewrite bind_Ok.
  destruct (IH m1) as (m2 & -> & H2); [apply H1|done|rewrite (ex_ind _ _ _ H1); lia|].
  exists m2. split; [done|]. by eapply extends_app.
Qed.

Lemma get_items_ok {A} (c : codec A) valid enc `{!CodecOK c valid enc} v : forall u pre rest,
  Forall valid v -> reads u (enc_items enc v ++ rest) ->
  get_items c (length v) u pre = Ok (pre ++ v, advance u (length (enc_items enc v))).
Proof.
  induction v as [|x v IH]; intros u pre rest Hv Hr.
  { cbn. rewrite app_nil_r. unfold advance, set_uind. rewrite Z.add_0_r. by destruct u. }
  apply Forall_cons in Hv as [Hx Hv]. unfold enc_items in *. rewrite fmap_cons in *. cbn [concat] in *.
  rewrite <- app_assoc in Hr. cbn [length get_items].
  apply (get_reads c valid enc) in Hr as [E Hr]; [|done]. rewrite E. run_ok.
  rewrite (IH _ _ rest) by done. by rewrite advance_add, length_app, <- app_assoc.
Qed.

#[export] Instance vector_ok {A} (c : codec A) valid enc `{!CodecOK c valid enc} :
  CodecOK (vector_c c) (fun v => Z.of_nat (length v) < 2 ^ 32 /\ Forall valid v)
    (fun v => be4 (Z.of_nat (length v)) ++ enc_items enc v).
Proof.
  split.
  - intros m v Hwf [Hn Hv] Hm. rewrite length_app in Hm. cbn [length be4] in Hm.
    cbn [c_put vector_c]. unfold put_vector. rewrite wrapU_small by lia.
    destruct (put_uint_spec m (Z.of_nat (length v))) as (m1 & -> & H1); [done|lia|]. rewrite bind_Ok.
    destruct (put_items_ok c valid enc v m1) as (m2 & -> & H2);
      [apply H1|done|rewrite (ex_ind _ _ _ H1); cbn [length be4]; lia|].
    exists m2. split; [done|]. by eapply extends_app.
  - intros u v rest [Hn Hv] Hr. rewrite <- app_assoc in Hr. apply get_uint_spec in Hr as [E Hr].
    cbn [c_get vector_c]. unfold get_vector. rewrite E. run_ok.
    rewrite wrapU_small, Nat2Z.id by lia. cbn [c_init vector_c].
    rewrite (get_items_ok c valid enc v _ [] rest) by done. by rewrite advance_add, length_app.
Qed.

(** Keys that come in increasing order are put behind those that are there. *)
Definition keys_sorted {A B} (lt : A -> A -> bool) : list (A * B) -> Prop :=
  StronglySorted (fun x y => lt x.1 y.1 = true).

Lemma map_assign_last {A B} (lt : A -> A -> bool) (a : A) (b : B) d :
  (forall x y, lt x y = true -> lt y x = false) -> Forall (fun x => lt x.1 a = true) d ->
  map_assign lt a b d = d ++ [(a, b)].
Proof.
  intros Hlt. induction 1 as [|[k v] d Hk Hd IH]; [done|]. cbn [map_assign app fst] in *.
  by rewrite (Hlt _ _ Hk), Hk, IH.
Qed.

Lemma get_map_items_ok {A B} (lt : A -> A -> bool) (a : codec A) (b : codec B) va ea vb eb
    `{!CodecOK a va ea} `{!CodecOK b vb eb} d : (forall x y, lt x y = true -> lt y x = false) -> forall u pre rest,
  Forall (fun x => va x.1 /\ vb x.2) d -> keys_sorted lt (pre ++ d) ->
  reads u (enc_items (fun x => ea x.1 ++ eb x.2) d ++ rest) ->
  get_map_items lt a b (length d) u pre = Ok (pre ++ d, advance u (length (enc_items (fun x => ea x.1 ++ eb x.2) d))).
Proof.
  intros Hlt. induction d as [|[x y] d IH]; intros u pre rest Hv Hs Hr.
  { cbn. rewrite app_nil_r. unfold advance, set_uind. rewrite Z.add_0_r. by destruct u. }
  apply Forall_cons in Hv as [[Hx Hy] Hv]. unfold enc_items in *. rewrite fmap_cons in *. cbn [concat fst snd] in *.
  rewrite <- !app_assoc in Hr. cbn [length get_map_items].
  apply (get_reads a va ea) in Hr as [-> Hr]; [|done]. run_ok.
  apply (get_reads b vb eb) in Hr as [-> Hr]; [|done]. run_ok.
  assert (Forall (fun p => lt p.1 x = true) pre) as Hpre.
  { apply Forall_forall. intros p Hp. apply (StronglySorted_app_1_elem_of _ _ _ p (x, y) Hs Hp), list_elem_of_here. }
  rewrite map_assign_last, (IH _ _ rest) by (done || by rewrite <- app_assoc).
  by rewrite !advance_add, <- app_assoc, !length_app, Nat.add_assoc.
Qed.

#[export] Instance map_ok {A B} (lt : A -> A -> bool) (a : codec A) (b : codec B) va ea vb eb
    `{!CodecOK a va ea} `{!CodecOK b vb eb} (Hlt : forall x y, lt x y = true -> lt y x = false) :
  CodecOK (map_c lt a b)
    (fun d => (Z.of_nat (length d) < 2 ^ 32 /\ Forall (fun x => va x.1 /\ vb x.2) d) /\ keys_sorted lt d)
    (fun d => be4 (Z.of_nat (length d)) ++ enc_items (fun x => ea x.1 ++ eb x.2) d).
Proof.
  split.
  - intros m d Hwf [Hv _] Hm. exact (put_ok (c := vector_c (pair_c a b)) m d Hwf Hv Hm).
  - intros u d rest [[Hn Hv] Hs] Hr. rewrite <- app_assoc in Hr. apply get_uint_spec in Hr as [E Hr].
    cbn [c_get map_c]. unfold get_map. rewrite E. run_ok. rewrite wrapU_small, Nat2Z.id by lia.
    rewrite (get_map_items_ok lt a b va ea vb eb d Hlt _ [] rest) by done. by rewrite advance_add, length_app.
Qed.

End instances.

(** ** Headers *)

Definition enc_req (h : req_header) : list byte :=
  be4 (q_xid h) ++ be4 (q_proc h) ++ be4 (q_clt_nonce h) ++ be4 (q_srv_nonce h) ++ be4 (q_xid_rep h).
Definition enc_rep (h : reply_header) : list byte := be4 (p_xid h) ++ be4 (p_ret h).

Record req_valid (h : req_header) : Prop := {
  qv_xid : - 2 ^ 31 <= q_xid h < 2 ^ 31;
  qv_proc : - 2 ^ 31 <= q_proc h < 2 ^ 31;
  qv_clt : 0 <= q_clt_nonce h < 2 ^ 32;
  qv_srv : 0 <= q_srv_nonce h < 2 ^ 32;
  qv_rep : - 2 ^ 31 <= q_xid_rep h < 2 ^ 31;
}.
Record rep_valid (h : reply_header) : Prop := {
  pv_xid : - 2 ^ 31 <= p_xid h < 2 ^ 31;
  pv_ret : - 2 ^ 31 <= p_ret h < 2 ^ 31;
}.

Lemma memcpy_memcpy {A} (dst : list A) off src src' :
  (off + length src + length src' <= length dst)%nat ->
  memcpy (memcpy dst off src) (off + length src) src' = memcpy dst off (src ++ src').
Proof.
  intros Hl. unfold memcpy at 1. rewrite take_memcpy by lia. unfold memcpy.
  rewrite !length_app, <- app_assoc. f_equal.
  rewrite <- app_assoc. do 2 f_equal. rewrite app_assoc, drop_app_ge by len.
  rewrite length_app, length_take, drop_drop, Nat.min_l by lia. f_equal. lia.
Qed.

Section headers.
Context `{HeapMem}.

Lemma rawbyte_in m x :
  Z.of_nat (length (m_buf m)) = m_capa m -> 0 <= m_ind m < m_capa m ->
  rawbyte m x = Ok (mk_marshall (memcpy (m_buf m) (Z.to_nat (m_ind m)) [z2b x]) (m_capa m) (m_ind m + 1)).
Proof.
  intros Hl Hi. unfold rawbyte. rewrite (proj2 (Z.leb_gt _ _)) by lia. cbn [mbind result_bind].
  unfold store. by rewrite (proj2 (Z.leb_le _ _)), (proj2 (Z.leb_le _ _)) by (cbn [length]; lia).
Qed.

(** [bs] written over the buffer of [m] from [m_ind] on. *)
Definition over (m : marshall) (bs : list byte) : marshall :=
  mk_marshall (memcpy (m_buf m) (Z.to_nat (m_ind m)) bs) (m_capa m) (m_ind m + Z.of_nat (length bs)).
Definition room (m : marshall) (n : Z) : Prop :=
  Z.of_nat (length (m_buf m)) = m_capa m /\ 0 <= m_ind m /\ m_ind m + n <= m_capa m.

Lemma over_over m bs bs' : room m (Z.of_nat (length (bs ++ bs'))) -> over (over m bs) bs' = over m (bs ++ bs').
Proof.
  rewrite length_app. intros (Hl & Hi & Hr). unfold over. cbn [m_buf m_capa m_ind].
  replace (Z.to_nat (m_ind m + Z.of_nat (length bs))) with (Z.to_nat (m_ind m) + length bs)%nat by lia.
  rewrite memcpy_memcpy, length_app by lia. f_equal. lia.
Qed.

Lemma room_over m bs n : room m n -> Z.of_nat (length bs) <= n -> room (over m bs) (n - Z.of_nat (length bs)).
Proof.
  intros (Hl & Hi & Hr) Hn. unfold room, over. cbn [m_buf m_capa m_ind].
  rewrite length_memcpy by lia. lia.
Qed.

Lemma room_le m n n' : room m n -> n' <= n -> room m n'.
Proof. unfold room. lia. Qed.

Lemma rawbyte_over m x n : room m n -> 1 <= n ->
  rawbyte m x = Ok (over m [z2b x]) /\ room (over m [z2b x]) (n - 1).
Proof.
  intros Hr Hn. split; [|by apply (room_over m [z2b x])]. destruct Hr as (Hl & Hi & Hroom).
  rewrite rawbyte_in by lia. done.
Qed.

Lemma pack_over m x n : room m n -> 4 <= n -> pack m x = Ok (over m (be4 x)) /\ room (over m (be4 x)) (n - 4).
Proof.
  intros Hr Hn. split; [|by apply (room_over m (be4 x))]. unfold pack.
  destruct (rawbyte_over m (Z.land (Z.shiftr x 24) 0xff) n) as [-> H1]; [done|lia|]. rewrite bind_Ok.
  destruct (rawbyte_over _ (Z.land (Z.shiftr x 16) 0xff) _ H1) as [-> H2]; [lia|]. rewrite bind_Ok.
  destruct (rawbyte_over _ (Z.land (Z.shiftr x 8) 0xff) _ H2) as [-> H3]; [lia|]. rewrite bind_Ok.
  destruct (rawbyte_over _ (Z.land x 0xff) _ H3) as [-> _]; [lia|].
  rewrite !over_over, !z2b_byte, z2b_land by (lia || (eapply room_le; [eassumption|cbn; lia])). done.
Qed.

Lemma be4_s32 x : be4 (s32 x) = be4 x.
Proof. rewrite <- be4_mod. change (s32 x mod 2 ^ 32) with (u32 (s32 x)). rewrite wrapU_wrapS by lia. apply be4_mod. Qed.

(** Packing a header overwrites the bytes behind the size field. *)
Lemma pack_req_header_spec m h : marshall_wf m ->
  pack_req_header m h =
    Ok (mk_marshall (memcpy (m_buf m) 4 (enc_req h)) (m_capa m) (m_ind m)).
Proof.
  intros [Hl Hh Hi]. rewrite header_sz in Hh. unfold pack_req_header.
  assert (room (set_ind m 4) 20) as H0 by (unfold room, set_ind; cbn; lia).
  destruct (pack_over _ (q_xid h) _ H0) as [-> H1]; [lia|]. rewrite bind_Ok.
  destruct (pack_over _ (q_proc h) _ H1) as [-> H2]; [lia|]. rewrite bind_Ok.
  destruct (pack_over _ (s32 (q_clt_nonce h)) _ H2) as [-> H3]; [lia|]. rewrite bind_Ok.
  destruct (pack_over _ (s32 (q_srv_nonce h)) _ H3) as [-> H4]; [lia|]. rewrite bind_Ok.
  destruct (pack_over _ (q_xid_rep h) _ H4) as [-> _]; [lia|]. rewrite bind_Ok.
  rewrite !over_over, !be4_s32 by (eapply room_le; [eassumption|cbn; lia]). done.
Qed.

Lemma pack_reply_header_spec m h : marshall_wf m ->
  pack_reply_header m h =
    Ok (mk_marshall (memcpy (m_buf m) 4 (enc_rep h)) (m_capa m) (m_ind m)).
Proof.
  intros [Hl Hh Hi]. rewrite header_sz in Hh. unfold pack_reply_header.
  assert (room (set_ind m 4) 20) as H0 by (unfold room, set_ind; cbn; lia).
  destruct (pack_over _ (p_xid h) _ H0) as [-> H1]; [lia|]. rewrite bind_Ok.
  destruct (pack_over _ (p_ret h) _ H1) as [-> _]; [lia|]. rewrite bind_Ok.
  rewrite !over_over by (eapply room_le; [eassumption|cbn; lia]). done.
Qed.

(** The bytes sent: a size field, the header, what pads it, and the body. *)
Record framed (pdu hdr body : list byte) : Prop := {
  fr_len : length pdu = (24 + length body)%nat;
  fr_hdr : exists rest, drop 4 pdu = hdr ++ rest;
  fr_body : drop 24 pdu = body;
  fr_max : Z.of_nat (length pdu) <= MAX_PDU;
}.

Lemma over_framed m hdr : marshall_wf m -> (length hdr <= 20)%nat -> 24 <= m_ind m <= MAX_PDU ->
  framed (m_pdu (mk_marshall (memcpy (m_buf m) 4 hdr) (m_capa m) (m_ind m))) hdr (drop 24 (m_pdu m)).
Proof.
  intros [Hl Hh Hi] Hn Hm. unfold m_pdu. cbn [m_buf m_ind].
  assert (length (memcpy (m_buf m) 4 hdr) = length (m_buf m)) as Hlen by (apply length_memcpy; lia).
  split.
  - rewrite length_take, length_drop, length_take. lia.
  - assert (hdr = slice 4 (length hdr) (memcpy (m_buf m) 4 hdr)) as E by (symmetry; apply slice_memcpy_eq; lia).
    set (P := take _ _). exists (drop (length hdr) (drop 4 P)).
    assert (take (length hdr) (drop 4 P) = hdr) as EP.
    { rewrite E at 2. unfold P, slice. by rewrite !take_drop_commute, take_take, Nat.min_l by lia. }
    rewrite <- EP at 1. by rewrite take_drop.
  - replace (Z.to_nat (m_ind m)) with (24 + Z.to_nat (m_ind m - 24))%nat by lia.
    rewrite <- !take_drop_commute. apply slice_memcpy_ne; lia.
  - rewrite length_take. lia.
Qed.

(** A reader of a framed message. *)
Lemma framed_reads pdu hdr body i rest : framed pdu hdr body ->
  drop (Z.to_nat i) pdu = rest -> 0 <= i <= Z.of_nat (length pdu) ->
  reads (set_uind (unmarshall_buf pdu) i) rest.
Proof.
  intros [_ _ _ Hm] Hd Hi. unfold MAX_PDU in Hm. split; cbn [set_uind unmarshall_buf u_ok u_sz u_buf u_ind];
    [done..|unfold INT_MAX; lia|done|done].
Qed.

Lemma unpack_spec u x rest : - 2 ^ 31 <= x < 2 ^ 31 -> reads u (be4 x ++ rest) ->
  unpack u = Ok (x, advance u 4) /\ reads (advance u 4) rest.
Proof.
  intros Hx Hr. unfold unpack. apply (get_reads int_c (fun x => - 2 ^ 31 <= x < 2 ^ 31) be4 u x rest Hx Hr).
Qed.

Lemma unpack_nonce u x rest : 0 <= x < 2 ^ 32 -> reads u (be4 x ++ rest) ->
  unpack u = Ok (s32 x, advance u 4) /\ reads (advance u 4) rest.
Proof. intros Hx. rewrite <- be4_s32. apply unpack_spec. apply (wrapS_range 32). lia. Qed.

Lemma unpack_req_header_spec pdu h body : framed pdu (enc_req h) body -> req_valid h ->
  exists u, unpack_req_header (unmarshall_buf pdu) = Ok (h, u) /\ reads u body.
Proof.
  intros Hf [Hx Hp Hc Hs Hr]. destruct (fr_hdr _ _ _ Hf) as (rest & Hd). pose proof (fr_len _ _ _ Hf) as Hl.
  pose proof (framed_reads pdu _ body 4 _ Hf Hd ltac:(lia)) as R.
  unfold enc_req in R. rewrite <- !app_assoc in R. unfold unpack_req_header.
  apply unpack_spec in R as [-> R]; [|done]. run_ok.
  apply unpack_spec in R as [-> R]; [|done]. run_ok.
  apply unpack_nonce in R as [-> R]; [|done]. run_ok.
  apply unpack_nonce in R as [-> R]; [|done]. run_ok.
  apply unpack_spec in R as [-> R]; [|done]. run_ok.
  eexists. split.
  - rewrite !wrapU_wrapS, !wrapU_small by done. by destruct h.
  - rewrite header_sz. rewrite <- (fr_body _ _ _ Hf).
    by apply (framed_reads pdu _ body 24 _ Hf); [|lia].
Qed.

Lemma unpack_reply_header_spec pdu h body : framed pdu (enc_rep h) body -> rep_valid h ->
  exists u, unpack_reply_header (unmarshall_buf pdu) = Ok (h, u) /\ reads u body /\
    reads (take_in u) body.
Proof.
  intros Hf [Hx Hp]. destruct (fr_hdr _ _ _ Hf) as (rest & Hd). pose proof (fr_len _ _ _ Hf) as Hl.
  pose proof (framed_reads pdu _ body 4 _ Hf Hd ltac:(lia)) as R.
  unfold enc_rep in R. rewrite <- !app_assoc in R. unfold unpack_reply_header.
  apply unpack_spec in R as [-> R]; [|done]. run_ok.
  apply unpack_spec in R as [-> R]; [|done]. run_ok.
  assert (reads (set_uind (unmarshall_buf pdu) 24) body) as R24
    by (rewrite <- (fr_body _ _ _ Hf); by apply (framed_reads pdu _ body 24 _ Hf); [|lia]).
  eexists. split; [by destruct h|]. rewrite header_sz. split; [done|].
  unfold take_in. cbn [u_buf u_sz set_uind advance unmarshall_buf]. rewrite header_sz.
  rewrite (proj2 (Z.leb_le _ _)) by lia. done.
Qed.

(** A body that has been read to its end. *)
Lemma reads_okdone u : reads u [] -> okdone u = true.
Proof.
  intros Hr. pose proof (reads_length _ _ Hr) as Hl. cbn in Hl. unfold okdone.
  rewrite (rd_ok _ _ Hr). apply Z.eqb_eq. lia.
Qed.

(** [marshall::get_content] and the unmarshaller built from it. *)
Lemma get_content_spec m body : extends marshall_new body m -> get_content m = body.
Proof.
  intros [[Hl Hh Hi] Hind Hp]. rewrite header_sz in *. cbn [marshall_new m_ind] in Hind.
  rewrite header_sz in Hind. unfold get_content. rewrite header_sz.
  rewrite take_drop_commute. replace (Z.to_nat 24 + Z.to_nat (m_ind m - 24))%nat with (Z.to_nat (m_ind m)) by lia.
  fold (m_pdu m). rewrite Hp. apply drop_app_length'. unfold m_pdu. cbn [marshall_new m_ind m_buf].
  by rewrite length_take, length_heap_bytes.
Qed.

Lemma take_content_reads body : 24 + Z.of_nat (length body) <= MAX_PDU -> reads (take_content body) body.
Proof.
  unfold MAX_PDU. intros Hm. unfold take_content. rewrite header_sz, wrapS_small by lia.
  split; cbn [u_ok u_sz u_buf u_ind]; unfold INT_MAX; [done| |lia|lia|].
  - rewrite length_memcpy; rewrite length_heap_bytes; lia.
  - assert (slice (Z.to_nat 24) (length body)
      (memcpy (heap_bytes (Z.to_nat (Z.of_nat (length body) + 24))) (Z.to_nat 24) body) = body) as E
      by (apply slice_memcpy_eq; rewrite length_heap_bytes; lia).
    etrans; [|exact E]. unfold slice. rewrite take_ge; [done|].
    rewrite length_drop, length_memcpy; rewrite length_heap_bytes; lia.
Qed.

End headers.
