(* ===== verification/WireTypes.v ===== *)
(** * WireTypes: what is read from a message has its type

    Whatever bytes a peer has sent, reading a number from them is defined and gives
    a value of the type that is read; past the end of the message the reader says
    so.  Containers of such types inherit it.  (Strings do not: the check of their
    length can wrap around, see [Marshall.un_rawbytes].) *)

From Stdlib Require Import ZArith Lia.
From S2P Require Import Prelude Marshall.

(** A reader inside, or past the end of, its buffer. *)
Definition un_wf (u : unmarshall) : Prop := u_sz u = Z.of_nat (length (u_buf u)) /\ 0 <= u_ind u.

(** The reader [u'] has gone on from [u]: in the same message, and a failure stays. *)
Definition read_on (u u' : unmarshall) : Prop :=
  un_wf u' /\ u_buf u' = u_buf u /\ u_ind u <= u_ind u' /\ (u_ok u' = true -> u_ok u = true).

(** A defined result with a property. *)
Definition gives {A} (u : unmarshall) (r : result (A * unmarshall)) (P : A -> Prop) : Prop :=
  exists x u', r = Ok (x, u') /\ P x /\ read_on u u'.

Definition unsigned (n x : Z) : Prop := 0 <= x < 2 ^ n.
Definition signed (n x : Z) : Prop := - 2 ^ (n - 1) <= x < 2 ^ (n - 1).

Lemma read_on_trans u1 u2 u3 : read_on u1 u2 -> read_on u2 u3 -> read_on u1 u3.
Proof. intros (_ & E2 & H2 & O2) (H1 & E3 & H3 & O3). split_and!; [done|congruence|lia|auto]. Qed.

Lemma gives_bind {A B} u (r : result (A * unmarshall)) P (f : A * unmarshall -> result (B * unmarshall)) Q :
  gives u r P -> (forall x u', P x -> read_on u u' -> gives u' (f (x, u')) Q) -> gives u (x ← r; f x) Q.
Proof.
  intros (x & u1 & -> & Hx & H1) Hf. rewrite bind_Ok. destruct (Hf x u1 Hx H1) as (y & u2 & -> & Hy & H2).
  exists y, u2. split_and!; [done..|by eapply read_on_trans].
Qed.

Lemma gives_ok {A} u (x : A) (P : A -> Prop) : un_wf u -> P x -> gives u (Ok (x, u)) P.
Proof. intros Hu Hx. exists x, u. split_and!; [done..|]. by split_and!. Qed.

Lemma gives_weaken {A} u (r : result (A * unmarshall)) P Q : gives u r P -> (forall x, P x -> Q x) -> gives u r Q.
Proof. intros (x & u' & E & Hx & Hu) HPQ. exists x, u'. auto. Qed.

(** ** Bytes and numbers *)

Lemma un_rawbyte_total u : un_wf u -> gives u (un_rawbyte u) (fun _ => True).
Proof.
  intros [Hs Hi]. unfold un_rawbyte. destruct (Z.leb_spec (u_sz u) (u_ind u)).
  { eexists _, _. split_and!; [done..|]. split_and!; cbn; [done..|lia|done]. }
  unfold load. rewrite (proj2 (Z.leb_le _ _)) by done.
  destruct (lookup_lt_is_Some_2 (u_buf u) (Z.to_nat (u_ind u))) as [c ->]; [lia|].
  eexists _, _. split_and!; [done..|]. split_and!; cbn; [split; cbn; [done|lia]|done|lia|done].
Qed.

(** Reads the bytes of a number one after the other. *)
Ltac read_bytes :=
  repeat (eapply gives_bind; [apply un_rawbyte_total; assumption|]; intros ? ? _ [? _]; cbv beta iota).

Lemma get_bool_typed u : un_wf u -> gives u (get_bool u) (fun _ => True).
Proof. intros Hu. unfold get_bool. read_bytes. by apply gives_ok. Qed.

Lemma get_uchar_typed u : un_wf u -> gives u (get_uchar u) (unsigned 8).
Proof. intros Hu. unfold get_uchar. read_bytes. apply gives_ok; [done|]. by apply wrapU_range. Qed.

Lemma get_char_typed u : un_wf u -> gives u (get_char u) (signed 8).
Proof. intros Hu. unfold get_char. read_bytes. apply gives_ok; [done|]. by apply wrapS_range. Qed.

Lemma get2_total u : un_wf u -> gives u (get2 u) (fun _ => True).
Proof. intros Hu. unfold get2. read_bytes. by apply gives_ok. Qed.

Lemma get4_total u : un_wf u -> gives u (get4 u) (fun _ => True).
Proof. intros Hu. unfold get4. read_bytes. by apply gives_ok. Qed.

Lemma get_ushort_typed u : un_wf u -> gives u (get_ushort u) (unsigned 16).
Proof.
  intros Hu. eapply gives_bind; [by apply get2_total|]. intros x u' _ [Hu' _]. apply gives_ok; [done|]. by apply wrapU_range.
Qed.

Lemma get_short_typed u : un_wf u -> gives u (get_short u) (signed 16).
Proof.
  intros Hu. eapply gives_bind; [by apply get2_total|]. intros x u' _ [Hu' _]. apply gives_ok; [done|]. by apply wrapS_range.
Qed.

Lemma get_uint_typed u : un_wf u -> gives u (get_uint u) (unsigned 32).
Proof.
  intros Hu. eapply gives_bind; [by apply get4_total|]. intros x u' _ [Hu' _]. apply gives_ok; [done|]. by apply wrapU_range.
Qed.

Lemma get_int_typed u : un_wf u -> gives u (get_int u) (signed 32).
Proof.
  intros Hu. eapply gives_bind; [by apply get4_total|]. intros x u' _ [Hu' _]. apply gives_ok; [done|]. by apply wrapS_range.
Qed.

Lemma lor_unsigned n x y : 0 <= n -> unsigned n x -> unsigned n y -> unsigned n (Z.lor x y).
Proof.
  unfold unsigned. intros Hn Hx Hy. assert (0 <= Z.lor x y) as H0 by (apply Z.lor_nonneg; lia). split; [done|].
  destruct (Z.eq_dec (Z.lor x y) 0) as [E|Hne]; [rewrite E; by apply Z.pow_pos_nonneg|].
  apply Z.log2_lt_pow2; [lia|]. rewrite Z.log2_lor by lia.
  destruct (Z.eq_dec n 0) as [->|Hn0]; [change (2 ^ 0) with 1 in *; assert (x = 0 /\ y = 0) as [-> ->] by lia; done|].
  assert (forall z, 0 <= z < 2 ^ n -> Z.log2 z < n) as Hlog; [|apply Z.max_lub_lt; by apply Hlog].
  intros z Hz. destruct (Z.eq_dec z 0) as [->|]; [cbn; lia|]. apply Z.log2_lt_pow2; lia.
Qed.

Lemma get_ull_typed u : un_wf u -> gives u (get_ull u) (unsigned 64).
Proof.
  intros Hu. eapply gives_bind; [by apply get_uint_typed|]. intros h u1 _ [Hu1 _].
  eapply gives_bind; [by apply get_uint_typed|]. intros l u2 Hl [Hu2 _].
  apply gives_ok; [done|]. apply lor_unsigned; [done| |by apply wrapU_range]. unfold unsigned in *. lia.
Qed.

(** ** Containers *)

(** The operator [>>] of a type gives values of the type. *)
Class Typed {A} (c : codec A) (P : A -> Prop) :=
  typed u x : un_wf u -> gives u (c_get c u x) P.

Section containers.
Context `{HeapMem}.

#[export] Instance uchar_typed : Typed uchar_c (unsigned 8) := fun u _ => get_uchar_typed u.
#[export] Instance ushort_typed : Typed ushort_c (unsigned 16) := fun u _ => get_ushort_typed u.
#[export] Instance uint_typed : Typed uint_c (unsigned 32) := fun u _ => get_uint_typed u.
#[export] Instance int_typed : Typed int_c (signed 32) := fun u _ => get_int_typed u.
#[export] Instance ull_typed : Typed ull_c (unsigned 64) := fun u _ => get_ull_typed u.

Lemma get_items_typed {A} (c : codec A) P `{!Typed c P} n : forall u v, un_wf u -> Forall P v ->
  gives u (get_items c n u v) (fun l => Forall P l /\ length l = (length v + n)%nat).
Proof.
  induction n as [|n IH]; intros u v Hu Hv; cbn [get_items].
  - apply gives_ok; [done|]. split; [done|lia].
  - eapply gives_bind; [by apply typed|]. intros x u' Hx [Hu' _]. cbv beta iota.
    eapply gives_weaken; [apply IH; [done|]|].
    + apply Forall_app. split; [done|]. by apply Forall_singleton.
    + intros l [Hl E]. split; [done|]. rewrite length_app in E. cbn in E. lia.
Qed.

(** The vector that is read into keeps its elements. *)
Lemma get_vector_typed {A} (c : codec A) P `{!Typed c P} u v : un_wf u -> Forall P v ->
  gives u (get_vector c u v) (Forall P).
Proof.
  intros Hu Hv. eapply gives_bind; [by apply get_uint_typed|]. intros n u' _ [Hu' _]. cbv beta iota.
  eapply gives_weaken; [by eapply get_items_typed|]. by intros l [? _].
Qed.

Definition entry_ok {A B} (P : A -> Prop) (Q : B -> Prop) (p : A * B) : Prop := P p.1 /\ Q p.2.

Lemma map_assign_typed {A B} lt (P : A -> Prop) (Q : B -> Prop) a b d :
  P a -> Q b -> Forall (entry_ok P Q) d -> Forall (entry_ok P Q) (map_assign lt a b d).
Proof.
  intros Ha Hb Hd. induction Hd as [|[k v] d [Hk Hv] Hd IH]; cbn [map_assign]; [by repeat constructor|].
  repeat case_match; by repeat constructor.
Qed.

#[export] Instance map_typed {A B} lt (a : codec A) (b : codec B) P Q :
  Typed a P -> Typed b Q -> Typed (map_c lt a b) (Forall (entry_ok P Q)).
Proof.
  intros Ha Hb u x Hu. cbn [c_get map_c]. eapply gives_bind; [by apply get_uint_typed|]. intros n u' _ [Hu' _].
  cbv beta iota. clear u x Hu. assert (Forall (entry_ok P Q) []) as Hd by constructor. revert u' Hu' Hd.
  generalize (@nil (A * B)). generalize (Z.to_nat n). clear n. intros n.
  induction n as [|n IH]; intros d u Hu Hd; cbn [get_map_items]; [by apply gives_ok|].
  eapply gives_bind; [by apply Ha|]. intros y u1 Hy [Hu1 _]. cbv beta iota.
  eapply gives_bind; [by apply Hb|]. intros z u2 Hz [Hu2 _]. cbv beta iota. apply IH; [done|]. by apply map_assign_typed.
Qed.

End containers.
