(* ===== verification/Fifo.v ===== *)
(** * Fifo: the bounded queue of jobs (src/rpc/fifo.h)

    The template [fifo] with its two condition variables.  [enq] and [deq] are
    the bodies of the loops of the two methods, one pass with the mutex held; the
    step relation [fifo_step] runs them for any number of threads, with the
    threads that sleep on a condition variable, those that have been woken and
    have not got the mutex yet, and wakeups nobody asked for.  The invariant
    [fifo_inv] gives first-in first-out order, the bound on the length, and that
    no wakeup is lost. *)

From Stdlib Require Import ZArith Lia.

From S2P Require Import Prelude.

Section fifo.
Context {T : Type}.

Record fifo := mk_fifo { q_ : list T; max_ : Z }.

Definition fifo_new (limit : Z) : fifo := mk_fifo [] (u32 limit).

(** [size] returns a [bool]. *)
Definition fifo_size (f : fifo) : bool := match q_ f with [] => false | _ => true end.

Definition qlen (f : fifo) : Z := Z.of_nat (length (q_ f)).

(** One pass of the loop of [enq]: the element is queued and [non_empty_c_] is to
    be signalled, or the thread is to wait on [has_space_c_], or the call returns
    [false]. *)
Inductive enq_result := Queued (f : fifo) | EnqWaits | EnqRefused.
Definition enq (f : fifo) (e : T) (blocking : bool) : enq_result :=
  if (max_ f =? 0) || (qlen f <? max_ f) then Queued (mk_fifo (q_ f ++ [e]) (max_ f))
  else if blocking then EnqWaits else EnqRefused.

(** One pass of the loop of [deq]: the element taken and whether [has_space_c_]
    is to be signalled, or [None] when the thread is to wait on [non_empty_c_]. *)
Definition deq (f : fifo) : option (T * bool * fifo) :=
  match q_ f with
  | [] => None
  | e :: q =>
      let f := mk_fifo q (max_ f) in
      Some (e, negb (max_ f =? 0) && (qlen f <? max_ f), f)
  end.

(** ** Threads

    The threads inside [enq] and [deq]: asleep on a condition variable, or woken
    and about to run the loop again; for those in [enq], with their elements.
    [pushed] and [popped] record what has gone through the queue. *)
Record threads := mk_threads {
  fq : fifo;
  enq_asleep : list T; enq_woken : list T;
  deq_asleep : nat; deq_woken : nat;
  pushed : list T; popped : list T;
}.

Definition threads_new (limit : Z) : threads := mk_threads (fifo_new limit) [] [] 0 0 [] [].

(** [pthread_cond_signal(&non_empty_c_)] *)
Definition signal_non_empty (y : threads) : threads :=
  match deq_asleep y with
  | O => y
  | S n => mk_threads (fq y) (enq_asleep y) (enq_woken y) n (S (deq_woken y)) (pushed y) (popped y)
  end.

(** [pthread_cond_signal(&has_space_c_)] wakes one of the threads that sleep. *)
Inductive signal_has_space : threads -> threads -> Prop :=
| signal_nobody y : enq_asleep y = [] -> signal_has_space y y
| signal_one f l1 e l2 ew ds dw i o :
    signal_has_space (mk_threads f (l1 ++ e :: l2) ew ds dw i o)
      (mk_threads f (l1 ++ l2) (e :: ew) ds dw i o).

(** A thread runs the loop of [enq] once, having left the sets [y] shows. *)
Definition run_enq (y : threads) (e : T) (blocking : bool) : threads :=
  match enq (fq y) e blocking with
  | Queued f => signal_non_empty (mk_threads f (enq_asleep y) (enq_woken y) (deq_asleep y) (deq_woken y)
                                    (pushed y ++ [e]) (popped y))
  | EnqWaits => mk_threads (fq y) (e :: enq_asleep y) (enq_woken y) (deq_asleep y) (deq_woken y) (pushed y) (popped y)
  | EnqRefused => y
  end.

Inductive run_deq (y : threads) : threads -> Prop :=
| deq_takes e b f y' :
    deq (fq y) = Some (e, b, f) ->
    (let y1 := mk_threads f (enq_asleep y) (enq_woken y) (deq_asleep y) (deq_woken y) (pushed y) (popped y ++ [e]) in
     if b then signal_has_space y1 y' else y' = y1) ->
    run_deq y y'
| deq_waits :
    deq (fq y) = None ->
    run_deq y (mk_threads (fq y) (enq_asleep y) (enq_woken y) (S (deq_asleep y)) (deq_woken y) (pushed y) (popped y)).

Inductive fifo_step : threads -> threads -> Prop :=
| enq_call y e b : fifo_step y (run_enq y e b)
| enq_resume f es l1 e l2 ds dw i o :
    fifo_step (mk_threads f es (l1 ++ e :: l2) ds dw i o) (run_enq (mk_threads f es (l1 ++ l2) ds dw i o) e true)
| deq_call y y' : run_deq y y' -> fifo_step y y'
| deq_resume f es ew ds dw i o y' :
    run_deq (mk_threads f es ew ds dw i o) y' -> fifo_step (mk_threads f es ew ds (S dw) i o) y'
| enq_spurious f l1 e l2 ew ds dw i o :
    fifo_step (mk_threads f (l1 ++ e :: l2) ew ds dw i o) (mk_threads f (l1 ++ l2) (e :: ew) ds dw i o)
| deq_spurious f es ew ds dw i o :
    fifo_step (mk_threads f es ew (S ds) dw i o) (mk_threads f es ew ds (S dw) i o).

(** ** The invariant *)

Record fifo_inv (limit : Z) (y : threads) : Prop := {
  fi_max : max_ (fq y) = u32 limit;
  fi_order : pushed y = popped y ++ q_ (fq y);
  fi_bound : max_ (fq y) = 0 \/ qlen (fq y) <= max_ (fq y);
  (* a thread asleep in [deq] has no element it could take but those the woken will *)
  fi_deq : deq_asleep y = 0%nat \/ qlen (fq y) <= Z.of_nat (deq_woken y);
  (* a thread asleep in [enq] has no space it could use but that of the woken *)
  fi_enq : enq_asleep y = [] \/
    max_ (fq y) <> 0 /\ max_ (fq y) - qlen (fq y) <= Z.of_nat (length (enq_woken y));
}.

Lemma qlen_snoc f e : qlen (mk_fifo (q_ f ++ [e]) (max_ f)) = qlen f + 1.
Proof. unfold qlen. cbn. rewrite length_app. cbn. lia. Qed.

Lemma enq_queued f e b f' : enq f e b = Queued f' ->
  f' = mk_fifo (q_ f ++ [e]) (max_ f) /\ (max_ f = 0 \/ qlen f < max_ f).
Proof.
  unfold enq. destruct (_ || _) eqn:E; [|by destruct b]. intros [= <-]. split; [done|]. lia.
Qed.

Lemma enq_full f e b : enq f e b = EnqWaits \/ enq f e b = EnqRefused -> max_ f <> 0 /\ max_ f <= qlen f.
Proof. unfold enq. destruct (_ || _) eqn:E; [by intros [|]|]. intros _. lia. Qed.

Lemma new_inv limit : fifo_inv limit (threads_new limit).
Proof.
  pose proof (wrapU_range 32 limit). split; cbn; [done|done| |by left|by left].
  unfold qlen. cbn. lia.
Qed.

(** A thread that is about to run [enq] counts as woken. *)
Lemma run_enq_inv limit f es l1 e l2 ds dw i o b :
  fifo_inv limit (mk_threads f es (l1 ++ e :: l2) ds dw i o) ->
  fifo_inv limit (run_enq (mk_threads f es (l1 ++ l2) ds dw i o) e b).
Proof.
  intros [Hm Ho Hb Hd He]. cbn in *. unfold run_enq. cbn [fq].
  assert (length (l1 ++ e :: l2) = S (length (l1 ++ l2))) as El by len.
  destruct (enq f e b) as [f'| |] eqn:E.
  - apply enq_queued in E as [-> Hs].
    unfold signal_non_empty. destruct ds as [|ds]; split; cbn; rewrite ?qlen_snoc; try done; try lia.
    + by rewrite Ho, app_assoc.
    + destruct He as [?|[? ?]]; [by left|right]. lia.
    + by rewrite Ho, app_assoc.
    + destruct He as [?|[? ?]]; [by left|right]. lia.
  - destruct (enq_full f e b) as [? ?]; [by left|]. split; cbn; try done. right. lia.
  - destruct (enq_full f e b) as [? ?]; [by right|]. split; cbn; try done. destruct He; [by left|right; lia].
Qed.

Lemma signal_space_inv limit f es ew ds dw i o y' :
  signal_has_space (mk_threads f es ew ds dw i o) y' ->
  max_ f = u32 limit -> i = o ++ q_ f -> (max_ f = 0 \/ qlen f <= max_ f) ->
  (ds = 0%nat \/ qlen f <= Z.of_nat dw) ->
  (es = [] \/ max_ f <> 0 /\ max_ f - qlen f <= Z.of_nat (S (length ew))) -> fifo_inv limit y'.
Proof.
  intros Hs ???? He. inversion Hs; subst; split; cbn in *; try done; [by left|].
  destruct He as [?|[? ?]]; [by destruct l1|]. right. split; [done|]. lia.
Qed.

(** A thread that is about to run [deq] counts as woken. *)
Lemma run_deq_inv limit f es ew ds dw i o y' :
  fifo_inv limit (mk_threads f es ew ds (S dw) i o) ->
  run_deq (mk_threads f es ew ds dw i o) y' -> fifo_inv limit y'.
Proof.
  intros [Hm Ho Hb Hd He] Hr. cbn in *.
  destruct Hr as [e b f' y' E Hy|E]; cbn [fq enq_asleep enq_woken deq_asleep deq_woken pushed popped] in *.
  - unfold deq in E. destruct (q_ f) as [|x q] eqn:Eq; [done|]. injection E as <- <- <-.
    assert (qlen f = qlen (mk_fifo q (max_ f)) + 1) as El by (unfold qlen; rewrite Eq; cbn; lia).
    rewrite El in *. set (f' := mk_fifo q (max_ f)) in *.
    assert (i = (o ++ [x]) ++ q) as Ei by (by rewrite Ho, <- app_assoc).
    destruct (negb _ && _) eqn:Eb; cbn [max_ f'] in Eb.
    + eapply signal_space_inv; [exact Hy|done|done|cbn; lia|lia|cbn].
      destruct He as [?|[? ?]]; [by left|right]. lia.
    + subst y'. split; cbn; [done|done|lia|lia|]. destruct He as [?|[? ?]]; [by left|]. lia.
  - unfold deq in E. destruct (q_ f) as [|x q] eqn:Eq; [|done].
    assert (qlen f = 0) as El by (unfold qlen; by rewrite Eq).
    split; cbn; rewrite ?Eq; try done. right. lia.
Qed.

Lemma fifo_step_inv limit y y' : fifo_step y y' -> fifo_inv limit y -> fifo_inv limit y'.
Proof.
  intros Hs Hy. destruct Hs as [y e b|f es l1 e l2 ds dw i o|y y' Hr|f es ew ds dw i o y' Hr
                                 |f l1 e l2 ew ds dw i o|f es ew ds dw i o].
  - destruct y as [f es ew ds dw i o]. apply (run_enq_inv limit f es [] e ew).
    destruct Hy as [???? He]. split; cbn in *; try done. destruct He; [by left|right; lia].
  - by apply run_enq_inv.
  - destruct y as [f es ew ds dw i o]. eapply run_deq_inv; [|exact Hr].
    destruct Hy as [??? Hd ?]. split; cbn in *; try done. destruct Hd; [by left|right; lia].
  - by eapply run_deq_inv.
  - destruct Hy as [???? He]. split; cbn in *; try done.
    destruct He as [?|[? ?]]; [by destruct l1|]. right. split; [done|lia].
  - destruct Hy as [??? Hd ?]. split; cbn in *; try done. right. destruct Hd; [done|lia].
Qed.

Lemma fifo_reachable_inv limit y : rtc fifo_step (threads_new limit) y -> fifo_inv limit y.
Proof.
  apply rtc_invariant; [apply fifo_step_inv|apply new_inv].
Qed.

End fifo.
Arguments fifo T : clear implicits.
Arguments threads T : clear implicits.
