(* ===== verification/RpcServer.v ===== *)
(** * RpcServer: the server endpoint [class rpcs] (rpc/rpc.cc, rpc/rpc.h)

    The at-most-once reply window, the registered handlers, and [dispatch] in
    the two parts between which its thread holds no lock: [dispatch_pre] up to
    the decision about the request, [dispatch_run] which runs the handler and
    sends the reply.  Connection objects are opaque numbers (their class is
    implemented outside the repository); what [dispatch] does to them is the
    list of effects it returns. *)

From Stdlib Require Import ZArith Lia.
From S2P Require Import Prelude Marshall.

(** ** class rpc_const *)

Definition rpc_bind : Z := 1.
Definition timeout_failure : Z := -1.
Definition unmarshal_args_failure : Z := -2.
Definition unmarshal_reply_failure : Z := -3.
Definition atmostonce_failure : Z := -4.
Definition oldsrv_failure : Z := -5.
Definition bind_failure : Z := -6.
Definition cancel_failure : Z := -7.

(** ** The reply window *)

Record reply_t := mk_reply_t {
  r_xid : Z;
  r_cb_present : bool;
  r_buf : option (list byte);   (* a pointer, and [sz] the size of what it points to *)
}.
Definition reply_new (xid : Z) : reply_t := mk_reply_t xid false None.

(** [rpcstate_t], with the reply that [DONE] leaves in [*b] and [*sz]. *)
Inductive rpcstate :=
| NEW
| INPROGRESS
| DONE (b : option (list byte))
| FORGOTTEN.

Abbreviation window := (gmap Z (list reply_t)).

(** "if xid matches and cb_present, DONE! Else INPROGRESS" *)
Fixpoint find_reply (xid : Z) (rlist : list reply_t) : option rpcstate :=
  match rlist with
  | [] => None
  | r :: rlist =>
      if r_xid r =? xid then Some (if r_cb_present r then DONE (r_buf r) else INPROGRESS)
      else find_reply xid rlist
  end.

(** "insert new one" *)
Fixpoint insert_reply (reply : reply_t) (rlist : list reply_t) : list reply_t :=
  match rlist with
  | [] => [reply]
  | r :: rest => if r_xid reply <? r_xid r then reply :: rlist else r :: insert_reply reply rest
  end.

(** "delete old ones" *)
Fixpoint drop_old (xid_rep : Z) (rlist : list reply_t) : list reply_t :=
  match rlist with
  | [] => []
  | r :: rest => if xid_rep <=? r_xid r then rlist else drop_old xid_rep rest
  end.

Definition too_old (xid : Z) (rlist : list reply_t) : bool :=
  match rlist with [] => false | r :: _ => xid <? r_xid r end.

Definition checkduplicate_and_update (w : window) (clt_nonce xid xid_rep : Z) : rpcstate * window :=
  let rlist := default [] (w !! clt_nonce) in
  let w := <[clt_nonce := rlist]> w in
  match find_reply xid rlist with
  | Some st => (st, w)
  | None =>
      if too_old xid rlist then (FORGOTTEN, w)
      else (NEW, <[clt_nonce := drop_old xid_rep (insert_reply (reply_new xid) rlist)]> w)
  end.

Definition set_reply (xid : Z) (b : list byte) (r : reply_t) : reply_t :=
  if r_xid r =? xid then mk_reply_t (r_xid r) true (Some b) else r.
Definition add_reply (w : window) (clt_nonce xid : Z) (b : list byte) : window :=
  <[clt_nonce := set_reply xid b <$> default [] (w !! clt_nonce)]> w.

Definition free_reply_window (w : window) : window := ∅.

(** ** class rpcs *)

(** [handler::fn]: the return value and the reply of a handler, and the new
    state of the object it is registered for. *)
Definition handler (St : Type) : Type := unmarshall -> marshall -> St -> result (Z * marshall * St).

Record rpcs (St : Type) := mk_rpcs {
  s_nonce : Z;
  s_procs : gmap Z (handler St);
  s_window : window;
  s_conns : gmap Z Z;
  s_counting : Z;
  s_curr_counts : Z;
  s_counts : gmap Z Z;
  s_reachable : bool;
}.
Arguments mk_rpcs {St}.
Arguments s_nonce {St}.
Arguments s_procs {St}.
Arguments s_window {St}.
Arguments s_conns {St}.
Arguments s_counting {St}.
Arguments s_curr_counts {St}.
Arguments s_counts {St}.
Arguments s_reachable {St}.

(** What happens to a connection object. *)
Inductive effect :=
| Incref (c : Z)
| Decref (c : Z)
| Send (c : Z) (pdu : list byte).

(** A request the server has accepted and not finished. *)
Record job (St : Type) := mk_job {
  j_conn : Z; j_hdr : req_header; j_req : unmarshall; j_fn : handler St;
}.
Arguments mk_job {St}.
Arguments j_conn {St}.
Arguments j_hdr {St}.
Arguments j_req {St}.
Arguments j_fn {St}.

Section server.
Context `{HeapMem} {St : Type}.
Implicit Types s : rpcs St.

Definition reg1 s (proc : Z) (h : handler St) : result (rpcs St) :=
  _ ← verify (bool_decide (s_procs s !! s32 proc = None));
  Ok (mk_rpcs (s_nonce s) (<[s32 proc := h]> (s_procs s)) (s_window s) (s_conns s)
        (s_counting s) (s_curr_counts s) (s_counts s) (s_reachable s)).

(** [rpcbind], as the handler the constructor registers for it: the nonce, read
    from an [unsigned int] into an [int]. *)
Definition rpcbind (nonce a r : Z) (st : St) : result (Z * Z * St) := Ok (0, s32 nonce, st).

Definition updatestat s (proc : Z) : rpcs St :=
  let counts := <[proc := default 0 (s_counts s !! proc) + 1]> (s_counts s) in
  let curr := s_curr_counts s - 1 in
  mk_rpcs (s_nonce s) (s_procs s) (s_window s) (s_conns s) (s_counting s)
    (if curr =? 0 then s_counting s else curr) counts (s_reachable s).

Definition set_window s (w : window) : rpcs St :=
  mk_rpcs (s_nonce s) (s_procs s) w (s_conns s) (s_counting s) (s_curr_counts s) (s_counts s) (s_reachable s).
Definition set_conns s (cs : gmap Z Z) : rpcs St :=
  mk_rpcs (s_nonce s) (s_procs s) (s_window s) cs (s_counting s) (s_curr_counts s) (s_counts s) (s_reachable s).

(** A reply that carries only a header. *)
Definition error_reply (xid ret : Z) : result (list byte) :=
  m ← pack_reply_header marshall_new (mk_rep xid ret);
  Ok (m_pdu m).

(** "save the latest good connection to the client"; [compare] is the method of
    the connection class. *)
Definition save_conn (compare : Z -> Z -> Z) s (clt c : Z) : rpcs St * list effect :=
  match s_conns s !! clt with
  | None => (set_conns s (<[clt := c]> (s_conns s)), [Incref c])
  | Some c' =>
      if compare c' c <? 0 then (set_conns s (<[clt := c]> (s_conns s)), [Decref c'; Incref c])
      else (s, [])
  end.

(** From the start of [dispatch] to the switch on [stat], and its branches other
    than NEW. *)
Definition dispatch_pre (compare : Z -> Z -> Z) s (c : Z) (pdu : list byte)
    : result (rpcs St * list effect * option (job St)) :=
  '(h, req) ← unpack_req_header (unmarshall_buf pdu);
  if negb (u_ok req) then Ok (s, [Decref c], None)
  else if negb (q_srv_nonce h =? 0) && negb (q_srv_nonce h =? s_nonce s) then
    b ← error_reply (q_xid h) oldsrv_failure;
    Ok (s, [Send c b], None)
  else
    match s_procs s !! q_proc h with
    | None => Abort
    | Some f =>
        if q_clt_nonce h =? 0 then Ok (s, [], Some (mk_job c h req f))
        else
          let '(s, effs) := save_conn compare s (q_clt_nonce h) c in
          let '(stat, w) := checkduplicate_and_update (s_window s) (q_clt_nonce h)
                              (u32 (q_xid h)) (u32 (q_xid_rep h)) in
          let s := set_window s w in
          match stat with
          | NEW => Ok (s, effs, Some (mk_job c h req f))
          | INPROGRESS => Ok (s, effs ++ [Decref c], None)
          | DONE b => Ok (s, effs ++ [Send c (default [] b); Decref c], None)
          | FORGOTTEN =>
              b ← error_reply (q_xid h) atmostonce_failure;
              Ok (s, effs ++ [Send c b; Decref c], None)
          end
    end.

(** The connection the reply goes out on: another one, when [c] is dead. *)
Definition latest_conn s (clt c : Z) (dead : bool) : result (Z * list effect) :=
  if dead then
    c' ← deref (s_conns s !! clt);
    if c' =? c then Ok (c, []) else Ok (c', [Decref c; Incref c'])
  else Ok (c, []).

(** The case NEW; [dead] is what [c->isdead()] answers. *)
Definition dispatch_run s (j : job St) (dead : bool) (st : St)
    : result (rpcs St * list effect * St) :=
  let h := j_hdr j in
  let s := if negb (s_counting s =? 0) then updatestat s (q_proc h) else s in
  '(ret, rep, st) ← j_fn j (j_req j) marshall_new st;
  if ret =? unmarshal_args_failure then Abort
  else
    _ ← verify (0 <=? ret);
    rep ← pack_reply_header rep (mk_rep (q_xid h) ret);
    let b1 := m_pdu rep in
    let s := if 0 <? q_clt_nonce h
             then set_window s (add_reply (s_window s) (q_clt_nonce h) (u32 (q_xid h)) b1) else s in
    '(c, effs) ← latest_conn s (q_clt_nonce h) (j_conn j) dead;
    Ok (s, effs ++ [Send c b1; Decref c], st).

(** [rpcs::got_pdu]; [succ] is whether the thread pool takes the job.  The job
    [dispatch_pre] and [dispatch_run] will work on is returned with the effects. *)
Definition rpcs_got_pdu s (c : Z) (pdu : list byte) (succ : bool)
    : bool * list effect * option (Z * list byte) :=
  if s_reachable s then
    if succ then (true, [Incref c], Some (c, pdu)) else (false, [Incref c; Decref c], None)
  else (true, [], None).

End server.
