(* ===== verification/RpcServerFacts.v ===== *)
(** * RpcServerFacts: at-most-once execution

    [winv] relates the reply list of one client to the set of call numbers the
    server has accepted from it.  It is preserved by
    [checkduplicate_and_update] and [add_reply], and so by every interleaving of
    arrivals and executions of the server. *)

From Stdlib Require Import ZArith Lia Sorted.
From S2P Require Import Prelude Marshall RpcServer.

Definition xids (l : list reply_t) : list Z := r_xid <$> l.

(** [E] is the set of accepted numbers. *)
Record winv (E : Z -> Prop) (l : list reply_t) : Prop := {
  wi_sorted : StronglySorted Z.lt (xids l);
  wi_sub : forall x, x ∈ xids l -> E x;
  wi_cover : forall x, E x -> x ∈ xids l \/ too_old x l = true;
}.

(** ** The list operations *)

Lemma find_reply_None xid l : find_reply xid l = None <-> xid ∉ xids l.
Proof.
  induction l as [|r l IH]; cbn [find_reply xids fmap list_fmap]; [set_solver|].
  fold (xids l). destruct (Z.eqb_spec (r_xid r) xid) as [->|Hne].
  - split; [done|]. intros Hn. exfalso. apply Hn. left.
  - rewrite IH, not_elem_of_cons. intuition congruence.
Qed.

Lemma elem_of_insert_reply r l x : x ∈ xids (insert_reply r l) <-> x = r_xid r \/ x ∈ xids l.
Proof.
  induction l as [|q l IH]; cbn [insert_reply]; [cbn; set_solver|].
  destruct (r_xid r <? r_xid q); cbn [xids fmap list_fmap]; [fold (xids l)|fold (xids (insert_reply r l)) (xids l)].
  - set_solver.
  - rewrite !elem_of_cons, IH. tauto.
Qed.

Lemma Forall_insert_reply (P : Z -> Prop) r l :
  P (r_xid r) -> Forall P (xids l) -> Forall P (xids (insert_reply r l)).
Proof.
  intros Hr Hl. apply Forall_forall. intros x [->|Hx]%elem_of_insert_reply; [done|].
  by eapply Forall_forall in Hl.
Qed.

Lemma insert_reply_sorted r l :
  StronglySorted Z.lt (xids l) -> r_xid r ∉ xids l -> StronglySorted Z.lt (xids (insert_reply r l)).
Proof.
  induction l as [|q l IH]; intros Hs Hn; cbn [insert_reply].
  { repeat constructor. }
  cbn [xids fmap list_fmap] in Hs, Hn. fold (xids l) in Hs, Hn.
  apply not_elem_of_cons in Hn as [Hne Hn]. apply StronglySorted_inv in Hs as [Hs Hf].
  destruct (Z.ltb_spec (r_xid r) (r_xid q)) as [Hlt|Hge].
  - cbn [xids fmap list_fmap]. fold (xids l). constructor; [by constructor|].
    constructor; [done|]. eapply Forall_impl; [done|]. intros y Hy. cbv beta in Hy. lia.
  - cbn [xids fmap list_fmap]. fold (xids (insert_reply r l)). constructor; [by apply IH|].
    apply Forall_insert_reply; [lia|done].
Qed.

Lemma drop_old_sorted rep l : StronglySorted Z.lt (xids l) -> StronglySorted Z.lt (xids (drop_old rep l)).
Proof.
  induction l as [|r l IH]; cbn [drop_old]; [done|]. intros Hs.
  destruct (rep <=? r_xid r); [done|]. apply IH. by apply StronglySorted_inv in Hs as [? _].
Qed.

Lemma elem_of_drop_old rep l x : StronglySorted Z.lt (xids l) ->
  x ∈ xids (drop_old rep l) <-> x ∈ xids l /\ rep <= x.
Proof.
  induction l as [|r l IH]; cbn [drop_old]; intros Hs; [set_solver|].
  cbn [xids fmap list_fmap] in Hs |- *. fold (xids l) in Hs |- *. pose proof Hs as Hs'.
  apply StronglySorted_inv in Hs' as [Hl Hf].
  destruct (Z.leb_spec rep (r_xid r)) as [Hle|Hgt].
  - cbn [xids fmap list_fmap]. fold (xids l). rewrite !elem_of_cons. split; [|tauto].
    intros [->|Hx]; [auto|]. split; [auto|]. eapply Forall_forall in Hf; [|done]. lia.
  - rewrite IH, elem_of_cons by done. split; [tauto|]. intros [[->|Hx] Hr]; [lia|done].
Qed.

Lemma too_old_spec x l : StronglySorted Z.lt (xids l) ->
  too_old x l = true <-> l <> [] /\ forall y, y ∈ xids l -> x < y.
Proof.
  destruct l as [|r l]; cbn [too_old]; [naive_solver|]. intros Hs.
  cbn [xids fmap list_fmap] in *. fold (xids l) in *. apply StronglySorted_inv in Hs as [_ Hf].
  rewrite Z.ltb_lt. split.
  - intros Hx. split; [done|]. intros y [->|Hy]%elem_of_cons; [done|].
    eapply Forall_forall in Hf; [|done]. lia.
  - intros [_ Hy]. apply Hy. left.
Qed.

Lemma xids_nil l : l <> [] <-> exists y, y ∈ xids l.
Proof.
  destruct l as [|r l]; cbn; split; [done|set_solver| |done]. intros _. exists (r_xid r). left.
Qed.

(** ** One client *)

(** Accepting call [xid], acknowledged up to [rep]. *)
Lemma winv_new E l xid rep :
  winv E l -> rep <= xid -> find_reply xid l = None -> too_old xid l = false ->
  ~ E xid /\ winv (fun x => E x \/ x = xid) (drop_old rep (insert_reply (reply_new xid) l)).
Proof.
  intros [Hs Hsub Hcov] Hrep Hfind Hold. apply find_reply_None in Hfind as Hn.
  assert (~ E xid) as HE by (intros [?|?]%Hcov; [done|congruence]). split; [done|].
  pose proof (insert_reply_sorted (reply_new xid) l Hs Hn) as Hs'.
  pose proof (drop_old_sorted rep _ Hs') as Hs''.
  assert (forall x, x ∈ xids (drop_old rep (insert_reply (reply_new xid) l)) <->
    (x = xid \/ x ∈ xids l) /\ rep <= x) as Hin
    by (intros x; rewrite elem_of_drop_old, elem_of_insert_reply by done; done).
  split; [done| |].
  - intros x [[->|Hx] _]%Hin; auto.
  - intros x Hx. rewrite too_old_spec, xids_nil by done.
    destruct (decide (rep <= x /\ (x = xid \/ x ∈ xids l))) as [[Hr Hl]|Hno]; [left; by apply Hin|].
    right. split; [exists xid; apply Hin; auto|]. intros y [Hy Hry]%Hin.
    destruct Hx as [[Hx|Hx]%Hcov|Hx]; [| |lia].
    + destruct (decide (rep <= x)); [tauto|lia].
    + apply too_old_spec in Hx as [Hne Hx]; [|done]. destruct Hy as [->|Hy]; [|by apply Hx].
      apply Z.nle_gt. intros Hle. assert (too_old xid l = true) as Ht; [|congruence].
      apply too_old_spec; [done|]. split; [done|]. intros z Hz%Hx. lia.
Qed.

Lemma winv_ext E E' l : (forall x, E x <-> E' x) -> winv E l -> winv E' l.
Proof.
  intros HE [Hs Hsub Hcov]. split; [done|intros x Hx; by apply HE, Hsub|intros x Hx; by apply Hcov, HE].
Qed.

Lemma xids_set_reply xid b l : xids (set_reply xid b <$> l) = xids l.
Proof.
  unfold xids. rewrite <- list_fmap_compose. apply list_fmap_ext. intros k r _. unfold compose, set_reply.
  by destruct (r_xid r =? xid).
Qed.

Lemma too_old_xids x l l' : xids l = xids l' -> too_old x l = too_old x l'.
Proof. destruct l, l'; cbn; try done. intros [= E _]. by rewrite E. Qed.

Lemma winv_set_reply E xid b l : winv E l -> winv E (set_reply xid b <$> l).
Proof.
  intros [Hs Hsub Hcov]. split; rewrite ?xids_set_reply; [done..|].
  intros x Hx. rewrite (too_old_xids _ _ l) by apply xids_set_reply. by apply Hcov.
Qed.

(** ** All clients *)

(** [E clt xid]: call [xid] of client [clt] has been accepted. *)
Definition win_ok (E : Z -> Z -> Prop) (w : window) : Prop :=
  forall clt, winv (E clt) (default [] (w !! clt)).

Lemma win_ok_check E w clt xid rep stat w' :
  win_ok E w -> rep <= xid -> checkduplicate_and_update w clt xid rep = (stat, w') ->
  win_ok (fun c x => E c x \/ (stat = NEW /\ c = clt /\ x = xid)) w' /\ (stat = NEW -> ~ E clt xid).
Proof.
  intros Hok Hrep. unfold checkduplicate_and_update. set (l := default [] (w !! clt)).
  assert (forall st, st <> NEW -> win_ok (fun c x => E c x \/ (st = NEW /\ c = clt /\ x = xid))
    (<[clt := l]> w)) as Hsame.
  { intros st Hst c. eapply winv_ext with (E := E c); [tauto|].
    destruct (decide (c = clt)) as [->|Hne].
    - rewrite lookup_insert_eq. apply Hok.
    - rewrite lookup_insert_ne by done. apply Hok. }
  destruct (find_reply xid l) as [st|] eqn:Hf.
  - intros [= <- <-]. assert (st <> NEW) as Hst.
    { clear -Hf. induction l as [|r l IH]; cbn in Hf; [done|].
      destruct (r_xid r =? xid); [|by apply IH]. destruct (r_cb_present r); by simplify_eq. }
    split; [by apply Hsame|done].
  - destruct (too_old xid l) eqn:Ho.
    + intros [= <- <-]. split; [by apply Hsame|done].
    + intros [= <- <-]. destruct (winv_new (E clt) l xid rep (Hok clt) Hrep Hf Ho) as [Hn Hw].
      split; [|done]. intros c. rewrite insert_insert_eq. destruct (decide (c = clt)) as [->|Hne].
      * rewrite lookup_insert_eq. cbn [default from_option id].
        eapply winv_ext; [|exact Hw]. naive_solver.
      * rewrite lookup_insert_ne by done. eapply winv_ext; [|apply Hok]. naive_solver.
Qed.

Lemma win_ok_add E w clt xid b : win_ok E w -> win_ok E (add_reply w clt xid b).
Proof.
  intros Hok c. unfold add_reply. destruct (decide (c = clt)) as [->|Hne].
  - rewrite lookup_insert_eq. cbn [default from_option id]. apply winv_set_reply, Hok.
  - rewrite lookup_insert_ne by done. apply Hok.
Qed.

Lemma win_ok_ext (E E' : Z -> Z -> Prop) w :
  (forall c x, E c x <-> E' c x) -> win_ok E w -> win_ok E' w.
Proof. intros HE Hok c. eapply winv_ext; [|apply Hok]. auto. Qed.

Lemma win_ok_empty : win_ok (fun _ _ => False) ∅.
Proof. intros c. rewrite lookup_empty. split; [constructor|set_solver|done]. Qed.

(** ** The server as a transition system

    Threads of the dispatch pool interleave between [dispatch_pre] and
    [dispatch_run]; [v_log] records the executions of handlers. *)

Section system.
Context `{HeapMem} {St : Type} (compare : Z -> Z -> Z).

Record server := mk_server {
  v_s : rpcs St; v_app : St; v_jobs : list (job St); v_log : list (Z * Z);
}.

Definition key (h : req_header) : Z * Z := (q_clt_nonce h, u32 (q_xid h)).
Definition accepted (v : server) : list (Z * Z) := v_log v ++ (key ∘ j_hdr <$> v_jobs v).

(** The client never acknowledges calls it has yet to make. *)
Definition honest (pdu : list byte) : Prop :=
  forall h u, unpack_req_header (unmarshall_buf pdu) = Ok (h, u) -> u32 (q_xid_rep h) <= u32 (q_xid h).

Inductive server_step : server -> server -> Prop :=
| step_arrive v c pdu s' effs oj :
    honest pdu ->
    dispatch_pre compare (v_s v) c pdu = Ok (s', effs, oj) ->
    server_step v (mk_server s' (v_app v) (v_jobs v ++ option_list oj) (v_log v))
| step_run v js j js' dead s' effs app' :
    v_jobs v = js ++ j :: js' ->
    dispatch_run (v_s v) j dead (v_app v) = Ok (s', effs, app') ->
    server_step v (mk_server s' app' (js ++ js') (v_log v ++ [key (j_hdr j)])).

(** The accepted calls of clients with a nonce are distinct and all in the window. *)
Record server_inv (v : server) : Prop := {
  si_nodup : NoDup (filter (fun k => k.1 <> 0) (accepted v));
  si_win : win_ok (fun c x => c <> 0 /\ (c, x) ∈ accepted v) (s_window (v_s v));
}.

Lemma save_conn_window s clt c : s_window (save_conn (St:=St) compare s clt c).1 = s_window s.
Proof. unfold save_conn. destruct (s_conns s !! clt); [|done]. by destruct (compare _ _ <? 0). Qed.

(** What [dispatch_pre] does to the window. *)
Lemma dispatch_pre_window s c pdu s' effs oj :
  dispatch_pre (St:=St) compare s c pdu = Ok (s', effs, oj) ->
  (s_window s' = s_window s /\ forall j, oj = Some j -> q_clt_nonce (j_hdr j) = 0) \/
  exists h u, unpack_req_header (unmarshall_buf pdu) = Ok (h, u) /\ q_clt_nonce h <> 0 /\
    (checkduplicate_and_update (s_window s) (q_clt_nonce h) (u32 (q_xid h)) (u32 (q_xid_rep h))).2
      = s_window s' /\
    match oj with
    | Some j => j_hdr j = h /\ (checkduplicate_and_update (s_window s) (q_clt_nonce h)
                                 (u32 (q_xid h)) (u32 (q_xid_rep h))).1 = NEW
    | None => (checkduplicate_and_update (s_window s) (q_clt_nonce h)
                 (u32 (q_xid h)) (u32 (q_xid_rep h))).1 <> NEW
    end.
Proof.
  unfold dispatch_pre. intros ([h u] & Eh & E)%bind_ok.
  destruct (negb (u_ok u)); [simplify_eq; left; done|].
  destruct (negb _ && negb _).
  { apply bind_ok in E as (b & _ & E). simplify_eq. left. done. }
  destruct (s_procs s !! q_proc h) as [f|]; [|done].
  destruct (Z.eqb_spec (q_clt_nonce h) 0) as [Hz|Hnz].
  { simplify_eq. left. split; [done|]. intros j [= <-]. done. }
  pose proof (save_conn_window s (q_clt_nonce h) c) as Hw.
  destruct (save_conn compare s (q_clt_nonce h) c) as [s1 effs1]. cbn [fst] in Hw. rewrite Hw in E.
  destruct (checkduplicate_and_update _ _ _ _) as [stat w] eqn:Ec.
  right. exists h, u. split; [done|]. split; [done|]. rewrite Ec. cbn [fst snd].
  destruct stat; [| | |apply bind_ok in E as (b' & _ & E)]; simplify_eq; cbn; done.
Qed.

Lemma dispatch_run_window s j dead st s' effs st' :
  dispatch_run (St:=St) s j dead st = Ok (s', effs, st') ->
  s_window s' = s_window s \/
  exists b, s_window s' = add_reply (s_window s) (q_clt_nonce (j_hdr j)) (u32 (q_xid (j_hdr j))) b.
Proof.
  unfold dispatch_run. set (s0 := if negb _ then _ else _).
  assert (s_window s0 = s_window s) as H0 by (unfold s0; by destruct (negb _)).
  intros ([[ret rep] st1] & _ & E)%bind_ok. destruct (ret =? unmarshal_args_failure); [done|].
  apply bind_ok in E as (_ & _ & E). apply bind_ok in E as (rep' & _ & E).
  apply bind_ok in E as ([c' effs'] & _ & E). simplify_eq.
  destruct (0 <? _); cbn; rewrite ?H0; eauto.
Qed.

Lemma server_step_inv v v' : server_inv v -> server_step v v' -> server_inv v'.
Proof.
  intros [Hnd Hwin] Hstep. destruct Hstep as [v c pdu s' effs oj Hh Hpre|v js j js' dead s' effs app' Hj Hrun].
  - assert (accepted (mk_server s' (v_app v) (v_jobs v ++ option_list oj) (v_log v))
      = accepted v ++ (key ∘ j_hdr <$> option_list oj)) as Ea
      by (unfold accepted; cbn; by rewrite fmap_app, app_assoc).
    destruct (dispatch_pre_window _ _ _ _ _ _ Hpre) as [[Hw Hz]|(h & u & Eh & Hnz & Hw & Hoj)].
    + split; rewrite Ea; cbn [v_s].
      * rewrite filter_app. destruct oj as [j|]; [|by rewrite app_nil_r]. change (key ∘ j_hdr <$> option_list (Some j)) with [key (j_hdr j)].
        rewrite filter_cons_False, app_nil_r; [done|]. cbn [key fst]. rewrite (Hz j) by done. auto.
      * rewrite Hw. eapply win_ok_ext; [|exact Hwin]. intros c' x. cbv beta. rewrite elem_of_app.
        destruct oj as [j|]; cbn; [|set_solver]. rewrite list_elem_of_singleton. unfold key, compose.
        rewrite (Hz j) by done. naive_solver.
    + destruct (checkduplicate_and_update (s_window (v_s v)) (q_clt_nonce h) (u32 (q_xid h)) (u32 (q_xid_rep h)))
        as [stat w'] eqn:Ec. cbn [fst snd] in *. subst w'.
      destruct (win_ok_check _ _ _ _ _ _ _ Hwin (Hh h u Eh) Ec) as [Hok Hnew].
      split; rewrite Ea; cbn [v_s].
      * rewrite filter_app. destruct oj as [j|]; [|by rewrite app_nil_r]. change (key ∘ j_hdr <$> option_list (Some j)) with [key (j_hdr j)].
        destruct Hoj as [<- ->]. rewrite filter_cons_True by done.
        apply NoDup_app. split_and!; [done| |apply NoDup_singleton].
        intros k Hk%list_elem_of_filter Hin. cbn in Hin. apply list_elem_of_singleton in Hin as ->.
        destruct Hk as [Hk1 Hk2]. by apply Hnew.
      * eapply win_ok_ext; [|exact Hok]. intros c' x. cbv beta. rewrite elem_of_app.
        destruct oj as [j|]; cbn.
        -- destruct Hoj as [<- ->]. rewrite list_elem_of_singleton. unfold key, compose. naive_solver.
        -- set_solver.
  - assert (accepted v ≡ₚ accepted (mk_server s' app' (js ++ js') (v_log v ++ [key (j_hdr j)]))) as Hp.
    { unfold accepted. rewrite Hj. cbn [v_log v_jobs]. rewrite !fmap_app, fmap_cons.
      rewrite <- app_assoc. apply Permutation_app_head. cbn. by rewrite <- Permutation_middle. }
    split; cbn [v_s].
    + by rewrite <- Hp.
    + apply (win_ok_ext (fun c x => c <> 0 /\ (c, x) ∈ accepted v)); [intros c x; by rewrite <- Hp|].
      destruct (dispatch_run_window _ _ _ _ _ _ _ Hrun) as [->|(b & ->)]; [done|by apply win_ok_add].
Qed.

Lemma server_steps_inv v v' : server_inv v -> rtc server_step v v' -> server_inv v'.
Proof. intros Hv. apply rtc_invariant; [intros ? ? ? ?; by eapply server_step_inv|done]. Qed.

Lemma server_inv_new s app : s_window s = ∅ -> server_inv (mk_server s app [] []).
Proof.
  intros Hw. split; cbn; [constructor|]. rewrite Hw. intros c. rewrite lookup_empty.
  split; [constructor|set_solver|]. intros x [_ Hx]. by apply not_elem_of_nil in Hx.
Qed.

(** ** Retransmissions *)

Lemma find_set_reply xid b l : xid ∈ xids l -> find_reply xid (set_reply xid b <$> l) = Some (DONE (Some b)).
Proof.
  induction l as [|r l IH]; [by intros ?%not_elem_of_nil|]. unfold xids. rewrite !fmap_cons. fold (xids l).
  intros Hx. unfold set_reply at 1. destruct (Z.eqb_spec (r_xid r) xid) as [E|E]; cbn [find_reply r_xid].
  - by rewrite (proj2 (Z.eqb_eq _ _) E).
  - rewrite (proj2 (Z.eqb_neq _ _) E). apply IH. apply elem_of_cons in Hx as [Hx|Hx]; [congruence|done].
Qed.

Lemma save_conn_same s clt c :
  s_nonce (save_conn (St:=St) compare s clt c).1 = s_nonce s /\
  s_procs (save_conn (St:=St) compare s clt c).1 = s_procs s.
Proof. unfold save_conn. destruct (s_conns s !! clt); [|done]. by destruct (compare _ _ <? 0). Qed.

(** The requests [dispatch_pre] lets through. *)
Record passes s (pdu : list byte) (h : req_header) (u : unmarshall) (f : handler St) : Prop := {
  ps_hdr : unpack_req_header (unmarshall_buf pdu) = Ok (h, u);
  ps_ok : u_ok u = true;
  ps_srv : negb (q_srv_nonce h =? 0) && negb (q_srv_nonce h =? s_nonce s) = false;
  ps_proc : s_procs s !! q_proc h = Some f;
}.

Lemma dispatch_pre_passes s c pdu h u f : passes s pdu h u f -> q_clt_nonce h <> 0 ->
  dispatch_pre compare s c pdu =
    let s1 := (save_conn compare s (q_clt_nonce h) c).1 in
    let effs := (save_conn compare s (q_clt_nonce h) c).2 in
    let r := checkduplicate_and_update (s_window s) (q_clt_nonce h) (u32 (q_xid h)) (u32 (q_xid_rep h)) in
    match r.1 with
    | NEW => Ok (set_window s1 r.2, effs, Some (mk_job c h u f))
    | INPROGRESS => Ok (set_window s1 r.2, effs ++ [Decref c], None)
    | DONE b => Ok (set_window s1 r.2, effs ++ [Send c (default [] b); Decref c], None)
    | FORGOTTEN =>
        b ← error_reply (q_xid h) atmostonce_failure;
        Ok (set_window s1 r.2, effs ++ [Send c b; Decref c], None)
    end.
Proof.
  intros [Hh Hok Hsrv Hf] Hz. unfold dispatch_pre. rewrite Hh. run_ok. rewrite Hok. cbn [negb].
  rewrite Hsrv, Hf, (proj2 (Z.eqb_neq _ _) Hz). pose proof (save_conn_window s (q_clt_nonce h) c) as Hw.
  destruct (save_conn compare s (q_clt_nonce h) c) as [s1 effs]. cbn [fst snd] in *. rewrite Hw.
  by destruct (checkduplicate_and_update _ _ _ _) as [[] w].
Qed.

Lemma dispatch_pre_job s c pdu s1 effs j :
  dispatch_pre compare s c pdu = Ok (s1, effs, Some j) -> q_clt_nonce (j_hdr j) <> 0 ->
  exists h u f, passes s pdu h u f /\ j = mk_job c h u f /\
    s_nonce s1 = s_nonce s /\ s_procs s1 = s_procs s /\
    checkduplicate_and_update (s_window s) (q_clt_nonce h) (u32 (q_xid h)) (u32 (q_xid_rep h))
      = (NEW, s_window s1).
Proof.
  intros E Hz. assert (exists h u f, passes s pdu h u f /\ j_hdr j = h) as (h & u & f & Hp & Hj).
  { revert E. unfold dispatch_pre. intros ([h u] & Eh & E)%bind_ok.
    destruct (u_ok u) eqn:Hu; cbn [negb] in E; [|done].
    destruct (negb (q_srv_nonce h =? 0) && negb (q_srv_nonce h =? s_nonce s)) eqn:Hs;
      [by apply bind_ok in E as (? & _ & ?)|].
    destruct (s_procs s !! q_proc h) as [f|] eqn:Hf; [|done]. exists h, u, f. split; [done|].
    destruct (q_clt_nonce h =? 0); [by simplify_eq|].
    destruct (save_conn _ _ _ _), (checkduplicate_and_update _ _ _ _) as [[] w]; simplify_eq; try done.
    by apply bind_ok in E as (? & _ & ?). }
  exists h, u, f. rewrite (dispatch_pre_passes s c pdu h u f) in E by (done || congruence).
  destruct (save_conn_same s (q_clt_nonce h) c) as [Hn Hpr]. cbv zeta in E.
  destruct (checkduplicate_and_update _ _ _ _) as [[] w]; cbn [fst snd] in E; simplify_eq; cbn.
  - done.
  - by apply bind_ok in E as (? & _ & ?).
Qed.

Lemma dispatch_run_reply s j st s' effs st' :
  dispatch_run (St:=St) s j false st = Ok (s', effs, st') -> 0 < q_clt_nonce (j_hdr j) ->
  exists b, effs = [Send (j_conn j) b; Decref (j_conn j)] /\ s_nonce s' = s_nonce s /\
    s_procs s' = s_procs s /\
    s_window s' = add_reply (s_window s) (q_clt_nonce (j_hdr j)) (u32 (q_xid (j_hdr j))) b.
Proof.
  unfold dispatch_run. set (s0 := if negb _ then _ else _). intros E Hz.
  assert (s_window s0 = s_window s /\ s_nonce s0 = s_nonce s /\ s_procs s0 = s_procs s) as (Hw & Hn & Hp)
    by (unfold s0; by destruct (negb _)).
  apply bind_ok in E as ([[ret rep] st1] & _ & E). destruct (ret =? unmarshal_args_failure); [done|].
  apply bind_ok in E as (_ & _ & E). apply bind_ok in E as (rep' & _ & E).
  rewrite (proj2 (Z.ltb_lt _ _) Hz) in E. cbn in E. simplify_eq. eexists. by rewrite <- Hw.
Qed.

Lemma check_new_member E w clt xid rep w' :
  win_ok E w -> rep <= xid -> checkduplicate_and_update w clt xid rep = (NEW, w') ->
  xid ∈ xids (default [] (w' !! clt)).
Proof.
  intros Hok Hrep Ec. destruct (win_ok_check E w clt xid rep NEW w' Hok Hrep Ec) as [_ Hno].
  revert Ec. unfold checkduplicate_and_update. set (l := default [] (w !! clt)).
  destruct (find_reply xid l) as [st|] eqn:Hf.
  { intros [= -> _]. clear -Hf. induction l as [|r l IH]; [done|]. cbn in Hf.
    destruct (r_xid r =? xid); [|by apply IH]. by destruct (r_cb_present r). }
  destruct (too_old xid l); [done|]. intros [= <-]. rewrite lookup_insert_eq. cbn [default from_option Datatypes.id].
  apply elem_of_drop_old.
  - apply insert_reply_sorted; [apply (wi_sorted _ _ (Hok clt))|by apply find_reply_None].
  - rewrite elem_of_insert_reply. auto.
Qed.

(** A call that is known and answered is answered again from the window. *)
Lemma check_done w clt xid rep b : xid ∈ xids (default [] (w !! clt)) ->
  (checkduplicate_and_update (add_reply w clt xid b) clt xid rep).1 = DONE (Some b).
Proof.
  intros Hx. unfold checkduplicate_and_update, add_reply. rewrite lookup_insert_eq.
  cbn [default from_option Datatypes.id]. by rewrite find_set_reply.
Qed.

End system.
