(* ===== verification/RpcRetransmit.v ===== *)
(** * RpcRetransmit: what the server remembers of the requests it has executed

    The reply of an executed request stays in the window, unchanged, until a request of the
    same client acknowledges it; afterwards the request counts as too old.  Either way it is
    not executed again. *)

From Stdlib Require Import ZArith Lia Sorted.
From S2P Require Import Prelude Marshall MarshallFacts RpcServer RpcServerFacts.

(** ** The list of replies *)

Lemma find_insert_reply_ne x r l : r_xid r <> x -> find_reply x (insert_reply r l) = find_reply x l.
Proof.
  intros Hne. induction l as [|q l IH]; cbn [insert_reply find_reply].
  - by rewrite (proj2 (Z.eqb_neq _ _) Hne).
  - destruct (r_xid r <? r_xid q); cbn [find_reply]; [by rewrite (proj2 (Z.eqb_neq _ _) Hne)|].
    by destruct (r_xid q =? x).
Qed.

Lemma find_drop_old rep x l : rep <= x -> find_reply x (drop_old rep l) = find_reply x l.
Proof.
  intros Hx. induction l as [|r l IH]; [done|]. cbn [drop_old]. destruct (Z.leb_spec rep (r_xid r)); [done|].
  rewrite IH. cbn [find_reply]. by rewrite (proj2 (Z.eqb_neq _ _)) by lia.
Qed.

Lemma find_set_reply_ne x y b l : x <> y -> find_reply x (set_reply y b <$> l) = find_reply x l.
Proof.
  intros Hne. induction l as [|r l IH]; [done|]. rewrite fmap_cons. unfold set_reply at 1.
  destruct (Z.eqb_spec (r_xid r) y) as [E|E]; cbn [find_reply r_xid]; [|by rewrite IH].
  rewrite IH. by rewrite !(proj2 (Z.eqb_neq _ _)) by congruence.
Qed.

Definition replies (w : window) (clt : Z) : list reply_t := default [] (w !! clt).
(** As long as call [xid] of client [clt] is remembered, it is with the reply [b]. *)
Definition kept (w : window) (clt xid : Z) (b : list byte) : Prop :=
  xid ∈ xids (replies w clt) -> find_reply xid (replies w clt) = Some (DONE (Some b)).

Lemma replies_insert w clt l c : replies (<[clt := l]> w) c = if decide (c = clt) then l else replies w c.
Proof.
  unfold replies. destruct (decide (c = clt)) as [->|Hne]; [by rewrite lookup_insert_eq|by rewrite lookup_insert_ne].
Qed.

(** An arriving request keeps what it does not acknowledge. *)
Lemma check_replies E w clt xid rep stat w' c : win_ok E w -> rep <= xid ->
  checkduplicate_and_update w clt xid rep = (stat, w') ->
  replies w' c = replies w c \/
  (c = clt /\ ~ E clt xid /\ replies w' c = drop_old rep (insert_reply (reply_new xid) (replies w c)) /\
   StronglySorted Z.lt (xids (insert_reply (reply_new xid) (replies w c)))).
Proof.
  intros Hok Hrep. unfold checkduplicate_and_update. fold (replies w clt).
  assert (replies (<[clt := replies w clt]> w) c = replies w c) as Hsame.
  { rewrite replies_insert. case_decide; by subst. }
  destruct (find_reply xid (replies w clt)) as [st|] eqn:Hf; [intros [= <- <-]; by left|].
  destruct (too_old xid (replies w clt)) eqn:Ho; [intros [= <- <-]; by left|]. intros [= <- <-].
  rewrite insert_insert_eq, replies_insert. case_decide as Hc; [|by left]. subst c. right.
  pose proof (winv_new _ _ _ _ (Hok clt) Hrep Hf Ho) as [Hn _]. split_and!; [done..|].
  apply insert_reply_sorted; [apply (wi_sorted _ _ (Hok clt))|by apply find_reply_None].
Qed.

Lemma check_kept (E : Z -> Z -> Prop) w clt xid rep stat w' c x b : win_ok E w -> rep <= xid ->
  checkduplicate_and_update w clt xid rep = (stat, w') -> E c x -> kept w c x b ->
  kept w' c x b /\ (x ∈ xids (replies w c) -> (c = clt -> rep <= x) -> x ∈ xids (replies w' c)).
Proof.
  intros Hok Hrep Ec HE Hk. unfold kept in *.
  destruct (check_replies _ _ _ _ _ _ _ c Hok Hrep Ec) as [->|(-> & Hn & -> & Hs)]; [done|].
  assert (xid <> x) as Hne by by intros ->. split.
  - rewrite elem_of_drop_old, elem_of_insert_reply by done. intros [[Hx|Hx] Hr]; [cbn in Hx; congruence|].
    rewrite find_drop_old, find_insert_reply_ne by done. by apply Hk.
  - intros Hx Hr. apply elem_of_drop_old; [done|]. rewrite elem_of_insert_reply. auto.
Qed.

Lemma add_kept w clt xid b' c x b : (clt, xid) <> (c, x) -> kept w c x b ->
  kept (add_reply w clt xid b') c x b /\ xids (replies (add_reply w clt xid b') c) = xids (replies w c).
Proof.
  intros Hne Hk. unfold kept, add_reply. fold (replies w clt). rewrite replies_insert.
  case_decide as Hc; [|done]. subst c. rewrite xids_set_reply. split; [|done]. intros Hx.
  rewrite find_set_reply_ne by congruence. by apply Hk.
Qed.

(** ** The server's steps *)

Section steps.
Context `{HeapMem} {St : Type} (compare : Z -> Z -> Z).
Implicit Types v : server (St := St).

(** A request that does not say that the client [clt] has the reply to [xid]. *)
Definition unacked (clt xid : Z) (pdu : list byte) : Prop :=
  forall h u, unpack_req_header (unmarshall_buf pdu) = Ok (h, u) -> q_clt_nonce h = clt -> u32 (q_xid_rep h) <= xid.

(** The steps of the server as long as no such request arrives. *)
Inductive unacked_step (clt xid : Z) : server -> server -> Prop :=
| ua_arrive v c pdu s' effs oj :
    honest pdu -> unacked clt xid pdu ->
    dispatch_pre compare (v_s v) c pdu = Ok (s', effs, oj) ->
    unacked_step clt xid v (mk_server s' (v_app v) (v_jobs v ++ option_list oj) (v_log v))
| ua_run v js j js' dead s' effs app' :
    v_jobs v = js ++ j :: js' ->
    dispatch_run (v_s v) j dead (v_app v) = Ok (s', effs, app') ->
    unacked_step clt xid v (mk_server s' app' (js ++ js') (v_log v ++ [key (j_hdr j)])).

Lemma unacked_is_step clt xid v v' : unacked_step clt xid v v' -> server_step compare v v'.
Proof. destruct 1; econstructor; eassumption. Qed.

(** Call [x] of client [c] has been executed and answered with [b]. *)
Record answered v (c x : Z) (b : list byte) : Prop := {
  an_inv : server_inv v;
  an_nonce : c <> 0;
  an_log : (c, x) ∈ v_log v;
  an_kept : kept (s_window (v_s v)) c x b;
}.

Lemma log_accepted v k : k ∈ v_log v -> k ∈ accepted v.
Proof. intros Hk. apply elem_of_app. by left. Qed.

(** What the arrival of a request does to the calls in the window. *)
Lemma arrive_kept v cn pdu s' effs oj c x b : honest pdu -> server_inv v -> c <> 0 -> (c, x) ∈ accepted v ->
  dispatch_pre compare (v_s v) cn pdu = Ok (s', effs, oj) -> kept (s_window (v_s v)) c x b ->
  kept (s_window s') c x b /\
  (x ∈ xids (replies (s_window (v_s v)) c) -> unacked c x pdu -> x ∈ xids (replies (s_window s') c)).
Proof.
  intros Hh Hi Hc Hx E Hk. destruct (dispatch_pre_window _ _ _ _ _ _ _ E) as [[Hw _]|(h & u & Eh & Hnz & Hw & _)].
  - rewrite Hw. done.
  - destruct (checkduplicate_and_update (s_window (v_s v)) (q_clt_nonce h) (u32 (q_xid h)) (u32 (q_xid_rep h)))
      as [stat w'] eqn:Ec. cbn [snd] in Hw. subst w'.
    destruct (check_kept _ _ _ _ _ _ _ c x b (si_win _ Hi) (Hh h u Eh) Ec (conj Hc Hx) Hk) as [H1 H2].
    split; [done|]. intros Hin Hun. apply H2; [done|]. intros ->. by apply (Hun h u).
Qed.

(** A request that has been executed is not executed again. *)
Lemma run_kept v js j js' dead s' effs app' c x b : server_inv v -> c <> 0 -> (c, x) ∈ v_log v ->
  v_jobs v = js ++ j :: js' -> dispatch_run (v_s v) j dead (v_app v) = Ok (s', effs, app') ->
  kept (s_window (v_s v)) c x b ->
  kept (s_window s') c x b /\ xids (replies (s_window s') c) = xids (replies (s_window (v_s v)) c).
Proof.
  intros Hi Hc Hx Hj E Hk. destruct (dispatch_run_window _ _ _ _ _ _ _ E) as [->|(b' & ->)]; [done|].
  apply add_kept; [|done]. intros Heq. pose proof (si_nodup _ Hi) as Hnd. unfold accepted in Hnd.
  rewrite filter_app in Hnd. apply NoDup_app in Hnd as (_ & Hd & _). apply (Hd (c, x)).
  - by apply list_elem_of_filter.
  - apply list_elem_of_filter. split; [done|]. apply list_elem_of_fmap. exists j. split; [done|].
    rewrite Hj. apply elem_of_app. right. left.
Qed.

Lemma answered_step v v' c x b : answered v c x b -> server_step compare v v' -> answered v' c x b.
Proof.
  intros [Hi Hc Hx Hk] Hs. pose proof (server_step_inv _ _ _ Hi Hs) as Hi'. split; [done..| |].
  - destruct Hs; [done|]. apply elem_of_app. by left.
  - destruct Hs as [v cn pdu s' effs oj Hh E|v js j js' dead s' effs app' Hj E]; cbn [v_s] in *.
    + by eapply arrive_kept; [..|by apply log_accepted|done|].
    + by destruct (run_kept v js j js' dead s' effs app' c x b).
Qed.

Lemma answered_steps v v' c x b : answered v c x b -> rtc (server_step compare) v v' -> answered v' c x b.
Proof. intros Hv Hs. revert Hv. by induction Hs; eauto using answered_step. Qed.

(** The reply stays as long as it is not acknowledged. *)
Lemma remembered_step v v' c x b : answered v c x b -> x ∈ xids (replies (s_window (v_s v)) c) ->
  unacked_step c x v v' -> x ∈ xids (replies (s_window (v_s v')) c).
Proof.
  intros [Hi Hc Hx Hk] Hin Hs. destruct Hs as [v cn pdu s' effs oj Hh Hun E|v js j js' dead s' effs app' Hj E]; cbn [v_s] in *.
  - eapply arrive_kept; eauto using log_accepted.
  - destruct (run_kept v js j js' dead s' effs app' c x b) as [_ ->]; done.
Qed.

Lemma remembered_steps v v' c x b : answered v c x b -> x ∈ xids (replies (s_window (v_s v)) c) ->
  rtc (unacked_step c x) v v' -> x ∈ xids (replies (s_window (v_s v')) c).
Proof.
  intros Hv Hin Hs. revert Hv Hin. induction Hs as [|v v1 v2 Hs _ IH]; [done|]. intros Hv Hin. apply IH.
  - eapply answered_step; [done|]. by eapply unacked_is_step.
  - by eapply remembered_step.
Qed.

(** The same of a request that is still to be executed. *)
Lemma accepted_step v v' c x : server_inv v -> c <> 0 -> (c, x) ∈ accepted v ->
  x ∈ xids (replies (s_window (v_s v)) c) -> unacked_step c x v v' ->
  (c, x) ∈ accepted v' /\ x ∈ xids (replies (s_window (v_s v')) c).
Proof.
  intros Hi Hc Hx Hin Hs. destruct Hs as [v cn pdu s' effs oj Hh Hun E|v js j js' dead s' effs app' Hj E]; cbn [v_s] in *.
  - split.
    + unfold accepted in *. cbn [v_log v_jobs]. rewrite fmap_app, app_assoc. apply elem_of_app. by left.
    + destruct (dispatch_pre_window _ _ _ _ _ _ _ E) as [[Hw _]|(h & u & Eh & Hnz & Hw & _)]; [by rewrite Hw|].
      destruct (checkduplicate_and_update _ _ _ _) as [stat w'] eqn:Ec. cbn [snd] in Hw. subst w'.
      destruct (check_replies _ _ _ _ _ _ _ c (si_win _ Hi) (Hh h u Eh) Ec) as [->|(-> & Hn & -> & Hso)]; [done|].
      apply elem_of_drop_old; [done|]. split; [rewrite elem_of_insert_reply; by right|by apply (Hun h u)].
  - split.
    + unfold accepted in *. rewrite Hj, fmap_app, fmap_cons in Hx. cbn [v_log v_jobs]. rewrite fmap_app. unfold compose in *. set_solver.
    + destruct (dispatch_run_window _ _ _ _ _ _ _ E) as [->|(b' & ->)]; [done|]. unfold add_reply. fold (replies (s_window (v_s v)) (q_clt_nonce (j_hdr j))).
      rewrite replies_insert. case_decide as Hd; [|done]. subst c. by rewrite xids_set_reply.
Qed.

Lemma accepted_steps v v' c x : server_inv v -> c <> 0 -> (c, x) ∈ accepted v ->
  x ∈ xids (replies (s_window (v_s v)) c) -> rtc (unacked_step c x) v v' -> x ∈ xids (replies (s_window (v_s v')) c).
Proof.
  intros Hi Hc Hx Hin Hs. revert Hi Hx Hin. induction Hs as [|v v1 v2 Hs _ IH]; [done|]. intros Hi Hx Hin.
  destruct (accepted_step _ _ _ _ Hi Hc Hx Hin Hs) as [Hx1 Hin1].
  apply IH; [by eapply server_step_inv, unacked_is_step|done..].
Qed.

(** The nonce and the procedures of the server never change. *)
Lemma step_const v v' : server_step compare v v' ->
  s_nonce (v_s v') = s_nonce (v_s v) /\ s_procs (v_s v') = s_procs (v_s v).
Proof.
  destruct 1 as [v cn pdu s' effs oj Hh E|v js j js' dead s' effs app' Hj E]; cbn [v_s].
  - unfold dispatch_pre in E. apply bind_ok in E as ([h u] & _ & E). destruct (negb (u_ok u)); [by simplify_eq|].
    destruct (_ && _); [apply bind_ok in E as (? & _ & E); by simplify_eq|].
    destruct (s_procs (v_s v) !! q_proc h); [|done]. destruct (q_clt_nonce h =? 0); [by simplify_eq|].
    pose proof (save_conn_same compare (v_s v) (q_clt_nonce h) cn) as Hs. destruct (save_conn _ _ _ _) as [s1 e1].
    cbn [fst] in Hs. destruct (checkduplicate_and_update _ _ _ _) as [[] w]; [| | |apply bind_ok in E as (? & _ & E)]; by simplify_eq.
  - unfold dispatch_run in E. apply bind_ok in E as ([[ret rep] st1] & _ & E). destruct (ret =? unmarshal_args_failure); [done|].
    apply bind_ok in E as (? & _ & E). apply bind_ok in E as (rep' & _ & E). apply bind_ok in E as ([c' e'] & _ & E). simplify_eq.
    by destruct (0 <? _), (negb _).
Qed.

Lemma steps_const v v' : rtc (server_step compare) v v' ->
  s_nonce (v_s v') = s_nonce (v_s v) /\ s_procs (v_s v') = s_procs (v_s v).
Proof.
  induction 1 as [|v v1 v2 Hs _ IH]; [done|]. destruct (step_const _ _ Hs) as [<- <-]. done.
Qed.

(** The reply of a handler goes out once, on some connection, and into the window. *)
Lemma dispatch_run_sends s j dead st s' effs st' :
  dispatch_run (St := St) s j dead st = Ok (s', effs, st') -> 0 < q_clt_nonce (j_hdr j) ->
  exists b c e, effs = e ++ [Send c b; Decref c] /\ (forall c b, Send c b ∉ e) /\
    s_window s' = add_reply (s_window s) (q_clt_nonce (j_hdr j)) (u32 (q_xid (j_hdr j))) b.
Proof.
  unfold dispatch_run. set (s0 := if negb _ then _ else _). intros E Hz.
  assert (s_window s0 = s_window s) as Hw by (unfold s0; by destruct (negb _)).
  apply bind_ok in E as ([[ret rep] st1] & _ & E). destruct (ret =? unmarshal_args_failure); [done|].
  apply bind_ok in E as (_ & _ & E). apply bind_ok in E as (rep' & _ & E).
  rewrite (proj2 (Z.ltb_lt _ _) Hz) in E. apply bind_ok in E as ([c e] & El & E). simplify_eq.
  exists (m_pdu rep'), c, e. split; [done|]. split; [|cbn; by rewrite Hw].
  unfold latest_conn in El. destruct dead; [|simplify_eq; intros; apply not_elem_of_nil].
  apply bind_ok in El as (c1 & _ & El). destruct (c1 =? _); simplify_eq; intros; set_solver.
Qed.

(** The answer to a request that has been executed with reply [b]. *)
Lemma answered_again v c pdu h u f b : answered v (q_clt_nonce h) (u32 (q_xid h)) b -> passes (v_s v) pdu h u f ->
  exists b' s3 e3, dispatch_pre compare (v_s v) c pdu = Ok (s3, e3 ++ [Send c b'; Decref c], None) /\
    (forall c b, Send c b ∉ e3) /\
    (b' = b \/ error_reply (q_xid h) atmostonce_failure = Ok b') /\
    (u32 (q_xid h) ∈ xids (replies (s_window (v_s v)) (q_clt_nonce h)) -> b' = b).
Proof.
  intros [Hi Hc Hx Hk] Hp. rewrite (dispatch_pre_passes compare (v_s v) c pdu h u f Hp Hc). cbv zeta.
  assert (forall c' b', Send c' b' ∉ (save_conn compare (v_s v) (q_clt_nonce h) c).2) as Hs.
  { intros c' b'. unfold save_conn. destruct (s_conns (v_s v) !! _); [destruct (compare _ _ <? 0)|]; set_solver. }
  destruct (wi_cover _ _ (si_win _ Hi (q_clt_nonce h)) (u32 (q_xid h))) as [Hin|Hold];
    [by split; [|apply log_accepted]| |]; fold (replies (s_window (v_s v)) (q_clt_nonce h)) in *.
  - unfold checkduplicate_and_update. fold (replies (s_window (v_s v)) (q_clt_nonce h)). rewrite (Hk Hin). cbn [fst snd].
    eexists b, _, _. split; [done|]. split_and!; [done|by left|done].
  - assert (u32 (q_xid h) ∉ xids (replies (s_window (v_s v)) (q_clt_nonce h))) as Hn.
    { intros Hin. apply too_old_spec in Hold as [_ Ho]; [|apply (wi_sorted _ _ (si_win _ Hi _))]. specialize (Ho _ Hin). lia. }
    assert (exists b', error_reply (q_xid h) atmostonce_failure = Ok b') as [b' Eb] by (unfold error_reply; rewrite pack_reply_header_spec by apply marshall_new_wf; run_ok; eauto).
    unfold checkduplicate_and_update. fold (replies (s_window (v_s v)) (q_clt_nonce h)).
    rewrite (proj2 (find_reply_None _ _) Hn), Hold. cbn [fst snd]. rewrite Eb. run_ok.
    eexists b', _, _. split; [done|]. split_and!; [done|by right|done].
Qed.
End steps.
