(* ===== verification/Sockaddr.v ===== *)
(** * Sockaddr: addresses and the channel of a client (src/rpc/rpc.cc)

    [make_sockaddr], which turns "host:port" into a socket address, the address a
    caching lock client makes up for itself (src/lock_client_cache.cc), and
    [rpcc::get_refconn], which keeps the reference counts of connections.  The
    resolver functions of the C library are parameters. *)

From Stdlib Require Import ZArith Lia.
From S2P Require Import Prelude CppString RpcServer.

(** ** make_sockaddr *)

Record sockaddr_in := mk_sockaddr { s_addr : Z; sin_port : Z }.

Definition INADDR_NONE : Z := 2 ^ 32 - 1.
Definition colon : byte := x3a.

(** [htons] on a little-endian machine. *)
Definition htons (x : Z) : Z := (u16 x) mod 256 * 256 + (u16 x) / 256.

(** [atoi]: a value out of range is undefined. *)
Definition atoi (s : list byte) : result Z :=
  match skip_space s with
  | [] => Ok 0
  | c :: r =>
      let '(neg, ds) :=
        if bool_decide (c = x2d) then (true, r)
        else if bool_decide (c = x2b) then (false, r) else (false, c :: r) in
      let v := read_digits ds 0 in
      chk_int (if (neg : bool) then - v else v)
  end.

(** [bool operator<(const sockaddr_in &, const sockaddr_in &)] *)
Definition sockaddr_lt (a b : sockaddr_in) : bool :=
  (s_addr a <? s_addr b) || ((s_addr a =? s_addr b) && (sin_port a <? sin_port b)).

(** "127.0.0.1" *)
Definition localhost : list byte := [x31; x32; x37; x2e; x30; x2e; x30; x2e; x31].

Section resolver.
(** [inet_addr(host)], and [h_length] and the first address of what
    [gethostbyname(host)] finds. *)
Context (inet_addr : list byte -> Z) (gethostbyname : list byte -> option (Z * Z)).

(** The overload with a host and a port. *)
Definition make_sockaddr2 (host port : list byte) : result sockaddr_in :=
  let a := inet_addr host in
  addr ← (if negb (a =? INADDR_NONE) then Ok a
          else match gethostbyname host with
               | None => Abort
               | Some (h_length, h_addr) => if negb (h_length =? 4) then Abort else Ok h_addr
               end);
  p ← atoi port;
  Ok (mk_sockaddr addr (htons p)).

(** The overload with both in one string; [char host[200]] takes what is in front
    of the colon and a zero byte. *)
Definition make_sockaddr (hostandport : list byte) : result sockaddr_in :=
  let i := find_char colon hostandport 0 in
  if i =? npos then make_sockaddr2 localhost hostandport
  else if 200 <=? i then Undef
  else make_sockaddr2 (take (Z.to_nat i) hostandport) (drop (Z.to_nat i + 1) hostandport).

End resolver.

(** ** The address of a caching lock client

    The constructor picks its port from [rnd], what [rand()] returns, and the name
    it gives the server with its requests. *)
Definition rlock_port (rnd : Z) : Z := Z.lor (rnd mod 32000) (Z.shiftl 1 10).
Definition lock_client_id (rnd : Z) : list byte := localhost ++ [colon] ++ dec (rlock_port rnd).

(** ** rpcc::get_refconn

    [chan_] and [*ch] with what happens to the connections: [dead] answers
    [chan_->isdead()], [connected] is what [connect_to_dst] returns, a connection
    that comes with one reference. *)
Definition get_refconn (chan : option Z) (dead : bool) (connected ch : option Z)
    : option Z * option Z * list effect :=
  let '(chan, effs) :=
    match chan with
    | None => (connected, [])
    | Some c => if dead then (connected, [Decref c]) else (chan, [])
    end in
  match chan with
  | None => (None, ch, effs)
  | Some c => (chan, chan, effs ++ (if ch is Some c' then [Decref c'] else []) ++ [Incref c])
  end.

(** The references a list of effects adds to a connection. *)
Definition effect_refs (c : Z) (e : effect) : Z :=
  match e with
  | Incref c' => if c' =? c then 1 else 0
  | Decref c' => if c' =? c then -1 else 0
  | Send _ _ => 0
  end.
Definition refs_added (c : Z) (effs : list effect) : Z := foldr (fun e n => effect_refs c e + n) 0 effs.
Definition holds_conn (o : option Z) (c : Z) : Z := if o is Some c' then (if c' =? c then 1 else 0) else 0.

(** The connection made, when one is made. *)
Definition made (chan : option Z) (dead : bool) (connected : option Z) : option Z :=
  match chan with None => connected | Some _ => if dead then connected else None end.

(** The client holds one reference for [chan_] and one for [*ch], before and after. *)
Lemma get_refconn_balanced chan dead connected ch chan' ch' effs c :
  get_refconn chan dead connected ch = (chan', ch', effs) ->
  holds_conn chan c + holds_conn ch c + holds_conn (made chan dead connected) c + refs_added c effs =
  holds_conn chan' c + holds_conn ch' c.
Proof.
  unfold get_refconn, made. destruct chan as [k|]; [destruct dead|]; destruct connected as [n|]; destruct ch as [o|];
    cbn; intros [= <- <- <-]; unfold refs_added; cbn; repeat case_match; lia.
Qed.

(** ** Facts about addresses *)

Lemma atoi_dec n : 0 <= n <= INT_MAX -> atoi (dec n) = Ok n.
Proof.
  intros Hn. destruct (dec_spec n) as (d & ds & -> & Hf & Hr); [unfold INT_MAX in Hn; lia|].
  pose proof (Forall_inv Hf) as Hd. destruct (digit_char d Hd) as (Hs & H1 & H2 & _).
  unfold atoi. cbn [skip_space]. rewrite Hs, !bool_decide_false by done. rewrite Hr. apply chk_int_ok. lia.
Qed.

Lemma lor_ge x y : 0 <= x -> 0 <= y -> x <= Z.lor x y.
Proof.
  intros Hx Hy. apply Z.ldiff_le; [apply Z.lor_nonneg; lia|].
  apply Z.bits_inj'. intros k Hk. rewrite Z.ldiff_spec, Z.lor_spec, Z.bits_0.
  by destruct (Z.testbit x k), (Z.testbit y k).
Qed.

Lemma rlock_port_range rnd : 0 <= rnd -> 1024 <= rlock_port rnd < 32768.
Proof.
  intros Hr. unfold rlock_port. set (x := rnd mod 32000).
  assert (0 <= x < 2 ^ 15) as Hx by (unfold x; pose proof (Z.mod_pos_bound rnd 32000); lia).
  change (Z.shiftl 1 10) with (2 ^ 10). split; [rewrite Z.lor_comm; by apply lor_ge; lia|].
  destruct (Z.eq_dec x 0) as [->|Hx0]; [done|].
  apply (Z.log2_lt_pow2 _ 15); [pose proof (lor_ge x (2 ^ 10)); lia|].
  rewrite Z.log2_lor by lia. apply Z.max_lub_lt; [apply Z.log2_lt_pow2; lia|done].
Qed.

(** A port in host order is found again from the network order. *)
Lemma htons_htons p : 0 <= p < 2 ^ 16 -> htons (htons p) = p.
Proof.
  intros Hp. unfold htons. rewrite (wrapU_small 16 p) by done.
  pose proof (Z.div_mod p 256 ltac:(lia)). pose proof (Z.mod_pos_bound p 256 ltac:(lia)).
  rewrite (wrapU_small 16) by lia.
  rewrite (Z.add_comm (p mod 256 * 256)), Z.mod_add, Z.div_add by lia. rewrite (Z.mod_small (p / 256)), (Z.div_small (p / 256)) by lia. lia.
Qed.
