(* ===== verification/RpcClient.v ===== *)
(** * RpcClient: the client endpoint [class rpcc] (rpc/rpc.cc)

    [call1] in its three parts: [call1_begin] registers the call and packs the
    header, [call1_loop] sends and waits with doubling timeouts, [call1_end]
    unregisters the call and reports.  [got_pdu] delivers a reply, and
    [update_xid_rep] keeps the window of acknowledged call numbers. *)

From Stdlib Require Import ZArith Lia.
From S2P Require Import Prelude Marshall RpcServer.

(** ** The window of received replies *)

(** The first loop of [update_xid_rep], with its [push_back]. *)
Fixpoint insert_xid (xid : Z) (w : list Z) : list Z :=
  match w with
  | [] => [xid]
  | x :: rest => if xid <? x then xid :: w else x :: insert_xid xid rest
  end.

(** [while (front() + 1 == x) pop_front()], [pre] being what lies before the
    iterator at [x]. *)
Fixpoint pop_while (x : Z) (pre : list Z) : list Z :=
  match pre with
  | [] => []
  | p :: rest => if u32 (p + 1) =? x then pop_while x rest else pre
  end.
Fixpoint compress (pre rest : list Z) : list Z :=
  match rest with [] => pre | x :: rest => compress (pop_while x pre ++ [x]) rest end.

Definition update_xid_rep (w : list Z) (xid : Z) : result (list Z) :=
  front ← deref (head w);
  if xid <=? front then Ok w
  else match insert_xid xid w with [] => Ok [] | x :: rest => Ok (compress [x] rest) end.

(** ** class rpcc *)

Record caller := mk_caller { ca_un : unmarshall; ca_intret : Z; ca_done : bool }.

(** [struct request]: a request kept to be sent again by the loss tests. *)
Record dup_request := mk_dup { d_buf : list byte; d_xid : Z }.
Definition dup_clear : dup_request := mk_dup [] (-1).
Definition dup_isvalid (d : dup_request) : bool := negb (d_xid d =? -1).

Record rpcc := mk_rpcc {
  c_clt_nonce : Z;
  c_srv_nonce : Z;
  c_bind_done : bool;
  c_xid : Z;
  c_lossytest : Z;
  c_retrans : bool;
  c_reachable : bool;
  c_destroy_wait : bool;
  c_calls : gmap Z caller;
  c_xid_rep_window : list Z;
  c_dup_req : dup_request;
  c_xid_rep_done : Z;
}.

(** The constructor: [nonce] is what [random()] returns, [lossy] the value of RPC_LOSSY. *)
Definition rpcc_new (retrans : bool) (nonce lossy : Z) : rpcc :=
  mk_rpcc (if retrans then u32 nonce else 0) 0 false 1 lossy retrans true false ∅ [0] dup_clear (-1).

Definition set_calls (cl : rpcc) (calls : gmap Z caller) : rpcc :=
  mk_rpcc (c_clt_nonce cl) (c_srv_nonce cl) (c_bind_done cl) (c_xid cl) (c_lossytest cl) (c_retrans cl)
    (c_reachable cl) (c_destroy_wait cl) calls (c_xid_rep_window cl) (c_dup_req cl) (c_xid_rep_done cl).
Definition set_xid (cl : rpcc) (xid : Z) : rpcc :=
  mk_rpcc (c_clt_nonce cl) (c_srv_nonce cl) (c_bind_done cl) xid (c_lossytest cl) (c_retrans cl)
    (c_reachable cl) (c_destroy_wait cl) (c_calls cl) (c_xid_rep_window cl) (c_dup_req cl) (c_xid_rep_done cl).
Definition set_rep_window (cl : rpcc) (w : list Z) : rpcc :=
  mk_rpcc (c_clt_nonce cl) (c_srv_nonce cl) (c_bind_done cl) (c_xid cl) (c_lossytest cl) (c_retrans cl)
    (c_reachable cl) (c_destroy_wait cl) (c_calls cl) w (c_dup_req cl) (c_xid_rep_done cl).
Definition set_dup (cl : rpcc) (d : dup_request) (done : Z) : rpcc :=
  mk_rpcc (c_clt_nonce cl) (c_srv_nonce cl) (c_bind_done cl) (c_xid cl) (c_lossytest cl) (c_retrans cl)
    (c_reachable cl) (c_destroy_wait cl) (c_calls cl) (c_xid_rep_window cl) d done.
Definition set_bound (cl : rpcc) (nonce : Z) : rpcc :=
  mk_rpcc (c_clt_nonce cl) nonce true (c_xid cl) (c_lossytest cl) (c_retrans cl)
    (c_reachable cl) (c_destroy_wait cl) (c_calls cl) (c_xid_rep_window cl) (c_dup_req cl) (c_xid_rep_done cl).
Definition set_destroy_wait (cl : rpcc) : rpcc :=
  mk_rpcc (c_clt_nonce cl) (c_srv_nonce cl) (c_bind_done cl) (c_xid cl) (c_lossytest cl) (c_retrans cl)
    (c_reachable cl) true (c_calls cl) (c_xid_rep_window cl) (c_dup_req cl) (c_xid_rep_done cl).

Section client.
Context `{HeapMem}.

(** A call in progress: its number, the acknowledgement it carried, its request. *)
Record pending := mk_pending { pd_xid : Z; pd_xid_rep : Z; pd_req : marshall }.

(** [call1] up to the end of the first locked block: the error it returns at
    once, or the call it has registered. *)
Definition call1_begin (cl : rpcc) (proc : Z) (req : marshall) : result ((Z + pending) * rpcc) :=
  if (negb (proc =? rpc_bind) && negb (c_bind_done cl)) || ((proc =? rpc_bind) && c_bind_done cl)
  then Ok (inl bind_failure, cl)
  else if c_destroy_wait cl then Ok (inl cancel_failure, cl)
  else
    let xid := c_xid cl in
    let cl := set_xid cl (u32 (xid + 1)) in
    let cl := set_calls cl (<[s32 xid := mk_caller unmarshall_empty stack_int false]> (c_calls cl)) in
    front ← deref (head (c_xid_rep_window cl));
    req ← pack_req_header req
            (mk_req (s32 xid) (s32 proc) (c_clt_nonce cl) (c_srv_nonce cl) (s32 front));
    Ok (inr (mk_pending xid (s32 front) req), cl).

(** What one transmission puts on the channel: a forgotten duplicate, when the
    loss tests keep one whose reply is acknowledged, then the request. *)
Definition transmit (cl : rpcc) (p : pending) : list (list byte) * rpcc :=
  if c_reachable cl then
    if dup_isvalid (c_dup_req cl) && (d_xid (c_dup_req cl) <? c_xid_rep_done cl)
    then ([d_buf (c_dup_req cl); m_pdu (pd_req p)], set_dup cl dup_clear (c_xid_rep_done cl))
    else ([m_pdu (pd_req p)], cl)
  else ([], cl).

(** [rpcc::got_pdu] *)
Definition rpcc_got_pdu (cl : rpcc) (b : list byte) : result rpcc :=
  '(h, rep) ← unpack_reply_header (unmarshall_buf b);
  if negb (u_ok rep) then Ok cl
  else
    w ← update_xid_rep (c_xid_rep_window cl) (u32 (p_xid h));
    let cl := set_rep_window cl w in
    match c_calls cl !! p_xid h with
    | None => Ok cl
    | Some ca =>
        if ca_done ca then Ok cl
        else Ok (set_calls cl (<[p_xid h := mk_caller (take_in rep) (p_ret h) true]> (c_calls cl)))
    end.

(** [call1] after its loop: the return value and the reply. *)
Definition call1_end (cl : rpcc) (p : pending) : result (Z * unmarshall * rpcc) :=
  ca ← deref (c_calls cl !! s32 (pd_xid p));
  let cl := set_calls cl (delete (s32 (pd_xid p)) (c_calls cl)) in
  w ← update_xid_rep (c_xid_rep_window cl) (pd_xid p);
  let cl := set_rep_window cl w in
  let cl :=
    if ca_done ca && negb (c_lossytest cl =? 0) then
      let d := if dup_isvalid (c_dup_req cl) then c_dup_req cl
               else mk_dup (m_pdu (pd_req p)) (s32 (pd_xid p)) in
      set_dup cl d (Z.max (pd_xid_rep p) (c_xid_rep_done cl))
    else cl in
  Ok (if ca_done ca then ca_intret ca else timeout_failure, ca_un ca, cl).

(** [rpcc::cancel] before it waits for the callers to leave. *)
Definition cancel (cl : rpcc) : rpcc :=
  let calls := (fun ca => mk_caller (ca_un ca) cancel_failure true) <$> c_calls cl in
  let cl := set_calls cl calls in
  if bool_decide (calls = ∅) then cl else set_destroy_wait cl.

(** The destructor; [chan] is the channel, which it closes and gives up. *)
Definition rpcc_destroy (cl : rpcc) (chan : option Z) : result (list effect) :=
  _ ← verify (bool_decide (c_calls cl = ∅));
  Ok (match chan with Some c => [Decref c] | None => [] end).

(** [rpcc::bind], given what its call of the bind procedure returned. *)
Definition bind_done (cl : rpcc) (ret r : Z) : rpcc :=
  if ret =? 0 then set_bound cl (u32 r) else cl.

End client.

(** ** Deadlines *)

Record timespec := mk_ts { tv_sec : Z; tv_nsec : Z }.

Definition cmp_timespec (a b : timespec) : Z :=
  if tv_sec b <? tv_sec a then 1
  else if tv_sec a <? tv_sec b then -1
  else if tv_nsec b <? tv_nsec a then 1
  else if tv_nsec a <? tv_nsec b then -1
  else 0.

(** [while (nsec > 1000000000)]; the fuel is one more than the number of steps. *)
Fixpoint normalize_ts (fuel : nat) (sec nsec : Z) : option timespec :=
  match fuel with
  | O => None
  | S fuel => if 1000000000 <? nsec then normalize_ts fuel (sec + 1) (nsec - 1000000000)
              else Some (mk_ts sec nsec)
  end.
Definition add_timespec (a : timespec) (b : Z) : result (option timespec) :=
  let sec := tv_sec a + Z.quot b 1000 in
  let nsec := tv_nsec a + Z.rem b 1000 * 1000000 in
  _ ← verify (0 <=? nsec);
  Ok (normalize_ts (S (Z.to_nat (nsec / 1000000000))) sec nsec).

Definition diff_timespec (end_ start : timespec) : result Z :=
  let diff := if tv_sec start <? tv_sec end_ then (tv_sec end_ - tv_sec start) * 1000 else 0 in
  _ ← verify (negb (diff =? 0) || (tv_sec end_ =? tv_sec start));
  if tv_nsec start <? tv_nsec end_ then Ok (diff + Z.quot (tv_nsec end_ - tv_nsec start) 1000000)
  else Ok (diff - Z.quot (tv_nsec start - tv_nsec end_) 1000000).

Definition to_max : Z := 120000.
Definition to_min : Z := 1000.

(** One pass through the loop of [call1]: whether [get_refconn] finds or makes a channel and
    whether the client is reachable then, the clock when the deadline is set, whether the
    reply came before the deadline, and whether the channel is dead then. *)
Record round := mk_round { rd_conn : bool; rd_reachable : bool; rd_now : timespec; rd_done : bool; rd_dead : bool }.

(** The loop of [call1]: how often the request was sent and whether the reply came, or
    [None] when [env] has no more rounds.  [ch] is whether the call has a channel; it keeps
    the one it has when no other is to be had. *)
Fixpoint call1_loop (env : list round) (retrans transmit ch : bool) (sent : nat) (curr_to : Z)
    (final : timespec) : result (option (nat * bool)) :=
  match env with
  | [] => Ok None
  | r :: env =>
      let ch := if transmit then ch || rd_conn r else ch in
      let sent := if transmit && ch && rd_reachable r then S sent else sent in
      if tv_sec final =? 0 then Ok (Some (sent, false))
      else
        next ← add_timespec (rd_now r) curr_to;
        match next with
        | None => Ok None
        | Some next =>
            let final := if 0 <? cmp_timespec next final then mk_ts 0 (tv_nsec final) else final in
            if rd_done r then Ok (Some (sent, true))
            else
              curr_to ← chk_int (Z.shiftl curr_to 1);
              call1_loop env retrans (retrans && (negb ch || rd_dead r)) ch sent curr_to final
        end
  end.

Definition call1_wait (env : list round) (retrans : bool) (start : timespec) (to : Z)
    : result (option (nat * bool)) :=
  final ← add_timespec start to;
  match final with None => Ok None | Some final => call1_loop env retrans true false 0 to_min final end.
