(* ===== verification/RpcClientFacts.v ===== *)
(** * RpcClientFacts: acknowledgements, deadlines and retransmission

    [update_xid_rep] adds one call number to the set of acknowledged ones and
    keeps the window compressed; [add_timespec] preserves the time it adds up;
    the sending loop of [call1] ends after at most eight rounds. *)

From Stdlib Require Import ZArith Lia Sorted.
From S2P Require Import Prelude Marshall RpcServer RpcClient.

(** ** The acknowledgement window *)

(** The numbers a window acknowledges: all up to its front, and its elements. *)
Definition acked (w : list Z) (k : Z) : Prop :=
  match w with [] => False | f :: _ => k <= f \/ k ∈ w end.

(** The front is as large as the window allows. *)
Record rep_window (w : list Z) : Prop := {
  rw_sorted : StronglySorted Z.le w;
  rw_range : Forall (fun k => 0 <= k < 2 ^ 32 - 1) w;
  rw_front : forall f, head w = Some f -> f + 1 ∉ w;
}.

Lemma elem_of_insert_xid x w k : k ∈ insert_xid x w <-> k = x \/ k ∈ w.
Proof.
  induction w as [|y w IH]; cbn [insert_xid]; [set_solver|].
  destruct (x <? y); rewrite !elem_of_cons; [tauto|]. rewrite IH. tauto.
Qed.

Lemma insert_xid_sorted x w : StronglySorted Z.le w -> StronglySorted Z.le (insert_xid x w).
Proof.
  induction w as [|y w IH]; intros Hs; cbn [insert_xid]; [repeat constructor|].
  pose proof Hs as Hs'. apply StronglySorted_inv in Hs as [Hs Hf].
  destruct (Z.ltb_spec x y) as [Hlt|Hge].
  - constructor; [done|]. constructor; [lia|]. eapply Forall_impl; [exact Hf|]. cbn. lia.
  - constructor; [by apply IH|]. apply Forall_forall. intros k [->|Hk]%elem_of_insert_xid; [lia|].
    by eapply Forall_forall in Hf.
Qed.

Lemma insert_xid_front f x w : f < x -> exists rest, insert_xid x (f :: w) = f :: rest.
Proof. intros. cbn [insert_xid]. rewrite (proj2 (Z.ltb_ge x f)) by lia. eauto. Qed.

Lemma pop_while_suffix x pre : exists d, pre = d ++ pop_while x pre /\ Forall (fun p => u32 (p + 1) = x) d.
Proof.
  induction pre as [|p pre IH]; cbn [pop_while]; [by exists []|].
  destruct (Z.eqb_spec (u32 (p + 1)) x) as [E|E].
  - destruct IH as (d & Hd & Hf). exists (p :: d). split; [by rewrite Hd at 1|by constructor].
  - by exists [].
Qed.

Lemma pop_while_head x pre p rest : pop_while x pre = p :: rest -> u32 (p + 1) <> x.
Proof.
  induction pre as [|q pre IH]; cbn [pop_while]; [done|].
  destruct (Z.eqb_spec (u32 (q + 1)) x) as [E|E]; [done|]. by intros [= <- <-].
Qed.

(** Sorted lists and their halves. *)
Lemma StronglySorted_app_inv (l1 l2 : list Z) : StronglySorted Z.le (l1 ++ l2) ->
  StronglySorted Z.le l1 /\ StronglySorted Z.le l2 /\ forall a b, a ∈ l1 -> b ∈ l2 -> a <= b.
Proof.
  induction l1 as [|x l1 IH]; cbn [app]; intros Hs; [split_and!; [constructor|done|set_solver]|].
  apply StronglySorted_inv in Hs as [Hs Hf]. apply Forall_app in Hf as [Hf1 Hf2].
  destruct (IH Hs) as (H1 & H2 & H3). split_and!; [by constructor|done|].
  intros a b [->|Ha]%elem_of_cons Hb; [by eapply Forall_forall in Hf2|by apply H3].
Qed.

Lemma acked_cons f w k : acked (f :: w) k <-> k <= f \/ k ∈ w.
Proof. unfold acked. rewrite elem_of_cons. split; [|tauto]. intros [?|[->|?]]; [tauto|left; lia|tauto]. Qed.

(** [compress] acknowledges the same numbers, with the front moved up. *)
Lemma compress_spec rest : forall pre,
  pre <> [] -> StronglySorted Z.le (pre ++ rest) ->
  Forall (fun k => 0 <= k < 2 ^ 32 - 1) (pre ++ rest) ->
  (forall f, head pre = Some f -> f + 1 ∉ pre) ->
  compress pre rest <> [] /\ rep_window (compress pre rest) /\
  forall k, acked (compress pre rest) k <-> acked (pre ++ rest) k.
Proof.
  induction rest as [|x rest IH]; intros pre Hne Hs Hr Hf; cbn [compress].
  { rewrite app_nil_r in *. split_and!; [done|by split|done]. }
  destruct (pop_while_suffix x pre) as (d & Hd & Hdx). remember (pop_while x pre) as q eqn:Eq.
  assert (Forall (fun p => p + 1 = x) d) as Hdx'.
  { apply Forall_forall. intros p Hp. assert (p ∈ pre ++ x :: rest) as Hin by (rewrite Hd; set_solver).
    eapply Forall_forall in Hr; [|exact Hin]. eapply Forall_forall in Hdx; [|exact Hp].
    cbv beta in *. by rewrite wrapU_small in Hdx by lia. }
  rewrite Hd in Hs, Hr. rewrite <- app_assoc in Hs, Hr.
  pose proof (StronglySorted_app_inv _ _ Hs) as (_ & Hs' & Hdq). apply Forall_app in Hr as [_ Hr'].
  assert ((q ++ [x]) ++ rest = q ++ x :: rest) as Ea by by rewrite <- app_assoc.
  destruct (IH (q ++ [x])) as (H1 & H2 & H3); rewrite ?Ea; [by destruct q|done|done| |].
  - intros f Hfq Hin. destruct q as [|p q'].
    { cbn in Hfq. injection Hfq as <-. apply list_elem_of_singleton in Hin. lia. }
    cbn in Hfq. injection Hfq as ->. apply elem_of_app in Hin as [Hin|Hin%list_elem_of_singleton].
    + destruct d as [|e d].
      * cbn in Hd. apply (Hf f); [by rewrite Hd|]. rewrite Hd. done.
      * apply Forall_cons in Hdx' as [He _].
        pose proof (StronglySorted_app_inv _ _ Hs') as (_ & _ & Hqx).
        pose proof (Hqx (f + 1) x Hin ltac:(left)). pose proof (Hdq e f ltac:(left) ltac:(left)).
        symmetry in Eq. apply pop_while_head in Eq. apply Eq.
        apply Forall_app in Hr' as [Hq _]. apply Forall_cons in Hq as [Hq _].
        rewrite wrapU_small by lia. lia.
    + symmetry in Eq. apply pop_while_head in Eq. apply Eq.
      apply Forall_app in Hr' as [Hq _]. apply Forall_cons in Hq as [Hq _].
      rewrite wrapU_small by lia. lia.
  - split_and!; [done|done|]. intros k. rewrite H3, Ea. rewrite Hd, <- app_assoc.
    destruct d as [|e d]; [done|]. cbn [app]. rewrite acked_cons.
    pose proof (StronglySorted_app_inv _ _ Hs') as (_ & _ & Hqx).
    apply Forall_cons in Hdx' as [He Hdx'].
    destruct q as [|p q'].
    + cbn [app]. rewrite acked_cons. rewrite elem_of_app, elem_of_cons. split.
      * intros [Hk|Hk]; [|tauto]. destruct (decide (k = x)); [tauto|]. left. lia.
      * intros [Hk|[Hk|[->|Hk]]]; [left; lia| |left; lia|tauto].
        eapply Forall_forall in Hdx'; [|exact Hk]. cbv beta in Hdx'. left. lia.
    + assert (p = x - 1 \/ p = x) as Hp.
      { pose proof (Hdq e p ltac:(left) ltac:(left)). pose proof (Hqx p x ltac:(left) ltac:(left)). lia. }
      cbn [app]. rewrite acked_cons. rewrite !elem_of_app, !elem_of_cons, !elem_of_app, !elem_of_cons. split.
      * intros [Hk|Hk]; [|tauto]. destruct (decide (k <= e)); [tauto|].
        assert (k = x) as -> by lia. tauto.
      * intros [Hk|[Hk|[->|Hk]]]; [left; lia| |left; lia|tauto].
        eapply Forall_forall in Hdx'; [|exact Hk]. cbv beta in Hdx'. left. lia.
Qed.

Lemma update_xid_rep_spec w xid :
  w <> [] -> rep_window w -> 0 <= xid < 2 ^ 32 - 1 ->
  exists w', update_xid_rep w xid = Ok w' /\ w' <> [] /\ rep_window w' /\
    forall k, acked w' k <-> acked w k \/ k = xid.
Proof.
  intros Hne Hrw Hx. destruct w as [|f w]; [done|]. unfold update_xid_rep. cbn [head deref].
  rewrite bind_Ok. destruct (Z.leb_spec xid f) as [Hle|Hgt].
  { eexists. split_and!; [done..|]. intros k. rewrite acked_cons. split; [tauto|].
    intros [?| ->]; [tauto|left; lia]. }
  destruct (insert_xid_front f xid w Hgt) as (rest & E). pose proof (elem_of_insert_xid xid (f :: w)) as Hin.
  pose proof (insert_xid_sorted xid (f :: w) (rw_sorted _ Hrw)) as Hs. rewrite E in *.
  destruct (compress_spec rest [f]) as (H1 & H2 & H3); [done|done| | |].
  - apply Forall_forall. intros k [->|Hk]%Hin; [done|]. pose proof (rw_range _ Hrw) as Hr.
    by eapply Forall_forall in Hr.
  - intros f' [= <-] Hf%list_elem_of_singleton. lia.
  - eexists. split_and!; [done..|]. intros k. rewrite H3. cbn [app]. rewrite !acked_cons.
    assert (k ∈ rest <-> k = f /\ k ∈ rest \/ k <> f /\ k ∈ rest) as Hk by (destruct (decide (k = f)); tauto).
    pose proof (Hin k) as Hin'. rewrite !elem_of_cons in Hin'. destruct (decide (k <= f)); [tauto|].
    assert (k <> f) by lia. intuition lia.
Qed.

(** ** Deadlines *)

Definition ts_total (t : timespec) : Z := tv_sec t * 1000000000 + tv_nsec t.
(** What [add_timespec] produces: a whole second may be left in [tv_nsec]. *)
Definition ts_wf (t : timespec) : Prop := 0 <= tv_nsec t <= 1000000000.

Lemma normalize_ts_spec fuel : forall sec nsec,
  0 <= nsec -> nsec / 1000000000 < Z.of_nat fuel ->
  exists t, normalize_ts fuel sec nsec = Some t /\ ts_wf t /\
    ts_total t = sec * 1000000000 + nsec /\ sec <= tv_sec t.
Proof.
  induction fuel as [|fuel IH]; intros sec nsec Hn Hf.
  { pose proof (Z.div_pos nsec 1000000000). lia. }
  cbn [normalize_ts]. destruct (Z.ltb_spec 1000000000 nsec) as [Hlt|Hge].
  - destruct (IH (sec + 1) (nsec - 1000000000)) as (t & E & Hw & Ht & Hs); [lia| |].
    + replace (nsec - 1000000000) with (nsec + -1 * 1000000000) by lia. rewrite Z.div_add by lia. lia.
    + exists t. split_and!; [done|done|lia|lia].
  - eexists. split_and!; [done|unfold ts_wf; cbn; lia|done|cbn; lia].
Qed.

Lemma add_timespec_spec a b : 0 <= tv_nsec a -> 0 <= b ->
  exists t, add_timespec a b = Ok (Some t) /\ ts_wf t /\ ts_total t = ts_total a + b * 1000000.
Proof.
  intros Ha Hb. unfold add_timespec.
  rewrite Z.quot_div_nonneg, Z.rem_mod_nonneg by lia.
  pose proof (Z.mod_pos_bound b 1000 ltac:(lia)) as Hm. pose proof (Z.div_mod b 1000 ltac:(lia)) as Hd.
  set (nsec := tv_nsec a + b mod 1000 * 1000000).
  assert (0 <= nsec) as Hn by (unfold nsec; lia).
  destruct (normalize_ts_spec (S (Z.to_nat (nsec / 1000000000))) (tv_sec a + b / 1000) nsec)
    as (t & E & Hw & Ht & _); [done| |].
  { pose proof (Z.div_pos nsec 1000000000). lia. }
  exists t. unfold verify. rewrite (proj2 (Z.leb_le 0 nsec) Hn), bind_Ok, E.
  split_and!; [done|done|]. unfold ts_total in *. unfold nsec in Ht. lia.
Qed.

Lemma cmp_timespec_gt a b : ts_wf a -> ts_wf b -> ts_total b < ts_total a -> cmp_timespec a b = 1.
Proof.
  unfold ts_wf, ts_total, cmp_timespec. intros Ha Hb Hlt.
  destruct (Z.ltb_spec (tv_sec b) (tv_sec a)); [done|].
  destruct (Z.ltb_spec (tv_sec a) (tv_sec b)); [lia|].
  destruct (Z.ltb_spec (tv_nsec b) (tv_nsec a)); [done|lia].
Qed.

(** A round whose clock reads well and is not before [start]. *)
Definition round_ok (start : timespec) (r : round) : Prop :=
  0 <= tv_nsec (rd_now r) /\ ts_total start <= ts_total (rd_now r).

(** Whether a pass sends the request, and whether it can. *)
Definition sends (transmit ch : bool) (r : round) : bool := transmit && (ch || rd_conn r) && rd_reachable r.
Definition cut_off (r : round) : Prop := rd_reachable r = false.

Lemma sends_eq (transmit ch : bool) r :
  transmit && (if transmit then ch || rd_conn r else ch) && rd_reachable r = sends transmit ch r.
Proof. by destruct transmit. Qed.

(** One pass. *)
Lemma call1_loop_cons r env retrans transmit ch sent curr_to final :
  call1_loop (r :: env) retrans transmit ch sent curr_to final =
    let ch' := if transmit then ch || rd_conn r else ch in
    let sent' := if sends transmit ch r then S sent else sent in
    if tv_sec final =? 0 then Ok (Some (sent', false))
    else
      next ← add_timespec (rd_now r) curr_to;
      match next with
      | None => Ok None
      | Some next =>
          let final := if 0 <? cmp_timespec next final then mk_ts 0 (tv_nsec final) else final in
          if rd_done r then Ok (Some (sent', true))
          else
            curr_to ← chk_int (Z.shiftl curr_to 1);
            call1_loop env retrans (retrans && (negb ch' || rd_dead r)) ch' sent' curr_to final
      end.
Proof. cbv zeta. rewrite <- sends_eq. done. Qed.

Lemma call1_loop_done r env retrans transmit ch sent curr_to final :
  tv_sec final = 0 ->
  call1_loop (r :: env) retrans transmit ch sent curr_to final =
    Ok (Some (if sends transmit ch r then S sent else sent, false)).
Proof. intros E. rewrite call1_loop_cons. by rewrite E. Qed.

(** [n] doublings of [curr_to] exceed the timeout, so [n + 2] passes are enough.  After the
    first pass a request goes out again only on a retransmitting client. *)
Lemma call1_loop_ends start to n : forall r env retrans transmit ch sent curr_to final,
  let sent' := if sends transmit ch r then S sent else sent in
  0 < curr_to -> to < curr_to * 2 ^ Z.of_nat n -> curr_to * 2 ^ Z.of_nat n < 2 ^ 30 ->
  (n < length env)%nat -> Forall (round_ok start) (r :: env) ->
  ts_wf final -> ts_total final = ts_total start + to * 1000000 ->
  exists k d, call1_loop (r :: env) retrans transmit ch sent curr_to final = Ok (Some (k, d)) /\
    (sent' <= k <= sent' + S n)%nat /\ (retrans = false -> k = sent') /\
    (Forall cut_off env -> k = sent') /\
    ((if transmit then ch || rd_conn r else ch) = false -> Forall (fun r => rd_conn r = false) env -> k = sent').
Proof.
  induction n as [|n IH]; intros r env retrans transmit ch sent curr_to final sent' Hc Hto Hmax Hlen Henv Hw Hf;
    (destruct env as [|r1 env]; [cbn in Hlen; lia|]); apply Forall_cons in Henv as [[Hr1 Hr2] Henv];
    rewrite call1_loop_cons; cbv zeta; fold sent'; clearbody sent'; set (ch' := if transmit then ch || rd_conn r else ch);
    (destruct (tv_sec final =? 0); [exists sent', false; split_and!; [done|lia|lia|done..]|]);
    (destruct (add_timespec_spec (rd_now r) curr_to) as (next & -> & Hnw & Hnt); [done|lia|]);
    rewrite bind_Ok;
    (destruct (rd_done r); [exists sent', true; split_and!; [done|lia|lia|done..]|]);
    set (again := retrans && (negb ch' || rd_dead r));
    (assert (retrans = false -> sends again ch' r1 = false) as H1 by (intros ->; done));
    (assert (cut_off r1 -> sends again ch' r1 = false) as H2
      by (unfold cut_off, sends; intros ->; by rewrite andb_false_r));
    (assert (ch' = false -> rd_conn r1 = false -> sends again ch' r1 = false) as H3
      by (unfold sends; intros -> ->; by rewrite andb_false_r));
    set (sent1 := if sends again ch' r1 then S sent' else sent');
    (assert (sent' <= sent1 <= S sent')%nat as H4 by (unfold sent1; destruct (sends _ _ _); lia));
    (assert (sends again ch' r1 = false -> sent1 = sent') as H5 by (unfold sent1; by intros ->)).
  - rewrite (cmp_timespec_gt next final) by (done || lia). cbn [Z.ltb Z.compare].
    rewrite Z.shiftl_mul_pow2, chk_int_ok by (unfold INT_MAX; lia). rewrite bind_Ok.
    rewrite call1_loop_done by done. fold sent1. exists sent1, false. split_and!; [done|lia|lia|auto|..].
    + intros [Hx _]%Forall_cons. auto.
    + intros Hx [Hy _]%Forall_cons. auto.
  - rewrite Nat2Z.inj_succ, Z.pow_succ_r in Hto, Hmax by lia.
    assert (0 < 2 ^ Z.of_nat n) as Hp by (apply Z.pow_pos_nonneg; lia).
    assert (curr_to <= curr_to * 2 ^ Z.of_nat n) as Hle by nia.
    rewrite Z.shiftl_mul_pow2, chk_int_ok by (unfold INT_MAX; lia). rewrite bind_Ok.
    destruct (0 <? cmp_timespec next final).
    + rewrite call1_loop_done by done. fold sent1. exists sent1, false. split_and!; [done|lia|lia|auto|..].
      * intros [Hx _]%Forall_cons. auto.
      * intros Hx [Hy _]%Forall_cons. auto.
    + destruct (IH r1 env retrans again ch' sent' (curr_to * 2 ^ 1) final)
        as (k & d & -> & Hk & Hk1 & Hk2 & Hk3); [lia|lia|lia|cbn in Hlen; lia|done|done|done|].
      fold sent1 in Hk, Hk1, Hk2, Hk3. exists k, d. split_and!; [done|lia|lia|..].
      * intros Hx. rewrite Hk1 by done. auto.
      * intros [Hx Hy]%Forall_cons. rewrite Hk2 by done. auto.
      * intros Hx [Hy Hz]%Forall_cons. rewrite Hk3; [auto| |done]. rewrite Hx, Hy. by destruct again.
Qed.
