(* ===== verification/RpcCancel.v ===== *)
(** * RpcCancel: runs of an RPC client, and what cancelling does to its calls

    Replies arrive, callers leave [call1] one by one, with an answer or without, and other
    threads make new calls, in any order: a [client_event] is one of these, [client_run] a
    sequence of them.  The number a client acknowledges follows the calls that are over.
    [rpcc::cancel] marks every call under way as failed and waits until the last of them
    has left [call1]. *)

From Stdlib Require Import ZArith Lia.
From S2P Require Import Prelude Marshall WireTypes RpcServer RpcClient RpcClientFacts.

Section cancel.
Context `{HeapMem}.

Inductive client_event :=
| EvReply (pdu : list byte)
| EvLeave (p : pending)
| EvCall (proc : Z) (req : marshall)
| EvBound (ret r : Z).

(** One event, with the status a caller gets in it. *)
Definition client_step (cl : rpcc) (e : client_event) : result (list Z * rpcc) :=
  match e with
  | EvReply b => cl ← rpcc_got_pdu cl b; Ok ([], cl)
  | EvLeave p => '(ret, _, cl) ← call1_end cl p; Ok ([ret], cl)
  | EvCall proc req => '(r, cl) ← call1_begin cl proc req; Ok (match r with inl e => [e] | inr _ => [] end, cl)
  | EvBound ret r => Ok ([], bind_done cl ret r)
  end.

Fixpoint client_run (cl : rpcc) (es : list client_event) : result (list Z * rpcc) :=
  match es with
  | [] => Ok ([], cl)
  | e :: es =>
      '(r, cl) ← client_step cl e;
      '(rs, cl) ← client_run cl es;
      Ok (r ++ rs, cl)
  end.

(** The number of a call that leaves, and whether the event answers a caller. *)
Definition leaves (e : client_event) : option Z :=
  match e with EvLeave p => Some (s32 (pd_xid p)) | _ => None end.
Definition answers (e : client_event) : bool := match e with EvReply _ | EvBound _ _ => false | _ => true end.
(** A new call is an ordinary one. *)
Definition ordinary (e : client_event) : Prop :=
  match e with EvCall proc _ => proc <> rpc_bind | _ => True end.

(** The numbers of the calls that are over with an event: one whose reply has come, or one
    whose caller leaves, whether it has its reply or has given up. *)
Definition over (e : client_event) : list Z :=
  match e with
  | EvReply b =>
      match unpack_reply_header (unmarshall_buf b) with
      | Ok (h, u) => if u_ok u then [u32 (p_xid h)] else []
      | _ => []
      end
  | EvLeave p => [pd_xid p]
  | _ => []
  end.

(** ** Acknowledgements *)

Lemma client_step_window cl e r cl' : client_step cl e = Ok (r, cl') ->
  (over e = [] /\ c_xid_rep_window cl' = c_xid_rep_window cl) \/
  exists x, over e = [x] /\ update_xid_rep (c_xid_rep_window cl) x = Ok (c_xid_rep_window cl').
Proof.
  destruct e as [b|p|proc req|ret r0]; cbn [client_step over].
  - intros (cl1 & E & [= <- <-])%bind_ok. unfold rpcc_got_pdu in E. apply bind_ok in E as ([h u] & -> & E).
    destruct (u_ok u); cbn [negb] in E; [|injection E as <-; by left].
    apply bind_ok in E as (w & Ew & E). right. exists (u32 (p_xid h)). split; [done|]. rewrite Ew.
    destruct (c_calls (set_rep_window cl w) !! p_xid h) as [ca|]; [destruct (ca_done ca)|]; by injection E as <-.
  - intros ([[ret u] cl1] & E & [= <- <-])%bind_ok. unfold call1_end in E.
    apply bind_ok in E as (ca & _ & E). apply bind_ok in E as (w & Ew & E). injection E as _ _ <-. right.
    exists (pd_xid p). split; [done|]. cbn [set_calls c_xid_rep_window] in Ew. rewrite Ew. by destruct (_ && _).
  - intros ([[?|p] cl1] & E & [= <- <-])%bind_ok; left; (split; [done|]); unfold call1_begin in E;
      (destruct (_ || _); [by injection E as _ <-|]); (destruct (c_destroy_wait cl); [by injection E as _ <-|]);
      apply bind_ok in E as (? & _ & E); apply bind_ok in E as (? & _ & E); by injection E as _ <-.
  - intros [= <- <-]. left. split; [done|]. unfold bind_done. by destruct (ret =? 0).
Qed.

(** The window holds the numbers of the calls that are over. *)
Lemma client_run_acks es : forall cl rets cl',
  client_run cl es = Ok (rets, cl') -> c_xid_rep_window cl <> [] -> rep_window (c_xid_rep_window cl) ->
  Forall (fun x => 0 <= x < 2 ^ 32 - 1) (es ≫= over) ->
  c_xid_rep_window cl' <> [] /\ rep_window (c_xid_rep_window cl') /\
  forall k, acked (c_xid_rep_window cl') k <-> acked (c_xid_rep_window cl) k \/ k ∈ es ≫= over.
Proof.
  induction es as [|e es IH]; intros cl rets cl'; cbn [client_run].
  - intros [= _ <-] Hne Hw _. split_and!; [done..|]. intros k. set_solver.
  - intros ([r cl1] & E1 & E)%bind_ok Hne Hw. apply bind_ok in E as ([rs cl2] & E2 & [= _ <-]).
    rewrite bind_cons. intros [Hx Hxs]%Forall_app.
    destruct (client_step_window _ _ _ _ E1) as [[Ho Ew]|(x & Ho & Ew)].
    + rewrite <- Ew in Hne, Hw. destruct (IH _ _ _ E2 Hne Hw Hxs) as (H1 & H2 & H3). split_and!; [done..|].
      intros k. by rewrite H3, Ew, Ho.
    + rewrite Ho, Forall_singleton in Hx.
      destruct (update_xid_rep_spec _ x Hne Hw Hx) as (w1 & E' & Hne1 & Hw1 & Ha1). rewrite Ew in E'. injection E' as <-.
      destruct (IH _ _ _ E2 Hne1 Hw1 Hxs) as (H1 & H2 & H3). split_and!; [done..|].
      intros k. rewrite H3, Ha1, Ho, elem_of_app, list_elem_of_singleton. tauto.
Qed.

(** ** Nothing a peer sends makes the client fail *)

Lemma unpack_total u : un_wf u -> exists x u', unpack u = Ok (x, u') /\ un_wf u'.
Proof. intros Hu. destruct (get_int_typed u Hu) as (x & u' & E & _ & Hu' & _). eauto. Qed.

Lemma unpack_reply_header_total b : exists h u, unpack_reply_header (unmarshall_buf b) = Ok (h, u).
Proof.
  unfold unpack_reply_header.
  do 2 (edestruct unpack_total as (? & ? & -> & ?); [|rewrite bind_Ok]; [by first [eassumption|split]|]).
  by eexists _, _.
Qed.

Lemma compress_nonempty rest : forall pre, pre <> [] -> compress pre rest <> [].
Proof.
  induction rest as [|x rest IH]; intros pre Hp; [done|]. apply IH. by destruct (pop_while x pre).
Qed.

Lemma update_xid_rep_total w xid : w <> [] -> exists w', update_xid_rep w xid = Ok w' /\ w' <> [].
Proof.
  destruct w as [|f w]; [done|]. intros _. unfold update_xid_rep. cbn [head deref]. rewrite bind_Ok.
  destruct (xid <=? f); [by eexists|]. destruct (insert_xid xid (f :: w)) as [|x rest] eqn:E.
  - cbn in E. by destruct (xid <? f).
  - eexists. split; [done|]. by apply compress_nonempty.
Qed.

(** ** The calls drain *)

(** The client from [cancel] on, with the calls [xs] under way. *)
Record cancelled (xs : gset Z) (cl : rpcc) : Prop := {
  cd_bound : c_bind_done cl = true;
  cd_wait : c_destroy_wait cl = true;
  cd_window : c_xid_rep_window cl <> [];
  cd_calls : dom (c_calls cl) = xs;
  cd_fail : map_Forall (fun _ ca => ca_done ca = true /\ ca_intret ca = cancel_failure) (c_calls cl);
}.

Lemma cancel_cancelled cl :
  c_bind_done cl = true -> c_calls cl <> ∅ -> c_xid_rep_window cl <> [] ->
  cancelled (dom (c_calls cl)) (cancel cl).
Proof.
  intros Hb Hc Hw. unfold cancel. rewrite bool_decide_false by (by rewrite fmap_empty_iff).
  split; cbn; [done..|by rewrite dom_fmap_L|].
  apply map_Forall_fmap. by intros x ca _.
Qed.

Lemma cancelled_reply xs cl b : cancelled xs cl -> exists cl', rpcc_got_pdu cl b = Ok cl' /\ cancelled xs cl'.
Proof.
  intros Hc. unfold rpcc_got_pdu. destruct (unpack_reply_header_total b) as (h & u & ->). rewrite bind_Ok.
  destruct (u_ok u); cbn [negb]; [|by eexists].
  destruct (update_xid_rep_total (c_xid_rep_window cl) (u32 (p_xid h))) as (w & -> & Hw); [apply Hc|].
  rewrite bind_Ok. exists (set_rep_window cl w).
  assert (cancelled xs (set_rep_window cl w)) as Hc' by (destruct Hc; by split).
  split; [|done]. destruct (c_calls (set_rep_window cl w) !! p_xid h) as [ca|] eqn:E; [|done].
  by destruct (cd_fail _ _ Hc' _ _ E) as [-> _].
Qed.

Lemma cancelled_leave xs cl p : cancelled xs cl -> s32 (pd_xid p) ∈ xs ->
  exists u cl', call1_end cl p = Ok (cancel_failure, u, cl') /\ cancelled (xs ∖ {[s32 (pd_xid p)]}) cl'.
Proof.
  intros [Hb Hd Hw <- Hf] (ca & E)%elem_of_dom. unfold call1_end. rewrite E. cbn [deref]. rewrite bind_Ok.
  destruct (update_xid_rep_total (c_xid_rep_window cl) (pd_xid p) Hw) as (w & Ew & Hw').
  cbn [set_calls c_xid_rep_window]. rewrite Ew, bind_Ok.
  destruct (Hf _ _ E) as [-> ->]. eexists _, _. split; [done|].
  destruct (_ && _); split; cbn; rewrite ?dom_delete_L; try done; by apply map_Forall_delete.
Qed.

Lemma cancelled_call xs cl proc req : cancelled xs cl -> proc <> rpc_bind ->
  call1_begin cl proc req = Ok (inl cancel_failure, cl).
Proof.
  intros Hc Hp. unfold call1_begin. by rewrite (cd_bound _ _ Hc), (cd_wait _ _ Hc), (proj2 (Z.eqb_neq _ _) Hp).
Qed.

Lemma cancelled_run es : forall xs cl,
  cancelled xs cl -> NoDup (omap leaves es) -> (forall x, x ∈ omap leaves es -> x ∈ xs) -> Forall ordinary es ->
  exists cl', client_run cl es = Ok (replicate (length (filter answers es)) cancel_failure, cl') /\
    cancelled (xs ∖ list_to_set (omap leaves es)) cl'.
Proof.
  induction es as [|[b|p|proc req|ret r] es IH]; intros xs cl Hc Hn Hx Ho; cbn [client_run client_step omap list_omap] in *.
  - exists cl. split; [done|]. by replace (xs ∖ _) with xs by set_solver.
  - apply Forall_cons in Ho as [_ Ho]. destruct (cancelled_reply xs cl b Hc) as (cl1 & -> & Hc1).
    rewrite !bind_Ok. destruct (IH xs cl1 Hc1 Hn Hx Ho) as (cl' & -> & Hc'). by exists cl'.
  - apply Forall_cons in Ho as [_ Ho]. cbn [leaves] in *. apply NoDup_cons in Hn as [Hp Hn].
    destruct (cancelled_leave xs cl p Hc) as (u & cl1 & -> & Hc1); [apply Hx; by left|]. rewrite !bind_Ok.
    destruct (IH _ cl1 Hc1 Hn) as (cl' & -> & Hc'); [|done|].
    + intros x Hxe. apply elem_of_difference. split; [apply Hx; by right|]. intros ->%elem_of_singleton. done.
    + exists cl'. split; [done|]. cbn [list_to_set]. by rewrite difference_difference_l_L in Hc'.
  - apply Forall_cons in Ho as [Hp Ho]. rewrite (cancelled_call xs cl proc req Hc Hp), !bind_Ok.
    destruct (IH xs cl Hc Hn Hx Ho) as (cl' & -> & Hc'). by exists cl'.
  - apply Forall_cons in Ho as [_ Ho]. rewrite !bind_Ok.
    destruct (IH xs (bind_done cl ret r)) as (cl' & -> & Hc'); [|done..|by exists cl'].
    unfold bind_done. destruct (ret =? 0); [|done]. destruct Hc. by split.
Qed.

(** Cancelling an idle client changes nothing. *)
Lemma cancel_idle cl : c_calls cl = ∅ -> cancel cl = cl.
Proof.
  intros E. unfold cancel. rewrite E, fmap_empty, bool_decide_true by done. destruct cl. cbn in *. by subst.
Qed.

End cancel.
