(* ===== verification/RpcStub.v ===== *)
(** * RpcStub: the call and registration templates of rpc/rpc.h

    [call_m] and the overloads of [rpcc::call] on the client side, the handler
    classes that [rpcs::reg] wraps around a method on the server side.  The
    transport [call1] is a parameter here.  The lemmas: the overload with seven
    arguments is the one-argument template at a nested pair, on either side. *)

From Stdlib Require Import ZArith Lia.
From S2P Require Import Prelude Marshall MarshallFacts RpcServer.

(** ** class rpcc: call templates *)

Section call.
Context `{HeapMem} {St : Type}.
Context (call1 : Z -> marshall -> St -> result (Z * unmarshall * St)).
Context {R A1 A2 A3 A4 A5 A6 A7 : Type} (cr : codec R).
Context (c1 : codec A1) (c2 : codec A2) (c3 : codec A3) (c4 : codec A4) (c5 : codec A5)
  (c6 : codec A6) (c7 : codec A7).

Definition call_m (proc : Z) (req : marshall) (r : R) (st : St) : result (Z * R * St) :=
  '(intret, u, st) ← call1 proc req st;
  if intret <? 0 then Ok (intret, r, st)
  else
    '(r, u) ← c_get cr u r;
    if okdone u then Ok (intret, r, st) else Abort.

Definition rcall0 (proc : Z) (r : R) (st : St) : result (Z * R * St) :=
  call_m proc marshall_new r st.

Definition rcall1 (proc : Z) (a1 : A1) (r : R) (st : St) : result (Z * R * St) :=
  m ← c_put c1 marshall_new a1;
  call_m proc m r st.

Definition rcall2 (proc : Z) (a1 : A1) (a2 : A2) (r : R) (st : St) : result (Z * R * St) :=
  m ← c_put c1 marshall_new a1;
  m ← c_put c2 m a2;
  call_m proc m r st.

Definition rcall3 (proc : Z) (a1 : A1) (a2 : A2) (a3 : A3) (r : R) (st : St) : result (Z * R * St) :=
  m ← c_put c1 marshall_new a1;
  m ← c_put c2 m a2;
  m ← c_put c3 m a3;
  call_m proc m r st.

Definition rcall4 (proc : Z) (a1 : A1) (a2 : A2) (a3 : A3) (a4 : A4) (r : R) (st : St)
    : result (Z * R * St) :=
  m ← c_put c1 marshall_new a1;
  m ← c_put c2 m a2;
  m ← c_put c3 m a3;
  m ← c_put c4 m a4;
  call_m proc m r st.

Definition rcall5 (proc : Z) (a1 : A1) (a2 : A2) (a3 : A3) (a4 : A4) (a5 : A5) (r : R) (st : St)
    : result (Z * R * St) :=
  m ← c_put c1 marshall_new a1;
  m ← c_put c2 m a2;
  m ← c_put c3 m a3;
  m ← c_put c4 m a4;
  m ← c_put c5 m a5;
  call_m proc m r st.

Definition rcall6 (proc : Z) (a1 : A1) (a2 : A2) (a3 : A3) (a4 : A4) (a5 : A5) (a6 : A6)
    (r : R) (st : St) : result (Z * R * St) :=
  m ← c_put c1 marshall_new a1;
  m ← c_put c2 m a2;
  m ← c_put c3 m a3;
  m ← c_put c4 m a4;
  m ← c_put c5 m a5;
  m ← c_put c6 m a6;
  call_m proc m r st.

Definition rcall7 (proc : Z) (a1 : A1) (a2 : A2) (a3 : A3) (a4 : A4) (a5 : A5) (a6 : A6) (a7 : A7)
    (r : R) (st : St) : result (Z * R * St) :=
  m ← c_put c1 marshall_new a1;
  m ← c_put c2 m a2;
  m ← c_put c3 m a3;
  m ← c_put c4 m a4;
  m ← c_put c5 m a5;
  m ← c_put c6 m a6;
  m ← c_put c7 m a7;
  call_m proc m r st.

End call.

(** ** class rpcs: the handlers [reg] creates *)

Section reg.
Context `{HeapMem} {St : Type}.
Context {R A1 A2 A3 A4 A5 A6 A7 : Type} (cr : codec R).
Context (c1 : codec A1) (c2 : codec A2) (c3 : codec A3) (c4 : codec A4) (c5 : codec A5)
  (c6 : codec A6) (c7 : codec A7).

(** What every [fn] does once its arguments are read: [m] is the call of the method. *)
Definition run_meth (args : unmarshall) (ret : marshall) (st : St) (m : R -> St -> result (Z * R * St))
    : result (Z * marshall * St) :=
  if negb (okdone args) then Ok (unmarshal_args_failure, ret, st)
  else
    '(b, r, st) ← m (c_init cr) st;
    ret ← c_put cr ret r;
    Ok (b, ret, st).

Definition reg_h1 (meth : A1 -> R -> St -> result (Z * R * St)) : handler St := fun args ret st =>
  '(a1, args) ← c_get c1 args (c_init c1);
  run_meth args ret st (meth a1).

Definition reg_h2 (meth : A1 -> A2 -> R -> St -> result (Z * R * St)) : handler St := fun args ret st =>
  '(a1, args) ← c_get c1 args (c_init c1);
  '(a2, args) ← c_get c2 args (c_init c2);
  run_meth args ret st (meth a1 a2).

Definition reg_h3 (meth : A1 -> A2 -> A3 -> R -> St -> result (Z * R * St)) : handler St :=
  fun args ret st =>
  '(a1, args) ← c_get c1 args (c_init c1);
  '(a2, args) ← c_get c2 args (c_init c2);
  '(a3, args) ← c_get c3 args (c_init c3);
  run_meth args ret st (meth a1 a2 a3).

Definition reg_h4 (meth : A1 -> A2 -> A3 -> A4 -> R -> St -> result (Z * R * St)) : handler St :=
  fun args ret st =>
  '(a1, args) ← c_get c1 args (c_init c1);
  '(a2, args) ← c_get c2 args (c_init c2);
  '(a3, args) ← c_get c3 args (c_init c3);
  '(a4, args) ← c_get c4 args (c_init c4);
  run_meth args ret st (meth a1 a2 a3 a4).

Definition reg_h5 (meth : A1 -> A2 -> A3 -> A4 -> A5 -> R -> St -> result (Z * R * St)) : handler St :=
  fun args ret st =>
  '(a1, args) ← c_get c1 args (c_init c1);
  '(a2, args) ← c_get c2 args (c_init c2);
  '(a3, args) ← c_get c3 args (c_init c3);
  '(a4, args) ← c_get c4 args (c_init c4);
  '(a5, args) ← c_get c5 args (c_init c5);
  run_meth args ret st (meth a1 a2 a3 a4 a5).

Definition reg_h6 (meth : A1 -> A2 -> A3 -> A4 -> A5 -> A6 -> R -> St -> result (Z * R * St))
    : handler St := fun args ret st =>
  '(a1, args) ← c_get c1 args (c_init c1);
  '(a2, args) ← c_get c2 args (c_init c2);
  '(a3, args) ← c_get c3 args (c_init c3);
  '(a4, args) ← c_get c4 args (c_init c4);
  '(a5, args) ← c_get c5 args (c_init c5);
  '(a6, args) ← c_get c6 args (c_init c6);
  run_meth args ret st (meth a1 a2 a3 a4 a5 a6).

Definition reg_h7 (meth : A1 -> A2 -> A3 -> A4 -> A5 -> A6 -> A7 -> R -> St -> result (Z * R * St))
    : handler St := fun args ret st =>
  '(a1, args) ← c_get c1 args (c_init c1);
  '(a2, args) ← c_get c2 args (c_init c2);
  '(a3, args) ← c_get c3 args (c_init c3);
  '(a4, args) ← c_get c4 args (c_init c4);
  '(a5, args) ← c_get c5 args (c_init c5);
  '(a6, args) ← c_get c6 args (c_init c6);
  '(a7, args) ← c_get c7 args (c_init c7);
  run_meth args ret st (meth a1 a2 a3 a4 a5 a6 a7).

End reg.

(** ** Several arguments are one argument of a pair type *)

Section tuples.
Context `{HeapMem} {St : Type} {R A1 A2 A3 A4 A5 A6 A7 : Type} (cr : codec R).
Context (c1 : codec A1) (c2 : codec A2) (c3 : codec A3) (c4 : codec A4) (c5 : codec A5)
  (c6 : codec A6) (c7 : codec A7).

Definition args7_c : codec (A1 * (A2 * (A3 * (A4 * (A5 * (A6 * A7)))))) :=
  pair_c c1 (pair_c c2 (pair_c c3 (pair_c c4 (pair_c c5 (pair_c c6 c7))))).

Lemma bind_ext {A B} (m : result A) (f g : A -> result B) : (forall a, f a = g a) -> m ≫= f = m ≫= g.
Proof. intros Hfg. destruct m; [apply Hfg|done..]. Qed.

Lemma put_pair {A B C} (a : codec A) (b : codec B) m x y (k : marshall -> result C) :
  (m ← c_put (pair_c a b) m (x, y); k m) = (m ← c_put a m x; m ← c_put b m y; k m).
Proof. cbn [c_put pair_c fst snd]. by destruct (c_put a m x). Qed.

Lemma get_pair {A B C} (a : codec A) (b : codec B) u x y (k : A * B -> unmarshall -> result C) :
  ('(z, u) ← c_get (pair_c a b) u (x, y); k z u) =
  ('(xa, u) ← c_get a u x; '(xb, u) ← c_get b u y; k (xa, xb) u).
Proof.
  cbn [c_get pair_c fst snd]. destruct (c_get a u x) as [[xa u1]| | |]; [|done..].
  cbn [mbind result_bind]. by destruct (c_get b u1 y) as [[xb u2]| | |].
Qed.

Lemma rcall7_tuple (call1 : Z -> marshall -> St -> result (Z * unmarshall * St)) proc a1 a2 a3 a4 a5 a6 a7 r st :
  rcall7 call1 cr c1 c2 c3 c4 c5 c6 c7 proc a1 a2 a3 a4 a5 a6 a7 r st =
  rcall1 call1 cr args7_c proc (a1, (a2, (a3, (a4, (a5, (a6, a7)))))) r st.
Proof.
  unfold rcall7, rcall1, args7_c. do 6 (rewrite put_pair; apply bind_ext; intros ?). done.
Qed.

Lemma reg_h7_tuple (meth : A1 -> A2 -> A3 -> A4 -> A5 -> A6 -> A7 -> R -> St -> result (Z * R * St)) args ret st :
  reg_h7 cr c1 c2 c3 c4 c5 c6 c7 meth args ret st =
  reg_h1 cr args7_c (fun '(a1, (a2, (a3, (a4, (a5, (a6, a7)))))) => meth a1 a2 a3 a4 a5 a6 a7) args ret st.
Proof.
  unfold reg_h7, reg_h1, args7_c. do 6 (
    match goal with |- _ = ('(z, u) ← c_get (pair_c ?a ?b) ?u ?i; @?k z u) =>
      change i with (c_init a, c_init b) end;
    rewrite (get_pair _ _ _ _ _ (fun z u => _)); apply bind_ext; intros [? ?]). done.
Qed.

End tuples.
