(* ===== verification/RpcLink.v ===== *)
(** * RpcLink: a call through the whole RPC library

    [direct_call] is [call1] over a connection that loses nothing: the client's
    request goes through [dispatch] at the server and the reply through
    [got_pdu] back to the caller.  The theorems say that a stub called this way
    does what the registered method does. *)

From Stdlib Require Import ZArith Lia.
From S2P Require Import Prelude Marshall MarshallFacts RpcServer RpcServerFacts RpcClient RpcStub.

Record link (St : Type) := mk_link { k_cl : rpcc; k_srv : rpcs St; k_app : St }.
Arguments mk_link {St}.
Arguments k_cl {St}.
Arguments k_srv {St}.
Arguments k_app {St}.

Section link.
Context `{HeapMem} {St : Type} (compare : Z -> Z -> Z) (conn : Z).
Implicit Types l : link St.

Definition sent (effs : list effect) : list (list byte) :=
  omap (fun e => match e with Send _ b => Some b | _ => None end) effs.

(** One request at the server, from its arrival to its reply. *)
Definition deliver (s : rpcs St) (app : St) (pdu : list byte)
    : result (list (list byte) * rpcs St * St) :=
  '(s, effs, oj) ← dispatch_pre compare s conn pdu;
  match oj with
  | None => Ok (sent effs, s, app)
  | Some j =>
      '(s, effs', app) ← dispatch_run s j false app;
      Ok (sent (effs ++ effs'), s, app)
  end.

Fixpoint deliver_all (s : rpcs St) (app : St) (pdus : list (list byte))
    : result (list (list byte) * rpcs St * St) :=
  match pdus with
  | [] => Ok ([], s, app)
  | pdu :: pdus =>
      '(b, s, app) ← deliver s app pdu;
      '(bs, s, app) ← deliver_all s app pdus;
      Ok (b ++ bs, s, app)
  end.

Fixpoint receive_all (cl : rpcc) (pdus : list (list byte)) : result rpcc :=
  match pdus with [] => Ok cl | b :: pdus => cl ← rpcc_got_pdu cl b; receive_all cl pdus end.

Definition direct_call (proc : Z) (req : marshall) (l : link St) : result (Z * unmarshall * link St) :=
  '(r, cl) ← call1_begin (k_cl l) proc req;
  match r with
  | inl e => Ok (e, unmarshall_empty, mk_link cl (k_srv l) (k_app l))
  | inr p =>
      let '(pdus, cl) := transmit cl p in
      '(replies, s, app) ← deliver_all (k_srv l) (k_app l) pdus;
      cl ← receive_all cl replies;
      '(ret, u, cl) ← call1_end cl p;
      Ok (ret, u, mk_link cl s app)
  end.

(** [rpcc::bind] *)
Definition bind l : result (Z * link St) :=
  '(ret, r, l) ← rcall1 direct_call int_c int_c rpc_bind 0 stack_int l;
  Ok (ret, mk_link (bind_done (k_cl l) ret r) (k_srv l) (k_app l)).

(** [rpcs::rpcs]: [nonce] is what [random()] returns. *)
Definition rpcs_new (nonce count : Z) : result (rpcs St) :=
  reg1 (mk_rpcs (u32 nonce) ∅ ∅ ∅ count count ∅ true) rpc_bind (reg_h1 int_c int_c (rpcbind (u32 nonce))).

Lemma reg1_ok (s : rpcs St) proc h :
  0 <= proc < 2 ^ 31 -> s_procs s !! proc = None ->
  exists s', reg1 s proc h = Ok s' /\ s_procs s' = <[proc := h]> (s_procs s) /\
    s_nonce s' = s_nonce s /\ s_window s' = s_window s.
Proof.
  intros Hp Hn. unfold reg1. rewrite wrapS_small by lia. rewrite bool_decide_true by done.
  eexists. by split.
Qed.

(** A client with no call under way, bound or not. *)
Record link_idle l : Prop := {
  lk_srv : 0 <= s_nonce (k_srv l) < 2 ^ 32;
  lk_clt : 0 < c_clt_nonce (k_cl l) < 2 ^ 32;
  lk_xid : 1 <= c_xid (k_cl l) < 2 ^ 31 - 1;
  lk_idle : c_calls (k_cl l) = ∅ /\ c_destroy_wait (k_cl l) = false /\ c_reachable (k_cl l) = true;
  lk_lossless : c_lossytest (k_cl l) = 0 /\ c_dup_req (k_cl l) = dup_clear;
  lk_window : c_xid_rep_window (k_cl l) = [c_xid (k_cl l) - 1];
  lk_seen : Forall (fun r => r_xid r < c_xid (k_cl l))
              (default [] (s_window (k_srv l) !! c_clt_nonce (k_cl l)));
}.

(** A client bound to this instance of the server. *)
Record link_ok l : Prop := {
  lk_conn : link_idle l;
  lk_bound : c_bind_done (k_cl l) = true;
  lk_nonce : c_srv_nonce (k_cl l) = s_nonce (k_srv l);
}.

(** ** One exchange *)

Lemma seen_new xid (l : list reply_t) : Forall (fun r => r_xid r < xid) l -> find_reply xid l = None /\ too_old xid l = false.
Proof.
  induction 1 as [|r l Hr Hl [IH _]]; [done|]. cbn [find_reply too_old].
  rewrite (proj2 (Z.eqb_neq _ _)) by lia. split; [done|]. apply Z.ltb_ge. lia.
Qed.

Lemma Forall_insert_reply_r (P : reply_t -> Prop) r (l : list reply_t) : P r -> Forall P l -> Forall P (insert_reply r l).
Proof.
  intros Hr. induction 1 as [|q l Hq Hl IH]; cbn [insert_reply]; [by constructor|].
  destruct (r_xid r <? r_xid q); by repeat constructor.
Qed.

Lemma Forall_drop_old (P : reply_t -> Prop) rep (l : list reply_t) : Forall P l -> Forall P (drop_old rep l).
Proof.
  induction 1 as [|q l Hq Hl IH]; cbn [drop_old]; [constructor|].
  destruct (rep <=? r_xid q); [by constructor|done].
Qed.

Lemma check_new w clt xid rep :
  Forall (fun r => r_xid r < xid) (default [] (w !! clt)) ->
  exists w', checkduplicate_and_update w clt xid rep = (NEW, w') /\
    Forall (fun r => r_xid r < xid + 1) (default [] (w' !! clt)).
Proof.
  intros Hl. unfold checkduplicate_and_update. destruct (seen_new _ _ Hl) as [-> ->].
  eexists. split; [done|]. rewrite lookup_insert_eq. cbn [default from_option id].
  apply Forall_drop_old, Forall_insert_reply_r; [cbn; lia|].
  eapply Forall_impl; [exact Hl|]. cbn. lia.
Qed.

Lemma add_reply_seen w clt xid b n :
  Forall (fun r => r_xid r < n) (default [] (w !! clt)) ->
  Forall (fun r => r_xid r < n) (default [] (add_reply w clt xid b !! clt)).
Proof.
  intros Hl. unfold add_reply. rewrite lookup_insert_eq. cbn [default from_option id].
  apply Forall_fmap. eapply Forall_impl; [exact Hl|]. intros r Hr. unfold compose, set_reply.
  by destruct (r_xid r =? xid).
Qed.

(** Packing the header of a request that fits. *)
Lemma pack_req_framed m h body :
  extends marshall_new body m -> m_ind m <= MAX_PDU ->
  exists m', pack_req_header m h = Ok m' /\ framed (m_pdu m') (enc_req h) body.
Proof.
  intros [Hwf Hi Hp] Hm. rewrite pack_req_header_spec by done. eexists. split; [done|].
  cbn [marshall_new m_ind] in Hi. rewrite header_sz in Hi.
  pose proof (over_framed m (enc_req h) Hwf ltac:(done) ltac:(lia)) as Hf.
  assert (drop 24 (m_pdu m) = body) as E; [|by rewrite E in Hf].
  rewrite Hp. apply drop_app_length'. unfold m_pdu. cbn [marshall_new m_ind m_buf].
  rewrite length_take, length_heap_bytes. done.
Qed.

Lemma pack_reply_framed m h body :
  extends marshall_new body m -> m_ind m <= MAX_PDU ->
  exists m', pack_reply_header m h = Ok m' /\ framed (m_pdu m') (enc_rep h) body.
Proof.
  intros [Hwf Hi Hp] Hm. rewrite pack_reply_header_spec by done. eexists. split; [done|].
  cbn [marshall_new m_ind] in Hi. rewrite header_sz in Hi.
  pose proof (over_framed m (enc_rep h) Hwf ltac:(cbn; lia) ltac:(lia)) as Hf.
  assert (drop 24 (m_pdu m) = body) as E; [|by rewrite E in Hf].
  rewrite Hp. apply drop_app_length'. unfold m_pdu. cbn [marshall_new m_ind m_buf].
  rewrite length_take, length_heap_bytes. done.
Qed.

(** What a handler does with the arguments [body]: it returns [ret] and [rbody]. *)
Definition handles (f : handler St) (body : list byte) (st : St) (ret : Z) (rbody : list byte) (st' : St)
    : Prop :=
  forall u, reads u body -> exists rep, f u marshall_new st = Ok (ret, rep, st') /\
    extends marshall_new rbody rep /\ m_ind rep <= MAX_PDU.

Lemma deliver_spec s app pdu h body f ret rbody app' :
  framed pdu (enc_req h) body -> req_valid h ->
  (q_srv_nonce h = 0 \/ q_srv_nonce h = s_nonce s) -> 0 < q_clt_nonce h -> 0 <= q_xid h ->
  s_procs s !! q_proc h = Some f -> handles f body app ret rbody app' -> 0 <= ret < 2 ^ 31 ->
  Forall (fun r => r_xid r < q_xid h) (default [] (s_window s !! q_clt_nonce h)) ->
  exists b s', deliver s app pdu = Ok ([b], s', app') /\ framed b (enc_rep (mk_rep (q_xid h) ret)) rbody /\
    s_nonce s' = s_nonce s /\ s_procs s' = s_procs s /\
    Forall (fun r => r_xid r < q_xid h + 1) (default [] (s_window s' !! q_clt_nonce h)).
Proof.
  intros Hf Hv Hsrv Hclt Hxid Hproc Hh Hret Hseen. unfold deliver, dispatch_pre.
  destruct (unpack_req_header_spec pdu h body Hf Hv) as (u & -> & Hu). run_ok.
  rewrite (rd_ok _ _ Hu). cbn [negb].
  assert (negb (q_srv_nonce h =? 0) && negb (q_srv_nonce h =? s_nonce s) = false) as ->
    by (destruct Hsrv as [-> | ->]; rewrite Z.eqb_refl, ?andb_false_r; done). rewrite Hproc.
  rewrite (proj2 (Z.eqb_neq _ 0)) by lia.
  assert (exists s1 effs1, save_conn compare s (q_clt_nonce h) conn = (s1, effs1) /\
    s_window s1 = s_window s /\ s_nonce s1 = s_nonce s /\ s_procs s1 = s_procs s /\
    s_counting s1 = s_counting s /\ sent effs1 = []) as (s1 & effs1 & -> & Hw1 & Hn1 & Hp1 & _ & He1).
  { unfold save_conn. destruct (s_conns s !! _) as [c'|]; [destruct (compare c' conn <? 0)|];
      eexists _, _; split_and!; done. }
  rewrite (wrapU_small 32 (q_xid h)) by (destruct Hv; lia).
  destruct (check_new (s_window s1) (q_clt_nonce h) (q_xid h) (u32 (q_xid_rep h))) as (w & -> & Hw);
    [by rewrite Hw1|]. run_ok.
  unfold dispatch_run. cbn [j_hdr j_fn j_req j_conn].
  set (s2 := if negb _ then _ else _).
  assert (s_window s2 = w /\ s_nonce s2 = s_nonce s /\ s_procs s2 = s_procs s) as (Hw2 & Hn2 & Hp2)
    by (unfold s2; destruct (negb _); cbn; done).
  destruct (Hh u Hu) as (rep & -> & Hex & Hmax). run_ok.
  rewrite (proj2 (Z.eqb_neq ret _)) by (unfold unmarshal_args_failure; lia).
  unfold verify. rewrite (proj2 (Z.leb_le 0 ret)), bind_Ok by lia.
  destruct (pack_reply_framed rep (mk_rep (q_xid h) ret) rbody Hex Hmax) as (rep' & -> & Hfr).
  rewrite bind_Ok. rewrite (proj2 (Z.ltb_lt 0 _)) by lia. cbn [latest_conn]. run_ok.
  eexists _, _. split; [|split; [exact Hfr|]].
  - unfold sent in *. rewrite omap_app, He1. done.
  - cbn [set_window s_nonce s_procs s_window]. rewrite (wrapU_small 32) by (destruct Hv; lia).
    split_and!; [done|done|]. rewrite Hw2. by apply add_reply_seen.
Qed.

Lemma update_next x : 0 <= x < 2 ^ 31 - 1 -> update_xid_rep [x] (x + 1) = Ok [x + 1] /\
  update_xid_rep [x + 1] (x + 1) = Ok [x + 1].
Proof.
  intros Hx. unfold update_xid_rep. cbn [head deref mbind result_bind insert_xid].
  rewrite (proj2 (Z.leb_gt _ _)), (proj2 (Z.ltb_ge _ _)), (proj2 (Z.leb_le _ _)) by lia.
  cbn [compress pop_while]. rewrite wrapU_small, Z.eqb_refl by lia. done.
Qed.

(** [bind] is called before the client is bound, anything else after. *)
Definition callable l (proc : Z) : Prop :=
  (proc =? rpc_bind) = negb (c_bind_done (k_cl l)) /\
  (c_srv_nonce (k_cl l) = 0 \/ c_srv_nonce (k_cl l) = s_nonce (k_srv l)).

(** What does not change during an exchange. *)
Definition same_ends l l' : Prop :=
  s_procs (k_srv l') = s_procs (k_srv l) /\ s_nonce (k_srv l') = s_nonce (k_srv l) /\
  c_srv_nonce (k_cl l') = c_srv_nonce (k_cl l) /\ c_bind_done (k_cl l') = c_bind_done (k_cl l) /\
  c_xid (k_cl l') = c_xid (k_cl l) + 1.

Lemma exchange_spec l proc m body f ret rbody app' :
  link_idle l -> callable l proc -> c_xid (k_cl l) < 2 ^ 31 - 2 -> 0 <= proc < 2 ^ 31 ->
  extends marshall_new body m -> m_ind m <= MAX_PDU ->
  s_procs (k_srv l) !! proc = Some f -> handles f body (k_app l) ret rbody app' -> 0 <= ret < 2 ^ 31 ->
  exists u l', direct_call proc m l = Ok (ret, u, l') /\ reads u rbody /\ link_idle l' /\
    k_app l' = app' /\ same_ends l l'.
Proof.
  intros [Hs Hc Hx (Hi & Hd & Hre) [Hl Hdup] Hw Hseen] [Hb Hn] Hxm Hp2 Hex Hm Hproc Hh Hret.
  destruct l as [cl s app]; cbn [k_cl k_srv k_app] in *. unfold direct_call, call1_begin.
  cbn [k_cl k_srv k_app].
  assert ((negb (proc =? rpc_bind) && negb (c_bind_done cl)) || ((proc =? rpc_bind) && c_bind_done cl) = false) as ->
    by (rewrite Hb; by destruct (c_bind_done cl)). rewrite Hd.
  cbn [set_xid set_calls c_xid_rep_window c_xid c_clt_nonce c_srv_nonce]. rewrite Hw. cbn [head deref].
  rewrite bind_Ok. rewrite !(wrapS_small 32) by lia. rewrite (wrapU_small 32) by lia.
  set (xid := c_xid cl) in *. set (h := mk_req xid proc (c_clt_nonce cl) (c_srv_nonce cl) (xid - 1)).
  assert (req_valid h) as Hv by (destruct Hn as [Hn|Hn]; split; cbn; rewrite ?Hn; lia).
  destruct (pack_req_framed m h body Hex Hm) as (m' & -> & Hfr). run_ok.
  unfold transmit. cbn [c_reachable set_calls set_xid c_dup_req]. rewrite Hre, Hdup.
  change (dup_isvalid dup_clear) with false. cbn [andb deliver_all pd_req]. cbv beta iota.
  destruct (deliver_spec s app (m_pdu m') h body f ret rbody app') as (b & s' & -> & Hfb & Hn' & Hp' & Hseen');
    [done|done|done|cbn; lia|cbn; lia|done|done|done|done|].
  run_ok. cbn [deliver_all]. run_ok. cbn [Datatypes.app receive_all].
  destruct (unpack_reply_header_spec b (mk_rep xid ret) rbody Hfb) as (u & Hun & Hu & Hti); [split; cbn; lia|].
  unfold rpcc_got_pdu. rewrite Hun. run_ok. rewrite (rd_ok _ _ Hu). cbn [negb].
  cbn [set_calls set_xid c_xid_rep_window p_xid p_ret]. rewrite Hw, (wrapU_small 32) by lia.
  destruct (update_next (xid - 1)) as [E1 E2]; [lia|]. replace (xid - 1 + 1) with xid in * by lia.
  rewrite E1, bind_Ok. cbn [set_rep_window set_calls set_xid c_calls]. rewrite lookup_insert_eq. cbn [ca_done].
  rewrite !bind_Ok. unfold call1_end. cbn [pd_xid set_calls c_calls]. rewrite (wrapS_small 32) by lia.
  rewrite lookup_insert_eq. cbn [deref]. rewrite bind_Ok. cbn [set_calls c_xid_rep_window set_rep_window].
  rewrite E2, !bind_Ok. cbn [ca_done andb c_lossytest set_rep_window set_calls set_xid]. rewrite Hl.
  cbn [Z.eqb negb ca_intret ca_un]. cbv beta iota. eexists _, _. split; [reflexivity|].
  split; [exact Hti|]. cbn [k_app k_srv k_cl c_xid set_rep_window set_calls set_xid].
  split; [|unfold same_ends; split_and!; done].
  split; cbn [k_app k_srv k_cl c_xid c_bind_done c_srv_nonce c_clt_nonce c_calls c_destroy_wait c_reachable
    c_lossytest c_dup_req c_xid_rep_window set_rep_window set_calls set_xid].
  - by rewrite Hn'.
  - done.
  - lia.
  - split_and!; [|done..]. rewrite Hi, !insert_insert_eq. by rewrite delete_insert_id.
  - done.
  - f_equal. lia.
  - done.
Qed.

Lemma bound_callable l proc : link_ok l -> proc <> rpc_bind -> callable l proc.
Proof.
  intros [_ Hb Hn] Hp. unfold callable. rewrite Hb, Hn. split; [|by right]. cbn. by apply Z.eqb_neq.
Qed.

Lemma same_ends_ok l l' : link_ok l -> link_idle l' -> same_ends l l' -> link_ok l'.
Proof. intros [_ Hb Hn] Hi (_ & E1 & E2 & E3 & _). split; [done|by rewrite E3|by rewrite E1, E2]. Qed.

(** ** The stubs *)

(** Reading into a variable that already has a value. *)
Class GetAny {A} (c : codec A) (valid : A -> Prop) (enc : A -> list byte) : Prop :=
  get_any : forall u x0 x rest, valid x -> reads u (enc x ++ rest) ->
    c_get c u x0 = Ok (x, advance u (length (enc x))).

#[export] Instance int_any : GetAny int_c (fun x => - 2 ^ 31 <= x < 2 ^ 31) be4.
Proof. intros u x0 x rest Hv Hr. by apply (get_ok (c := int_c) u x rest). Qed.
#[export] Instance ull_any : GetAny ull_c (fun x => 0 <= x < 2 ^ 64) be8.
Proof. intros u x0 x rest Hv Hr. by apply (get_ok (c := ull_c) u x rest). Qed.
#[export] Instance string_any : GetAny string_c (fun s => Z.of_nat (length s) <= MAX_PDU) enc_string.
Proof.
  intros u s0 s rest Hs Hr. unfold enc_string in *. rewrite <- app_assoc in Hr.
  apply get_uint_spec in Hr as [E Hr]. cbn [c_get string_c]. unfold get_string.
  rewrite E. run_ok. rewrite (rd_ok _ _ Hr). unfold MAX_PDU in Hs.
  rewrite wrapU_small, (un_rawbytes_spec _ _ s rest) by (done || lia).
  by rewrite advance_add, length_app.
Qed.

Section stubs.
Context {R A1 A2 : Type} (cr : codec R) (c1 : codec A1) (c2 : codec A2).
Context {vr er v1 e1 v2 e2} `{!CodecOK cr vr er} `{!GetAny cr vr er} `{!CodecOK c1 v1 e1} `{!CodecOK c2 v2 e2}.

(** A message of [n] bytes behind its header. *)
Definition fits (bs : list byte) : Prop := 24 + Z.of_nat (length bs) <= MAX_PDU.

Lemma run_meth_spec args st (meth : R -> St -> result (Z * R * St)) b r st' :
  reads args [] -> meth (c_init cr) st = Ok (b, r, st') -> vr r -> fits (er r) ->
  exists rep, run_meth cr args marshall_new st meth = Ok (b, rep, st') /\
    extends marshall_new (er r) rep /\ m_ind rep <= MAX_PDU.
Proof.
  intros Hr Hm Hv Hf. unfold run_meth. rewrite (reads_okdone _ Hr). cbn [negb]. rewrite Hm. run_ok.
  destruct (put_ok marshall_new r) as (rep & -> & Hex); [apply marshall_new_wf|done|done|].
  rewrite bind_Ok. exists rep. split_and!; [done|done|]. rewrite (ex_ind _ _ _ Hex). done.
Qed.

Lemma call_m_idle l proc m body f ret r0 r app' :
  link_idle l -> callable l proc -> c_xid (k_cl l) < 2 ^ 31 - 2 -> 0 <= proc < 2 ^ 31 ->
  extends marshall_new body m -> m_ind m <= MAX_PDU ->
  s_procs (k_srv l) !! proc = Some f -> handles f body (k_app l) ret (er r) app' -> 0 <= ret < 2 ^ 31 ->
  vr r ->
  exists l', call_m direct_call cr proc m r0 l = Ok (ret, r, l') /\ link_idle l' /\
    k_app l' = app' /\ same_ends l l'.
Proof.
  intros Hl Hx Hp1 Hp2 Hex Hm Hproc Hh Hret Hv. unfold call_m.
  destruct (exchange_spec l proc m body f ret (er r) app') as (u & l' & -> & Hu & Hl' & Ha & Hs);
    [done..|]. run_ok. rewrite (proj2 (Z.ltb_ge ret 0)) by lia.
  rewrite (get_any u r0 r []) by (rewrite ?app_nil_r; done). run_ok.
  rewrite reads_okdone by (apply (reads_advance u (er r) []); by rewrite app_nil_r). by exists l'.
Qed.

Lemma call_m_spec l proc m body f ret r0 r app' :
  link_ok l -> c_xid (k_cl l) < 2 ^ 31 - 2 -> proc <> rpc_bind -> 0 <= proc < 2 ^ 31 ->
  extends marshall_new body m -> m_ind m <= MAX_PDU ->
  s_procs (k_srv l) !! proc = Some f -> handles f body (k_app l) ret (er r) app' -> 0 <= ret < 2 ^ 31 ->
  vr r ->
  exists l', call_m direct_call cr proc m r0 l = Ok (ret, r, l') /\ link_ok l' /\
    k_app l' = app' /\ s_procs (k_srv l') = s_procs (k_srv l) /\ c_xid (k_cl l') = c_xid (k_cl l) + 1.
Proof.
  intros Hl Hx Hp1 Hp2 Hex Hm Hproc Hh Hret Hv.
  destruct (call_m_idle l proc m body f ret r0 r app' (lk_conn _ Hl) (bound_callable _ _ Hl Hp1))
    as (l' & E & Hi & Ha & Hs); [done..|].
  exists l'. split_and!; [done|by eapply same_ends_ok|done|apply Hs..].
Qed.

(** What a stub call achieves. *)
Definition calls_through (l : link St) (res : result (Z * R * link St)) (ret : Z) (r : R) (app' : St) : Prop :=
  exists l', res = Ok (ret, r, l') /\ link_ok l' /\ k_app l' = app' /\
    s_procs (k_srv l') = s_procs (k_srv l) /\ c_xid (k_cl l') = c_xid (k_cl l) + 1.

Lemma reg_h1_handles (meth : A1 -> R -> St -> result (Z * R * St)) a1 st ret r st' :
  v1 a1 -> meth a1 (c_init cr) st = Ok (ret, r, st') -> vr r -> fits (er r) ->
  handles (reg_h1 cr c1 meth) (e1 a1) st ret (er r) st'.
Proof.
  intros Hv1 Hmeth Hvr Hfr u Hu. unfold reg_h1. rewrite <- (app_nil_r (e1 a1)) in Hu.
  apply (get_reads c1 v1 e1) in Hu as [-> Hu]; [|done]. run_ok. by apply run_meth_spec.
Qed.

Lemma rcall1_handles l proc f a1 r0 ret r app' :
  link_ok l -> c_xid (k_cl l) < 2 ^ 31 - 2 -> proc <> rpc_bind -> 0 <= proc < 2 ^ 31 ->
  s_procs (k_srv l) !! proc = Some f -> v1 a1 -> fits (e1 a1) ->
  handles f (e1 a1) (k_app l) ret (er r) app' -> 0 <= ret < 2 ^ 31 -> vr r ->
  calls_through l (rcall1 direct_call cr c1 proc a1 r0 l) ret r app'.
Proof.
  intros Hl Hx Hp1 Hp2 Hproc Hv1 Hf1 Hh Hret Hvr. unfold rcall1.
  destruct (put_ok marshall_new a1) as (m & -> & Hex); [apply marshall_new_wf|done|done|]. rewrite bind_Ok.
  eapply call_m_spec; [done..| |done|done|done|done]. rewrite (ex_ind _ _ _ Hex). exact Hf1.
Qed.

Lemma rcall1_spec l proc (meth : A1 -> R -> St -> result (Z * R * St)) a1 r0 ret r app' :
  link_ok l -> c_xid (k_cl l) < 2 ^ 31 - 2 -> proc <> rpc_bind -> 0 <= proc < 2 ^ 31 ->
  s_procs (k_srv l) !! proc = Some (reg_h1 cr c1 meth) ->
  v1 a1 -> fits (e1 a1) -> meth a1 (c_init cr) (k_app l) = Ok (ret, r, app') -> 0 <= ret < 2 ^ 31 ->
  vr r -> fits (er r) ->
  calls_through l (rcall1 direct_call cr c1 proc a1 r0 l) ret r app'.
Proof. intros. eapply rcall1_handles; [done..| |done|done]. by apply reg_h1_handles. Qed.

Lemma rcall2_spec l proc (meth : A1 -> A2 -> R -> St -> result (Z * R * St)) a1 a2 r0 ret r app' :
  link_ok l -> c_xid (k_cl l) < 2 ^ 31 - 2 -> proc <> rpc_bind -> 0 <= proc < 2 ^ 31 ->
  s_procs (k_srv l) !! proc = Some (reg_h2 cr c1 c2 meth) ->
  v1 a1 -> v2 a2 -> fits (e1 a1 ++ e2 a2) ->
  meth a1 a2 (c_init cr) (k_app l) = Ok (ret, r, app') -> 0 <= ret < 2 ^ 31 ->
  vr r -> fits (er r) ->
  calls_through l (rcall2 direct_call cr c1 c2 proc a1 a2 r0 l) ret r app'.
Proof.
  intros Hl Hx Hp1 Hp2 Hproc Hv1 Hv2 Hf1 Hmeth Hret Hvr Hfr. unfold rcall2.
  pose proof (put_ok (c := pair_c c1 c2) marshall_new (a1, a2) marshall_new_wf (conj Hv1 Hv2) Hf1)
    as (m & Em & Hex). cbn [c_put pair_c fst snd] in Em.
  assert (forall (k : marshall -> result (Z * R * link St)),
    (m ← c_put c1 marshall_new a1; m ← c_put c2 m a2; k m) = k m) as Hk.
  { intros k. destruct (c_put c1 marshall_new a1) as [m1| | |]; cbn in *; [|done..]. by rewrite Em. }
  rewrite Hk. cbn [fst snd] in Hex.
  eapply call_m_spec; [done..| |done| |done|done].
  - rewrite (ex_ind _ _ _ Hex). exact Hf1.
  - intros u Hu. unfold reg_h2. rewrite <- (app_nil_r (e1 a1 ++ e2 a2)), <- app_assoc in Hu.
    apply (get_reads c1 v1 e1) in Hu as [-> Hu]; [|done]. run_ok.
    apply (get_reads c2 v2 e2) in Hu as [-> Hu]; [|done]. run_ok.
    by apply run_meth_spec.
Qed.

End stubs.

(** ** Binding *)

Lemma bind_spec l : link_idle l -> c_bind_done (k_cl l) = false -> c_srv_nonce (k_cl l) = 0 ->
  c_xid (k_cl l) < 2 ^ 31 - 2 ->
  s_procs (k_srv l) !! rpc_bind = Some (reg_h1 int_c int_c (rpcbind (s_nonce (k_srv l)))) ->
  exists l', bind l = Ok (0, l') /\ link_ok l' /\ k_app l' = k_app l /\
    s_procs (k_srv l') = s_procs (k_srv l) /\ c_xid (k_cl l') = c_xid (k_cl l) + 1.
Proof.
  intros Hi Hb Hn Hx Hp. unfold bind, rcall1.
  assert (callable l rpc_bind) as Hc by (split; [by rewrite Hb|by left]).
  destruct (put_ok (c := int_c) marshall_new 0) as (m & -> & Hex); [apply marshall_new_wf|done|done|]. rewrite bind_Ok.
  pose proof (wrapS_range 32 (s_nonce (k_srv l)) ltac:(lia)) as Hr.
  destruct (call_m_idle int_c l rpc_bind m (be4 0) (reg_h1 int_c int_c (rpcbind (s_nonce (k_srv l)))) 0 stack_int (s32 (s_nonce (k_srv l))) (k_app l) Hi Hc)
    as (l' & -> & Hi' & Ha & Hp' & Hn' & _ & _ & Hx'); try done.
  { by rewrite (ex_ind _ _ _ Hex). }
  { apply (reg_h1_handles int_c int_c (rpcbind (s_nonce (k_srv l))) 0); done. }
  run_ok. unfold bind_done. cbn [Z.eqb]. eexists. split; [done|]. cbn [k_app k_srv].
  split; [|split_and!; done]. split; [by destruct Hi'; split|done|].
  cbn [k_cl k_srv set_bound c_srv_nonce]. rewrite Hn', wrapU_wrapS, wrapU_small by (lia || apply Hi). done.
Qed.

(** A new client that binds to a new server. *)
Lemma connect_ok (s : rpcs St) (app : St) cnonce :
  0 < u32 cnonce -> 0 <= s_nonce s < 2 ^ 32 -> s_window s = ∅ ->
  s_procs s !! rpc_bind = Some (reg_h1 int_c int_c (rpcbind (s_nonce s))) ->
  exists l, bind (mk_link (rpcc_new true cnonce 0) s app) = Ok (0, l) /\ link_ok l /\ k_app l = app /\
    s_procs (k_srv l) = s_procs s /\ c_xid (k_cl l) = 2.
Proof.
  intros Hc Hn Hw Hb. pose proof (wrapU_range 32 cnonce ltac:(lia)).
  apply (bind_spec (mk_link (rpcc_new true cnonce 0) s app)); [|done..].
  split; cbn [k_cl k_srv rpcc_new c_clt_nonce c_xid c_calls c_destroy_wait c_reachable c_lossytest c_dup_req
    c_xid_rep_window]; rewrite ?Hw; try done. lia.
Qed.

(** Before it is bound a client makes no call but [bind], and it binds once. *)
Lemma unbound_refused l proc m : c_bind_done (k_cl l) = false -> proc <> rpc_bind ->
  direct_call proc m l = Ok (bind_failure, unmarshall_empty, l).
Proof.
  intros Hb Hp. unfold direct_call, call1_begin. rewrite (proj2 (Z.eqb_neq _ _) Hp), Hb. by destruct l.
Qed.

Lemma rebind_refused l : c_bind_done (k_cl l) = true -> bind l = Ok (bind_failure, l).
Proof.
  intros Hb. unfold bind, rcall1.
  destruct (put_ok (c := int_c) marshall_new 0) as (m & -> & _); [apply marshall_new_wf|done|done|].
  rewrite bind_Ok. unfold call_m, direct_call, call1_begin. rewrite Hb. cbn. by destruct l as [[] ? ?].
Qed.

End link.
