(* ===== verification/RpcNetwork.v ===== *)
(** * RpcNetwork: calls over a network that loses, repeats and reorders

    One client thread makes its calls one after the other, with any number of
    retransmissions; the network keeps every message ever sent, and any of them may
    arrive at any time, any number of times or never.  Other clients use the server
    in between, and its handlers run in any order.  The invariant [net_inv] says
    that what the client takes for an answer was made by the one execution of the
    call. *)

From Stdlib Require Import ZArith Lia Sorted.
From S2P Require Import Prelude Marshall MarshallFacts RpcServer RpcServerFacts RpcClient RpcStub RpcLink.

Section network.
(** The nonce of the client, the nonce of the server, and the number of the
    client's first call. *)
Context `{HeapMem} {St : Type} (compare : Z -> Z -> Z) (clt nonce x0 : Z).

(** What a handler has put into its reply behind the header. *)
Definition written (m : marshall) : list byte := drop 24 (m_pdu m).

(** The replies of a handler can be sent. *)
Definition well_framed (f : handler St) : Prop := forall u st ret rep st',
  f u marshall_new st = Ok (ret, rep, st') ->
  ret < 2 ^ 31 /\ extends marshall_new (written rep) rep /\ m_ind rep <= MAX_PDU.

(** [n_reqs] and [n_reps] are all the requests the client has sent and all the
    replies sent to it; [n_exec] has the call number, the status and the reply of every
    execution for this client, [n_done] the number of every call that has returned,
    whether a reply had come, and what it returned. *)
Record net := mk_net {
  n_cl : rpcc; n_srv : server (St := St); n_call : option pending;
  n_reqs : list (list byte); n_reps : list (list byte);
  n_exec : list (Z * Z * list byte); n_done : list (Z * bool * Z * unmarshall);
}.
Definition net_new (cl : rpcc) (v : server (St := St)) : net := mk_net cl v None [] [] [] [].

Definition from_client (pdu : list byte) : Prop :=
  exists h u, unpack_req_header (unmarshall_buf pdu) = Ok (h, u) /\ q_clt_nonce h = clt.

Definition arrived (v : server (St := St)) (s : rpcs St) (oj : option (job St)) : server :=
  mk_server s (v_app v) (v_jobs v ++ option_list oj) (v_log v).
Definition ran (v : server (St := St)) (s : rpcs St) (app : St) (js : list (job St)) (j : job St) : server :=
  mk_server s app js (v_log v ++ [key (j_hdr j)]).

Inductive net_step : net -> net -> Prop :=
| net_call cl v reqs reps exec dn proc req body p cl' :
    proc <> rpc_bind -> 0 <= proc < 2 ^ 31 -> c_xid cl < 2 ^ 31 - 2 ->
    extends marshall_new body req -> m_ind req <= MAX_PDU ->
    call1_begin cl proc req = Ok (inr p, cl') ->
    net_step (mk_net cl v None reqs reps exec dn) (mk_net cl' v (Some p) reqs reps exec dn)
| net_send cl v p reqs reps exec dn pdus cl' :
    transmit cl p = (pdus, cl') ->
    net_step (mk_net cl v (Some p) reqs reps exec dn) (mk_net cl' v (Some p) (reqs ++ pdus) reps exec dn)
| net_arrive cl v oc reqs reps exec dn c pdu s' effs oj :
    pdu ∈ reqs -> dispatch_pre compare (v_s v) c pdu = Ok (s', effs, oj) ->
    net_step (mk_net cl v oc reqs reps exec dn) (mk_net cl (arrived v s' oj) oc reqs (reps ++ sent effs) exec dn)
| net_foreign cl v oc reqs reps exec dn c pdu s' effs oj :
    ~ from_client pdu -> honest pdu -> dispatch_pre compare (v_s v) c pdu = Ok (s', effs, oj) ->
    net_step (mk_net cl v oc reqs reps exec dn) (mk_net cl (arrived v s' oj) oc reqs reps exec dn)
| net_run cl v oc reqs reps exec dn js j js' dead s' effs app' ret rep app1 :
    v_jobs v = js ++ j :: js' -> q_clt_nonce (j_hdr j) = clt ->
    j_fn j (j_req j) marshall_new (v_app v) = Ok (ret, rep, app1) ->
    dispatch_run (v_s v) j dead (v_app v) = Ok (s', effs, app') ->
    net_step (mk_net cl v oc reqs reps exec dn)
      (mk_net cl (ran v s' app' (js ++ js') j) oc reqs (reps ++ sent effs)
        (exec ++ [(u32 (q_xid (j_hdr j)), ret, written rep)]) dn)
| net_run_foreign cl v oc reqs reps exec dn js j js' dead s' effs app' :
    v_jobs v = js ++ j :: js' -> q_clt_nonce (j_hdr j) <> clt ->
    dispatch_run (v_s v) j dead (v_app v) = Ok (s', effs, app') ->
    net_step (mk_net cl v oc reqs reps exec dn) (mk_net cl (ran v s' app' (js ++ js') j) oc reqs reps exec dn)
| net_reply cl v oc reqs reps exec dn b cl' :
    b ∈ reps -> rpcc_got_pdu cl b = Ok cl' ->
    net_step (mk_net cl v oc reqs reps exec dn) (mk_net cl' v oc reqs reps exec dn)
| net_return cl v p reqs reps exec dn ca ret u cl' :
    c_calls cl !! s32 (pd_xid p) = Some ca -> call1_end cl p = Ok (ret, u, cl') ->
    net_step (mk_net cl v (Some p) reqs reps exec dn)
      (mk_net cl' v None reqs reps exec (dn ++ [(pd_xid p, ca_done ca, ret, u)])).

(** ** The invariant *)

(** A request of this client with a number up to [N]. *)
Definition good_req (N : Z) (pdu : list byte) : Prop := exists h body,
  framed pdu (enc_req h) body /\ req_valid h /\ q_clt_nonce h = clt /\ q_srv_nonce h = nonce /\
  x0 <= q_xid h <= N /\ q_xid_rep h = q_xid h - 1.

(** A reply: of an execution, or that an earlier call is forgotten. *)
Definition good_rep (exec : list (Z * Z * list byte)) (N : Z) (b : list byte) : Prop := exists x ret body,
  framed b (enc_rep (mk_rep x ret)) body /\ rep_valid (mk_rep x ret) /\ x0 <= x <= N /\
  ((x, ret, body) ∈ exec \/ x < N).

(** An answered call in the server's window. *)
Definition good_entry (exec : list (Z * Z * list byte)) (r : reply_t) : Prop :=
  r_cb_present r = true -> x0 <= r_xid r -> exists b ret body, r_buf r = Some b /\
    framed b (enc_rep (mk_rep (r_xid r) ret)) body /\ rep_valid (mk_rep (r_xid r) ret) /\ (r_xid r, ret, body) ∈ exec.

Definition good_job (N : Z) (j : job St) : Prop := q_clt_nonce (j_hdr j) = clt ->
  well_framed (j_fn j) /\ req_valid (j_hdr j) /\ x0 <= q_xid (j_hdr j) <= N.

(** An answer to call [x] that the client has. *)
Definition answered (exec : list (Z * Z * list byte)) (x ret : Z) (u : unmarshall) : Prop :=
  exists body, (x, ret, body) ∈ exec /\ reads u body.

(** The client between calls and during one. *)
Definition good_call (exec : list (Z * Z * list byte)) (cl : rpcc) (oc : option pending) : Prop :=
  let N := c_xid cl - 1 in
  match oc with
  | None => c_calls cl = ∅ /\ c_xid_rep_window cl = [N]
  | Some p => pd_xid p = N /\ good_req N (m_pdu (pd_req p)) /\ exists ca, c_calls cl = {[N := ca]} /\
      if ca_done ca then c_xid_rep_window cl = [N] /\ answered exec N (ca_intret ca) (ca_un ca)
      else c_xid_rep_window cl = [N - 1]
  end.

Record good_client (exec : list (Z * Z * list byte)) (cl : rpcc) (oc : option pending) : Prop := {
  gc_nonce : c_clt_nonce cl = clt /\ c_srv_nonce cl = nonce;
  gc_bound : c_bind_done cl = true;
  gc_xid : x0 <= c_xid cl < 2 ^ 31 - 1;
  gc_call : good_call exec cl oc;
  gc_dup : dup_isvalid (c_dup_req cl) = true -> good_req (c_xid cl - 1) (d_buf (c_dup_req cl));
}.

Record good_server (exec : list (Z * Z * list byte)) (N : Z) (v : server) : Prop := {
  gs_inv : server_inv v;
  gs_nonce : s_nonce (v_s v) = nonce;
  gs_procs : map_Forall (fun _ f => well_framed f) (s_procs (v_s v));
  gs_jobs : Forall (good_job N) (v_jobs v);
  gs_window : Forall (good_entry exec) (default [] (s_window (v_s v) !! clt));
  gs_seen : forall x, (clt, x) ∈ accepted v -> x <= N;
  gs_exec : (fun e => (clt, e.1.1)) <$> exec = filter (fun k => k.1 = clt /\ x0 <= k.2) (v_log v);
}.

Record net_inv (n : net) : Prop := {
  ni_client : good_client (n_exec n) (n_cl n) (n_call n);
  ni_server : good_server (n_exec n) (c_xid (n_cl n) - 1) (n_srv n);
  ni_reqs : Forall (good_req (c_xid (n_cl n) - 1)) (n_reqs n);
  ni_reps : Forall (good_rep (n_exec n) (c_xid (n_cl n) - 1)) (n_reps n);
  ni_done : Forall (fun d => d.1.1.2 = true -> answered (n_exec n) d.1.1.1 d.1.2 d.2) (n_done n);
}.

(** More executions and more calls leave what is known true. *)
Section monotone.
Context (exec exec' : list (Z * Z * list byte)) (Hexec : exec ⊆ exec').

Lemma good_entry_mono r : good_entry exec r -> good_entry exec' r.
Proof.
  intros Hr Hc Hx. destruct (Hr Hc Hx) as (b & ret & body & ? & ? & ? & ?). exists b, ret, body. set_solver.
Qed.
Lemma answered_mono x ret u : answered exec x ret u -> answered exec' x ret u.
Proof. intros (body & ? & ?). exists body. set_solver. Qed.
Lemma good_client_mono cl oc : good_client exec cl oc -> good_client exec' cl oc.
Proof.
  intros [? ? ? Hc ?]. split; [done..| |done]. unfold good_call in *. destruct oc as [p|]; [|done].
  destruct Hc as (? & ? & ca & ? & Hca). split_and!; [done..|]. exists ca. split; [done|].
  destruct (ca_done ca); [|done]. destruct Hca. split; [done|]. by apply answered_mono.
Qed.

Context (N N' : Z) (HN : N <= N').
Lemma good_rep_mono b : good_rep exec N b -> good_rep exec' N' b.
Proof.
  intros (x & ret & body & ? & ? & ? & Hx). exists x, ret, body. split_and!; [done|done|lia|lia|].
  destruct Hx; [left; set_solver|right; lia].
Qed.
End monotone.

Lemma good_req_mono N N' pdu : N <= N' -> good_req N pdu -> good_req N' pdu.
Proof. intros ? (h & body & ? & ? & ? & ? & ? & ?). exists h, body. split_and!; (done || lia). Qed.
Lemma good_job_mono N N' j : N <= N' -> good_job N j -> good_job N' j.
Proof. intros ? Hj Hc. destruct (Hj Hc) as (? & ? & ?). split_and!; (done || lia). Qed.
Lemma good_server_mono exec N N' v : N <= N' -> good_server exec N v -> good_server exec N' v.
Proof.
  intros HN [? ? ? Hj ? Hs ?]. split; [done..| |done| |done].
  - eapply Forall_impl; [exact Hj|]. intros j. by apply good_job_mono.
  - intros x Hx%Hs. lia.
Qed.

Context (Hclt : 0 < clt < 2 ^ 32) (Hnonce : 0 <= nonce < 2 ^ 32) (Hx0 : 1 <= x0).

(** ** The client *)

Lemma client_call exec cl proc req body p cl' :
  good_client exec cl None -> proc <> rpc_bind -> 0 <= proc < 2 ^ 31 -> c_xid cl < 2 ^ 31 - 2 ->
  extends marshall_new body req -> m_ind req <= MAX_PDU -> call1_begin cl proc req = Ok (inr p, cl') ->
  good_client exec cl' (Some p) /\ c_xid cl' = c_xid cl + 1.
Proof.
  intros [[Hc Hn] Hb Hx [Hca Hw] Hd] Hp1 Hp2 Hmax Hex Hm. unfold call1_begin.
  rewrite Hb, (proj2 (Z.eqb_neq _ _) Hp1). destruct (c_destroy_wait cl); [done|].
  cbn [negb andb orb set_xid set_calls c_xid_rep_window c_calls c_clt_nonce c_srv_nonce]. rewrite Hw.
  cbn [head deref]. rewrite bind_Ok, !(wrapS_small 32), (wrapU_small 32) by lia. rewrite Hc, Hn, Hca.
  set (h := mk_req (c_xid cl) proc clt nonce (c_xid cl - 1)).
  destruct (pack_req_framed req h body Hex Hm) as (m & -> & Hf). rewrite bind_Ok. intros [= <- <-].
  assert (good_req (c_xid cl) (m_pdu m)) as Hg.
  { exists h, body. split_and!; [done|split; cbn; lia|done..|cbn; lia|cbn; lia|done]. }
  split; [|done]. split; cbn; [done..|lia| |].
  - unfold good_call. cbn. replace (c_xid cl + 1 - 1) with (c_xid cl) by lia. split_and!; [done..|].
    eexists. split; [done|]. cbn. done.
  - intros Hv. eapply good_req_mono; [|by apply Hd]. lia.
Qed.

Lemma client_send exec cl p pdus cl' :
  good_client exec cl (Some p) -> transmit cl p = (pdus, cl') ->
  good_client exec cl' (Some p) /\ c_xid cl' = c_xid cl /\ Forall (good_req (c_xid cl - 1)) pdus.
Proof.
  intros Hcl. pose proof (gc_call _ _ _ Hcl) as (_ & Hg & _). pose proof (gc_dup _ _ _ Hcl) as Hd. unfold transmit.
  destruct (c_reachable cl); [|intros [= <- <-]; by split_and!].
  destruct (dup_isvalid (c_dup_req cl) && _) eqn:Hv; intros [= <- <-]; split_and!; try done; try by repeat constructor.
  - by destruct Hcl; split.
  - apply andb_true_iff in Hv as [Hv _]. repeat constructor; [by apply Hd|done].
Qed.

Lemma update_old w x : x <= w -> update_xid_rep [w] x = Ok [w].
Proof. intros Hx. unfold update_xid_rep. cbn [head deref]. by rewrite bind_Ok, (proj2 (Z.leb_le _ _)) by done. Qed.

Lemma client_reply exec cl oc b cl' :
  good_client exec cl oc -> good_rep exec (c_xid cl - 1) b -> rpcc_got_pdu cl b = Ok cl' ->
  good_client exec cl' oc /\ c_xid cl' = c_xid cl.
Proof.
  intros [Hn Hb Hx Hca Hd] (x & ret & body & Hf & Hv & Hxr & Hxe). unfold rpcc_got_pdu.
  destruct (unpack_reply_header_spec b _ body Hf Hv) as (u & -> & Hu & Hti). rewrite bind_Ok, (rd_ok _ _ Hu).
  cbn [negb p_xid p_ret]. rewrite (wrapU_small 32) by lia.
  assert (forall w, c_xid_rep_window cl = w -> set_rep_window cl w = cl) as Hsame by (intros w <-; by destruct cl).
  unfold good_call in Hca. destruct oc as [p|].
  2:{ destruct Hca as [Hc Hw]. rewrite Hw, update_old, bind_Ok, (Hsame _ Hw), Hc, lookup_empty by lia.
      intros [= <-]. split; [|done]. by split. }
  destruct Hca as (Hp & Hg & ca & Hc & Hca). set (N := c_xid cl - 1) in *.
  destruct (ca_done ca) eqn:Hdone.
  - destruct Hca as [Hw Ha]. rewrite Hw, update_old, bind_Ok, (Hsame _ Hw), Hc by lia.
    intros E. assert (cl' = cl) as ->; [|split; [|done]; split; try done].
    { destruct (decide (x = N)) as [->|Hne]; [rewrite lookup_singleton_eq, Hdone in E|rewrite lookup_singleton_ne in E by done];
        by injection E. }
    split_and!; [done..|]. exists ca. rewrite Hdone. done.
  - destruct Hxe as [Hxe|Hxe]; [|].
    2:{ rewrite Hca, update_old, bind_Ok, (Hsame _ Hca), Hc, lookup_singleton_ne by lia. intros [= <-].
        split; [|done]. split; try done. split_and!; [done..|]. exists ca. by rewrite Hdone. }
    destruct (decide (x = N)) as [->|Hne].
    + destruct (update_next (N - 1)) as [E1 _]; [lia|]. replace (N - 1 + 1) with N in E1 by lia.
      rewrite Hca, E1, bind_Ok. cbn [set_rep_window c_calls]. rewrite Hc, lookup_singleton_eq, Hdone.
      intros [= <-]. split; [|done]. split; cbn; try done.
      split_and!; [done..|]. eexists. split; [apply insert_singleton_eq|]. cbn. split; [done|]. by exists body.
    + rewrite Hca, update_old, bind_Ok, (Hsame _ Hca), Hc, lookup_singleton_ne by lia. intros [= <-].
      split; [|done]. split; try done. split_and!; [done..|]. exists ca. by rewrite Hdone.
Qed.

Lemma client_return exec cl p ca ret u cl' :
  good_client exec cl (Some p) -> c_calls cl !! s32 (pd_xid p) = Some ca -> call1_end cl p = Ok (ret, u, cl') ->
  good_client exec cl' None /\ c_xid cl' = c_xid cl /\ (ca_done ca = true -> answered exec (pd_xid p) ret u).
Proof.
  intros [Hn Hb Hx (Hp & Hg & ca' & Hc & Hca) Hd].
  assert (x0 <= c_xid cl - 1) as HN by (destruct Hg as (? & ? & _ & _ & _ & _ & ? & _); lia). unfold call1_end. rewrite Hp, (wrapS_small 32) by lia.
  rewrite Hc, lookup_singleton_eq. intros [= ->]. cbn [deref]. rewrite bind_Ok.
  set (N := c_xid cl - 1) in *. cbn [set_calls c_xid_rep_window].
  assert (update_xid_rep (c_xid_rep_window cl) N = Ok [N]) as ->.
  { destruct (ca_done ca); [destruct Hca as [-> _]; apply update_old; lia|]. rewrite Hca.
    destruct (update_next (N - 1)) as [E1 _]; [lia|]. by replace (N - 1 + 1) with N in E1 by lia. }
  rewrite bind_Ok. rewrite delete_singleton_eq. intros [= <- <- <-].
  split_and!; [|by destruct (_ && _)|].
  - destruct (_ && _); split; try (cbn; done). cbn [set_dup set_rep_window set_calls c_dup_req c_xid d_buf].
    destruct (dup_isvalid (c_dup_req cl)) eqn:Hv; intros _; [by apply Hd|exact Hg].
  - intros Hdone. rewrite Hdone in *. apply Hca.
Qed.

(** ** The server *)

Lemma sent_app e1 e2 : sent (e1 ++ e2) = sent e1 ++ sent e2.
Proof. unfold sent. by rewrite omap_app. Qed.

Lemma save_conn_sent (s : rpcs St) c' c : sent (save_conn compare s c' c).2 = [].
Proof. unfold save_conn. destruct (s_conns s !! c') as [d|]; [|done]. by destruct (compare d c <? 0). Qed.

Lemma honest_good N pdu : N < 2 ^ 31 -> good_req N pdu -> honest pdu.
Proof.
  intros HN (h & body & Hf & Hv & _ & _ & Hx & Hr) h' u' E.
  destruct (unpack_req_header_spec _ _ _ Hf Hv) as (u & E' & _). rewrite E' in E. injection E as <- <-.
  rewrite !wrapU_small by lia. lia.
Qed.

(** What the server does with a request of the client. *)
Lemma arrive_cases N (s : rpcs St) c pdu s' effs oj :
  N < 2 ^ 31 -> good_req N pdu -> s_nonce s = nonce -> dispatch_pre compare s c pdu = Ok (s', effs, oj) ->
  exists h f stat, req_valid h /\ q_clt_nonce h = clt /\ x0 <= q_xid h <= N /\ s_procs s !! q_proc h = Some f /\
    checkduplicate_and_update (s_window s) clt (q_xid h) (q_xid h - 1) = (stat, s_window s') /\
    s_nonce s' = s_nonce s /\ s_procs s' = s_procs s /\
    match stat with
    | NEW => (exists u, oj = Some (mk_job c h u f)) /\ sent effs = []
    | INPROGRESS => oj = None /\ sent effs = []
    | DONE b => oj = None /\ sent effs = [default [] b]
    | FORGOTTEN => oj = None /\ exists b, sent effs = [b] /\ framed b (enc_rep (mk_rep (q_xid h) atmostonce_failure)) []
    end.
Proof.
  intros HN (h & body & Hf & Hv & Hc & Hn & Hx & Hr) Hs E.
  destruct (unpack_req_header_spec _ _ _ Hf Hv) as (u & Eu & Hu).
  assert (negb (q_srv_nonce h =? 0) && negb (q_srv_nonce h =? s_nonce s) = false) as Hsrv
    by (rewrite Hn, Hs, Z.eqb_refl; apply andb_false_r).
  destruct (s_procs s !! q_proc h) as [f|] eqn:Hp.
  2:{ unfold dispatch_pre in E. rewrite Eu, bind_Ok, (rd_ok _ _ Hu), Hsrv, Hp in E. done. }
  rewrite (dispatch_pre_passes compare s c pdu h u f) in E; [|split; [done|apply Hu|done..]|lia].
  cbv zeta in E. rewrite Hr, Hc, !(wrapU_small 32) in E by lia.
  destruct (save_conn_same compare s clt c) as [Hn1 Hp1]. pose proof (save_conn_sent s clt c) as He.
  destruct (checkduplicate_and_update (s_window s) clt (q_xid h) (q_xid h - 1)) as [stat w] eqn:Ec. cbn [fst snd] in E.
  exists h, f, stat.
  assert (forall s1 e o, Ok (set_window (save_conn compare s clt c).1 w, e, o) = Ok (s1, effs, oj) ->
    checkduplicate_and_update (s_window s) clt (q_xid h) (q_xid h - 1) = (stat, s_window s1) /\ s_nonce s1 = s_nonce s /\ s_procs s1 = s_procs s /\ e = effs /\ o = oj) as Hok
    by (intros s1 e o [= <- <- <-]; done).
  destruct stat as [| |b|].
  4:{ apply bind_ok in E as (b & Eb & E). apply Hok in E as (Ew & ? & ? & <- & <-). split_and!; try (done || lia).
      exists b. split; [by rewrite sent_app, He|]. unfold error_reply in Eb.
      destruct (pack_reply_framed marshall_new (mk_rep (q_xid h) atmostonce_failure) []) as (m & Em & Hfm);
        [apply extends_nil, marshall_new_wf|done|]. rewrite Em, bind_Ok in Eb. by injection Eb as <-. }
  all: apply Hok in E as (Ew & ? & ? & <- & <-); split_and!; try (done || lia); first [by eexists|by rewrite ?sent_app, He].
Qed.

Lemma find_reply_done x l b : find_reply x l = Some (DONE b) ->
  exists r, r ∈ l /\ r_xid r = x /\ r_cb_present r = true /\ r_buf r = b.
Proof.
  induction l as [|r l IH]; cbn [find_reply]; [done|]. destruct (Z.eqb_spec (r_xid r) x) as [Hx|Hx].
  - destruct (r_cb_present r) eqn:Hc; [|done]. intros [= <-]. exists r. split; [left|done].
  - intros (q & ? & ?)%IH. exists q. split; [by right|done].
Qed.

(** The window of the client after a request. *)
Lemma check_window exec w x rep stat w' :
  Forall (good_entry exec) (default [] (w !! clt)) -> checkduplicate_and_update w clt x rep = (stat, w') ->
  Forall (good_entry exec) (default [] (w' !! clt)) /\
  match stat with
  | DONE b => exists r, r ∈ default [] (w !! clt) /\ r_xid r = x /\ r_cb_present r = true /\ r_buf r = b
  | FORGOTTEN => exists r, r ∈ default [] (w !! clt) /\ x < r_xid r
  | _ => True
  end.
Proof.
  unfold checkduplicate_and_update. set (l := default [] (w !! clt)). intros Hl.
  destruct (find_reply x l) as [st|] eqn:Hf.
  { intros [= <- <-]. rewrite lookup_insert_eq. split; [done|].
    destruct st as [| |b|]; try done; [by apply find_reply_done|]. exfalso. clear -Hf.
    induction l as [|r l IH]; [done|]. cbn in Hf. destruct (r_xid r =? x); [by destruct (r_cb_present r)|auto]. }
  destruct (too_old x l) eqn:Ho; intros [= <- <-]; rewrite lookup_insert_eq; (split; [|try done]).
  - done.
  - destruct l as [|r l']; [done|]. cbn in Ho. exists r. split; [left|lia].
  - apply Forall_drop_old, Forall_insert_reply_r; [|done]. by intros ?.
Qed.

Lemma entry_seen exec N v r : good_server exec N v -> r ∈ default [] (s_window (v_s v) !! clt) -> r_xid r <= N.
Proof.
  intros Hv Hr. apply (gs_seen _ _ _ Hv). destruct (si_win _ (gs_inv _ _ _ Hv) clt) as [_ Hsub _].
  apply Hsub. by apply list_elem_of_fmap_2.
Qed.

Lemma accepted_arrived (v : server (St := St)) s oj : accepted (arrived v s oj) = accepted v ++ (key ∘ j_hdr <$> option_list oj).
Proof. unfold accepted, arrived. cbn. by rewrite fmap_app, app_assoc. Qed.

Lemma server_arrive exec N v c pdu s' effs oj :
  N < 2 ^ 31 -> good_server exec N v -> good_req N pdu -> dispatch_pre compare (v_s v) c pdu = Ok (s', effs, oj) ->
  good_server exec N (arrived v s' oj) /\ Forall (good_rep exec N) (sent effs).
Proof.
  intros HN Hv Hg E. pose proof Hv as [Hinv Hn Hpr Hj Hw Hs He].
  destruct (arrive_cases N (v_s v) c pdu s' effs oj HN Hg Hn E) as (h & f & stat & Hval & Hc & Hx & Hf & Ec & Hn' & Hp' & Hst).
  destruct (check_window exec _ _ _ _ _ Hw Ec) as [Hw' Hstat]. split.
  - assert (Forall (good_job N) (option_list oj) /\ forall x, (clt, x) ∈ (key ∘ j_hdr <$> option_list oj) -> x <= N) as [Hj' Hs'].
    { destruct stat; [|destruct Hst as [-> _]; split; [constructor|by intros ? ?%not_elem_of_nil]..].
      destruct Hst as [[u ->] _]. split.
      - apply Forall_singleton. intros _. split_and!; [by apply (Hpr _ _ Hf)|done|cbn; lia..].
      - intros x Hk%list_elem_of_singleton. injection Hk as _ ->. rewrite wrapU_small; lia. }
    split; cbn [arrived v_s v_jobs v_log].
    + eapply (server_step_inv compare); [exact Hinv|]. eapply step_arrive; [by eapply honest_good|exact E].
    + by rewrite Hn'.
    + by rewrite Hp'.
    + by apply Forall_app.
    + done.
    + intros x. rewrite accepted_arrived, elem_of_app. intros [?|?]; auto.
    + done.
  - destruct stat as [| |b|].
    + by destruct Hst as [_ ->].
    + by destruct Hst as [_ ->].
    + destruct Hst as [_ ->]. apply Forall_singleton. destruct Hstat as (r & Hr & Hrx & Hrc & Hrb).
      eapply Forall_forall in Hw; [|exact Hr]. destruct (Hw Hrc ltac:(lia)) as (b' & ret & body & Hb & Hfr & Hrv & Hex).
      rewrite Hrx in *. rewrite <- Hrb, Hb. exists (q_xid h), ret, body. split_and!; [done|done|lia|lia|by left].
    + destruct Hst as (_ & b & -> & Hfr). apply Forall_singleton. destruct Hstat as (r & Hr & Hlt).
      pose proof (entry_seen exec N v r Hv Hr). exists (q_xid h), atmostonce_failure, [].
      split_and!; [done|split; cbn; unfold atmostonce_failure; lia|lia|lia|right; lia].
Qed.

(** Requests and executions of others do not touch the client's window. *)
Lemma dispatch_pre_same (s : rpcs St) c pdu s' effs oj :
  dispatch_pre compare s c pdu = Ok (s', effs, oj) -> s_nonce s' = s_nonce s /\ s_procs s' = s_procs s.
Proof.
  unfold dispatch_pre. intros ([h u] & _ & E)%bind_ok. destruct (negb (u_ok u)); [by simplify_eq|].
  destruct (negb _ && negb _); [by apply bind_ok in E as (b & _ & E); simplify_eq|].
  destruct (s_procs s !! q_proc h) as [f|]; [|done]. destruct (q_clt_nonce h =? 0); [by simplify_eq|].
  pose proof (save_conn_same compare s (q_clt_nonce h) c) as Hs. destruct (save_conn _ _ _ _) as [s1 effs1]. cbn [fst] in Hs.
  destruct (checkduplicate_and_update _ _ _ _) as [[] w]; [| | |apply bind_ok in E as (b & _ & E)]; by simplify_eq.
Qed.

Lemma check_other w c x rep : c <> clt -> (checkduplicate_and_update w c x rep).2 !! clt = w !! clt.
Proof.
  intros Hc. unfold checkduplicate_and_update. destruct (find_reply _ _); [by cbn; rewrite lookup_insert_ne|].
  destruct (too_old _ _); cbn; by rewrite ?lookup_insert_ne.
Qed.

Lemma foreign_arrival (s : rpcs St) c pdu s' effs oj :
  ~ from_client pdu -> dispatch_pre compare s c pdu = Ok (s', effs, oj) ->
  s_window s' !! clt = s_window s !! clt /\ forall j, oj = Some j -> q_clt_nonce (j_hdr j) <> clt.
Proof.
  intros Hno E. destruct (dispatch_pre_window compare s c pdu s' effs oj E) as [[-> Hz]|(h & u & Eh & Hnz & Hw & Hoj)].
  - split; [done|]. intros j ->. rewrite (Hz j) by done. lia.
  - assert (q_clt_nonce h <> clt) as Hne by (intros ?; apply Hno; by exists h, u).
    rewrite <- Hw, check_other by done. split; [done|]. intros j ->. by destruct Hoj as [-> _].
Qed.

Lemma server_foreign exec N v c pdu s' effs oj :
  good_server exec N v -> ~ from_client pdu -> honest pdu -> dispatch_pre compare (v_s v) c pdu = Ok (s', effs, oj) ->
  good_server exec N (arrived v s' oj).
Proof.
  intros [Hinv Hn Hpr Hj Hw Hs He] Hno Hh E. destruct (dispatch_pre_same _ _ _ _ _ _ E) as [Hn' Hp'].
  destruct (foreign_arrival _ _ _ _ _ _ Hno E) as [Hw' Hoj]. split; cbn [arrived v_s v_jobs v_log].
  - eapply (server_step_inv compare); [exact Hinv|]. by eapply step_arrive.
  - by rewrite Hn'.
  - by rewrite Hp'.
  - apply Forall_app. split; [done|]. destruct oj as [j|]; [|constructor]. apply Forall_singleton.
    intros Hc. by destruct (Hoj j).
  - by rewrite Hw'.
  - intros x. rewrite accepted_arrived, elem_of_app. intros [?|Hx]; [auto|].
    destruct oj as [j|]; [|by apply not_elem_of_nil in Hx]. apply list_elem_of_singleton in Hx. injection Hx as Hx _.
    by destruct (Hoj j eq_refl).
  - done.
Qed.

Lemma latest_conn_sent (s : rpcs St) k c dead c' effs : latest_conn s k c dead = Ok (c', effs) -> sent effs = [].
Proof.
  unfold latest_conn. destruct dead; [|by intros [= _ <-]]. intros (d & _ & E)%bind_ok. by destruct (d =? c); simplify_eq.
Qed.

(** What the execution of a handler sends and leaves. *)
Lemma run_cases (s : rpcs St) j dead st s' effs st' :
  dispatch_run s j dead st = Ok (s', effs, st') ->
  s_nonce s' = s_nonce s /\ s_procs s' = s_procs s /\
  exists ret rep b, j_fn j (j_req j) marshall_new st = Ok (ret, rep, st') /\ 0 <= ret /\
    (m ← pack_reply_header rep (mk_rep (q_xid (j_hdr j)) ret); Ok (m_pdu m)) = Ok b /\ sent effs = [b] /\
    s_window s' = if 0 <? q_clt_nonce (j_hdr j)
      then add_reply (s_window s) (q_clt_nonce (j_hdr j)) (u32 (q_xid (j_hdr j))) b else s_window s.
Proof.
  unfold dispatch_run. set (s0 := if negb _ then _ else _).
  assert (s_window s0 = s_window s /\ s_nonce s0 = s_nonce s /\ s_procs s0 = s_procs s) as (Hw & Hn & Hp)
    by (unfold s0; by destruct (negb _)).
  intros ([[ret rep] st1] & Ef & E)%bind_ok. destruct (ret =? unmarshal_args_failure); [done|].
  apply bind_ok in E as ([] & Hret & E). apply bind_ok in E as (m & Em & E).
  apply bind_ok in E as ([c' e'] & El & E). simplify_eq. apply latest_conn_sent in El.
  assert (0 <= ret) by (unfold verify in Hret; destruct (Z.leb_spec 0 ret); done).
  destruct (0 <? q_clt_nonce (j_hdr j)); cbn; rewrite ?Hw; (split_and!; [done..|]);
    exists ret, rep, (m_pdu m); rewrite Ef, Em, bind_Ok, sent_app, El; done.
Qed.

Lemma accepted_ran (v : server (St := St)) s app js j js' :
  v_jobs v = js ++ j :: js' -> accepted (ran v s app (js ++ js') j) ≡ₚ accepted v.
Proof.
  intros Hj. unfold accepted, ran. cbn [v_log v_jobs]. rewrite Hj, !fmap_app, fmap_cons.
  rewrite <- app_assoc. apply Permutation_app_head. cbn. by rewrite <- Permutation_middle.
Qed.

(** The execution of a call of the client. *)
Lemma server_run exec N v js j js' dead s' effs app' ret rep app1 :
  N < 2 ^ 31 -> good_server exec N v -> v_jobs v = js ++ j :: js' -> q_clt_nonce (j_hdr j) = clt ->
  j_fn j (j_req j) marshall_new (v_app v) = Ok (ret, rep, app1) ->
  dispatch_run (v_s v) j dead (v_app v) = Ok (s', effs, app') ->
  let exec' := exec ++ [(u32 (q_xid (j_hdr j)), ret, written rep)] in
  good_server exec' N (ran v s' app' (js ++ js') j) /\ Forall (good_rep exec' N) (sent effs).
Proof.
  intros HN [Hinv Hn Hpr Hj Hw Hs He] Hjs Hc Ef E. cbv zeta.
  destruct (run_cases _ _ _ _ _ _ _ E) as (Hn' & Hp' & ret' & rep' & b & Ef' & Hret & Eb & Hsent & Hw').
  rewrite Ef in Ef'. injection Ef' as <- <- ->.
  pose proof Hj as Hj0. rewrite Hjs in Hj0. apply Forall_app in Hj0 as [Hj1 [Hj2 Hj3]%Forall_cons].
  destruct (Hj2 Hc) as (Hwf & Hval & Hx). destruct (Hwf _ _ _ _ _ Ef) as (Hret' & Hex & Hm).
  rewrite (wrapU_small 32) in * by lia. set (x := q_xid (j_hdr j)) in *. set (exec' := exec ++ _).
  destruct (pack_reply_framed rep (mk_rep x ret) _ Hex Hm) as (m & Em & Hfr). rewrite Em, bind_Ok in Eb. injection Eb as <-.
  assert (rep_valid (mk_rep x ret)) as Hrv by (split; cbn; lia).
  assert ((x, ret, written rep) ∈ exec') as Hin by (apply elem_of_app; right; by apply list_elem_of_singleton).
  rewrite Hc, (proj2 (Z.ltb_lt 0 clt)) in Hw' by lia. split.
  - split; cbn [ran v_s v_jobs v_log].
    + eapply (server_step_inv compare); [exact Hinv|]. by eapply step_run.
    + by rewrite Hn'.
    + by rewrite Hp'.
    + by apply Forall_app.
    + rewrite Hw'. unfold add_reply. rewrite lookup_insert_eq. cbn [default from_option Datatypes.id].
      apply Forall_fmap. eapply Forall_impl; [exact Hw|]. intros r Hr. unfold compose, set_reply.
      destruct (Z.eqb_spec (r_xid r) x) as [Hrx|Hrx].
      * intros _ _. cbn. rewrite Hrx. by exists (m_pdu m), ret, (written rep).
      * eapply good_entry_mono; [|exact Hr]. set_solver.
    + intros y. rewrite accepted_ran by done. apply Hs.
    + unfold exec'. rewrite fmap_app, filter_app, He. f_equal.
      assert (key (j_hdr j) = (clt, x)) as -> by (unfold key; by rewrite Hc, wrapU_small by lia).
      rewrite filter_cons_True; [done|]. cbn. lia.
  - rewrite Hsent. apply Forall_singleton. exists x, ret, (written rep). split_and!; [done|done|lia|lia|by left].
Qed.

Lemma server_run_foreign exec N v js j js' dead s' effs app' :
  good_server exec N v -> v_jobs v = js ++ j :: js' -> q_clt_nonce (j_hdr j) <> clt ->
  dispatch_run (v_s v) j dead (v_app v) = Ok (s', effs, app') ->
  good_server exec N (ran v s' app' (js ++ js') j).
Proof.
  intros [Hinv Hn Hpr Hj Hw Hs He] Hjs Hc E.
  destruct (run_cases _ _ _ _ _ _ _ E) as (Hn' & Hp' & _ & _ & b & _ & _ & _ & _ & Hw').
  assert (s_window s' !! clt = s_window (v_s v) !! clt) as Hwc.
  { rewrite Hw'. destruct (0 <? _); [|done]. unfold add_reply. by rewrite lookup_insert_ne. }
  rewrite Hjs in Hj. apply Forall_app in Hj as [Hj1 [_ Hj3]%Forall_cons].
  split; cbn [ran v_s v_jobs v_log].
  - eapply (server_step_inv compare); [exact Hinv|]. by eapply step_run.
  - by rewrite Hn'.
  - by rewrite Hp'.
  - by apply Forall_app.
  - by rewrite Hwc.
  - intros y. rewrite accepted_ran by done. apply Hs.
  - rewrite filter_app, He, filter_cons_False; [by rewrite app_nil_r|]. cbn. by intros [? _].
Qed.

(** ** All together *)

Lemma net_step_inv n n' : net_step n n' -> net_inv n -> net_inv n'.
Proof.
  intros Hstep [Hcl Hsv Hrq Hrp Hdn].
  assert (c_xid (n_cl n) - 1 < 2 ^ 31) as HN by (pose proof (gc_xid _ _ _ Hcl); lia).
  destruct Hstep as [cl v reqs reps exec dn proc req body p cl' Hp1 Hp2 Hx Hex Hm E
    |cl v p reqs reps exec dn pdus cl' E
    |cl v oc reqs reps exec dn c pdu s' effs oj Hpdu E
    |cl v oc reqs reps exec dn c pdu s' effs oj Hno Hh E
    |cl v oc reqs reps exec dn js j js' dead s' effs app' ret rep app1 Hjs Hc Ef E
    |cl v oc reqs reps exec dn js j js' dead s' effs app' Hjs Hc E
    |cl v oc reqs reps exec dn b cl' Hb E
    |cl v p reqs reps exec dn ca ret u cl' Hca E]; cbn [n_cl n_srv n_call n_reqs n_reps n_exec n_done] in *.
  - destruct (client_call _ _ _ _ _ _ _ Hcl Hp1 Hp2 Hx Hex Hm E) as [Hcl' Hx'].
    split; cbn [n_cl n_srv n_call n_reqs n_reps n_exec n_done]; rewrite ?Hx'; [done| | | |done].
    + eapply good_server_mono; [|exact Hsv]. lia.
    + eapply Forall_impl; [exact Hrq|]. intros pdu. apply good_req_mono. lia.
    + eapply Forall_impl; [exact Hrp|]. intros b. apply good_rep_mono; [done|lia].
  - destruct (client_send _ _ _ _ _ Hcl E) as (Hcl' & Hx' & Hpdus).
    split; cbn [n_cl n_srv n_call n_reqs n_reps n_exec n_done]; rewrite ?Hx'; try done. by apply Forall_app.
  - eapply Forall_forall in Hpdu; [|exact Hrq]. destruct (server_arrive _ _ _ _ _ _ _ _ HN Hsv Hpdu E) as [Hsv' Hnew].
    split; cbn [n_cl n_srv n_call n_reqs n_reps n_exec n_done]; try done. by apply Forall_app.
  - pose proof (server_foreign _ _ _ _ _ _ _ _ Hsv Hno Hh E). by split.
  - destruct (server_run _ _ _ _ _ _ _ _ _ _ _ _ _ HN Hsv Hjs Hc Ef E) as [Hsv' Hnew].
    set (exec' := exec ++ _) in *. assert (exec ⊆ exec') as Hsub by set_solver.
    split; cbn [n_cl n_srv n_call n_reqs n_reps n_exec n_done]; [by eapply good_client_mono|done|done| |].
    + apply Forall_app. split; [|done]. eapply Forall_impl; [exact Hrp|]. intros b. by apply good_rep_mono.
    + eapply Forall_impl; [exact Hdn|]. intros d Hd Hd'. eapply answered_mono; [exact Hsub|auto].
  - pose proof (server_run_foreign _ _ _ _ _ _ _ _ _ _ Hsv Hjs Hc E). by split.
  - eapply Forall_forall in Hb; [|exact Hrp]. destruct (client_reply _ _ _ _ _ Hcl Hb E) as [Hcl' Hx'].
    split; cbn [n_cl n_srv n_call n_reqs n_reps n_exec n_done]; rewrite ?Hx'; done.
  - destruct (client_return _ _ _ _ _ _ _ Hcl Hca E) as (Hcl' & Hx' & Hans).
    split; cbn [n_cl n_srv n_call n_reqs n_reps n_exec n_done]; rewrite ?Hx'; try done.
    apply Forall_app. split; [done|]. by apply Forall_singleton.
Qed.

(** A client with no call under way, whose calls so far have numbers below [x0],
    bound to a server that none of them still runs at. *)
Record net_ready (cl : rpcc) (v : server (St := St)) : Prop := {
  nr_nonce : c_clt_nonce cl = clt /\ c_srv_nonce cl = nonce /\ s_nonce (v_s v) = nonce;
  nr_bound : c_bind_done cl = true;
  nr_xid : c_xid cl = x0 /\ x0 < 2 ^ 31 - 1;
  nr_idle : c_calls cl = ∅ /\ c_xid_rep_window cl = [x0 - 1] /\ dup_isvalid (c_dup_req cl) = false;
  nr_server : server_inv v;
  nr_procs : map_Forall (fun _ f => well_framed f) (s_procs (v_s v));
  nr_past : forall x, (clt, x) ∈ accepted v -> x < x0;
  nr_jobs : Forall (fun j => q_clt_nonce (j_hdr j) <> clt) (v_jobs v);
}.

Lemma net_ready_inv cl v : net_ready cl v -> net_inv (net_new cl v).
Proof.
  intros [(Hc & Hn & Hs) Hb [Hx Hmax] (Hca & Hw & Hd) Hinv Hpr Hpast Hj].
  split; cbn [net_new n_cl n_srv n_call n_reqs n_reps n_exec n_done]; rewrite ?Hx; try constructor; try done.
  - rewrite Hx. lia.
  - cbn. rewrite Hx. done.
  - by rewrite Hd.
  - eapply Forall_impl; [exact Hj|]. by intros j ? ?.
  - apply Forall_forall. intros r Hr Hp Hxr. destruct (si_win _ Hinv clt) as [_ Hsub _].
    destruct (Hsub (r_xid r)) as [_ Ha%Hpast]; [by apply list_elem_of_fmap_2|lia].
  - intros x Hxa%Hpast. lia.
  - symmetry. apply elem_of_nil_inv. intros [c x] [[Hk1 Hk2] Hk]%list_elem_of_filter. cbn in *. subst c.
    assert (x < x0); [|lia]. apply Hpast. unfold accepted. apply elem_of_app. by left.
Qed.

Lemma exec_nodup n : net_inv n -> NoDup ((fun e => e.1.1) <$> n_exec n).
Proof.
  intros Hn. pose proof (ni_server _ Hn) as Hs. pose proof (si_nodup _ (gs_inv _ _ _ Hs)) as Hnd.
  unfold accepted in Hnd. rewrite filter_app in Hnd. apply NoDup_app in Hnd as (Hnd & _ & _).
  assert (NoDup ((fun e => (clt, e.1.1)) <$> n_exec n)) as Hk.
  { rewrite (gs_exec _ _ _ Hs). eapply NoDup_filter with (P := fun k => k.1 = clt /\ x0 <= k.2) in Hnd.
    rewrite list_filter_filter_l in Hnd; [exact Hnd|]. intros k [-> _]. lia. }
  apply (NoDup_fmap_1 (pair clt)). by rewrite <- list_fmap_compose.
Qed.

(** A call that has returned with an answer was executed once, and that execution
    made the answer. *)
Lemma net_done_once n x ret u : net_inv n -> (x, true, ret, u) ∈ n_done n ->
  exists body, filter (fun e => e.1.1 = x) (n_exec n) = [(x, ret, body)] /\ reads u body.
Proof.
  intros Hn Hd. pose proof (ni_done _ Hn) as Hall. eapply Forall_forall in Hall; [|exact Hd].
  destruct (Hall eq_refl) as (body & Hin & Hr). exists body. split; [|done].
  exact (filter_unique (fun e => e.1.1) _ _ (exec_nodup n Hn) Hin).
Qed.

Lemma net_reachable cl v n : net_ready cl v -> rtc net_step (net_new cl v) n -> net_inv n.
Proof. intros Hr. apply rtc_invariant; [exact net_step_inv|by apply net_ready_inv]. Qed.

End network.

Lemma written_new `{HeapMem} : written marshall_new = [].
Proof. unfold written, m_pdu. cbn [marshall_new m_ind m_buf]. apply drop_ge. rewrite length_take, header_sz. lia. Qed.

(** The handlers that the reg templates make are well framed. *)
Lemma reg_h1_framed `{HeapMem} {St R A1} (cr : codec R) (c1 : codec A1) (vr : R -> Prop) er
    `{!CodecOK cr vr er} (meth : A1 -> R -> St -> result (Z * R * St)) :
  (forall a r st ret r' st', meth a r st = Ok (ret, r', st') -> ret < 2 ^ 31 /\ vr r' /\ fits (er r')) ->
  well_framed (reg_h1 cr c1 meth).
Proof.
  intros Hm u st ret rep st'. unfold reg_h1. intros ([a1 args] & _ & E)%bind_ok. unfold run_meth in E.
  destruct (okdone args); cbn [negb] in E.
  - apply bind_ok in E as ([[b r] st1] & E1 & E). destruct (Hm _ _ _ _ _ _ E1) as (Hret & Hv & Hf).
    destruct (put_ok marshall_new r) as (rep1 & E2 & Hex); [apply marshall_new_wf|done|done|].
    rewrite E2, bind_Ok in E. injection E as <- <- <-. split; [done|].
    assert (written rep1 = er r) as ->.
    { unfold written. rewrite (ex_pdu _ _ _ Hex). apply drop_app_length'.
      unfold m_pdu. cbn [marshall_new m_ind m_buf]. rewrite length_take, length_heap_bytes. done. }
    split; [exact Hex|]. rewrite (ex_ind _ _ _ Hex). exact Hf.
  - simplify_eq. split; [done|]. rewrite written_new. split; [apply extends_nil, marshall_new_wf|done].
Qed.
