(* ===== verification/RpcProps.v ===== *)
(** * RpcProps: the guarantees of the RPC library

    At-most-once execution and the answers to retransmissions, the
    acknowledgements of the client, its retransmission loop, and the wire
    format. *)

From Stdlib Require Import ZArith Lia.
From S2P Require Import Prelude Marshall MarshallFacts WireTypes RpcServer RpcServerFacts RpcClient.
From S2P Require Import RpcClientFacts RpcCancel RpcRetransmit RpcStub RpcLink RpcNetwork Fifo.

(** ** The server *)

(** C4: however requests arrive, are repeated, are reordered and are interleaved
    with running handlers, a server that starts with an empty reply window runs
    the handler at most once for each call number of each client that asked for
    at-most-once execution (and acknowledges, as [rpcc] does, no number above that of the
    call it makes). *)
Theorem at_most_once `{HeapMem} {St} (compare : Z -> Z -> Z) (s : rpcs St) app v :
  s_window s = ∅ -> rtc (server_step compare) (mk_server s app [] []) v ->
  NoDup (filter (fun k => k.1 <> 0) (v_log v)).
Proof.
  intros Hw Hsteps. destruct (server_steps_inv _ _ _ (server_inv_new s app Hw) Hsteps) as [Hnd _].
  unfold accepted in Hnd. rewrite filter_app in Hnd. by apply NoDup_app in Hnd as (? & _ & _).
Qed.

(** A server that counts the calls of its one procedure, number 5, and a request
    for it from client 9. *)
Definition count_handler : handler Z := fun _ rep st => Ok (0, rep, st + 1).
Definition count_server : rpcs Z := mk_rpcs 7 {[5 := count_handler]} ∅ ∅ 0 0 ∅ true.
Definition count_req : list byte := replicate 4 x00 ++ enc_req (mk_req 1 5 9 7 0).

Lemma count_req_honest : honest count_req.
Proof. intros h u E. vm_compute in E. injection E as <- _. by vm_compute. Qed.

Lemma at_most_once_witness :
  exists v, rtc (@server_step zero_heap Z Z.sub) (mk_server count_server 0 [] []) v /\
    v_app v = 1 /\ v_log v = [(9, 1)] /\ NoDup (filter (fun k => k.1 <> 0) (v_log v)).
Proof.
  assert (exists v, rtc (@server_step zero_heap Z Z.sub) (mk_server count_server 0 [] []) v /\
    v_app v = 1 /\ v_log v = [(9, 1)]) as (v & Hs & Ha & Hl).
  { eexists. split; [|split].
    - eapply rtc_l; [eapply (step_arrive _ _ 3 count_req); [exact count_req_honest|vm_compute; reflexivity]|].
      eapply rtc_l; [eapply (step_arrive _ _ 4 count_req); [exact count_req_honest|vm_compute; reflexivity]|].
      eapply rtc_l; [eapply (step_run _ _ [] _ [] false); [reflexivity|vm_compute; reflexivity]|].
      eapply rtc_l; [eapply (step_arrive _ _ 4 count_req); [exact count_req_honest|vm_compute; reflexivity]|].
      apply rtc_refl.
    - reflexivity.
    - reflexivity. }
  exists v. split; [exact Hs|]. split; [exact Ha|]. split; [exact Hl|].
  exact (@at_most_once zero_heap Z Z.sub count_server 0 v eq_refl Hs).
Defined.

(** Effects that send nothing. *)
Lemma sent_none e : (forall c b, Send c b ∉ e) -> sent e = [].
Proof.
  induction e as [|x e IH]; intros He; [done|]. change (x :: e) with ([x] ++ e). rewrite sent_app, IH by (intros c b Hin; apply (He c b); by right).
  destruct x; [done..|]. by destruct (He c pdu); left.
Qed.

(** C19: a request that has been executed is never executed again, and is answered again
    with the very bytes of the first reply as long as no request of the client has
    acknowledged them, whatever else arrives and runs meanwhile; once they are
    acknowledged and dropped, the answer may also be atmostonce_failure. *)
Theorem retransmission_same_reply `{HeapMem} {St} compare (s : rpcs St) app v0 c pdu s1 e1 j v js js' dead s2 e2 app' v3 c' :
  let clt := q_clt_nonce (j_hdr j) in
  let xid := u32 (q_xid (j_hdr j)) in
  let v1 := mk_server s1 (v_app v0) (v_jobs v0 ++ [j]) (v_log v0) in
  let v2 := mk_server s2 app' (js ++ js') (v_log v ++ [key (j_hdr j)]) in
  s_window s = ∅ -> rtc (server_step compare) (mk_server s app [] []) v0 ->
  honest pdu -> dispatch_pre compare (v_s v0) c pdu = Ok (s1, e1, Some j) -> 0 < clt ->
  rtc (server_step compare) v1 v -> v_jobs v = js ++ j :: js' ->
  dispatch_run (v_s v) j dead (v_app v) = Ok (s2, e2, app') -> rtc (server_step compare) v2 v3 ->
  exists b b' s3 e3, sent e2 = [b] /\
    dispatch_pre compare (v_s v3) c' pdu = Ok (s3, e3 ++ [Send c' b'; Decref c'], None) /\ sent e3 = [] /\
    (b' = b \/ error_reply (q_xid (j_hdr j)) atmostonce_failure = Ok b') /\
    (rtc (unacked_step compare clt xid) v1 v -> rtc (unacked_step compare clt xid) v2 v3 -> b' = b).
Proof.
  intros clt xid v1 v2 Hw H0 Hh Hpre Hz H1 Hj Hrun H2.
  pose proof (server_steps_inv _ _ _ (server_inv_new s app Hw) H0) as I0.
  assert (server_step compare v0 v1) as S1 by exact (step_arrive compare v0 c pdu s1 e1 (Some j) Hh Hpre).
  pose proof (server_step_inv _ _ _ I0 S1) as I1. pose proof (server_steps_inv _ _ _ I1 H1) as I.
  assert (server_step compare v v2) as S2 by exact (step_run compare v js j js' dead s2 e2 app' Hj Hrun).
  destruct (dispatch_pre_job _ _ _ _ _ _ _ Hpre ltac:(lia)) as (h & u & f & Hp & Ej & _ & _ & Hc).
  assert (j_hdr j = h) as Ejh by by rewrite Ej.
  destruct (dispatch_run_sends compare _ _ _ _ _ _ _ Hrun Hz) as (b & cn & e & -> & He & Hw2). fold clt xid in Hw2.
  assert (RpcRetransmit.answered v2 clt xid b) as Ha.
  { split; [by eapply server_step_inv|lia|apply elem_of_app; right; left|]. unfold v2. cbn [v_s]. rewrite Hw2. unfold kept, replies, add_reply.
    rewrite lookup_insert_eq. cbn [default from_option Datatypes.id]. rewrite xids_set_reply. apply find_set_reply. }
  pose proof (answered_steps _ _ _ _ _ _ Ha H2) as Ha3.
  assert (passes (v_s v3) pdu h u f) as Hp3.
  { destruct (steps_const _ _ _ (rtc_l _ _ _ _ S1 (transitivity H1 (rtc_l _ _ _ _ S2 H2)))) as [En Ep].
    destruct Hp as [P1 P2 P3 P4]. split; [done..| |]; by rewrite ?En, ?Ep. }
  unfold clt, xid in Ha3. rewrite Ejh in Ha3.
  destruct (answered_again compare v3 c' pdu h u f b Ha3 Hp3) as (b' & s3 & e3 & E3 & He3 & Hb & Hrem).
  exists b, b', s3, e3. split; [by rewrite sent_app, (sent_none e He)|]. split; [done|]. split; [by apply sent_none|].
  rewrite Ejh. split; [done|]. intros U1 U2. apply Hrem. rewrite <- Ejh.
  apply (remembered_steps compare v2 v3 clt xid b Ha); [|done]. unfold v2. cbn [v_s]. rewrite Hw2. unfold replies, add_reply.
  rewrite lookup_insert_eq. cbn [default from_option Datatypes.id]. rewrite xids_set_reply.
  apply (accepted_steps compare v1 v clt xid I1); [lia| | |done].
  - unfold accepted. cbn [v_log v_jobs v1]. rewrite fmap_app. do 2 (apply elem_of_app; right). left.
  - unfold v1, replies, clt, xid. cbn [v_s]. rewrite Ejh.
    exact (check_new_member _ _ _ _ _ _ (si_win _ I0) (Hh _ _ (ps_hdr _ _ _ _ _ Hp)) Hc).
Qed.

Lemma count_unacked : unacked 9 1 count_req.
Proof. intros h u E _. vm_compute in E. injection E as <- _. by vm_compute. Qed.

(** The request arrives a second time while its handler runs, and a third time later. *)
Lemma retransmission_same_reply_witness :
  exists s1 e1 j s2 e2 s3 e3,
    @dispatch_pre zero_heap Z Z.sub count_server 3 count_req = Ok (s1, e1, Some j) /\
    @dispatch_run zero_heap Z s1 j false 0 = Ok (s2, e2, 1) /\
    @dispatch_pre zero_heap Z Z.sub s2 4 count_req = Ok (s3, e3, None) /\
    sent e2 = sent e3 /\ length (sent e3) = 1%nat.
Proof.
  assert (exists s1 e1 j, @dispatch_pre zero_heap Z Z.sub count_server 3 count_req = Ok (s1, e1, Some j) /\
    q_clt_nonce (j_hdr j) = 9 /\ exists s2 e2, @dispatch_run zero_heap Z s1 j false 0 = Ok (s2, e2, 1))
    as (s1 & e1 & j & E1 & H9 & s2 & e2 & E2).
  { eexists _, _, _. split; [vm_compute; reflexivity|]. split; [reflexivity|].
    eexists _, _. vm_compute. reflexivity. }
  destruct (@retransmission_same_reply zero_heap Z Z.sub count_server 0 (mk_server count_server 0 [] []) 3 count_req
    s1 e1 j (mk_server s1 0 [j] []) [] [] false s2 e2 1 (mk_server s2 1 [] [key (j_hdr j)]) 4)
    as (b & b' & s3 & e3 & Hb & E3 & He3 & _ & Hsame).
  - reflexivity.
  - apply rtc_refl.
  - exact count_req_honest.
  - exact E1.
  - rewrite H9. reflexivity.
  - apply rtc_refl.
  - reflexivity.
  - exact E2.
  - apply rtc_refl.
  - specialize (Hsame (rtc_refl _ _) (rtc_refl _ _)). subst b'.
    assert (sent (e3 ++ [Send 4 b; Decref 4]) = [b]) as Hs by (rewrite sent_app, He3; reflexivity).
    exists s1, e1, j, s2, e2, s3, (e3 ++ [Send 4 b; Decref 4]). rewrite Hs, Hb.
    exact (conj E1 (conj E2 (conj E3 (conj eq_refl eq_refl)))).
Defined.

(** ** The client *)

(** C21: the number with which a client acknowledges replies, so that the server may forget
    them, is the largest one up to which every call is over: its reply has come, or its
    caller has left [call1], with an answer or, after a timeout, without one. *)
Theorem client_acks_finished `{HeapMem} retrans nonce lossy es rets cl :
  client_run (rpcc_new retrans nonce lossy) es = Ok (rets, cl) ->
  Forall (fun x => 0 <= x < 2 ^ 32 - 1) (es ≫= over) ->
  exists front, head (c_xid_rep_window cl) = Some front /\
    (forall k, 1 <= k <= front -> k ∈ es ≫= over) /\ front + 1 ∉ es ≫= over /\
    forall proc req p cl', call1_begin cl proc req = Ok (inr p, cl') -> pd_xid_rep p = s32 front.
Proof.
  intros E Hxs. destruct (client_run_acks es _ _ _ E) as (Hne & Hw & Ha); [done| |done|].
  { split; [repeat constructor|repeat constructor; cbn; lia|]. intros f [= <-] Hin%list_elem_of_singleton. lia. }
  destruct (c_xid_rep_window cl) as [|f w] eqn:Ew; [done|]. exists f. split_and!; [done|..].
  - intros k Hk. pose proof (Ha k) as [Hak _]. rewrite !acked_cons in Hak. destruct Hak as [[?|?]|?]; [lia|lia|set_solver|done].
  - intros Hin. pose proof (Ha (f + 1)) as [_ Hak]. rewrite !acked_cons in Hak.
    pose proof (rw_front _ Hw f eq_refl) as Hn. apply not_elem_of_cons in Hn as [_ Hn].
    destruct Hak as [?|?]; [by right|lia|done].
  - intros proc req p cl'. unfold call1_begin. destruct (_ || _); [done|]. destruct (c_destroy_wait cl); [done|].
    cbn [set_calls set_xid c_xid_rep_window]. rewrite Ew. cbn [head deref]. rewrite bind_Ok.
    intros (req' & _ & [= <- _])%bind_ok. done.
Qed.

(** The first call, the one that binds, gives up without a reply; then its reply comes. *)
Definition late_reply : list client_event :=
  [EvCall rpc_bind (@marshall_new zero_heap); EvLeave (mk_pending 1 0 (@marshall_new zero_heap));
   EvReply (replicate 4 x00 ++ enc_rep (mk_rep 1 0))].

Lemma client_acks_finished_witness :
  exists cl, @client_run zero_heap (rpcc_new true 9 0) late_reply = Ok ([timeout_failure], cl) /\
    exists front, head (c_xid_rep_window cl) = Some front /\
      (forall k, 1 <= k <= front -> k ∈ late_reply ≫= over) /\ front + 1 ∉ late_reply ≫= over.
Proof.
  assert (exists cl, @client_run zero_heap (rpcc_new true 9 0) late_reply = Ok ([timeout_failure], cl)) as [cl E]
    by (eexists; vm_compute; reflexivity).
  exists cl. split; [exact E|].
  destruct (@client_acks_finished zero_heap true 9 0 late_reply _ cl E) as (front & H1 & H2 & H3 & _).
  - change (late_reply ≫= over) with [1; 1]. repeat (apply Forall_cons; split; [lia|]). by apply Forall_nil.
  - exists front. exact (conj H1 (conj H2 H3)).
Defined.

(** C22: a call with a timeout of at most two minutes, the longest there is, comes back
    after at most eight rounds of waiting.  It has sent its request at most nine times; at
    least once if it had a channel and the client was reachable at first, and never
    without a channel or while the client was not reachable; a client that does not
    retransmit has sent it once or, when it could not at first, not at all. *)
Theorem call1_wait_ends r env retrans start to :
  0 <= to <= to_max -> 0 <= tv_nsec start -> (8 <= length env)%nat -> Forall (round_ok start) (r :: env) ->
  exists k d, call1_wait (r :: env) retrans start to = Ok (Some (k, d)) /\ (k <= 9)%nat /\
    (rd_conn r && rd_reachable r = true -> (1 <= k)%nat) /\
    (Forall (fun r => rd_conn r = false) (r :: env) \/ Forall (fun r => rd_reachable r = false) (r :: env) -> k = 0%nat) /\
    (retrans = false -> k = if rd_conn r && rd_reachable r then 1%nat else 0%nat).
Proof.
  intros Hto Hs Hlen Henv. unfold to_max in Hto. unfold call1_wait.
  destruct (add_timespec_spec start to Hs) as (final & -> & Hw & Hf); [lia|]. rewrite bind_Ok.
  destruct (call1_loop_ends start to 7 r env retrans true false 0 to_min final) as (k & d & -> & Hk & Hk1 & Hk2 & Hk3);
    [unfold to_min; lia|unfold to_min; change (Z.of_nat 7) with 7; lia..|lia|done|done|done|].
  change (sends true false r) with (rd_conn r && rd_reachable r) in *. cbn [orb] in Hk3.
  exists k, d. split; [done|]. split; [destruct (_ && _); lia|]. split_and!.
  - intros E. rewrite E in Hk. lia.
  - intros [[Hr He]%Forall_cons|[Hr He]%Forall_cons].
    + rewrite Hk3 by done. by rewrite Hr.
    + rewrite Hk2 by done. rewrite Hr. by destruct (rd_conn r).
  - done.
Qed.

Definition slow_rounds : list round :=
  (fun t => mk_round true true (mk_ts t 0) false true) <$> [10; 11; 13; 17; 25; 41; 73; 137; 138].

Lemma call1_wait_ends_witness :
  exists k d, call1_wait slow_rounds true (mk_ts 10 0) to_max = Ok (Some (k, d)) /\ (1 <= k <= 9)%nat.
Proof.
  destruct (call1_wait_ends (mk_round true true (mk_ts 10 0) false true) (tail slow_rounds) true (mk_ts 10 0) to_max)
    as (k & d & E & Hk & H1 & _).
  - unfold to_max. lia.
  - cbn. lia.
  - cbn. lia.
  - repeat (apply Forall_cons; split; [unfold round_ok, ts_total; cbn; lia|]). by apply Forall_nil.
  - exists k, d. split; [exact E|]. split; [exact (H1 eq_refl)|exact Hk].
Defined.

(** A deadline is the start time plus the timeout, to the nanosecond, with the
    nanoseconds at most one second. *)
Theorem add_timespec_adds a b : 0 <= tv_nsec a -> 0 <= b ->
  exists t, add_timespec a b = Ok (Some t) /\ 0 <= tv_nsec t <= 1000000000 /\
    tv_sec t * 1000000000 + tv_nsec t = tv_sec a * 1000000000 + tv_nsec a + b * 1000000.
Proof. apply add_timespec_spec. Qed.

Lemma add_timespec_adds_witness :
  exists t, add_timespec (mk_ts 3 999000000) 1501 = Ok (Some t) /\ 0 <= tv_nsec t <= 1000000000 /\
    tv_sec t * 1000000000 + tv_nsec t = 3 * 1000000000 + 999000000 + 1501 * 1000000.
Proof. apply (add_timespec_adds (mk_ts 3 999000000) 1501); cbn; lia. Defined.

(** ** The wire format *)

(** What a codec writes into a message, it reads back from its content. *)
Lemma codec_roundtrip `{HeapMem} {A} (c : codec A) valid enc `{!CodecOK c valid enc} x :
  valid x -> fits (enc x) ->
  exists m u, c_put c marshall_new x = Ok m /\
    c_get c (take_content (get_content m)) (c_init c) = Ok (x, u) /\ okdone u = true.
Proof.
  intros Hv Hf. destruct (put_ok marshall_new x) as (m & Em & Hex); [apply marshall_new_wf|done|done|].
  pose proof (take_content_reads _ Hf) as Hr. rewrite <- (app_nil_r (enc x)) in Hr at 2.
  rewrite <- (get_content_spec _ _ Hex) in Hr at 1. destruct (get_reads c valid enc _ x [] Hv Hr) as [Eg Hr'].
  eexists m, _. split; [done|]. split; [exact Eg|]. by apply reads_okdone.
Qed.

(** The operators of a vector of strings, and of a map from 64-bit numbers to
    strings, with the bytes they stand for. *)
Definition strings_c `{HeapMem} : codec (list (list byte)) := vector_c string_c.
Definition enc_strings (v : list (list byte)) : list byte := be4 (Z.of_nat (length v)) ++ enc_items enc_string v.
Definition dict_c `{HeapMem} : codec (list (Z * list byte)) := map_c Z.ltb ull_c string_c.
Definition enc_dict (d : list (Z * list byte)) : list byte :=
  be4 (Z.of_nat (length d)) ++ enc_items (fun x => be8 x.1 ++ enc_string x.2) d.

(** C38: a vector of strings and a map from 64-bit numbers to strings, written with
    the operators of the library and sent as the content of a message, are read
    back unchanged, to the last byte, and the message is then used up; what the map
    read into held before is gone. *)
Theorem containers_roundtrip `{HeapMem} (v : list (list byte)) (d d0 : list (Z * list byte)) :
  Z.of_nat (length v) < 2 ^ 32 -> Forall (fun s => Z.of_nat (length s) <= MAX_PDU) v -> fits (enc_strings v) ->
  Z.of_nat (length d) < 2 ^ 32 -> Forall (fun x => 0 <= x.1 < 2 ^ 64 /\ Z.of_nat (length x.2) <= MAX_PDU) d ->
  keys_sorted Z.ltb d -> fits (enc_dict d) ->
  (exists m u, c_put strings_c marshall_new v = Ok m /\
    c_get strings_c (take_content (get_content m)) [] = Ok (v, u) /\ okdone u = true) /\
  (exists m u, c_put dict_c marshall_new d = Ok m /\
    c_get dict_c (take_content (get_content m)) d0 = Ok (d, u) /\ okdone u = true).
Proof.
  intros Hn Hv Hf Hn' Hv' Hs' Hf'. split.
  - exact (@codec_roundtrip _ _ _ _ _ (vector_ok string_c _ _) v (conj Hn Hv) Hf).
  - assert (forall x y, (x <? y) = true -> (y <? x) = false) as Hlt by lia.
    pose proof (@map_ok _ _ _ Z.ltb ull_c string_c _ _ _ _ ull_ok string_ok Hlt) as Hc.
    exact (@codec_roundtrip _ _ _ _ _ Hc d (conj (conj Hn' Hv') Hs') Hf').
Qed.

Lemma containers_roundtrip_witness :
  exists m u, c_put (@dict_c zero_heap) (@marshall_new zero_heap) [(7, []); (2 ^ 40, [x61; x62])] = Ok m /\
    c_get (@dict_c zero_heap) (@take_content zero_heap (get_content m)) [(3, [])] =
      Ok ([(7, []); (2 ^ 40, [x61; x62])], u) /\ okdone u = true.
Proof.
  apply (@containers_roundtrip zero_heap [[x61]] [(7, []); (2 ^ 40, [x61; x62])] [(3, [])]);
    [done| |by vm_compute|done| | |by vm_compute].
  - by apply Forall_cons; split; [vm_compute|apply Forall_nil].
  - repeat (apply Forall_cons; split; [split; [split|]; by vm_compute|]). by apply Forall_nil.
  - repeat constructor.
Defined.

(** A request header packed into a message comes out of the message at the
    server with every field as it went in, and leaves the reader at the arguments;
    so does a reply header at the client. *)
Theorem headers_roundtrip `{HeapMem} m body h r :
  extends marshall_new body m -> m_ind m <= MAX_PDU -> req_valid h -> rep_valid r ->
  (exists m' u, pack_req_header m h = Ok m' /\
    unpack_req_header (unmarshall_buf (m_pdu m')) = Ok (h, u) /\ reads u body) /\
  (exists m' u, pack_reply_header m r = Ok m' /\
    unpack_reply_header (unmarshall_buf (m_pdu m')) = Ok (r, u) /\ reads (take_in u) body).
Proof.
  intros Hex Hm Hh Hr. split.
  - destruct (pack_req_framed m h body Hex Hm) as (m' & E & Hf).
    destruct (unpack_req_header_spec _ _ _ Hf Hh) as (u & Eu & Hu). eauto.
  - destruct (pack_reply_framed m r body Hex Hm) as (m' & E & Hf).
    destruct (unpack_reply_header_spec _ _ _ Hf Hr) as (u & Eu & _ & Hu). eauto.
Qed.

Lemma headers_roundtrip_witness :
  exists m u, @pack_req_header zero_heap (@marshall_new zero_heap) (mk_req 5 24577 (2 ^ 32 - 1) 0 (-1)) = Ok m /\
    unpack_req_header (unmarshall_buf (m_pdu m)) = Ok (mk_req 5 24577 (2 ^ 32 - 1) 0 (-1), u).
Proof.
  destruct (@headers_roundtrip zero_heap (@marshall_new zero_heap) [] (mk_req 5 24577 (2 ^ 32 - 1) 0 (-1)) (mk_rep 5 0))
    as [(m & u & E & Eu & _) _].
  - apply extends_nil, marshall_new_wf.
  - by vm_compute.
  - by split.
  - by split.
  - exists m, u. split; [exact E|exact Eu].
Defined.

(** A string whose length field is close to 2^32 passes the bound check of
    [unmarshall::rawbytes], which adds it to the position in 32 bits, and the read
    behind the check leaves the buffer. *)
Theorem huge_string_overreads u s n rest :
  reads u (be4 n ++ rest) -> 2 ^ 32 - (u_ind u + 4) <= n < 2 ^ 32 -> get_string u s = Undef.
Proof.
  intros Hr Hn. pose proof (reads_length _ _ Hr) as Hl. rewrite length_app in Hl. cbn [length be4] in Hl.
  pose proof (rd_max _ _ Hr) as Hm. pose proof (rd_ind _ _ Hr) as Hi. pose proof (rd_sz _ _ Hr) as Hs.
  unfold INT_MAX in Hm. apply get_uint_spec in Hr as [E Hr]. unfold get_string. rewrite E. run_ok.
  rewrite (rd_ok _ _ Hr). unfold un_rawbytes, advance, set_uind. cbn [u_sz u_ind u_buf].
  rewrite (wrapU_small 32 n), (wrapU_small 32 (u_sz u)) by lia.
  assert (u32 (u_ind u + Z.of_nat 4 + n) = u_ind u + 4 + n - 2 ^ 32) as ->.
  { unfold wrapU. symmetry. apply (Z.mod_unique _ _ 1); lia. }
  rewrite (proj2 (Z.ltb_ge _ _)) by lia.
  rewrite (proj2 (Z.leb_gt _ (Z.of_nat (length (u_buf u))))) by lia. by rewrite andb_false_r.
Qed.

Lemma huge_string_overreads_witness :
  get_string (@take_content zero_heap (be4 (2 ^ 32 - 28))) [] = Undef.
Proof.
  apply (huge_string_overreads _ _ (2 ^ 32 - 28) []).
  - rewrite app_nil_r. by apply take_content_reads.
  - by split.
Defined.

(** ** Calls with several arguments *)

Section seven.
Context `{HeapMem} {St : Type}.

#[local] Notation args_c :=
  (pair_c uint_c (pair_c ull_c (pair_c string_c (pair_c bool_c (pair_c short_c (pair_c int_c string_c)))))).

Definition meth7 : Type :=
  Z -> Z -> list byte -> bool -> Z -> Z -> list byte -> Z -> St -> result (Z * Z * St).
(** A handler of arguments of every basic type, with an [int] for its reply. *)
Definition reg_meth7 (meth : meth7) : handler St :=
  reg_h7 int_c uint_c ull_c string_c bool_c short_c int_c string_c meth.

(** A call with seven arguments over a working connection runs the registered
    method on exactly these arguments and returns its result, its output argument
    and its effect on the server's state. *)
Theorem call7_runs_method compare conn (l : link St) proc (meth : meth7)
    a1 a2 a3 a4 a5 a6 a7 r0 ret r app' :
  link_ok l -> c_xid (k_cl l) < 2 ^ 31 - 2 -> proc <> rpc_bind -> 0 <= proc < 2 ^ 31 ->
  s_procs (k_srv l) !! proc = Some (reg_meth7 meth) ->
  0 <= a1 < 2 ^ 32 -> 0 <= a2 < 2 ^ 64 -> - 2 ^ 15 <= a5 < 2 ^ 15 -> - 2 ^ 31 <= a6 < 2 ^ 31 ->
  Z.of_nat (length a3) + Z.of_nat (length a7) <= 2 ^ 29 ->
  meth a1 a2 a3 a4 a5 a6 a7 stack_int (k_app l) = Ok (ret, r, app') -> 0 <= ret < 2 ^ 31 ->
  - 2 ^ 31 <= r < 2 ^ 31 ->
  exists l', rcall7 (direct_call compare conn) int_c uint_c ull_c string_c bool_c short_c int_c string_c
      proc a1 a2 a3 a4 a5 a6 a7 r0 l = Ok (ret, r, l') /\ k_app l' = app' /\ link_ok l'.
Proof.
  intros Hl Hx Hp1 Hp2 Hproc H1 H2 H5 H6 Hlen Hmeth Hret Hr. rewrite rcall7_tuple. unfold args7_c.
  assert (Z.of_nat (length a3) <= MAX_PDU /\ Z.of_nat (length a7) <= MAX_PDU) as [H3 H7]
    by (unfold MAX_PDU; lia).
  pose proof (_ : CodecOK args_c _ _) as Hc. set (a := (a1, (a2, (a3, (a4, (a5, (a6, a7))))))) in *.
  destruct (rcall1_handles compare conn int_c args_c (CodecOK1 := Hc) l proc (reg_meth7 meth) a r0 ret r app')
    as (l' & E & Hl' & Ha & _); [done|done|done|done|done|by cbn| | |done|done|].
  - unfold fits, MAX_PDU, be8, enc_string. rewrite !length_app. cbn [length be4 be2 a fst snd]. lia.
  - intros u Hu. unfold reg_meth7. rewrite reg_h7_tuple. revert u Hu.
    by apply (reg_h1_handles int_c args_c (CodecOK1 := Hc)).
  - by exists l'.
Qed.

End seven.

(** A client bound to a server with one procedure. *)
Definition demo_link (h : handler Z) : link Z :=
  mk_link (bind_done (rpcc_new true 9 0) 0 7) (mk_rpcs 7 {[5 := h]} ∅ ∅ 0 0 ∅ true) 0.

Definition sum_method : @meth7 Z := fun a1 a2 s b a5 a6 t r st =>
  Ok (0, a1 + a5 + a6 + Z.of_nat (length s) + Z.of_nat (length t), st + a2).

Lemma call7_runs_method_witness :
  exists l', @rcall7 zero_heap _ (@direct_call zero_heap Z Z.sub 3) _ _ _ _ _ _ _ _
      (@int_c zero_heap) (@uint_c zero_heap) (@ull_c zero_heap) (@string_c zero_heap) (@bool_c zero_heap)
      (@short_c zero_heap) (@int_c zero_heap) (@string_c zero_heap)
      5 1 (2 ^ 40) [x61] true (-3) 40 [] 0 (demo_link (@reg_meth7 zero_heap Z sum_method)) = Ok (0, 39, l') /\
    k_app l' = 2 ^ 40 /\ link_ok l'.
Proof.
  apply (@call7_runs_method zero_heap Z Z.sub 3 _ 5 sum_method); try done.
Defined.

(** ** The queue of jobs *)

(** C25: whatever threads queue and take jobs, blocking or not, and whenever they
    are woken, jobs come out in the order they went in, none lost and none twice;
    a bounded queue keeps to its bound; and when no thread that was woken is still
    to run, a thread sleeps in [deq] only if the queue is empty and in [enq] only
    if it is full. *)
Theorem fifo_keeps_order {T} limit (y : threads T) :
  rtc fifo_step (threads_new limit) y ->
  pushed y = popped y ++ q_ (fq y) /\
  (u32 limit <> 0 -> qlen (fq y) <= u32 limit) /\
  (deq_woken y = 0%nat -> deq_asleep y <> 0%nat -> fifo_size (fq y) = false) /\
  (enq_woken y = [] -> enq_asleep y <> [] -> qlen (fq y) = u32 limit).
Proof.
  intros [Hm Ho Hb Hd He]%fifo_reachable_inv. rewrite Hm in *. split_and!; [done|lia| |].
  - intros Hw Ha. rewrite Hw in Hd. destruct Hd as [?|Hd]; [done|]. unfold qlen in Hd. unfold fifo_size.
    destruct (q_ (fq y)); [done|cbn in Hd; lia].
  - intros Hw Ha. rewrite Hw in He. destruct He as [?|[? He]]; [done|]. cbn in He. lia.
Qed.

(** Two jobs for a queue with space for one: the second [enq] sleeps until the
    first job is taken. *)
Lemma fifo_keeps_order_witness : exists y : threads Z,
  rtc fifo_step (threads_new 1) y /\ pushed y = [5] ++ [] /\ popped y = [5] /\ enq_woken y = [6] /\
  qlen (fq y) <= u32 1.
Proof.
  assert (rtc fifo_step (threads_new 1) (mk_threads (mk_fifo (T := Z) [] 1) [] [6] 0 0 [5] [5])) as H.
  { eapply rtc_l; [exact (enq_call _ 5 true)|]. eapply rtc_l; [exact (enq_call _ 6 true)|].
    eapply rtc_l; [|apply rtc_refl]. apply deq_call. eapply deq_takes; [reflexivity|].
    exact (signal_one (mk_fifo [] 1) [] 6 [] [] 0 0 [5] [5]). }
  exists (mk_threads (mk_fifo [] 1) [] [6] 0 0 [5] [5]). split; [exact H|].
  destruct (fifo_keeps_order 1 _ H) as (_ & Hq & _). split; [reflexivity|]. split; [reflexivity|].
  split; [reflexivity|]. apply Hq. discriminate.
Defined.

(** C23: when a client with calls under way is cancelled, every one of them fails with
    cancel_failure, whatever replies still arrive and in whatever order the callers
    leave; a new call is refused with the same status, and when the last caller has
    left the client can be destroyed.  Cancelling a client with no call under way
    changes nothing, so that its next call goes ahead as before. *)
Theorem cancel_drains_calls `{HeapMem} cl es chan :
  c_bind_done cl = true -> c_xid_rep_window cl <> [] ->
  NoDup (omap leaves es) -> (forall x, x ∈ omap leaves es -> x ∈ dom (c_calls cl)) -> Forall ordinary es ->
  (c_calls cl <> ∅ -> exists rets cl', client_run (cancel cl) es = Ok (rets, cl') /\
    rets = replicate (length (filter answers es)) cancel_failure /\
    dom (c_calls cl') = dom (c_calls cl) ∖ list_to_set (omap leaves es) /\
    (dom (c_calls cl) ⊆ list_to_set (omap leaves es) ->
      rpcc_destroy cl' chan = Ok (match chan with Some c => [Decref c] | None => [] end))) /\
  (c_calls cl = ∅ -> cancel cl = cl).
Proof.
  intros Hb Hw Hn Hx Ho. split; [|apply cancel_idle]. intros Hc.
  destruct (cancelled_run es _ _ (cancel_cancelled cl Hb Hc Hw) Hn Hx Ho) as (cl' & E & [_ _ _ Hd _]).
  eexists _, cl'. split; [exact E|]. split; [done|]. split; [exact Hd|]. intros Hall.
  unfold rpcc_destroy. rewrite bool_decide_true; [done|]. apply dom_empty_iff_L. rewrite Hd. set_solver.
Qed.

(** One call is cancelled; its reply arrives late, another call is tried, and it leaves. *)
Lemma cancel_drains_calls_witness :
  exists cl rets cl', client_run (H := zero_heap) (cancel cl)
      [EvReply (replicate 24 x00); EvCall 7 (@marshall_new zero_heap); EvLeave (mk_pending 0 0 (@marshall_new zero_heap))] =
      Ok (rets, cl') /\ rets = [cancel_failure; cancel_failure] /\ rpcc_destroy cl' (Some 3) = Ok [Decref 3].
Proof.
  set (cl := set_calls (set_bound (rpcc_new true 9 0) 5) {[0 := mk_caller unmarshall_empty 0 false]}).
  destruct (@cancel_drains_calls zero_heap cl
    [EvReply (replicate 24 x00); EvCall 7 (@marshall_new zero_heap); EvLeave (mk_pending 0 0 (@marshall_new zero_heap))] (Some 3))
    as [Hcalls _].
  - reflexivity.
  - discriminate.
  - apply NoDup_singleton.
  - intros x ->%list_elem_of_singleton. apply elem_of_dom. by eexists.
  - repeat constructor; discriminate.
  - destruct Hcalls as (rets & cl' & E & -> & _ & Hd); [intros Hc%(f_equal (fun m => m !! 0)); discriminate Hc|].
    eexists cl, _, cl'. split; [exact E|]. split; [reflexivity|]. apply Hd.
    cbn [cl set_calls c_calls]. rewrite dom_singleton_L. set_solver.
Defined.

(** ** Both ends over a bad network *)

(** C3: a client makes its calls one after the other over a network that may lose,
    repeat and reorder requests and replies, while other clients use the server.
    Every call that returns with an answer has been executed exactly once, and it
    returns the status and the reply of that execution. *)
Theorem lossy_calls_once `{HeapMem} {St} compare clt nonce x0 cl (v : server (St := St)) n x ret u :
  0 < clt < 2 ^ 32 -> 0 <= nonce < 2 ^ 32 -> 1 <= x0 -> net_ready clt nonce x0 cl v ->
  rtc (net_step compare clt) (net_new cl v) n -> (x, true, ret, u) ∈ n_done n ->
  exists body, filter (fun e => e.1.1 = x) (n_exec n) = [(x, ret, body)] /\ reads u body.
Proof.
  intros Hclt Hnonce Hx0 Hr Hs. apply (net_done_once clt nonce x0 Hclt).
  by apply (net_reachable compare clt nonce x0 Hclt Hnonce Hx0 cl v).
Qed.

Definition count_client : rpcc := set_bound (rpcc_new true 9 0) 7.

(** The request arrives twice before it is executed and once after, and both replies
    get through. *)
Lemma lossy_calls_once_witness :
  exists n u body, rtc (@net_step zero_heap Z Z.sub 9) (net_new count_client (mk_server count_server 0 [] [])) n /\
    v_app (n_srv n) = 1 /\ (1, true, 0, u) ∈ n_done n /\
    filter (fun e => e.1.1 = 1) (n_exec n) = [(1, 0, body)] /\ reads u body.
Proof.
  assert (exists n u, rtc (@net_step zero_heap Z Z.sub 9) (net_new count_client (mk_server count_server 0 [] [])) n /\
    v_app (n_srv n) = 1 /\ n_done n = [(1, true, 0, u)]) as (n & u & Hs & Ha & Hd).
  { eexists _, _. split; [|split].
    - eapply rtc_l; [eapply (net_call Z.sub 9 _ _ _ _ _ _ 5 (@marshall_new zero_heap) []);
        [discriminate|lia|reflexivity|apply extends_nil, marshall_new_wf|discriminate|vm_compute; reflexivity]|].
      eapply rtc_l; [eapply net_send; vm_compute; reflexivity|].
      eapply rtc_l; [eapply (net_arrive Z.sub 9 _ _ _ _ _ _ _ 3); [left|vm_compute; reflexivity]|].
      eapply rtc_l; [eapply (net_arrive Z.sub 9 _ _ _ _ _ _ _ 4); [left|vm_compute; reflexivity]|].
      eapply rtc_l; [eapply (net_run Z.sub 9 _ _ _ _ _ _ _ [] _ [] false); [reflexivity|reflexivity|vm_compute; reflexivity..]|].
      eapply rtc_l; [eapply (net_arrive Z.sub 9 _ _ _ _ _ _ _ 4); [left|vm_compute; reflexivity]|].
      eapply rtc_l; [eapply net_reply; [left|vm_compute; reflexivity]|].
      eapply rtc_l; [eapply net_reply; [right; left|vm_compute; reflexivity]|].
      eapply rtc_l; [eapply net_return; [vm_compute; reflexivity|vm_compute; reflexivity]|].
      apply rtc_refl.
    - reflexivity.
    - reflexivity. }
  assert (net_ready (H := zero_heap) 9 7 1 count_client (mk_server count_server 0 [] [])) as Hr.
  { split; try done.
    - by apply server_inv_new.
    - apply map_Forall_singleton. intros u0 st ret rep st' [= <- <- <-]. rewrite written_new.
      split; [done|]. split; [apply extends_nil, marshall_new_wf|done].
    - by intros x Hx%not_elem_of_nil. }
  destruct (@lossy_calls_once zero_heap Z Z.sub 9 7 1 count_client (mk_server count_server 0 [] []) n 1 0 u) as (body & Hf & Hb);
    [lia|lia|lia|exact Hr|exact Hs|rewrite Hd; left|].
  exists n, u, body. split; [exact Hs|]. split; [exact Ha|]. split; [rewrite Hd; left|]. exact (conj Hf Hb).
Defined.

(** C18: whatever bytes a peer has sent and wherever the reader is in them, reading a
    number is defined, gives a value of the type that is read and leaves the reader
    in the same message, and a failure noticed earlier is not forgotten; the same
    goes for vectors and maps of numbers. *)
Theorem wire_values_typed `{HeapMem} u :
  un_wf u ->
  gives u (get_bool u) (fun _ => True) /\
  gives u (get_uchar u) (unsigned 8) /\ gives u (get_char u) (signed 8) /\
  gives u (get_ushort u) (unsigned 16) /\ gives u (get_short u) (signed 16) /\
  gives u (get_uint u) (unsigned 32) /\ gives u (get_int u) (signed 32) /\
  gives u (get_ull u) (unsigned 64) /\
  gives u (get_vector uint_c u []) (Forall (unsigned 32)) /\
  forall lt d, gives u (get_map lt ull_c int_c u d) (Forall (entry_ok (unsigned 64) (signed 32))).
Proof.
  intros Hu. split_and!; auto using get_bool_typed, get_uchar_typed, get_char_typed, get_ushort_typed,
    get_short_typed, get_uint_typed, get_int_typed, get_ull_typed.
  - apply (get_vector_typed uint_c); [apply _|done|constructor].
  - intros lt d. exact (map_typed lt ull_c int_c _ _ _ _ u d Hu).
Qed.

(** Five bytes: an int can be read, and a second read says that there is no more. *)
Lemma wire_values_typed_witness :
  let u := unmarshall_buf [xff; xff; xff; xfe; x07] in
  exists u', get_int u = Ok (-2, u') /\ u_ok u' = true /\
  exists x u'', get_int u' = Ok (x, u'') /\ signed 32 x /\ u_ok u'' = false.
Proof.
  intros u. destruct (@wire_values_typed zero_heap u) as (_ & _ & _ & _ & _ & _ & (x & u' & E & _ & Hu' & _) & _);
    [by split|].
  exists u'. assert (x = -2 /\ u_ok u' = true /\ u_ind u' = 4 /\ u_buf u' = u_buf u /\ u_sz u' = 5) as (-> & Hok & Hi & Hb & Hs)
    by (vm_compute in E; injection E as <- <-; done).
  split; [exact E|]. split; [exact Hok|].
  destruct (@wire_values_typed zero_heap u' Hu') as (_ & _ & _ & _ & _ & _ & (y & u'' & E' & Hy & _) & _).
  exists y, u''. split; [exact E'|]. split; [exact Hy|].
  vm_compute in E. injection E as <-. vm_compute in E'. by injection E' as _ <-.
Defined.
