(* ===== verification/ExtentClient.v ===== *)
(** * ExtentClient: the extent client and the interface it offers

    [class extent_client] (extent_client.cc) calls the extent server through
    RPC stubs; extent_smain.cc registers the server's methods.  [ExtentClient]
    is the interface the file system is written against, [ExtentClientOK] what
    it may rely on: every operation inside the server's means acts as the
    specification of the extent server says. *)

From Stdlib Require Import ZArith Lia.
From S2P Require Import Prelude BlockLayer Inode InodeFacts FileBlocks FileSystem FileWrite.
From S2P Require Import FileOps ExtentServer ExtentRefine Marshall MarshallFacts RpcServer.
From S2P Require Import RpcServerFacts RpcClient RpcStub RpcLink.

(** ** The interface

    An output argument holds its old value when the call does not assign it. *)
Class ExtentClient (S : Type) := {
  ec_create : Z -> Z -> S -> result (Z * Z * S);
  ec_get : Z -> list byte -> S -> result (Z * list byte * S);
  ec_getattr : Z -> attr -> S -> result (Z * attr * S);
  ec_put : Z -> list byte -> S -> result (Z * S);
  ec_remove : Z -> S -> result (Z * S);
}.

(** A 64-bit identifier. *)
Definition is_id (id : Z) : Prop := 0 <= id < 2 ^ 64.

(** [ec_repr n m s]: the server behind [s] holds the extents [m], and [n] more
    calls can be made. *)
Class ExtentClientOK (S : Type) `{ExtentClient S} := {
  ec_repr : nat -> gmap Z extent -> S -> Prop;
  ec_repr_less : forall n m s, ec_repr (Datatypes.S n) m s -> ec_repr n m s;
  ec_create_ok : forall n m s type id0,
    ec_repr (Datatypes.S n) m s -> 0 <= type < 2 ^ 32 -> admissible m (ReqCreate type) ->
    exists now i s', ec_create type id0 s = Ok (extent_OK, i, s') /\ first_ino m = Some i /\
      ec_repr n (spec_serve m (ReqCreate type) now).2 s';
  ec_get_ok : forall n m s id buf0,
    ec_repr (Datatypes.S n) m s -> is_id id -> admissible m (ReqGet id) ->
    exists now s', ec_get id buf0 s = Ok (extent_OK, default [] (e_data <$> m !! eid id), s') /\
      ec_repr n (spec_serve m (ReqGet id) now).2 s';
  ec_getattr_ok : forall n m s id a0,
    ec_repr (Datatypes.S n) m s -> is_id id -> admissible m (ReqGetattr id) ->
    exists s', ec_getattr id a0 s = Ok (extent_OK, default zero_attr (spec_attr <$> m !! eid id), s') /\
      ec_repr n m s';
  ec_put_ok : forall n m s id buf,
    ec_repr (Datatypes.S n) m s -> is_id id -> admissible m (ReqPut id buf) ->
    exists now s', ec_put id buf s = Ok (extent_OK, s') /\
      ec_repr n (spec_serve m (ReqPut id buf) now).2 s';
  ec_remove_ok : forall n m s id,
    ec_repr (Datatypes.S n) m s -> is_id id -> admissible m (ReqRemove id) ->
    exists s', ec_remove id s = Ok (extent_OK, s') /\
      ec_repr n (spec_serve m (ReqRemove id) 0).2 s';
}.

(** ** The server's process: its object and its clock *)

Record ehost := mk_ehost { h_es : extent_server; h_clock : nat -> Z; h_tick : nat }.
Definition h_now (h : ehost) : Z := h_clock h (h_tick h).
Definition h_set (h : ehost) (es : extent_server) : ehost := mk_ehost es (h_clock h) (S (h_tick h)).

(** extent_protocol::rpc_numbers *)
Definition ext_put : Z := 0x6001.
Definition ext_get : Z := 0x6002.
Definition ext_getattr : Z := 0x6003.
Definition ext_remove : Z := 0x6004.
Definition ext_create : Z := 0x6005.

(** The operators of extent_protocol::attr. *)
Section attr_codec.
Context `{HeapMem}.

Definition put_attr (m : marshall) (a : attr) : result marshall :=
  m ← put_uint m (a_type a);
  m ← put_uint m (a_atime a);
  m ← put_uint m (a_mtime a);
  m ← put_uint m (a_ctime a);
  put_uint m (a_size a).

Definition get_attr (u : unmarshall) (a : attr) : result (attr * unmarshall) :=
  '(type, u) ← get_uint u;
  '(atime, u) ← get_uint u;
  '(mtime, u) ← get_uint u;
  '(ctime, u) ← get_uint u;
  '(size, u) ← get_uint u;
  Ok (mk_attr type atime mtime ctime size, u).

Definition attr_c : codec attr :=
  let g := u32 stack_int in mk_codec put_attr get_attr (mk_attr g g g g g).

Record attr_valid (a : attr) : Prop := {
  av_type : 0 <= a_type a < 2 ^ 32;
  av_atime : 0 <= a_atime a < 2 ^ 32;
  av_mtime : 0 <= a_mtime a < 2 ^ 32;
  av_ctime : 0 <= a_ctime a < 2 ^ 32;
  av_size : 0 <= a_size a < 2 ^ 32;
}.
Definition enc_attr (a : attr) : list byte :=
  be4 (a_type a) ++ be4 (a_atime a) ++ be4 (a_mtime a) ++ be4 (a_ctime a) ++ be4 (a_size a).

Lemma get_attr_ok u a0 a rest : attr_valid a -> reads u (enc_attr a ++ rest) ->
  get_attr u a0 = Ok (a, advance u 20).
Proof.
  intros [Ht Ha Hm Hc Hs] Hr. unfold get_attr, enc_attr in *. rewrite <- !app_assoc in Hr.
  do 5 (apply get_uint_spec in Hr as [-> Hr]; run_ok).
  rewrite !advance_add, !wrapU_small by done. by destruct a.
Qed.

#[export] Instance attr_ok : CodecOK attr_c attr_valid enc_attr.
Proof.
  split; [|intros u a rest Hv Hr; by apply (get_attr_ok u _ a rest)].
  intros m a Hwf _ Hm. cbn [c_put attr_c]. unfold put_attr, enc_attr in *. cbn [length be4 app] in Hm.
  destruct (put_uint_spec m (a_type a)) as (m1 & -> & H1); [done|lia|]. rewrite bind_Ok.
  pose proof (ex_ind _ _ _ H1) as I1. cbn [length be4] in I1.
  destruct (put_uint_spec m1 (a_atime a)) as (m2 & -> & H2); [apply H1|lia|]. rewrite bind_Ok.
  pose proof (ex_ind _ _ _ H2) as I2. cbn [length be4] in I2.
  destruct (put_uint_spec m2 (a_mtime a)) as (m3 & -> & H3); [apply H2|lia|]. rewrite bind_Ok.
  pose proof (ex_ind _ _ _ H3) as I3. cbn [length be4] in I3.
  destruct (put_uint_spec m3 (a_ctime a)) as (m4 & -> & H4); [apply H3|lia|]. rewrite bind_Ok.
  pose proof (ex_ind _ _ _ H4) as I4. cbn [length be4] in I4.
  destruct (put_uint_spec m4 (a_size a)) as (m5 & -> & H5); [apply H4|lia|].
  exists m5. split; [done|].
  exact (extends_app _ _ _ _ _ H1 (extends_app _ _ _ _ _ H2 (extends_app _ _ _ _ _ H3
    (extends_app _ _ _ _ _ H4 H5)))).
Qed.

#[export] Instance attr_any : GetAny attr_c attr_valid enc_attr.
Proof. intros u a0 a rest Hv Hr. by apply (get_attr_ok u a0 a rest). Qed.

End attr_codec.

(** ** class extent_client, over any transport *)

Section stubs.
Context `{HeapMem} {T : Type} (call1 : Z -> marshall -> T -> result (Z * unmarshall * T)).

Definition xc_create (type id : Z) (t : T) : result (Z * Z * T) :=
  rcall1 call1 ull_c uint_c ext_create type id t.
Definition xc_get (eid : Z) (buf : list byte) (t : T) : result (Z * list byte * T) :=
  rcall1 call1 string_c ull_c ext_get eid buf t.
Definition xc_getattr (eid : Z) (a : attr) (t : T) : result (Z * attr * T) :=
  rcall1 call1 attr_c ull_c ext_getattr eid a t.
Definition xc_put (eid : Z) (buf : list byte) (t : T) : result (Z * T) :=
  '(ret, _, t) ← rcall2 call1 int_c ull_c string_c ext_put eid buf stack_int t;
  Ok (ret, t).
Definition xc_remove (eid : Z) (t : T) : result (Z * T) :=
  '(ret, _, t) ← rcall1 call1 int_c ull_c ext_remove eid stack_int t;
  Ok (ret, t).

End stubs.

(** ** extent_smain.cc: the registered methods *)

Section smain.
Context `{Uninit}.

Definition meth_create (type id : Z) (h : ehost) : result (Z * Z * ehost) :=
  let '(r, id, es) := es_create (h_es h) type (h_now h) in Ok (r, id, h_set h es).
Definition meth_get (id : Z) (buf : list byte) (h : ehost) : result (Z * list byte * ehost) :=
  '(r, buf, es) ← es_get (h_es h) id (h_now h); Ok (r, buf, h_set h es).
Definition meth_getattr (id : Z) (a : attr) (h : ehost) : result (Z * attr * ehost) :=
  let '(r, a) := es_getattr (h_es h) id in Ok (r, a, h_set h (h_es h)).
(** The [int &] results are left as they were. *)
Definition meth_put (id : Z) (buf : list byte) (i : Z) (h : ehost) : result (Z * Z * ehost) :=
  '(r, es) ← es_put (h_es h) id buf (h_now h); Ok (r, i, h_set h es).
Definition meth_remove (id i : Z) (h : ehost) : result (Z * Z * ehost) :=
  '(r, es) ← es_remove (h_es h) id; Ok (r, i, h_set h es).

Definition h_get : handler ehost := reg_h1 string_c ull_c meth_get.
Definition h_getattr : handler ehost := reg_h1 attr_c ull_c meth_getattr.
Definition h_put : handler ehost := reg_h2 int_c ull_c string_c meth_put.
Definition h_remove : handler ehost := reg_h1 int_c ull_c meth_remove.
Definition h_create : handler ehost := reg_h1 ull_c uint_c meth_create.

(** The five registrations of [main]. *)
Definition extent_main (nonce count : Z) : result (rpcs ehost) :=
  s ← rpcs_new nonce count;
  s ← reg1 s ext_get h_get;
  s ← reg1 s ext_getattr h_getattr;
  s ← reg1 s ext_put h_put;
  s ← reg1 s ext_remove h_remove;
  reg1 s ext_create h_create.

(** ** The server called in place *)

#[export] Instance local_client : ExtentClient ehost := {
  ec_create type id h := meth_create type id h;
  ec_get id buf h := meth_get id buf h;
  ec_getattr id a h := meth_getattr id a h;
  ec_put id buf h := '(r, _, h) ← meth_put id buf 0 h; Ok (r, h);
  ec_remove id h := '(r, _, h) ← meth_remove id 0 h; Ok (r, h);
}.

Lemma refined_create m es type now : repr m es -> admissible m (ReqCreate type) ->
  exists i es', es_create es type now = (extent_OK, i, es') /\ first_ino m = Some i /\
    repr (spec_serve m (ReqCreate type) now).2 es'.
Proof.
  intros Hr Ha. destruct (serve_refines m es _ now Hr Ha) as (es' & E & Hr'). cbn [serve] in E.
  destruct (es_create es type now) as [[r i] es1] eqn:Ec. injection E as -> E ->.
  exists i, es'. split; [done|]. split; [|done]. destruct Ha as [_ [j Hj]]. cbn [spec_serve] in E.
  rewrite Hj in E. cbn [fst] in E. injection E as ->. done.
Qed.

Lemma refined_get m es id now : repr m es -> admissible m (ReqGet id) ->
  exists es', es_get es id now = Ok (extent_OK, default [] (e_data <$> m !! eid id), es') /\
    repr (spec_serve m (ReqGet id) now).2 es'.
Proof.
  intros Hr Ha. destruct (serve_refines m es _ now Hr Ha) as (es' & E & Hr'). cbn [serve] in E.
  apply bind_ok in E as ([[r buf] es1] & Eg & E). cbn [spec_serve fst] in E.
  injection E as -> -> ->. eauto.
Qed.

Lemma refined_put m es id buf now : repr m es -> admissible m (ReqPut id buf) ->
  exists es', es_put es id buf now = Ok (extent_OK, es') /\
    repr (spec_serve m (ReqPut id buf) now).2 es'.
Proof.
  intros Hr Ha. destruct (serve_refines m es _ now Hr Ha) as (es' & E & Hr'). cbn [serve] in E.
  apply bind_ok in E as ([r es1] & Eg & E). injection E as -> ->. eauto.
Qed.

Lemma refined_remove m es id now : repr m es -> admissible m (ReqRemove id) ->
  exists es', es_remove es id = Ok (extent_OK, es') /\ repr (spec_serve m (ReqRemove id) now).2 es'.
Proof.
  intros Hr Ha. destruct (serve_refines m es _ now Hr Ha) as (es' & E & Hr'). cbn [serve] in E.
  apply bind_ok in E as ([r es1] & Eg & E). injection E as -> ->. eauto.
Qed.

Lemma refined_getattr m es id : repr m es -> admissible m (ReqGetattr id) ->
  es_getattr es id = (extent_OK, default zero_attr (spec_attr <$> m !! eid id)).
Proof.
  intros Hr Ha. destruct (serve_refines m es _ 0 Hr Ha) as (es' & E & Hr'). cbn [serve] in E.
  destruct (es_getattr es id) as [r a]. cbn [spec_serve fst] in E.
  by injection E as -> -> ->.
Qed.

(** The laws hold of the server called in place, for any number of calls. *)
#[export] Instance local_client_ok : ExtentClientOK ehost.
Proof.
  refine {| ec_repr _ m h := repr m (h_es h) |}.
  - done.
  - intros n m h type id0 Hr _ Ha.
    destruct (refined_create m _ type (h_now h) Hr Ha) as (i & es' & E & Hf & Hr').
    exists (h_now h), i, (h_set h es'). cbn [ec_create local_client]. unfold meth_create. by rewrite E.
  - intros n m h id buf0 Hr _ Ha.
    destruct (refined_get m _ id (h_now h) Hr Ha) as (es' & E & Hr').
    exists (h_now h), (h_set h es'). cbn [ec_get local_client]. unfold meth_get. rewrite E. by run_ok.
  - intros n m h id a0 Hr _ Ha. exists (h_set h (h_es h)). cbn [ec_getattr local_client].
    unfold meth_getattr. by rewrite (refined_getattr m _ id Hr Ha).
  - intros n m h id buf Hr _ Ha.
    destruct (refined_put m _ id buf (h_now h) Hr Ha) as (es' & E & Hr').
    exists (h_now h), (h_set h es'). cbn [ec_put local_client]. unfold meth_put. rewrite E. by run_ok.
  - intros n m h id Hr _ Ha.
    destruct (refined_remove m _ id 0 Hr Ha) as (es' & E & Hr').
    exists (h_set h es'). cbn [ec_remove local_client]. unfold meth_remove. rewrite E. by run_ok.
Defined.

End smain.
