(* ===== verification/ExtentRemote.v ===== *)
(** * ExtentRemote: the extent client keeps its promises over RPC

    A client of the interface that reaches the server through the stubs of
    extent_client.cc, the RPC library and the methods registered in
    extent_smain.cc satisfies the same laws as the server called in place. *)

From Stdlib Require Import ZArith Lia.
From S2P Require Import Prelude BlockLayer Inode InodeFacts FileBlocks FileSystem FileWrite.
From S2P Require Import CppString Sockaddr.
From S2P Require Import FileOps ExtentServer ExtentRefine Marshall MarshallFacts RpcServer.
From S2P Require Import RpcServerFacts RpcClient RpcStub RpcLink ExtentClient.

(** ** What the server holds fits in messages *)

Lemma repr_lookup m es i e : repr m es -> m !! i = Some e ->
  valid_ino i /\ e = extent_of (im_bm (es_im es)) (ino_at (im_bm (es_im es)) i).
Proof.
  intros Hr He. assert (valid_ino i) as Hi by (apply (repr_some m es); [done|by eexists]).
  split; [done|]. rewrite (repr_extent m es i Hr Hi) in He; [by injection He|].
  apply (repr_live m es i Hr Hi). by eexists.
Qed.

Lemma repr_data_length m es i e : repr m es -> m !! i = Some e -> Z.of_nat (length (e_data e)) <= MAXFILE.
Proof.
  intros Hr He. destruct (repr_lookup _ _ _ _ Hr He) as [Hi ->]. cbn [extent_of e_data].
  pose proof (ok_file _ (rp_inv _ _ Hr) i Hi) as Hok.
  rewrite length_content; [apply Hok|apply fs_bm_wf, ok_fs, Hr|apply ino_at_wf|done].
Qed.

Lemma repr_attr_valid m es i : repr m es -> attr_valid (default zero_attr (spec_attr <$> m !! i)).
Proof.
  intros Hr. destruct (m !! i) as [e|] eqn:He; [|by split; cbn; lia].
  pose proof (repr_data_length _ _ _ _ Hr He) as Hl. rewrite MAXFILE_eq in Hl.
  destruct (repr_lookup _ _ _ _ Hr He) as [Hi ->].
  pose proof (ino_at_wf (im_bm (es_im es)) i) as Hw.
  split; cbn [fmap option_fmap option_map default from_option id spec_attr extent_of a_type a_atime a_mtime a_ctime a_size
    e_type e_atime e_mtime e_ctime e_data] in *; [apply wrapU_range; lia|apply Hw..|lia].
Qed.

Section remote.
Context `{Uninit} (compare : Z -> Z -> Z) (conn : Z).

(** The stubs of extent_client.cc over the link. *)
Definition remote_client : ExtentClient (link ehost) := {|
  ec_create := xc_create (direct_call compare conn);
  ec_get := xc_get (direct_call compare conn);
  ec_getattr := xc_getattr (direct_call compare conn);
  ec_put := xc_put (direct_call compare conn);
  ec_remove := xc_remove (direct_call compare conn);
|}.

Record registered (s : rpcs ehost) : Prop := {
  rg_get : s_procs s !! ext_get = Some h_get;
  rg_getattr : s_procs s !! ext_getattr = Some h_getattr;
  rg_put : s_procs s !! ext_put = Some h_put;
  rg_remove : s_procs s !! ext_remove = Some h_remove;
  rg_create : s_procs s !! ext_create = Some h_create;
}.

Lemma extent_main_registered nonce count :
  exists s, extent_main nonce count = Ok s /\ registered s /\ s_nonce s = u32 nonce /\ s_window s = ∅ /\
    s_procs s !! rpc_bind = Some (reg_h1 int_c int_c (rpcbind (s_nonce s))).
Proof.
  unfold extent_main, rpcs_new.
  destruct (reg1_ok (mk_rpcs (St := ehost) (u32 nonce) ∅ ∅ ∅ count count ∅ true) rpc_bind
    (reg_h1 int_c int_c (rpcbind (u32 nonce)))) as (s0 & -> & P0 & N0 & W0); [done|done|]. run_ok.
  destruct (reg1_ok s0 ext_get h_get) as (s1 & -> & P1 & N1 & W1); [done|by rewrite P0|]. run_ok.
  destruct (reg1_ok s1 ext_getattr h_getattr) as (s2 & -> & P2 & N2 & W2); [done|by rewrite P1, P0|]. run_ok.
  destruct (reg1_ok s2 ext_put h_put) as (s3 & -> & P3 & N3 & W3); [done|by rewrite P2, P1, P0|]. run_ok.
  destruct (reg1_ok s3 ext_remove h_remove) as (s4 & -> & P4 & N4 & W4);
    [done|by rewrite P3, P2, P1, P0|]. run_ok.
  destruct (reg1_ok s4 ext_create h_create) as (s5 & -> & P5 & N5 & W5);
    [done|by rewrite P4, P3, P2, P1, P0|].
  exists s5. split; [done|]. rewrite N5, N4, N3, N2, N1, N0, W5, W4, W3, W2, W1, W0.
  split; [|split_and!; [done..|]].
  - split; rewrite P5, P4, P3, P2, P1; simplify_map_eq; done.
  - rewrite P5, P4, P3, P2, P1, P0. simplify_map_eq. done.
Qed.

(** [n] more calls can be made. *)
Record linked (n : nat) (m : gmap Z extent) (l : link ehost) : Prop := {
  ln_link : link_ok l;
  ln_repr : repr m (h_es (k_app l));
  ln_reg : registered (k_srv l);
  ln_left : c_xid (k_cl l) + Z.of_nat n <= 2 ^ 31 - 2;
}.

(** [extent_client::extent_client]: the server [s] is the one at the address. *)
Definition extent_client_new (inet_addr : list byte -> Z) (gethostbyname : list byte -> option (Z * Z))
    (dst : list byte) (s : rpcs ehost) (host : ehost) (cnonce lossy : Z) : result (link ehost) :=
  _ ← make_sockaddr inet_addr gethostbyname dst;
  '(_, l) ← bind compare conn (mk_link (rpcc_new true cnonce lossy) s host);
  Ok l.

(** The server's main program, and a client that binds to it. *)
Lemma connect_linked inet_addr gethostbyname dst a t0 nonce count cnonce clock n :
  make_sockaddr inet_addr gethostbyname dst = Ok a -> 0 < u32 cnonce -> Z.of_nat n <= 2 ^ 31 - 4 ->
  exists es s l, es_new t0 = Ok es /\ extent_main nonce count = Ok s /\
    extent_client_new inet_addr gethostbyname dst s (mk_ehost es clock 0) cnonce 0 = Ok l /\
    linked n (spec_init t0) l.
Proof.
  intros Hdst Hc Hn. destruct (es_new_repr t0) as (es & Ees & Hr).
  destruct (extent_main_registered nonce count) as (s & Es & Hreg & Hnonce & Hw & Hb).
  assert (exists l, extent_client_new inet_addr gethostbyname dst s (mk_ehost es clock 0) cnonce 0 = Ok l /\
    linked n (spec_init t0) l) as (l & E & Hl).
  2:{ exists es, s, l. exact (conj Ees (conj Es (conj E Hl))). }
  clear Ees Es.
  destruct (connect_ok compare conn s (mk_ehost es clock 0) cnonce) as (l & E & Hl & Ha & Hp & Hx);
    [exact Hc|rewrite Hnonce; auto with ranges|exact Hw|exact Hb|].
  exists l. split; [unfold extent_client_new; by rewrite Hdst, bind_Ok, E|]. split; [exact Hl|by rewrite Ha|by destruct Hreg; split; rewrite Hp|].
  rewrite Hx. lia.
Qed.

Lemma linked_after n m l l' m' es' :
  linked (S n) m l -> link_ok l' -> k_app l' = h_set (k_app l) es' ->
  s_procs (k_srv l') = s_procs (k_srv l) -> c_xid (k_cl l') = c_xid (k_cl l) + 1 ->
  repr m' es' -> linked n m' l'.
Proof.
  intros [_ _ [? ? ? ? ?] Hl] Hl' Ha Hp Hx Hr. split; [done|by rewrite Ha|by split; rewrite Hp|lia].
Qed.

Lemma linked_xid n m l : linked (S n) m l -> c_xid (k_cl l) < 2 ^ 31 - 2.
Proof. intros Hl. pose proof (ln_left _ _ _ Hl). lia. Qed.

Lemma fits_small bs : Z.of_nat (length bs) <= MAXFILE + 12 -> fits bs.
Proof. unfold fits, MAX_PDU. rewrite MAXFILE_eq. lia. Qed.

Ltac proc_ok := unfold ext_create, ext_get, ext_getattr, ext_put, ext_remove, rpc_bind; done || lia.
Ltac small := apply fits_small; rewrite MAXFILE_eq; cbn; lia.

Lemma remote_create n m l type id0 :
  linked (S n) m l -> 0 <= type < 2 ^ 32 -> admissible m (ReqCreate type) ->
  exists now i l', xc_create (direct_call compare conn) type id0 l = Ok (extent_OK, i, l') /\
    first_ino m = Some i /\ linked n (spec_serve m (ReqCreate type) now).2 l'.
Proof.
  intros Hl Ht Ha.
  destruct (refined_create m _ type (h_now (k_app l)) (ln_repr _ _ _ Hl) Ha) as (i & es' & E & Hf & Hr').
  assert (0 <= i < 2 ^ 64) as Hi.
  { apply first_ino_spec in Hf as [Hi _]. unfold valid_ino in Hi. rewrite LAST_INO_eq in Hi. lia. }
  destruct (rcall1_spec compare conn ull_c uint_c l ext_create meth_create type id0 extent_OK i
    (h_set (k_app l) es')) as (l' & El & Hl' & Happ & Hp & Hx);
    [apply Hl|by eapply linked_xid|proc_ok|proc_ok|apply Hl|done|small| |proc_ok|done|small|].
  - unfold meth_create. by rewrite E.
  - exists (h_now (k_app l)), i, l'. split_and!; [done|done|]. by eapply linked_after.
Qed.

Lemma remote_get n m l id buf0 :
  linked (S n) m l -> is_id id -> admissible m (ReqGet id) ->
  exists now l', xc_get (direct_call compare conn) id buf0 l =
      Ok (extent_OK, default [] (e_data <$> m !! eid id), l') /\
    linked n (spec_serve m (ReqGet id) now).2 l'.
Proof.
  intros Hl Hid Ha.
  destruct (refined_get m _ id (h_now (k_app l)) (ln_repr _ _ _ Hl) Ha) as (es' & E & Hr').
  set (d := default [] (e_data <$> m !! eid id)) in *.
  assert (Z.of_nat (length d) <= MAXFILE) as Hd.
  { unfold d. destruct (m !! eid id) as [e|] eqn:He; [|by rewrite MAXFILE_eq].
    exact (repr_data_length _ _ _ _ (ln_repr _ _ _ Hl) He). }
  destruct (rcall1_spec compare conn string_c ull_c l ext_get meth_get id buf0 extent_OK d
    (h_set (k_app l) es')) as (l' & El & Hl' & Happ & Hp & Hx);
    [apply Hl|by eapply linked_xid|proc_ok|proc_ok|apply Hl|done|small| |proc_ok| | |].
  - unfold meth_get. rewrite E. by run_ok.
  - unfold MAX_PDU. rewrite MAXFILE_eq in Hd. lia.
  - apply fits_small. unfold enc_string. rewrite length_app. cbn [length be4]. lia.
  - exists (h_now (k_app l)), l'. split; [done|]. by eapply linked_after.
Qed.

Lemma remote_getattr n m l id a0 :
  linked (S n) m l -> is_id id -> admissible m (ReqGetattr id) ->
  exists l', xc_getattr (direct_call compare conn) id a0 l =
      Ok (extent_OK, default zero_attr (spec_attr <$> m !! eid id), l') /\ linked n m l'.
Proof.
  intros Hl Hid Ha.
  pose proof (refined_getattr m _ id (ln_repr _ _ _ Hl) Ha) as E.
  destruct (rcall1_spec compare conn attr_c ull_c l ext_getattr meth_getattr id a0 extent_OK
    (default zero_attr (spec_attr <$> m !! eid id))
    (h_set (k_app l) (h_es (k_app l)))) as (l' & El & Hl' & Happ & Hp & Hx);
    [apply Hl|by eapply linked_xid|proc_ok|proc_ok|apply Hl|done|small| |proc_ok| |small|].
  - unfold meth_getattr. by rewrite E.
  - eapply repr_attr_valid, Hl.
  - exists l'. split; [done|]. eapply linked_after; [done..|]. apply Hl.
Qed.

Lemma remote_put n m l id buf :
  linked (S n) m l -> is_id id -> admissible m (ReqPut id buf) ->
  exists now l', xc_put (direct_call compare conn) id buf l = Ok (extent_OK, l') /\
    linked n (spec_serve m (ReqPut id buf) now).2 l'.
Proof.
  intros Hl Hid Ha. pose proof Ha as (_ & Hlen & _).
  destruct (refined_put m _ id buf (h_now (k_app l)) (ln_repr _ _ _ Hl) Ha) as (es' & E & Hr').
  pose proof stack_int_range.
  destruct (rcall2_spec compare conn int_c ull_c string_c l ext_put meth_put id buf stack_int extent_OK
    stack_int (h_set (k_app l) es')) as (l' & El & Hl' & Happ & Hp & Hx);
    [apply Hl|by eapply linked_xid|proc_ok|proc_ok|apply Hl|done| | | |proc_ok|done|small|].
  - unfold MAX_PDU. rewrite MAXFILE_eq in Hlen. lia.
  - apply fits_small. unfold be8, enc_string. rewrite !length_app. cbn [length be4]. lia.
  - unfold meth_put. rewrite E. by run_ok.
  - exists (h_now (k_app l)), l'. split; [|by eapply linked_after]. unfold xc_put. rewrite El. by run_ok.
Qed.

Lemma remote_remove n m l id :
  linked (S n) m l -> is_id id -> admissible m (ReqRemove id) ->
  exists l', xc_remove (direct_call compare conn) id l = Ok (extent_OK, l') /\
    linked n (spec_serve m (ReqRemove id) 0).2 l'.
Proof.
  intros Hl Hid Ha.
  destruct (refined_remove m _ id 0 (ln_repr _ _ _ Hl) Ha) as (es' & E & Hr').
  pose proof stack_int_range.
  destruct (rcall1_spec compare conn int_c ull_c l ext_remove meth_remove id stack_int extent_OK
    stack_int (h_set (k_app l) es')) as (l' & El & Hl' & Happ & Hp & Hx);
    [apply Hl|by eapply linked_xid|proc_ok|proc_ok|apply Hl|done|small| |proc_ok|done|small|].
  - unfold meth_remove. rewrite E. by run_ok.
  - exists l'. split; [|by eapply linked_after]. unfold xc_remove. rewrite El. by run_ok.
Qed.

Lemma linked_less n m l : linked (S n) m l -> linked n m l.
Proof. intros [? ? ? ?]. split; [done..|lia]. Qed.

(** The laws of the interface hold over the link. *)
Definition remote_client_ok : @ExtentClientOK (link ehost) remote_client :=
  @Build_ExtentClientOK (link ehost) remote_client linked linked_less remote_create remote_get remote_getattr
    remote_put remote_remove.

End remote.
