(* ===== verification/YfsClient.v ===== *)
(** * YfsClient: the file system operations (yfs_client.cc, yfs_client.h)

    Directories are extents whose content is a sequence of [name/inum/] entries.
    Every operation is written against the extent client's interface; the public
    operations bracket the private ones with the lock of the file they are
    about. *)

From Stdlib Require Import ZArith Lia.
From S2P Require Import Prelude CppString BlockLayer Inode ExtentServer ExtentClient.

(** yfs_client::xxstatus *)
Definition yfs_OK : Z := 0.
Definition yfs_RPCERR : Z := 1.
Definition yfs_NOENT : Z := 2.
Definition yfs_IOERR : Z := 3.
Definition yfs_EXIST : Z := 4.

Record fileinfo := mk_fileinfo { fi_size : Z; fi_atime : Z; fi_mtime : Z; fi_ctime : Z }.
Record dirinfo := mk_dirinfo { di_atime : Z; di_mtime : Z; di_ctime : Z }.
Record dirent := mk_dirent { d_name : list byte; d_inum : Z }.

Section yfs.
Context `{HeapMem} {S : Type} `{ExtentClient S}.

(** [finum] is a local variable without an initialiser. *)
Definition n2i (n : list byte) : Z := stream_ull n (u64 stack_int).
Definition filename (inum : Z) : list byte := dec inum.

(** ** Attributes *)

Definition yfs_isfile (inum : Z) (s : S) : result (bool * S) :=
  '(r, a, s) ← ec_getattr inum zero_attr s;
  if negb (r =? extent_OK) then Ok (false, s)
  else if a_type a =? T_FILE then Ok (true, s) else Ok (false, s).

Definition yfs_isdir (inum : Z) (s : S) : result (bool * S) :=
  '(r, a, s) ← ec_getattr inum zero_attr s;
  if negb (r =? extent_OK) then Ok (false, s)
  else if a_type a =? T_DIR then Ok (true, s) else Ok (false, s).

Definition yfs_getfile (inum : Z) (fin : fileinfo) (s : S) : result (Z * fileinfo * S) :=
  '(r, a, s) ← ec_getattr inum zero_attr s;
  if negb (r =? extent_OK) then Ok (yfs_IOERR, fin, s)
  else Ok (yfs_OK, mk_fileinfo (a_size a) (a_atime a) (a_mtime a) (a_ctime a), s).

Definition yfs_getdir (inum : Z) (din : dirinfo) (s : S) : result (Z * dirinfo * S) :=
  '(r, a, s) ← ec_getattr inum zero_attr s;
  if negb (r =? extent_OK) then Ok (yfs_IOERR, din, s)
  else Ok (yfs_OK, mk_dirinfo (a_atime a) (a_mtime a) (a_ctime a), s).

Definition yfs_setattr (ino size : Z) (s : S) : result (Z * S) :=
  '(r, buf, s) ← ec_get ino [] s;
  if negb (r =? yfs_OK) then Ok (r, s)
  else
    buf ← str_resize buf size;
    ec_put ino buf s.

(** ** Directories *)

(** The loop of [_readdir]; the fuel bounds the number of entries. *)
Fixpoint readdir_loop (fuel : nat) (buf : list byte) (list : list dirent) : result (Datatypes.list dirent) :=
  match buf with
  | [] => Ok list
  | _ :: _ =>
      match fuel with
      | O => Hang
      | Datatypes.S fuel =>
          let pos := find_char slash buf 0 in
          name ← substr buf 0 pos;
          buf ← substr buf (u64 (pos + 1)) npos;
          let pos := find_char slash buf 0 in
          num ← substr buf 0 pos;
          buf ← substr buf (u64 (pos + 1)) npos;
          readdir_loop fuel buf (list ++ [mk_dirent name (n2i num)])
      end
  end.

Definition yfs_readdir (dir : Z) (list : list dirent) (s : S) : result (Z * Datatypes.list dirent * S) :=
  '(r, buf, s) ← ec_get dir [] s;
  if negb (r =? yfs_OK) then Ok (r, list, s)
  else
    list ← readdir_loop (length buf) buf list;
    Ok (r, list, s).

(** The search loop of [_lookup]. *)
Fixpoint find_ent (name : list byte) (ents : list dirent) : option Z :=
  match ents with
  | [] => None
  | e :: ents => if bool_decide (d_name e = name) then Some (d_inum e) else find_ent name ents
  end.

(** The status, [found] and [ino_out]. *)
Definition yfs_lookup (parent : Z) (name : list byte) (ino_out : Z) (s : S)
    : result (Z * bool * Z * S) :=
  '(d, s) ← yfs_isdir parent s;
  if negb d then Ok (yfs_OK, false, ino_out, s)
  else
    '(r, ents, s) ← yfs_readdir parent [] s;
    if negb (r =? yfs_OK) then Ok (r, false, ino_out, s)
    else
      match find_ent name ents with
      | Some i => Ok (yfs_EXIST, true, i, s)
      | None => Ok (r, false, ino_out, s)
      end.

Definition entry (name : list byte) (ino : Z) : list byte := name ++ [slash] ++ filename ino ++ [slash].

Definition yfs_create (parent : Z) (name : list byte) (mode ino_out : Z) (s : S) : result (Z * Z * S) :=
  '(r, found, ino_out, s) ← yfs_lookup parent name ino_out s;
  if (found : bool) then Ok (r, ino_out, s)
  else
    '(_, ino_out, s) ← ec_create T_FILE ino_out s;
    let ent := entry name ino_out in
    '(r, buf, s) ← ec_get parent [] s;
    if negb (r =? yfs_OK) then Ok (r, ino_out, s)
    else
      '(r, s) ← ec_put parent (buf ++ ent) s;
      Ok (r, ino_out, s).

Definition yfs_mkdir (parent : Z) (name : list byte) (mode ino_out : Z) (s : S) : result (Z * Z * S) :=
  '(r, found, ino_out, s) ← yfs_lookup parent name ino_out s;
  if (found : bool) then Ok (r, ino_out, s)
  else
    '(_, ino_out, s) ← ec_create T_DIR ino_out s;
    let ent := entry name ino_out in
    '(r, buf, s) ← ec_get parent [] s;
    if negb (r =? yfs_OK) then Ok (r, ino_out, s)
    else
      '(r, s) ← ec_put parent (buf ++ ent) s;
      Ok (r, ino_out, s).

Definition yfs_unlink (parent : Z) (name : list byte) (s : S) : result (Z * S) :=
  '(r, found, toremove, s) ← yfs_lookup parent name (u64 stack_int) s;
  if negb found then Ok (yfs_NOENT, s)
  else
    '(_, s) ← ec_remove toremove s;
    let ent := entry name toremove in
    '(r, buf, s) ← ec_get parent [] s;
    if negb (r =? yfs_OK) then Ok (r, s)
    else
      buf ← str_replace buf (find_str ent buf 0) (Z.of_nat (length ent)) [];
      ec_put parent buf s.

Definition yfs_symlink (parent : Z) (name link : list byte) (ino_out : Z) (s : S) : result (Z * Z * S) :=
  '(_, found, ino_out, s) ← yfs_lookup parent name ino_out s;
  if (found : bool) then Ok (yfs_EXIST, ino_out, s)
  else
    '(_, ino_out, s) ← ec_create T_SYMLINK ino_out s;
    '(_, s) ← ec_put ino_out link s;
    let ent := entry name ino_out in
    '(r, buf, s) ← ec_get parent [] s;
    if negb (r =? yfs_OK) then Ok (r, ino_out, s)
    else
      '(r, s) ← ec_put parent (buf ++ ent) s;
      Ok (r, ino_out, s).

Definition yfs_readlink (ino : Z) (link : list byte) (s : S) : result (Z * list byte * S) :=
  ec_get ino link s.

(** ** File contents *)

Definition yfs_read (ino size off : Z) (data : list byte) (s : S) : result (Z * list byte * S) :=
  '(r, buf, s) ← ec_get ino [] s;
  if negb (r =? yfs_OK) then Ok (r, data, s)
  else if s32 (Z.of_nat (length buf)) <=? off then Ok (r, [], s)
  else
    data ← substr buf (u32 off) size;
    Ok (r, data, s).

(** [data] are the bytes at the pointer; the result has [bytes_written]. *)
Definition yfs_write (ino size off : Z) (data : list byte) (bytes_written : Z) (s : S)
    : result (Z * Z * S) :=
  '(r, buf, s) ← ec_get ino [] s;
  if negb (r =? yfs_OK) then Ok (r, bytes_written, s)
  else if Z.of_nat (length data) <? size then Undef
  else
    let towrite := take (Z.to_nat size) data in
    buf ← (if Z.of_nat (length buf) <? off then str_resize buf (u64 off) else Ok buf);
    buf ← str_replace buf (u64 off) size towrite;
    '(r, s) ← ec_put ino buf s;
    Ok (r, size, s).

(** The constructor: the root directory is emptied. *)
Definition yfs_new (s : S) : result S :=
  '(_, s) ← ec_put 1 [] s;
  Ok s.

End yfs.

(** ** The public operations *)

(** The lock client's interface. *)
Class LockClient (L : Type) := {
  lc_acquire : Z -> L -> result L;
  lc_release : Z -> L -> result L;
}.

Section locked.
Context `{HeapMem} {S : Type} `{ExtentClient S} {L : Type} `{LockClient L}.

Definition with_lock {A} (lid : Z) (op : S -> result (A * S)) (st : L * S) : result (A * (L * S)) :=
  l ← lc_acquire lid st.1;
  '(ret, s) ← op st.2;
  l ← lc_release lid l;
  Ok (ret, (l, s)).

Definition isfile (inum : Z) : L * S -> result (bool * (L * S)) := with_lock inum (yfs_isfile inum).
Definition isdir (inum : Z) : L * S -> result (bool * (L * S)) := with_lock inum (yfs_isdir inum).
Definition getfile (inum : Z) (fin : fileinfo) := with_lock inum (yfs_getfile inum fin).
Definition getdir (inum : Z) (din : dirinfo) := with_lock inum (yfs_getdir inum din).
Definition setattr (ino size : Z) := with_lock ino (yfs_setattr ino size).
Definition create (parent : Z) (name : list byte) (mode ino_out : Z) :=
  with_lock parent (yfs_create parent name mode ino_out).
Definition mkdir (parent : Z) (name : list byte) (mode ino_out : Z) :=
  with_lock parent (yfs_mkdir parent name mode ino_out).
Definition lookup (parent : Z) (name : list byte) (ino_out : Z) :=
  with_lock parent (yfs_lookup parent name ino_out).
Definition readdir (dir : Z) (list : list dirent) := with_lock dir (yfs_readdir dir list).
Definition read (ino size off : Z) (data : list byte) := with_lock ino (yfs_read ino size off data).
Definition write (ino size off : Z) (data : list byte) (bytes_written : Z) :=
  with_lock ino (yfs_write ino size off data bytes_written).
Definition unlink (parent : Z) (name : list byte) := with_lock parent (yfs_unlink parent name).
Definition symlink (parent : Z) (name link : list byte) (ino_out : Z) :=
  with_lock parent (yfs_symlink parent name link ino_out).
Definition readlink (ino : Z) (path : list byte) := with_lock ino (yfs_readlink ino path).

End locked.
