(* ===== verification/YfsView.v ===== *)
(** * YfsView: the extents as the file system sees them

    The file system reads types and contents, never times.  [view] forgets the
    times; the laws of the extent client are restated for views. *)

From Stdlib Require Import ZArith Lia.
From S2P Require Import Prelude BlockLayer Inode FileBlocks FileSystem FileWrite ExtentServer.
From S2P Require Import ExtentRefine ExtentClient.

Abbreviation node := (Z * list byte)%type.
Definition node_of (e : extent) : node := (e_type e, e_data e).
Definition view (m : gmap Z extent) : gmap Z node := node_of <$> m.

(** The choice of an inode number and the accounting, on views. *)
Definition free_ino (v : gmap Z node) : option Z := head (filter (fun i => v !! i = None) inos).
Definition vblocks (v : gmap Z node) (i : Z) : Z :=
  match v !! i with Some p => need (nblocks (Z.of_nat (length p.2))) | None => 0 end.
Definition vspace (v : gmap Z node) : Z := zsum (vblocks v <$> inos).
(** There is room for [len] bytes in file [i]. *)
Definition room_for (v : gmap Z node) (i len : Z) : Prop :=
  len <= MAXFILE /\ vspace v - vblocks v i + need (nblocks len) <= CAPACITY.

(** Identifiers that the server uses as they are, and that name no aliased inode. *)
Definition plain (id : Z) : Prop := 0 <= id < 2 ^ 31 /\ id <> ALIASED_INO.

Lemma eid_plain id : plain id -> eid id = id.
Proof.
  intros [Hr _]. unfold eid. change 0x7fffffff with (Z.ones 31). rewrite Z.land_ones by lia.
  rewrite Z.mod_small by lia. apply wrapU_small. lia.
Qed.

Lemma plain_id id : plain id -> is_id id.
Proof. unfold plain, is_id. lia. Qed.

(** *** Views of the specification's steps *)

Lemma lookup_view m i : view m !! i = node_of <$> m !! i.
Proof. apply lookup_fmap. Qed.

Lemma view_None m i : view m !! i = None <-> m !! i = None.
Proof. rewrite lookup_view. apply fmap_None. Qed.

Lemma free_ino_view m : free_ino (view m) = first_ino m.
Proof.
  unfold free_ino, first_ino. f_equal. apply list_filter_iff. intros i. apply view_None.
Qed.

Lemma vblocks_view m i : vblocks (view m) i = blocks_at m i.
Proof. unfold vblocks, blocks_at. rewrite lookup_view. by destruct (m !! i). Qed.

Lemma vspace_view m : vspace (view m) = space_used m.
Proof. unfold vspace, space_used. f_equal. apply list_fmap_ext. intros k i _. apply vblocks_view. Qed.

Lemma view_alter m i f g : (forall e, node_of (f e) = g (node_of e)) -> view (alter f i m) = alter g i (view m).
Proof.
  intros Hf. apply map_eq. intros j. rewrite lookup_view. destruct (decide (j = i)) as [->|Hne].
  - rewrite !lookup_alter_eq, lookup_view. destruct (m !! i); [|done]. cbn. by rewrite Hf.
  - by rewrite !lookup_alter_ne, lookup_view.
Qed.

Lemma view_get m id now : view (spec_serve m (ReqGet id) now).2 = view m.
Proof.
  cbn [spec_serve snd]. rewrite (view_alter _ _ _ (fun p => p)) by done. apply map_eq. intros j.
  destruct (decide (j = eid id)) as [->|Hne]; [|by rewrite lookup_alter_ne].
  rewrite lookup_alter_eq. by destruct (view m !! eid id).
Qed.

Definition set_data (buf : list byte) (p : node) : node := (p.1, buf).

Lemma view_put m id buf now : view (spec_serve m (ReqPut id buf) now).2 = alter (set_data buf) (eid id) (view m).
Proof. cbn [spec_serve snd]. by apply view_alter. Qed.

Lemma view_create m type now i : first_ino m = Some i ->
  view (spec_serve m (ReqCreate type) now).2 = <[i := (s16 type, [])]> (view m).
Proof. intros E. cbn [spec_serve]. rewrite E. cbn [snd]. unfold view. by rewrite fmap_insert. Qed.

Lemma view_remove m id now : view (spec_serve m (ReqRemove id) now).2 = delete (eid id) (view m).
Proof. cbn [spec_serve snd]. apply fmap_delete. Qed.

(** ** The client's laws on views *)

Section client.
Context {S : Type} `{ExtentClientOK S}.

(** The server behind [s] shows the view [v], and [n] more calls can be made. *)
Definition holds (n : nat) (v : gmap Z node) (s : S) : Prop := exists m, ec_repr n m s /\ view m = v.

Lemma holds_less k n v s : holds (k + n) v s -> holds n v s.
Proof.
  induction k as [|k IH]; [done|]. intros (m & Hm & Hv). apply IH. exists m. split; [|done].
  by apply ec_repr_less.
Qed.

Lemma holds_create n v s type id0 i :
  holds (Datatypes.S n) v s -> 0 <= type < 2 ^ 32 -> s16 type <> 0 -> free_ino v = Some i ->
  exists s', ec_create type id0 s = Ok (extent_OK, i, s') /\ holds n (<[i := (s16 type, [])]> v) s'.
Proof.
  intros (m & Hm & <-) Ht Hs Hf. rewrite free_ino_view in Hf.
  destruct (ec_create_ok n m s type id0) as (now & i' & s' & E & Hf' & Hr); [done..|split; [done|by eexists]|].
  rewrite Hf in Hf'. injection Hf' as <-. exists s'. split; [done|]. eexists. split; [done|].
  by apply view_create.
Qed.

Lemma holds_get n v s id buf0 :
  holds (Datatypes.S n) v s -> plain id ->
  exists s', ec_get id buf0 s = Ok (extent_OK, default [] (snd <$> v !! id), s') /\ holds n v s'.
Proof.
  intros (m & Hm & <-) Hp. destruct (ec_get_ok n m s id buf0) as (now & s' & E & Hr);
    [done|by apply plain_id|cbn; rewrite eid_plain by done; apply Hp|].
  rewrite eid_plain in E by done. exists s'. split.
  - rewrite E, lookup_view. by destruct (m !! id).
  - eexists. split; [done|]. apply view_get.
Qed.

Lemma holds_getattr n v s id a0 :
  holds (Datatypes.S n) v s -> plain id ->
  exists a s', ec_getattr id a0 s = Ok (extent_OK, a, s') /\ holds n v s' /\
    a_type a = u32 (default 0 (fst <$> v !! id)) /\
    a_size a = Z.of_nat (length (default [] (snd <$> v !! id))).
Proof.
  intros (m & Hm & <-) Hp. destruct (ec_getattr_ok n m s id a0) as (s' & E & Hr);
    [done|by apply plain_id|cbn; rewrite eid_plain by done; apply Hp|].
  rewrite eid_plain in E by done. eexists _, s'. split; [done|]. split; [by exists m|].
  rewrite lookup_view. by destruct (m !! id).
Qed.

Lemma holds_put n v s id buf :
  holds (Datatypes.S n) v s -> plain id -> is_Some (v !! id) -> room_for v id (Z.of_nat (length buf)) ->
  exists s', ec_put id buf s = Ok (extent_OK, s') /\ holds n (alter (set_data buf) id v) s'.
Proof.
  intros (m & Hm & <-) Hp Hs [Hl Hroom]. rewrite vspace_view, vblocks_view in Hroom.
  destruct (ec_put_ok n m s id buf) as (now & s' & E & Hr); [done|by apply plain_id| |].
  - cbn. rewrite eid_plain by done. split; [|done]. rewrite lookup_view in Hs. by apply fmap_is_Some in Hs.
  - exists s'. split; [done|]. eexists. split; [done|]. rewrite view_put. by rewrite eid_plain.
Qed.

Lemma holds_remove n v s id :
  holds (Datatypes.S n) v s -> plain id ->
  exists s', ec_remove id s = Ok (extent_OK, s') /\ holds n (delete id v) s'.
Proof.
  intros (m & Hm & <-) Hp. destruct (ec_remove_ok n m s id) as (s' & E & Hr);
    [done|by apply plain_id|cbn; rewrite eid_plain by done; apply Hp|].
  exists s'. split; [done|]. eexists. split; [done|]. rewrite view_remove. by rewrite eid_plain.
Qed.

Lemma free_ino_plain v i : free_ino v = Some i -> plain i /\ v !! i = None.
Proof.
  unfold free_ino. intros Hh. apply head_Some_elem_of in Hh.
  apply list_elem_of_filter in Hh as [Hn Hi%elem_of_inos]. split; [|done].
  unfold valid_ino in Hi. rewrite LAST_INO_eq in Hi. unfold plain, ALIASED_INO. lia.
Qed.

End client.

(** Altering a known entry is inserting. *)
Lemma alter_insert_id (f : node -> node) (v : gmap Z node) i p : v !! i = Some p -> alter f i v = <[i := f p]> v.
Proof.
  intros Hv. apply map_eq. intros j. destruct (decide (j = i)) as [->|Hne].
  - by rewrite lookup_alter_eq, lookup_insert_eq, Hv.
  - by rewrite lookup_alter_ne, lookup_insert_ne.
Qed.

(** ** Accounting *)

Lemma inos_plain i : i ∈ inos -> plain i.
Proof. intros Hi%elem_of_inos. unfold valid_ino in Hi. rewrite LAST_INO_eq in Hi. unfold plain, ALIASED_INO. lia. Qed.

Lemma free_ino_in v i : free_ino v = Some i -> i ∈ inos.
Proof. unfold free_ino. intros Hh%head_Some_elem_of. by apply list_elem_of_filter in Hh as [_ ?]. Qed.

Lemma need_mono a b : 0 <= a <= b -> 0 <= need (nblocks a) <= need (nblocks b).
Proof.
  intros Hab. unfold need, nblocks. assert (0 <= (a + 511) / 512 <= (b + 511) / 512) as H.
  { split; [apply Z.div_pos; lia|apply Z.div_le_mono; lia]. }
  destruct (Z.ltb_spec NDIRECT ((a + 511) / 512)), (Z.ltb_spec NDIRECT ((b + 511) / 512)); lia.
Qed.

Lemma vspace_change v v' i : i ∈ inos -> (forall j, j <> i -> v' !! j = v !! j) ->
  vspace v' = vspace v - vblocks v i + vblocks v' i.
Proof.
  intros Hi Hj. unfold vspace. rewrite (zsum_change (vblocks v) (vblocks v') inos i); [lia|apply NoDup_seqZ|done|].
  intros j Hne. unfold vblocks. by rewrite Hj.
Qed.

Lemma vspace_insert v i p : i ∈ inos ->
  vspace (<[i := p]> v) = vspace v - vblocks v i + need (nblocks (Z.of_nat (length p.2))).
Proof.
  intros Hi. rewrite (vspace_change v _ i Hi); [|intros j Hj; by rewrite lookup_insert_ne].
  unfold vblocks at 2. by rewrite lookup_insert_eq.
Qed.

Lemma vspace_delete v i : i ∈ inos -> vspace (delete i v) = vspace v - vblocks v i.
Proof.
  intros Hi. rewrite (vspace_change v _ i Hi); [|intros j Hj; by rewrite lookup_delete_ne].
  unfold vblocks at 2. rewrite lookup_delete_eq. lia.
Qed.

Lemma vblocks_nonneg v i : 0 <= vblocks v i.
Proof. unfold vblocks. destruct (v !! i); [|done]. apply (need_mono _ (Z.of_nat (length p.2))). lia. Qed.

(** There is room for as much as there is, or less. *)
Lemma room_shrink v i p len : i ∈ inos -> v !! i = Some p -> vspace v <= CAPACITY ->
  0 <= len <= Z.of_nat (length p.2) -> Z.of_nat (length p.2) <= MAXFILE -> room_for v i len.
Proof.
  intros Hi Hv Hc Hl Hm. split; [lia|]. unfold vblocks. rewrite Hv. pose proof (need_mono _ _ Hl). lia.
Qed.
