(* ===== verification/YfsFacts.v ===== *)
(** * YfsFacts: directories and files behave as such

    The content of a directory is the concatenation of its entries, which
    [readdir] parses back; lookups, creations and removals act on the list of
    entries; reads and writes act on byte ranges. *)

From Stdlib Require Import ZArith Lia.
From S2P Require Import Prelude CppString BlockLayer Inode FileSystem ExtentServer ExtentClient.
From S2P Require Import YfsClient YfsView.

(** ** The format of a directory *)

Definition enc_ent (e : dirent) : list byte := entry (d_name e) (d_inum e).
Definition enc_dir (ents : list dirent) : list byte := concat (enc_ent <$> ents).

(** Names have no slash, numbers 64 bits. *)
Definition ent_ok (e : dirent) : Prop := slash ∉ d_name e /\ 0 <= d_inum e < 2 ^ 64.

Lemma enc_dir_app es es' : enc_dir (es ++ es') = enc_dir es ++ enc_dir es'.
Proof. unfold enc_dir. by rewrite fmap_app, concat_app. Qed.

Lemma enc_dir_cons e es : enc_dir (e :: es) = d_name e ++ slash :: filename (d_inum e) ++ slash :: enc_dir es.
Proof.
  unfold enc_dir. rewrite fmap_cons. cbn [concat]. unfold enc_ent at 1, entry.
  by rewrite <- !app_assoc.
Qed.

Lemma enc_dir_nonempty e es : exists b bs, enc_dir (e :: es) = b :: bs.
Proof. rewrite enc_dir_cons. destruct (d_name e); cbn; eauto. Qed.

Section readdir.
Context `{HeapMem}.

(** One round of the loop of [readdir]. *)
Lemma readdir_field s r : slash ∉ s -> Z.of_nat (length (s ++ slash :: r)) < 2 ^ 64 ->
  let pos := find_char slash (s ++ slash :: r) 0 in
  substr (s ++ slash :: r) 0 pos = Ok s /\ substr (s ++ slash :: r) (u64 (pos + 1)) npos = Ok r.
Proof.
  intros Hs Hl. cbv zeta. rewrite find_char_app by done. rewrite Z.add_0_l.
  rewrite length_app in Hl. cbn [length] in Hl. rewrite wrapU_small by lia. split.
  - apply substr_prefix.
  - change (s ++ slash :: r) with (s ++ [slash] ++ r). rewrite app_assoc.
    replace (Z.of_nat (length s) + 1) with (Z.of_nat (length (s ++ [slash])))
      by len.
    apply substr_suffix. rewrite !length_app. cbn [length]. lia.
Qed.

Lemma readdir_loop_enc es : forall fuel acc,
  Forall ent_ok es -> Z.of_nat (length (enc_dir es)) < 2 ^ 64 -> (length es <= fuel)%nat ->
  readdir_loop fuel (enc_dir es) acc = Ok (acc ++ es).
Proof.
  induction es as [|e es IH]; intros fuel acc Hok Hl Hf.
  { destruct fuel; cbn; by rewrite app_nil_r. }
  apply Forall_cons in Hok as [[Hn Hi] Hok]. cbn [length] in Hf. destruct fuel as [|fuel]; [lia|].
  destruct (enc_dir_nonempty e es) as (b & bs & E). unfold readdir_loop. rewrite E. fold readdir_loop.
  rewrite <- E. rewrite enc_dir_cons in Hl |- *.
  set (r := filename (d_inum e) ++ slash :: enc_dir es) in *.
  destruct (readdir_field (d_name e) r Hn Hl) as [-> ->]. run_ok.
  rewrite length_app in Hl. cbn [length] in Hl.
  destruct (readdir_field (filename (d_inum e)) (enc_dir es)) as [E1 E2];
    [by apply dec_no_slash|unfold r in Hl; lia|]. fold r in E1, E2. rewrite E1. run_ok. rewrite E2. run_ok.
  unfold n2i, filename. rewrite stream_dec by done. rewrite IH; [|done| |lia].
  - rewrite <- app_assoc. by destruct e.
  - unfold r in Hl. rewrite length_app in Hl. cbn [length] in Hl. lia.
Qed.

Lemma length_enc_dir es : (length es <= length (enc_dir es))%nat.
Proof.
  induction es as [|e es IH]; [done|]. rewrite enc_dir_cons, length_app. cbn [length].
  rewrite length_app. cbn [length]. lia.
Qed.

(** A buffer with no slash is never consumed: the loop does not end. *)
Lemma readdir_loop_hangs fuel : forall buf acc,
  buf <> [] -> slash ∉ buf -> Z.of_nat (length buf) < 2 ^ 64 -> readdir_loop fuel buf acc = Hang.
Proof.
  induction fuel as [|fuel IH]; intros buf acc Hne Hs Hl; destruct buf as [|b buf]; try done.
  unfold readdir_loop. fold readdir_loop. rewrite find_char_npos by done.
  assert (substr (b :: buf) 0 npos = Ok (b :: buf)) as E
    by (destruct (substr_all (b :: buf)) as [?|?]; [done|lia]).
  change (u64 (npos + 1)) with 0. repeat (rewrite E; run_ok).
  rewrite find_char_npos by done. change (u64 (npos + 1)) with 0. repeat (rewrite E; run_ok).
  by apply IH.
Qed.

End readdir.

(** ** Finding an entry in a directory's content *)

Lemma prefix_slash a b r1 r2 : slash ∉ a -> slash ∉ b ->
  (exists r, b ++ slash :: r2 = (a ++ slash :: r1) ++ r) -> a = b /\ exists r, r2 = r1 ++ r.
Proof.
  revert b. induction a as [|x a IH]; intros b Ha Hb [r E].
  - destruct b as [|y b]; [injection E as E; eauto|]. injection E as -> E. exfalso. apply Hb. left.
  - apply not_elem_of_cons in Ha as [Hx Ha]. destruct b as [|y b]; [injection E as E _; congruence|].
    apply not_elem_of_cons in Hb as [Hy Hb]. injection E as -> E.
    destruct (IH b Ha Hb) as [-> Hr]; [by exists r|]. done.
Qed.

(** A name that cannot be mistaken for the end of a number. *)
Definition has_nondigit (name : list byte) : Prop := exists b, b ∈ name /\ is_digit b = false.

Lemma dec_digits_only i b : 0 <= i < 2 ^ 64 -> b ∈ dec i -> is_digit b = true.
Proof.
  intros Hi Hb. destruct (dec_spec i Hi) as (d & ds & E & Hf & _). rewrite E in Hb.
  by eapply Forall_forall in Hf.
Qed.

(** Within another entry's text the entry [name/i/] does not start. *)
Lemma entry_not_inside e name i rest k :
  ent_ok e -> slash ∉ name -> has_nondigit name -> 0 <= i < 2 ^ 64 -> d_inum e <> i ->
  (k < length (enc_ent e))%nat -> is_prefix (entry name i) (drop k (enc_ent e ++ rest)) = false.
Proof.
  intros [Hn He] Hs (c & Hc & Hcd) Hi Hne Hk. destruct (is_prefix _ _) eqn:Hp; [|done]. exfalso.
  apply is_prefix_spec in Hp as [r Er]. unfold enc_ent, entry in Er, Hk.
  rewrite !length_app in Hk. cbn [length] in Hk. rewrite <- !app_assoc in Er. cbn [app] in Er.
  destruct (decide (k <= length (d_name e))%nat) as [Hk1|Hk1].
  - rewrite drop_app_le in Er by done.
    destruct (prefix_slash name (drop k (d_name e)) (filename i ++ [slash])
      (filename (d_inum e) ++ slash :: rest)) as [_ [r' Er']];
      [done|intros Hx; apply Hn; by eapply elem_of_drop_in|
       exists r; rewrite Er; rewrite <- app_assoc; cbn [app]; by rewrite <- app_assoc|].
    destruct (prefix_slash (filename i) (filename (d_inum e)) [] rest) as [E _];
      [by apply dec_no_slash|by apply dec_no_slash|exists r'; rewrite Er'; by rewrite <- app_assoc|].
    apply Hne. symmetry. by apply dec_inj.
  - rewrite drop_app_ge in Er by lia.
    destruct (k - length (d_name e))%nat as [|k'] eqn:Ek; [lia|]. cbn [drop] in Er.
    destruct (prefix_slash name (drop k' (filename (d_inum e))) (filename i ++ [slash]) rest) as [E _];
      [done|intros Hx; apply (dec_no_slash (d_inum e)); [done|];
        by eapply elem_of_drop_in|
       |].
    + exists r. rewrite drop_app_le in Er by lia. rewrite Er. rewrite <- app_assoc. cbn [app]. by rewrite <- app_assoc.
    + rewrite E in Hc. apply elem_of_drop_in, (dec_digits_only (d_inum e)) in Hc; [congruence|done].
Qed.

(** The first occurrence of an entry's text is the entry. *)
Lemma find_entry es1 e es2 :
  Forall ent_ok (es1 ++ e :: es2) -> has_nondigit (d_name e) ->
  (forall e', e' ∈ es1 -> d_inum e' <> d_inum e) ->
  find_str (enc_ent e) (enc_dir (es1 ++ e :: es2)) 0 = Z.of_nat (length (enc_dir es1)).
Proof.
  intros Hok Hnd Hne. rewrite enc_dir_app.
  assert (enc_dir (e :: es2) = enc_ent e ++ enc_dir es2) as -> by done.
  rewrite find_str_app; [lia|]. apply Forall_app in Hok as [Hok1 Hok2]. apply Forall_cons in Hok2 as [[Hs Hi] _].
  generalize (enc_ent e ++ enc_dir es2). intros rest.
  induction es1 as [|a es1 IH]; intros k Hk; [cbn in Hk; lia|]. apply Forall_cons in Hok1 as [Ha Hok1].
  assert (enc_dir (a :: es1) = enc_ent a ++ enc_dir es1) as E by done. rewrite E in Hk |- *.
  rewrite <- app_assoc. destruct (decide (k < length (enc_ent a))%nat) as [Hlt|Hge].
  - apply entry_not_inside; [done..| |done]. apply Hne. left.
  - rewrite drop_app_ge by lia. rewrite length_app in Hk. apply IH; [done| |lia].
    intros e' He'. apply Hne. by right.
Qed.

(** Cutting an entry out of the content, as [_unlink] does. *)
Lemma cut_entry es1 name i es2 :
  Forall ent_ok (es1 ++ mk_dirent name i :: es2) -> has_nondigit name ->
  NoDup (d_inum <$> es1 ++ mk_dirent name i :: es2) ->
  let buf := enc_dir (es1 ++ mk_dirent name i :: es2) in
  str_replace buf (find_str (entry name i) buf 0) (Z.of_nat (length (entry name i))) [] = Ok (enc_dir (es1 ++ es2)).
Proof.
  intros Hok Hnd Hdup. cbv zeta. change (entry name i) with (enc_ent (mk_dirent name i)). rewrite find_entry.
  - rewrite enc_dir_app. change (enc_dir (mk_dirent name i :: es2)) with (enc_ent (mk_dirent name i) ++ enc_dir es2).
    rewrite str_replace_mid. cbn [app]. by rewrite <- enc_dir_app.
  - done.
  - done.
  - intros e' He' Ee. rewrite fmap_app, fmap_cons in Hdup. cbn [d_inum] in *.
    apply NoDup_app in Hdup as (_ & Hdis & _). apply (Hdis i); [|left].
    rewrite <- Ee. by apply list_elem_of_fmap_2.
Qed.

(** ** Operations on directories *)

Section ops.
Context `{HeapMem} {S : Type} `{ExtentClientOK S}.

(** File [d] is a directory with the entries [ents]. *)
Record is_dir (v : gmap Z node) (d : Z) (ents : list dirent) : Prop := {
  id_plain : plain d;
  id_node : v !! d = Some (T_DIR, enc_dir ents);
  id_ents : Forall ent_ok ents;
  id_size : Z.of_nat (length (enc_dir ents)) <= MAXFILE;
}.

Definition type_of (v : gmap Z node) (i : Z) : Z := u32 (default 0 (fst <$> v !! i)).

Lemma isdir_spec n v s i : holds (Datatypes.S n) v s -> plain i ->
  exists s', yfs_isdir i s = Ok (type_of v i =? T_DIR, s') /\ holds n v s'.
Proof.
  intros Hh Hp. unfold yfs_isdir. destruct (holds_getattr n v s i zero_attr Hh Hp) as (a & s' & -> & Hh' & Ht & _).
  run_ok. rewrite Ht. fold (type_of v i). exists s'. split; [|done]. cbn. by destruct (type_of v i =? T_DIR).
Qed.

Lemma isfile_spec n v s i : holds (Datatypes.S n) v s -> plain i ->
  exists s', yfs_isfile i s = Ok (type_of v i =? T_FILE, s') /\ holds n v s'.
Proof.
  intros Hh Hp. unfold yfs_isfile. destruct (holds_getattr n v s i zero_attr Hh Hp) as (a & s' & -> & Hh' & Ht & _).
  run_ok. rewrite Ht. fold (type_of v i). exists s'. split; [|done]. cbn. by destruct (type_of v i =? T_FILE).
Qed.

Lemma readdir_spec n v s d ents list : holds (Datatypes.S n) v s -> is_dir v d ents ->
  exists s', yfs_readdir d list s = Ok (yfs_OK, list ++ ents, s') /\ holds n v s'.
Proof.
  intros Hh [Hp Hd He Hl]. unfold yfs_readdir.
  destruct (holds_get n v s d [] Hh Hp) as (s' & -> & Hh'). run_ok. rewrite Hd. cbn [fmap option_fmap option_map default from_option id snd].
  change (negb (extent_OK =? yfs_OK)) with false. cbv iota. rewrite MAXFILE_eq in Hl.
  rewrite readdir_loop_enc; [run_ok; eauto|done|lia|apply length_enc_dir].
Qed.

(** The answer of a lookup among [ents]. *)
Definition lookup_answer (name : list byte) (ents : list dirent) (i0 : Z) : Z * bool * Z :=
  match find_ent name ents with Some i => (yfs_EXIST, true, i) | None => (yfs_OK, false, i0) end.

Lemma lookup_spec n v s d ents name i0 : holds (Datatypes.S (Datatypes.S n)) v s -> is_dir v d ents ->
  exists s', yfs_lookup d name i0 s = Ok (lookup_answer name ents i0, s') /\ holds n v s'.
Proof.
  intros Hh Hd. unfold yfs_lookup. destruct (isdir_spec _ v s d Hh (id_plain _ _ _ Hd)) as (s1 & -> & Hh1).
  unfold type_of. rewrite (id_node _ _ _ Hd). run_ok. change (u32 _ =? T_DIR) with true. cbn [negb].
  destruct (readdir_spec n v s1 d ents [] Hh1 Hd) as (s2 & -> & Hh2). run_ok.
  change (negb (yfs_OK =? yfs_OK)) with false. cbv iota. exists s2. split; [|done].
  unfold lookup_answer. cbn [app]. by destruct (find_ent name ents).
Qed.

Lemma lookup_not_dir n v s d name i0 :
  holds (Datatypes.S n) v s -> plain d -> type_of v d <> T_DIR ->
  exists s', yfs_lookup d name i0 s = Ok (yfs_OK, false, i0, s') /\ holds n v s'.
Proof.
  intros Hh Hp Ht. unfold yfs_lookup. destruct (isdir_spec _ v s d Hh Hp) as (s1 & -> & Hh1). run_ok.
  rewrite (proj2 (Z.eqb_neq _ _) Ht). cbn [negb]. eauto.
Qed.

(** [v] with a new file of type [t] and content [c], entered in directory [d]. *)
Definition add_file (v : gmap Z node) (d : Z) (ents : list dirent) (name : list byte) (i t : Z)
    (c : list byte) : gmap Z node :=
  <[d := (T_DIR, enc_dir (ents ++ [mk_dirent name i]))]> (<[i := (t, c)]> v).

Lemma free_ino_not_dir v d ents i : free_ino v = Some i -> is_dir v d ents -> i <> d.
Proof.
  intros Hf Hd E. apply free_ino_plain in Hf as [_ Hn]. rewrite E, (id_node _ _ _ Hd) in Hn. done.
Qed.

(** What remains once the inode exists: append an entry to the parent. *)
Lemma append_entry n v s d ents name i t c :
  holds (Datatypes.S (Datatypes.S n)) (<[i := (t, c)]> v) s -> is_dir v d ents -> i <> d ->
  room_for (<[i := (t, c)]> v) d (Z.of_nat (length (enc_dir (ents ++ [mk_dirent name i])))) ->
  exists s', ('(r, buf, s) ← ec_get d [] s;
              if negb (r =? yfs_OK) then Ok (r, i, s)
              else '(r, s) ← ec_put d (buf ++ entry name i) s; Ok (r, i, s)) = Ok (yfs_OK, i, s') /\
    holds n (add_file v d ents name i t c) s'.
Proof.
  intros Hh Hd Hne Hroom. pose proof (id_plain _ _ _ Hd) as Hp.
  assert (<[i := (t, c)]> v !! d = Some (T_DIR, enc_dir ents)) as Hl
    by (rewrite lookup_insert_ne by done; apply Hd).
  assert (enc_dir (ents ++ [mk_dirent name i]) = enc_dir ents ++ entry name i) as He
    by (rewrite enc_dir_app; f_equal; unfold enc_dir; cbn; apply app_nil_r).
  destruct (holds_get _ _ s d [] Hh Hp) as (s1 & -> & Hh1). run_ok. rewrite Hl.
  cbn [fmap option_fmap option_map default from_option id snd].
  change (negb (extent_OK =? yfs_OK)) with false. cbv iota.
  destruct (holds_put n _ s1 d (enc_dir ents ++ entry name i) Hh1 Hp) as (s2 & -> & Hh2);
    [by eexists|by rewrite <- He|]. run_ok. exists s2. split; [done|].
  unfold add_file. rewrite He. rewrite (alter_insert_id (set_data _) _ d (T_DIR, enc_dir ents)) in Hh2 by done.
  done.
Qed.

(** Creation under a name that is not taken: [i] is the number chosen. *)
Lemma create_spec n v s d ents name mode i0 i :
  holds (5 + n) v s -> is_dir v d ents -> find_ent name ents = None -> free_ino v = Some i ->
  room_for (<[i := (T_FILE, [])]> v) d (Z.of_nat (length (enc_dir (ents ++ [mk_dirent name i])))) ->
  exists s', yfs_create d name mode i0 s = Ok (yfs_OK, i, s') /\
    holds n (add_file v d ents name i T_FILE []) s'.
Proof.
  intros Hh Hd Hf Hi Hroom. unfold yfs_create.
  destruct (lookup_spec _ v s d ents name i0 Hh Hd) as (s1 & -> & Hh1). unfold lookup_answer. rewrite Hf. run_ok.
  destruct (holds_create _ v s1 T_FILE i0 i Hh1) as (s2 & -> & Hh2); [done|done|done|]. run_ok.
  apply append_entry; [done|done|by eapply free_ino_not_dir|done].
Qed.

Lemma mkdir_spec n v s d ents name mode i0 i :
  holds (5 + n) v s -> is_dir v d ents -> find_ent name ents = None -> free_ino v = Some i ->
  room_for (<[i := (T_DIR, [])]> v) d (Z.of_nat (length (enc_dir (ents ++ [mk_dirent name i])))) ->
  exists s', yfs_mkdir d name mode i0 s = Ok (yfs_OK, i, s') /\
    holds n (add_file v d ents name i T_DIR []) s'.
Proof.
  intros Hh Hd Hf Hi Hroom. unfold yfs_mkdir.
  destruct (lookup_spec _ v s d ents name i0 Hh Hd) as (s1 & -> & Hh1). unfold lookup_answer. rewrite Hf. run_ok.
  destruct (holds_create _ v s1 T_DIR i0 i Hh1) as (s2 & -> & Hh2); [done|done|done|]. run_ok.
  apply append_entry; [done|done|by eapply free_ino_not_dir|done].
Qed.

Lemma symlink_spec n v s d ents name link i0 i :
  holds (6 + n) v s -> is_dir v d ents -> find_ent name ents = None -> free_ino v = Some i ->
  room_for (<[i := (T_SYMLINK, [])]> v) i (Z.of_nat (length link)) ->
  room_for (<[i := (T_SYMLINK, link)]> v) d (Z.of_nat (length (enc_dir (ents ++ [mk_dirent name i])))) ->
  exists s', yfs_symlink d name link i0 s = Ok (yfs_OK, i, s') /\
    holds n (add_file v d ents name i T_SYMLINK link) s'.
Proof.
  intros Hh Hd Hf Hi Hroom1 Hroom2. unfold yfs_symlink. destruct (free_ino_plain v i Hi) as [Hp _].
  destruct (lookup_spec _ v s d ents name i0 Hh Hd) as (s1 & -> & Hh1). unfold lookup_answer. rewrite Hf. run_ok.
  destruct (holds_create _ v s1 T_SYMLINK i0 i Hh1) as (s2 & -> & Hh2); [done|done|done|]. run_ok.
  destruct (holds_put _ _ s2 i link Hh2 Hp) as (s3 & -> & Hh3); [rewrite lookup_insert_eq; by eexists|done|]. run_ok.
  rewrite (alter_insert_id _ _ i (T_SYMLINK, [])), insert_insert_eq in Hh3 by by rewrite lookup_insert_eq.
  apply append_entry; [done|done|by eapply free_ino_not_dir|done].
Qed.

(** A name that is taken: nothing changes. *)
Lemma taken_spec n v s d ents name mode i0 i :
  holds (2 + n) v s -> is_dir v d ents -> find_ent name ents = Some i ->
  (exists s', yfs_create d name mode i0 s = Ok (yfs_EXIST, i, s') /\ holds n v s') /\
  (exists s', yfs_mkdir d name mode i0 s = Ok (yfs_EXIST, i, s') /\ holds n v s') /\
  (forall link, exists s', yfs_symlink d name link i0 s = Ok (yfs_EXIST, i, s') /\ holds n v s').
Proof.
  intros Hh Hd Hf. unfold yfs_create, yfs_mkdir, yfs_symlink.
  destruct (lookup_spec _ v s d ents name i0 Hh Hd) as (s1 & -> & Hh1). unfold lookup_answer. rewrite Hf. run_ok.
  eauto 10.
Qed.

(** ** Removal *)

Lemma find_ent_split name ents i : find_ent name ents = Some i ->
  exists es1 es2, ents = es1 ++ mk_dirent name i :: es2.
Proof.
  induction ents as [|e ents IH]; cbn [find_ent]; [done|].
  case_bool_decide as He; [intros [= <-]; exists [], ents; destruct e; cbn in *; by subst|].
  intros Hf. destruct (IH Hf) as (es1 & es2 & ->). by exists (e :: es1), es2.
Qed.

Lemma unlink_spec n v s d es1 name i es2 :
  let ents := es1 ++ mk_dirent name i :: es2 in
  holds (5 + n) v s -> is_dir v d ents -> find_ent name ents = Some i ->
  has_nondigit name -> NoDup (d_inum <$> ents) -> plain i -> i <> d ->
  room_for (delete i v) d (Z.of_nat (length (enc_dir (es1 ++ es2)))) ->
  exists s', yfs_unlink d name s = Ok (yfs_OK, s') /\
    holds n (<[d := (T_DIR, enc_dir (es1 ++ es2))]> (delete i v)) s'.
Proof.
  intros ents Hh Hd Hf Hnd Hdup Hpi Hne Hroom. unfold yfs_unlink.
  destruct (lookup_spec _ v s d ents name (u64 stack_int) Hh Hd) as (s1 & -> & Hh1).
  unfold lookup_answer. rewrite Hf. run_ok. cbn [negb].
  destruct (holds_remove _ v s1 i Hh1 Hpi) as (s2 & -> & Hh2). run_ok.
  destruct (holds_get _ _ s2 d [] Hh2 (id_plain _ _ _ Hd)) as (s3 & -> & Hh3). run_ok.
  assert (delete i v !! d = Some (T_DIR, enc_dir ents)) as Hl by (rewrite lookup_delete_ne by done; apply Hd).
  rewrite Hl. cbn [fmap option_fmap option_map default from_option id snd].
  change (negb (extent_OK =? yfs_OK)) with false. cbv iota.
  unfold ents. rewrite (cut_entry es1 name i es2) by (done || apply Hd). rewrite bind_Ok.
  destruct (holds_put n _ s3 d (enc_dir (es1 ++ es2)) Hh3 (id_plain _ _ _ Hd)) as (s4 & -> & Hh4);
    [by eexists|done|]. exists s4. split; [done|].
  by rewrite (alter_insert_id _ _ d (T_DIR, enc_dir ents)) in Hh4.
Qed.

Lemma unlink_missing n v s d ents name :
  holds (2 + n) v s -> is_dir v d ents -> find_ent name ents = None ->
  exists s', yfs_unlink d name s = Ok (yfs_NOENT, s') /\ holds n v s'.
Proof.
  intros Hh Hd Hf. unfold yfs_unlink.
  destruct (lookup_spec _ v s d ents name (u64 stack_int) Hh Hd) as (s1 & -> & Hh1).
  unfold lookup_answer. rewrite Hf. run_ok. cbn [negb]. eauto.
Qed.

(** ** Contents *)

(** [buf] with [data] stored at [off], zero filled up to there. *)
Definition write_at (buf : list byte) (off : nat) (data : list byte) : list byte :=
  take off (buf ++ replicate (off - length buf) x00) ++ data ++ drop (off + length data) buf.

Lemma write_at_lookup buf off data k :
  write_at buf off data !! k =
    if (k <? off)%nat then if (k <? length buf)%nat then buf !! k else Some x00
    else if (k <? off + length data)%nat then data !! (k - off)%nat else buf !! k.
Proof.
  unfold write_at. set (pre := take off _).
  assert (length pre = off) as Hp by (unfold pre; rewrite length_take, length_app, length_replicate; lia).
  destruct (Nat.ltb_spec k off) as [Hk|Hk].
  - rewrite lookup_app_l by lia. unfold pre. rewrite lookup_take_lt by lia.
    destruct (Nat.ltb_spec k (length buf)) as [Hl|Hl]; [by rewrite lookup_app_l|].
    rewrite lookup_app_r by lia. apply lookup_replicate_2. lia.
  - rewrite lookup_app_r by lia. rewrite Hp. destruct (Nat.ltb_spec k (off + length data)) as [Hl|Hl].
    + by rewrite lookup_app_l by lia.
    + rewrite lookup_app_r by lia. rewrite lookup_drop. f_equal. lia.
Qed.

Lemma write_at_slice buf off data : take (length data) (drop off (write_at buf off data)) = data.
Proof.
  unfold write_at. rewrite drop_app_length' by len.
  apply take_app_length.
Qed.

Lemma read_spec n v s i size off data :
  holds (Datatypes.S n) v s -> plain i -> 0 <= size -> 0 <= off < 2 ^ 31 ->
  Z.of_nat (length (default [] (snd <$> v !! i))) <= MAXFILE ->
  exists s', yfs_read i size off data s =
      Ok (yfs_OK, take (Z.to_nat size) (drop (Z.to_nat off) (default [] (snd <$> v !! i))), s') /\
    holds n v s'.
Proof.
  intros Hh Hp Hs Ho Hl. unfold yfs_read. destruct (holds_get n v s i [] Hh Hp) as (s' & -> & Hh'). run_ok.
  set (buf := default [] (snd <$> v !! i)) in *. rewrite MAXFILE_eq in Hl.
  change (negb (extent_OK =? yfs_OK)) with false. cbv iota. rewrite wrapS_small by lia. exists s'. split; [|done].
  destruct (Z.leb_spec (Z.of_nat (length buf)) off) as [Hle|Hgt].
  - rewrite drop_ge by lia. by rewrite take_nil.
  - unfold substr. rewrite wrapU_small, (proj2 (Z.ltb_ge _ _)) by lia. run_ok. do 3 f_equal.
    destruct (decide (size <= Z.of_nat (length buf) - off)) as [Hsz|Hsz].
    + by rewrite Z.min_l.
    + rewrite Z.min_r by lia. rewrite !take_ge; [done|rewrite length_drop; lia..].
Qed.

(** The two steps of [_write] on the content. *)
Lemma write_buffer buf off data : Z.of_nat (length buf) < 2 ^ 31 -> 0 <= off < 2 ^ 31 ->
  exists buf', (if Z.of_nat (length buf) <? off then str_resize buf off else Ok buf) = Ok buf' /\
    str_replace buf' off (Z.of_nat (length data)) data = Ok (write_at buf (Z.to_nat off) data).
Proof.
  intros Hl Ho.
  assert (exists buf', (if Z.of_nat (length buf) <? off then str_resize buf off else Ok buf) = Ok buf' /\
    take (Z.to_nat off) buf' = take (Z.to_nat off) (buf ++ replicate (Z.to_nat off - length buf) x00) /\
    off <= Z.of_nat (length buf') /\
    forall k, (Z.to_nat off <= k)%nat -> drop k buf' = drop k buf) as (buf' & E & Ht & Hlen & Hdrop).
  { destruct (Z.ltb_spec (Z.of_nat (length buf)) off) as [Hlt|Hge].
    - unfold str_resize, STR_MAX. rewrite (proj2 (Z.ltb_ge _ _)) by lia.
      eexists. split; [done|]. rewrite (take_ge buf) by lia. split; [done|].
      rewrite length_app, length_replicate. split; [lia|]. intros k Hk.
      rewrite !drop_ge; [done|lia|]. rewrite length_app, length_replicate. lia.
    - exists buf. split; [done|]. split; [|done]. rewrite take_app_le by lia. done. }
  exists buf'. split; [exact E|]. unfold str_replace. rewrite (proj2 (Z.ltb_ge _ _)) by lia.
  unfold write_at. rewrite Ht. do 3 f_equal.
  destruct (decide (Z.of_nat (length data) <= Z.of_nat (length buf') - off)) as [Hd|Hd].
  - rewrite Z.min_l by done. rewrite Hdrop by lia. f_equal. lia.
  - rewrite Z.min_r by lia. rewrite drop_ge by lia. rewrite <- Hdrop by lia. symmetry. apply drop_ge. lia.
Qed.

Lemma write_spec n v s i size off data w t buf :
  holds (2 + n) v s -> plain i -> v !! i = Some (t, buf) -> Z.of_nat (length buf) <= MAXFILE ->
  0 <= off <= MAXFILE -> size = Z.of_nat (length data) ->
  room_for v i (Z.of_nat (length (write_at buf (Z.to_nat off) data))) ->
  exists s', yfs_write i size off data w s = Ok (yfs_OK, size, s') /\
    holds n (<[i := (t, write_at buf (Z.to_nat off) data)]> v) s'.
Proof.
  intros Hh Hp Hv Hl Ho -> Hroom. unfold yfs_write. destruct (holds_get _ v s i [] Hh Hp) as (s' & -> & Hh').
  run_ok. rewrite Hv. cbn [fmap option_fmap option_map default from_option id snd].
  change (negb (extent_OK =? yfs_OK)) with false. cbv iota. rewrite MAXFILE_eq in *.
  rewrite Z.ltb_irrefl. rewrite (wrapU_small 64 off) by lia. rewrite (take_ge data) by lia.
  destruct (write_buffer buf off data) as (buf' & -> & E2); [lia|lia|]. rewrite bind_Ok, E2, bind_Ok.
  destruct (holds_put n v s' i (write_at buf (Z.to_nat off) data) Hh' Hp) as (s2 & E & Hh2);
    [by eexists|done|]. rewrite E. run_ok. exists s2. split; [done|].
  by rewrite (alter_insert_id _ _ i (t, buf)) in Hh2.
Qed.

(** [setattr] truncates or extends with zeros. *)
Lemma setattr_spec n v s i size t buf :
  holds (2 + n) v s -> plain i -> v !! i = Some (t, buf) -> 0 <= size ->
  room_for v i size ->
  let buf' := take (Z.to_nat size) buf ++ replicate (Z.to_nat size - length buf) x00 in
  exists s', yfs_setattr i size s = Ok (yfs_OK, s') /\ holds n (<[i := (t, buf')]> v) s' /\
    Z.of_nat (length buf') = size.
Proof.
  intros Hh Hp Hv Hs Hroom buf'.
  assert (Z.of_nat (length buf') = size) as Hl
    by (unfold buf'; rewrite length_app, length_take, length_replicate; lia).
  unfold yfs_setattr. destruct (holds_get _ v s i [] Hh Hp) as (s' & -> & Hh').
  run_ok. rewrite Hv. cbn [fmap option_fmap option_map default from_option id snd].
  change (negb (extent_OK =? yfs_OK)) with false. cbv iota. pose proof Hroom as [Hmax _]. rewrite MAXFILE_eq in Hmax.
  unfold str_resize, STR_MAX. rewrite (proj2 (Z.ltb_ge _ _)) by lia. run_ok. fold buf'.
  destruct (holds_put n v s' i buf' Hh' Hp) as (s2 & -> & Hh2); [by eexists|by rewrite Hl|].
  exists s2. split; [done|]. split; [|done]. by rewrite (alter_insert_id _ _ i (t, buf)) in Hh2.
Qed.

(** ** Directories after a change *)

Lemma find_ent_app name es es' :
  find_ent name (es ++ es') = match find_ent name es with Some i => Some i | None => find_ent name es' end.
Proof. induction es as [|e es IH]; cbn [app find_ent]; [done|]. by case_bool_decide. Qed.

Lemma find_ent_None name es : find_ent name es = None <-> name ∉ d_name <$> es.
Proof.
  induction es as [|e es IH]; cbn [find_ent]; [set_solver|]. rewrite fmap_cons, not_elem_of_cons.
  case_bool_decide as He; [intuition congruence|]. rewrite IH. intuition congruence.
Qed.

Lemma find_ent_new name es i : find_ent name es = None -> find_ent name (es ++ [mk_dirent name i]) = Some i.
Proof. intros E. rewrite find_ent_app, E. cbn. by rewrite bool_decide_true. Qed.

Lemma find_ent_new_ne name name' es i : name' <> name ->
  find_ent name' (es ++ [mk_dirent name i]) = find_ent name' es.
Proof.
  intros Hne. rewrite find_ent_app. destruct (find_ent name' es); [done|]. cbn. by rewrite bool_decide_false.
Qed.

Lemma find_ent_cut name es1 i es2 : NoDup (d_name <$> es1 ++ mk_dirent name i :: es2) ->
  find_ent name (es1 ++ es2) = None /\
  forall name', name' <> name -> find_ent name' (es1 ++ es2) = find_ent name' (es1 ++ mk_dirent name i :: es2).
Proof.
  rewrite fmap_app, fmap_cons. cbn [d_name]. intros (Hnd1 & Hd & Hnd2)%NoDup_app. apply NoDup_cons in Hnd2 as [Hn2 _].
  split.
  - apply find_ent_None. rewrite fmap_app, not_elem_of_app. split; [|done]. intros Hin. apply (Hd name Hin). left.
  - intros name' Hne. rewrite !find_ent_app. destruct (find_ent name' es1); [done|]. cbn [find_ent d_name].
    by rewrite bool_decide_false by congruence.
Qed.

Lemma add_file_is_dir v d ents name i t c :
  is_dir v d ents -> slash ∉ name -> free_ino v = Some i ->
  Z.of_nat (length (enc_dir (ents ++ [mk_dirent name i]))) <= MAXFILE ->
  is_dir (add_file v d ents name i t c) d (ents ++ [mk_dirent name i]).
Proof.
  intros [Hp Hd He _] Hs Hi Hl. split; [done|by unfold add_file; rewrite lookup_insert_eq| |done].
  apply Forall_app. split; [done|]. apply Forall_singleton. split; [done|].
  apply free_ino_plain in Hi as [[Hr _] _]. cbn. lia.
Qed.

Lemma add_file_at v d ents name i t c : i <> d -> add_file v d ents name i t c !! i = Some (t, c).
Proof. intros Hne. unfold add_file. by rewrite lookup_insert_ne, lookup_insert_eq. Qed.

Lemma add_file_other v d ents name i t c k : k <> d -> k <> i -> add_file v d ents name i t c !! k = v !! k.
Proof. intros Hd Hi. unfold add_file. by rewrite !lookup_insert_ne. Qed.

End ops.
