(* ===== verification/YfsShared.v ===== *)
(** * YfsShared: a file system operation while other clients are at work

    Between any two calls of an operation other clients may change the extents on the
    server: [env] is what they do before the next call.  The operations of [YfsClient] run
    on a [world] as they are. *)

From Stdlib Require Import ZArith Lia.
From S2P Require Import Prelude BlockLayer Inode ExtentServer ExtentClient.

Section shared.
Context {S : Type} `{ExtentClient S}.

(** What the other clients do before the call with this number, with these extents
    out of their reach. *)
Context (env : nat -> gset Z -> S -> S).

(** [w_log] has the extents the operation has changed, and whether each was its own. *)
Record world := mk_world { w_s : S; w_time : nat; w_own : gset Z; w_log : list (Z * bool) }.

Definition others (w : world) : world :=
  mk_world (env (w_time w) (w_own w) (w_s w)) (Datatypes.S (w_time w)) (w_own w) (w_log w).
Definition set_s (w : world) (s : S) : world := mk_world s (w_time w) (w_own w) (w_log w).
Definition changed (w : world) (id : Z) : world :=
  mk_world (w_s w) (w_time w) (w_own w) (w_log w ++ [(id, bool_decide (id ∈ w_own w))]).

(** An operation's own calls, each after what the others do. *)
#[export] Instance shared_client : ExtentClient world := {
  ec_create type id w :=
    let w := others w in
    '(r, i, s) ← ec_create type id (w_s w);
    Ok (r, i, mk_world s (w_time w) ({[i]} ∪ w_own w) (w_log w));
  ec_get id buf w := let w := others w in '(r, buf, s) ← ec_get id buf (w_s w); Ok (r, buf, set_s w s);
  ec_getattr id a w := let w := others w in '(r, a, s) ← ec_getattr id a (w_s w); Ok (r, a, set_s w s);
  ec_put id buf w := let w := others w in '(r, s) ← ec_put id buf (w_s w); Ok (r, changed (set_s w s) id);
  ec_remove id w := let w := others w in '(r, s) ← ec_remove id (w_s w); Ok (r, changed (set_s w s) id);
}.

End shared.
