(* ===== verification/YfsHistory.v ===== *)
(** * YfsHistory: interleaved operations of several clients

    A history is a sequence of events of clients of one extent server: a lock is granted, a
    call to the extent server is made and answered, a lock is given back.  Locks are exclusive
    and calls are answered by the extents as they are at that point, types and contents, without
    times and as long as there is room ([answer_server]).  [performs] says which events are
    those of an operation of [YfsClient]: the operation is run on a script of the calls and
    answers, and must use it up. *)

From Stdlib Require Import ZArith Lia.
From S2P Require Import Prelude CppString BlockLayer Inode FileBlocks FileSystem FileWrite ExtentServer.
From S2P Require Import ExtentRefine ExtentClient YfsClient YfsView.
#[local] Set Default Goal Selector "!".

Implicit Types (v : gmap Z node) (lid id : Z).

(** ** Calls to the extent server, with their answers *)

Inductive call :=
| CCreate (type i : Z)
| CGet (id : Z) (buf : list byte)
| CGetattr (id : Z) (a : attr)
| CPut (id : Z) (buf : list byte)
| CRemove (id : Z).

#[export] Instance attr_eq_dec : EqDecision attr.
Proof. solve_decision. Defined.

(** Attributes without times. *)
Definition attr_of v id : attr :=
  match v !! id with Some p => mk_attr (u32 p.1) 0 0 0 (Z.of_nat (length p.2)) | None => zero_attr end.
Definition data_at v id : list byte := default [] (snd <$> v !! id).

(** The extents after the call, if this is how it is answered. *)
Definition answer (k : call) v : option (gmap Z node) :=
  match k with
  | CCreate type i => if decide (free_ino v = Some i) then Some (<[i := (s16 type, [])]> v) else None
  | CGet id buf => if decide (data_at v id = buf) then Some v else None
  | CGetattr id a => if decide (attr_of v id = a) then Some v else None
  | CPut id buf => p ← v !! id; Some (<[id := (p.1, buf)]> v)
  | CRemove id => Some (delete id v)
  end.

Fixpoint replay (sc : list call) v : option (gmap Z node) :=
  match sc with [] => Some v | k :: sc => v ← answer k v; replay sc v end.

(** ** The server's side *)

(** Calls that an extent server with the extents [v] is fit to serve. *)
Definition served (k : call) v : Prop :=
  match k with
  | CCreate type _ => 0 <= type < 2 ^ 32 /\ s16 type <> 0
  | CPut id buf => plain id /\ room_for v id (Z.of_nat (length buf))
  | CGet id _ | CGetattr id _ | CRemove id => plain id
  end.

(** A client makes the call and gets the answer, times apart. *)
Definition made {S} `{ExtentClient S} (k : call) (s s' : S) : Prop :=
  match k with
  | CCreate type i => ec_create type 0 s = Ok (extent_OK, i, s')
  | CGet id buf => ec_get id [] s = Ok (extent_OK, buf, s')
  | CGetattr id a => exists a', ec_getattr id zero_attr s = Ok (extent_OK, a', s') /\
      a_type a' = a_type a /\ a_size a' = a_size a
  | CPut id buf => ec_put id buf s = Ok (extent_OK, s')
  | CRemove id => ec_remove id s = Ok (extent_OK, s')
  end.

(** This is how an extent server answers. *)
Lemma answer_server {S} `{ExtentClientOK S} n k v v' (s : S) : holds (1 + n) v s -> served k v -> answer k v = Some v' ->
  exists s', made k s s' /\ holds n v' s'.
Proof.
  intros Hh Hs Ha. destruct k as [type i|id buf|id a|id buf|id]; cbn in Hs, Ha |- *.
  - case_decide as E; [|done]. injection Ha as <-. destruct Hs. by apply (holds_create n v s type 0 i).
  - case_decide as E; [|done]. injection Ha as <-. subst buf. by apply (holds_get n v s id []).
  - case_decide as E; [|done]. injection Ha as <-. subst a.
    destruct (holds_getattr n v s id zero_attr Hh Hs) as (a & s' & E & Hh' & Ht & Hz). exists s'. split; [|done].
    exists a. split; [done|]. rewrite Ht, Hz. unfold attr_of. by destruct (v !! id).
  - destruct Hs as [Hp Hr]. destruct (v !! id) as [p|] eqn:E; [|done]. injection Ha as <-.
    destruct (holds_put n v s id buf Hh Hp) as (s' & E' & Hh'); [by eexists|done|]. exists s'. split; [done|].
    by rewrite (alter_insert_id _ _ id p) in Hh'.
  - injection Ha as <-. by apply (holds_remove n v s id).
Qed.

(** ** Two clients of the interface: a script, and the extents themselves *)

(** The calls an operation is to make, with the answers it gets. *)
#[export] Instance script_client : ExtentClient (list call) := {
  ec_create type _ sc :=
    match sc with CCreate type' i :: sc => if decide (type' = type) then Ok (extent_OK, i, sc) else Undef | _ => Undef end;
  ec_get id _ sc :=
    match sc with CGet id' buf :: sc => if decide (id' = id) then Ok (extent_OK, buf, sc) else Undef | _ => Undef end;
  ec_getattr id _ sc :=
    match sc with CGetattr id' a :: sc => if decide (id' = id) then Ok (extent_OK, a, sc) else Undef | _ => Undef end;
  ec_put id buf sc :=
    match sc with CPut id' buf' :: sc => if decide (id' = id /\ buf' = buf) then Ok (extent_OK, sc) else Undef | _ => Undef end;
  ec_remove id sc :=
    match sc with CRemove id' :: sc => if decide (id' = id) then Ok (extent_OK, sc) else Undef | _ => Undef end;
}.

#[export] Instance extents_client : ExtentClient (gmap Z node) := {
  ec_create type _ v :=
    match free_ino v with Some i => Ok (extent_OK, i, <[i := (s16 type, [])]> v) | None => Undef end;
  ec_get id _ v := Ok (extent_OK, data_at v id, v);
  ec_getattr id _ v := Ok (extent_OK, attr_of v id, v);
  ec_put id buf v := match v !! id with Some p => Ok (extent_OK, <[id := (p.1, buf)]> v) | None => Undef end;
  ec_remove id v := Ok (extent_OK, delete id v);
}.

(** The calls an operation is to make of its lock client, and no lock client at all. *)
Inductive lock_call := LAcquire (lid : Z) | LRelease (lid : Z).

#[export] Instance script_locks : LockClient (list lock_call) := {
  lc_acquire lid l := match l with LAcquire lid' :: l => if decide (lid' = lid) then Ok l else Undef | _ => Undef end;
  lc_release lid l := match l with LRelease lid' :: l => if decide (lid' = lid) then Ok l else Undef | _ => Undef end;
}.
#[export] Instance no_locks : LockClient unit := { lc_acquire _ l := Ok l; lc_release _ l := Ok l }.

(** ** Operations *)

Inductive yfs_op :=
| OpIsfile (i : Z)
| OpIsdir (i : Z)
| OpGetfile (i : Z)
| OpGetdir (i : Z)
| OpSetattr (i size : Z)
| OpCreate (d : Z) (name : list byte) (mode : Z)
| OpMkdir (d : Z) (name : list byte) (mode : Z)
| OpLookup (d : Z) (name : list byte)
| OpReaddir (d : Z)
| OpRead (i size off : Z)
| OpWrite (i size off : Z) (data : list byte)
| OpUnlink (d : Z) (name : list byte)
| OpSymlink (d : Z) (name link : list byte)
| OpReadlink (i : Z).

Inductive yfs_ret :=
| RetBool (b : bool)
| RetFile (r : Z) (fin : fileinfo)
| RetDir (r : Z) (din : dirinfo)
| RetStatus (r : Z)
| RetNew (r ino : Z)
| RetFound (r : Z) (found : bool) (ino : Z)
| RetEnts (r : Z) (ents : list dirent)
| RetData (r : Z) (data : list byte)
| RetCount (r n : Z).

Section perform.
Context `{HeapMem} {S : Type} `{ExtentClient S} {L : Type} `{LockClient L}.

(** The public operations, with output arguments as the handlers pass them. *)
Definition perform (op : yfs_op) (st : L * S) : result (yfs_ret * (L * S)) :=
  match op with
  | OpIsfile i => '(b, st) ← isfile i st; Ok (RetBool b, st)
  | OpIsdir i => '(b, st) ← isdir i st; Ok (RetBool b, st)
  | OpGetfile i => '(r, fin, st) ← getfile i (mk_fileinfo 0 0 0 0) st; Ok (RetFile r fin, st)
  | OpGetdir i => '(r, din, st) ← getdir i (mk_dirinfo 0 0 0) st; Ok (RetDir r din, st)
  | OpSetattr i size => '(r, st) ← setattr i size st; Ok (RetStatus r, st)
  | OpCreate d name mode => '(r, i, st) ← create d name mode (u64 stack_int) st; Ok (RetNew r i, st)
  | OpMkdir d name mode => '(r, i, st) ← mkdir d name mode (u64 stack_int) st; Ok (RetNew r i, st)
  | OpLookup d name => '(r, found, i, st) ← lookup d name (u64 stack_int) st; Ok (RetFound r found i, st)
  | OpReaddir d => '(r, ents, st) ← readdir d [] st; Ok (RetEnts r ents, st)
  | OpRead i size off => '(r, data, st) ← read i size off [] st; Ok (RetData r data, st)
  | OpWrite i size off data => '(r, n, st) ← write i size off data size st; Ok (RetCount r n, st)
  | OpUnlink d name => '(r, st) ← unlink d name st; Ok (RetStatus r, st)
  | OpSymlink d name link => '(r, i, st) ← symlink d name link (u64 stack_int) st; Ok (RetNew r i, st)
  | OpReadlink i => '(r, data, st) ← readlink i [] st; Ok (RetData r data, st)
  end.
End perform.

(** ** Histories *)

Inductive event :=
| EAcquire (lid : Z)
| ECall (k : call)
| ERelease (lid : Z).

(** The events of lock calls [ls] and extent calls [sc]: locks are taken before the first
    extent call and given back after the last, as in [with_lock]. *)
Definition lock_acquires (ls : list lock_call) : list event :=
  omap (fun l => match l with LAcquire lid => Some (EAcquire lid) | LRelease _ => None end) ls.
Definition lock_releases (ls : list lock_call) : list event :=
  omap (fun l => match l with LAcquire _ => None | LRelease lid => Some (ERelease lid) end) ls.
Definition bracketed (ls : list lock_call) (sc : list call) : list event :=
  lock_acquires ls ++ (ECall <$> sc) ++ lock_releases ls.

(** The events of an operation and its result: run on these lock calls and extent calls, with
    the answers, the operation makes all of them and returns this. *)
Definition performs `{HeapMem} (x : yfs_op * yfs_ret) (tr : list event) : Prop :=
  exists ls sc, tr = bracketed ls sc /\ perform x.1 (ls, sc) = Ok (x.2, ([], [])).

Definition client_trace `{HeapMem} (xs : list (yfs_op * yfs_ret)) (es : list event) : Prop :=
  exists trs, Forall2 performs xs trs /\ es = concat trs.

(** The extents, and who holds which lock. *)
Record hstate := mk_hstate { hs_view : gmap Z node; hs_locks : gmap Z nat }.

(** A lock is granted when it is free, on an extent that exists. *)
Inductive hstep : hstate -> nat * event -> hstate -> Prop :=
| h_acquire v lk c lid : lk !! lid = None -> is_Some (v !! lid) ->
    hstep (mk_hstate v lk) (c, EAcquire lid) (mk_hstate v (<[lid := c]> lk))
| h_call v lk c k v' : answer k v = Some v' -> hstep (mk_hstate v lk) (c, ECall k) (mk_hstate v' lk)
| h_release v lk c lid : lk !! lid = Some c ->
    hstep (mk_hstate v lk) (c, ERelease lid) (mk_hstate v (delete lid lk)).

Inductive history : hstate -> list (nat * event) -> hstate -> Prop :=
| hist_nil st : history st [] st
| hist_cons st e st1 es st2 : hstep st e st1 -> history st1 es st2 -> history st (e :: es) st2.

(** What client [c] does in a sequence of anything that is done by clients. *)
Definition of_client {A} (c : nat) (es : list (nat * A)) : list A := snd <$> filter (fun e => e.1 = c) es.

(** Operations one after the other, each without interruption. *)
Inductive sequential `{HeapMem} : gmap Z node -> list (yfs_op * yfs_ret) -> gmap Z node -> Prop :=
| seq_nil v : sequential v [] v
| seq_cons v op ret v1 xs v2 :
    perform op (tt, v) = Ok (ret, (tt, v1)) -> sequential v1 xs v2 -> sequential v ((op, ret) :: xs) v2.

(** Operations that touch nothing but the file or directory they lock, and one new file. *)
Definition covered (op : yfs_op) : Prop :=
  match op with OpUnlink _ _ | OpSymlink _ _ _ => False | _ => True end.
