(* ===== verification/YfsSerial.v ===== *)
(** * YfsSerial: operations under locks are as good as atomic

    The calls of an operation go to the extent whose lock it holds, but for one creation
    ([perform_tracks]).  Adjacent events of two clients therefore commute ([lstep_swap]), except
    that nothing moves past a creation or a release that frees or takes what it needs.  All
    events of the operation that creates or releases first can so be moved to the front, which
    makes it atomic, and the rest of the history is shorter. *)

From Stdlib Require Import ZArith Lia.
From S2P Require Import Prelude CppString BlockLayer Inode FileBlocks FileSystem FileWrite ExtentServer.
From S2P Require Import ExtentRefine ExtentClient YfsClient YfsView YfsHistory.
#[local] Set Default Goal Selector "!".

Implicit Types (v : gmap Z node) (lid id : Z) (sc : list call).

(** ** What an operation calls *)

(** A call on extent [lid] that leaves all others alone, or a creation. *)
Definition target (k : call) : option Z :=
  match k with CGet id _ | CGetattr id _ | CPut id _ => Some id | CCreate _ _ | CRemove _ => None end.
Definition creates (k : call) : bool := match k with CCreate _ _ => true | _ => false end.
Definition local lid (k : call) : Prop := target k = Some lid \/ creates k = true.

Lemma replay_app sc sc' v : replay (sc ++ sc') v = v1 ← replay sc v; replay sc' v1.
Proof.
  revert v. induction sc as [|k sc IH]; intros v; [done|]. cbn [app replay]. destruct (answer k v) as [v1|]; [apply IH|done].
Qed.

(** A computation on the script [sc] uses up a part of it with at most [n] creations, and has
    the same result on extents that answer like that part. *)
Definition tracks {A} lid (n : nat) sc (r : result (A * list call)) (r' : gmap Z node -> result (A * gmap Z node)) : Prop :=
  forall a sc', r = Ok (a, sc') -> exists pre, sc = pre ++ sc' /\ Forall (local lid) pre /\
    (length (filter (fun k => creates k = true) pre) <= n)%nat /\
    forall v v', replay pre v = Some v' -> r' v = Ok (a, v').

Lemma tracks_ret {A} lid sc (a : A) : tracks lid 0 sc (Ok (a, sc)) (fun v => Ok (a, v)).
Proof. intros a' sc' [= <- <-]. exists []. split; [done|]. split; [constructor|]. split; [done|]. by intros v v' [= <-]. Qed.

Lemma tracks_more {A} n n' lid sc (r : result (A * list call)) r' : tracks lid n sc r r' -> (n <= n')%nat -> tracks lid n' sc r r'.
Proof. intros Ht Hn a sc' E. destruct (Ht a sc' E) as (p & ? & ? & ? & ?). exists p. split_and!; [done|done|lia|done]. Qed.

Lemma tracks_undef {A} lid sc (r' : gmap Z node -> result (A * gmap Z node)) : tracks lid 0 sc Undef r'.
Proof. done. Qed.

Lemma tracks_bind {A B} lid n n' sc (m : result (A * list call)) m' (f : A * list call -> result (B * list call)) f' :
  tracks lid n sc m m' -> (forall a sc1, tracks lid n' sc1 (f (a, sc1)) (fun v => f' (a, v))) ->
  tracks lid (n + n') sc (m ≫= f) (fun v => m' v ≫= f').
Proof.
  intros Hm Hf b sc2 E. apply bind_ok in E as ([a sc1] & Em & Ef).
  destruct (Hm a sc1 Em) as (p1 & -> & Hl1 & Hn1 & Hr1). destruct (Hf a sc1 b sc2 Ef) as (p2 & -> & Hl2 & Hn2 & Hr2).
  exists (p1 ++ p2). split; [by rewrite app_assoc|]. split; [by apply Forall_app|].
  split; [rewrite filter_app, length_app; lia|]. intros v v'. rewrite replay_app. intros (v1 & E1 & E2)%bind_Some.
  rewrite (Hr1 _ _ E1), bind_Ok. by apply Hr2.
Qed.

(** A step that makes no call. *)
Lemma tracks_pure {A B} lid n sc (m : result A) (f : A -> result (B * list call)) f' :
  (forall a, tracks lid n sc (f a) (fun v => f' v a)) -> tracks lid n sc (m ≫= f) (fun v => m ≫= f' v).
Proof.
  intros Hf b sc' E. apply bind_ok in E as (a & -> & E). destruct (Hf a b sc' E) as (p & Hp1 & Hp2 & Hp3 & Hr).
  exists p. split; [done|]. split; [done|]. split; [done|]. intros v v' Hv. rewrite bind_Ok. by apply Hr.
Qed.

Lemma tracks_one {A} lid n sc k (r : A) (m : result (A * list call)) m' : local lid k -> ((if creates k then 1 else 0) <= n)%nat ->
  (forall a sc', m = Ok (a, sc') -> sc = k :: sc' /\ a = r) -> (forall v v', answer k v = Some v' -> m' v = Ok (r, v')) ->
  tracks lid n sc m m'.
Proof.
  intros Hl Hn Hm Hm' a sc' E. destruct (Hm a sc' E) as [-> ->]. exists [k]. split; [done|]. split; [by constructor|].
  split; [rewrite filter_cons, filter_nil; by destruct (creates k), (decide _)|]. intros v v'. cbn [replay].
  intros (v1 & E1 & [= <-])%bind_Some. by apply Hm'.
Qed.

(** *** The calls of the interface *)

Ltac tracks_call k r :=
  case_decide; [|done]; destruct_and?; subst;
  apply (tracks_one _ _ _ k r); [by (left + right)|done|by intros ?? [= <- <-]|];
  intros v v'; cbn.

Lemma tracks_get lid sc buf0 : tracks lid 0 sc (ec_get lid buf0 sc) (fun v => ec_get lid buf0 v).
Proof.
  destruct sc as [|[|id buf| | |] sc]; [done..| |done|done|done]. cbn. tracks_call (CGet lid buf) (extent_OK, buf).
  case_decide; [|done]. intros [= ->]. by subst.
Qed.

Lemma tracks_getattr lid sc a0 : tracks lid 0 sc (ec_getattr lid a0 sc) (fun v => ec_getattr lid a0 v).
Proof.
  destruct sc as [|[| |id a| |] sc]; [done..| |done|done]. cbn. tracks_call (CGetattr lid a) (extent_OK, a).
  case_decide; [|done]. intros [= ->]. by subst.
Qed.

Lemma tracks_put lid sc buf : tracks lid 0 sc (ec_put lid buf sc) (fun v => ec_put lid buf v).
Proof.
  destruct sc as [|[| | |id buf'|] sc]; [done..| |done]. cbn. tracks_call (CPut lid buf) extent_OK.
  destruct (v !! lid) as [p|]; [|done]. by intros [= <-].
Qed.

Lemma tracks_create lid sc type i0 : tracks lid 1 sc (ec_create type i0 sc) (fun v => ec_create type i0 v).
Proof.
  destruct sc as [|[type' i| | | |] sc]; [done| |done..]. cbn. tracks_call (CCreate type i) (extent_OK, i).
  case_decide as E; [|done]. intros [= <-]. by rewrite E.
Qed.

(** *** The operations *)

Section operations.
Context `{HeapMem}.

(** Runs through an operation that makes no creation. *)
Ltac tr :=
  repeat first
    [ apply tracks_ret | apply tracks_undef | apply tracks_get | apply tracks_getattr | apply tracks_put
    | apply (tracks_bind _ 0 0); [|intros]
    | apply tracks_pure; intros
    | progress cbv beta iota
    | match goal with
      | |- context [match ?x with pair _ _ => _ end] => destruct x
      | |- context [match ?x with Some _ => _ | None => _ end] => destruct x
      | |- context [if ?b then _ else _] => destruct b
      end ].

Lemma tracks_isfile i sc : tracks i 0 sc (yfs_isfile i sc) (fun v => yfs_isfile i v).
Proof. unfold yfs_isfile. tr. Qed.
Lemma tracks_isdir i sc : tracks i 0 sc (yfs_isdir i sc) (fun v => yfs_isdir i v).
Proof. unfold yfs_isdir. tr. Qed.
Lemma tracks_getfile i fin sc : tracks i 0 sc (yfs_getfile i fin sc) (fun v => yfs_getfile i fin v).
Proof. unfold yfs_getfile. tr. Qed.
Lemma tracks_getdir i din sc : tracks i 0 sc (yfs_getdir i din sc) (fun v => yfs_getdir i din v).
Proof. unfold yfs_getdir. tr. Qed.
Lemma tracks_setattr i size sc : tracks i 0 sc (yfs_setattr i size sc) (fun v => yfs_setattr i size v).
Proof. unfold yfs_setattr. tr. Qed.
Lemma tracks_readdir d list sc : tracks d 0 sc (yfs_readdir d list sc) (fun v => yfs_readdir d list v).
Proof. unfold yfs_readdir. tr. Qed.
Lemma tracks_read i size off data sc : tracks i 0 sc (yfs_read i size off data sc) (fun v => yfs_read i size off data v).
Proof. unfold yfs_read. tr. Qed.
Lemma tracks_write i size off data n sc :
  tracks i 0 sc (yfs_write i size off data n sc) (fun v => yfs_write i size off data n v).
Proof. unfold yfs_write. tr. Qed.

Lemma tracks_lookup d name i0 sc : tracks d 0 sc (yfs_lookup d name i0 sc) (fun v => yfs_lookup d name i0 v).
Proof.
  unfold yfs_lookup. apply (tracks_bind _ 0 0); [apply tracks_isdir|]. intros b sc1. cbv beta iota. destruct b; cbn [negb]; [|tr].
  apply (tracks_bind _ 0 0); [apply tracks_readdir|]. intros [r ents] sc2. tr.
Qed.

(** The new entry of a creation. *)
Lemma tracks_append d name i sc :
  tracks d 0 sc ('(r, buf, s) ← ec_get d [] sc; if negb (r =? yfs_OK) then Ok (r, i, s)
                 else '(r, s) ← ec_put d (buf ++ entry name i) s; Ok (r, i, s))
    (fun v => '(r, buf, s) ← ec_get d [] v; if negb (r =? yfs_OK) then Ok (r, i, s)
              else '(r, s) ← ec_put d (buf ++ entry name i) s; Ok (r, i, s)).
Proof. tr. Qed.

(** The part of a creation behind the lookup. *)
Lemma tracks_new type d name r (found : bool) i1 sc :
  tracks d 1 sc (if found then Ok (r, i1, sc) else '(_, i, s) ← ec_create type i1 sc;
      '(r, buf, s) ← ec_get d [] s; if negb (r =? yfs_OK) then Ok (r, i, s)
      else '(r, s) ← ec_put d (buf ++ entry name i) s; Ok (r, i, s))
    (fun v => if found then Ok (r, i1, v) else '(_, i, s) ← ec_create type i1 v;
      '(r, buf, s) ← ec_get d [] s; if negb (r =? yfs_OK) then Ok (r, i, s)
      else '(r, s) ← ec_put d (buf ++ entry name i) s; Ok (r, i, s)).
Proof.
  destruct found; [apply (tracks_more 0); [apply tracks_ret|lia]|].
  apply (tracks_bind _ 1 0); [apply tracks_create|]. intros [r' i] sc2. apply tracks_append.
Qed.

Lemma tracks_yfs_create d name mode i0 sc :
  tracks d 1 sc (yfs_create d name mode i0 sc) (fun v => yfs_create d name mode i0 v).
Proof.
  unfold yfs_create. apply (tracks_bind _ 0 1); [apply tracks_lookup|]. intros [[r found] i1] sc1. apply tracks_new.
Qed.

Lemma tracks_mkdir d name mode i0 sc :
  tracks d 1 sc (yfs_mkdir d name mode i0 sc) (fun v => yfs_mkdir d name mode i0 v).
Proof.
  unfold yfs_mkdir. apply (tracks_bind _ 0 1); [apply tracks_lookup|]. intros [[r found] i1] sc1. apply tracks_new.
Qed.

(** *** Under their locks *)

Lemma locked_tracks {A} lid n (op : list call -> result (A * list call)) op' ls sc a l' sc' :
  tracks lid n sc (op sc) op' -> (n <= 1)%nat -> with_lock lid op (ls, sc) = Ok (a, (l', sc')) -> l' = [] -> sc' = [] ->
  ls = [LAcquire lid; LRelease lid] /\ Forall (local lid) sc /\ (length (filter (fun k => creates k = true) sc) <= 1)%nat /\
    forall v v', replay sc v = Some v' -> with_lock lid op' (tt, v) = Ok (a, (tt, v')).
Proof.
  intros Ht Hn E -> ->. unfold with_lock in E. cbn [fst snd lc_acquire script_locks] in E.
  destruct ls as [|[lid'|] ls]; [done| |done]. case_decide; [subst lid'|done]. rewrite bind_Ok in E.
  apply bind_ok in E as ([a1 sc1] & E1 & E). apply bind_ok in E as (l1 & E2 & E). injection E as -> -> ->.
  cbn [lc_release script_locks] in E2. destruct ls as [|[|lid'] ls]; [done..|]. case_decide; [subst lid'|done]. injection E2 as ->.
  destruct (Ht a [] E1) as (pre & -> & Hl & Hc & Hr). rewrite app_nil_r. split; [done|].
  split; [done|]. split; [lia|]. intros v v' Hv. unfold with_lock. cbn [fst snd lc_acquire lc_release no_locks].
  rewrite bind_Ok, (Hr _ _ Hv), bind_Ok. done.
Qed.

Ltac same_alone E t :=
  let El := fresh in let Hl := fresh in let Hn := fresh in let Hr := fresh in
  destruct (locked_tracks _ _ _ _ _ _ _ _ _ t ltac:(lia) E eq_refl eq_refl) as (El & Hl & Hn & Hr);
  eexists; split; [exact El|]; split; [exact Hl|split; [exact Hn|]];
  let v := fresh in let v' := fresh in let Hv := fresh in intros v v' Hv;
  refine (eq_trans (f_equal (fun r => r ≫= _) (Hr v v' Hv)) _); reflexivity.

(** What an operation has called, and that it does the same when it runs alone. *)
Lemma perform_tracks op ret ls sc : covered op -> perform op (ls, sc) = Ok (ret, ([], [])) ->
  exists lid, ls = [LAcquire lid; LRelease lid] /\ Forall (local lid) sc /\
    (length (filter (fun k => creates k = true) sc) <= 1)%nat /\
    forall v v', replay sc v = Some v' -> perform op (tt, v) = Ok (ret, (tt, v')).
Proof.
  intros Hc E. destruct op; try done; cbn [perform] in E |- *.
  all: apply bind_ok in E as (x & E1 & E); repeat (destruct x as [x ?] || destruct p as [? ?]); injection E as <- -> ->.
  - same_alone E1 (tracks_isfile i sc).
  - same_alone E1 (tracks_isdir i sc).
  - same_alone E1 (tracks_getfile i (mk_fileinfo 0 0 0 0) sc).
  - same_alone E1 (tracks_getdir i (mk_dirinfo 0 0 0) sc).
  - same_alone E1 (tracks_setattr i size sc).
  - same_alone E1 (tracks_yfs_create d name mode (u64 stack_int) sc).
  - same_alone E1 (tracks_mkdir d name mode (u64 stack_int) sc).
  - same_alone E1 (tracks_lookup d name (u64 stack_int) sc).
  - same_alone E1 (tracks_readdir d [] sc).
  - same_alone E1 (tracks_read i size off [] sc).
  - same_alone E1 (tracks_write i size off data size sc).
  - same_alone E1 (tracks_get i sc []).
Qed.
End operations.

(** ** Events that commute *)

(** A call on an extent that exists reads and changes that extent only. *)
Lemma local_call k id v v' : target k = Some id -> is_Some (v !! id) -> answer k v = Some v' ->
  exists p, v' = <[id := p]> v /\ forall w, w !! id = v !! id -> answer k w = Some (<[id := p]> w).
Proof.
  intros Ht [p Hp] Ha. destruct k as [|id' buf|id' a|id' buf|]; try done; injection Ht as ->; cbn in *.
  - case_decide as E; [|done]. injection Ha as <-. exists p. split; [by rewrite insert_id|].
    intros w Hw. rewrite Hp in Hw. rewrite insert_id by done. unfold data_at in *. rewrite Hp in E. by rewrite Hw, decide_True.
  - case_decide as E; [|done]. injection Ha as <-. exists p. split; [by rewrite insert_id|].
    intros w Hw. rewrite Hp in Hw. rewrite insert_id by done. unfold attr_of in *. rewrite Hp in E. by rewrite Hw, decide_True.
  - rewrite Hp in *. injection Ha as <-. exists (p.1, buf). split; [done|]. intros w Hw. by rewrite Hw.
Qed.

(** A creation depends on which extents exist. *)
Lemma create_call k v v' : creates k = true -> answer k v = Some v' ->
  exists i p, v !! i = None /\ v' = <[i := p]> v /\
    forall w, (forall j, is_Some (w !! j) <-> is_Some (v !! j)) -> answer k w = Some (<[i := p]> w).
Proof.
  intros Hk Ha. destruct k as [type i| | | |]; try done. cbn in *. case_decide as E; [|done]. injection Ha as <-.
  exists i, (s16 type, []). split; [by apply (free_ino_plain v)|]. split; [done|]. intros w Hw.
  rewrite decide_True; [done|]. rewrite <- E. unfold free_ino. f_equal. apply list_filter_iff. intros j.
  rewrite !eq_None_not_Some. by rewrite Hw.
Qed.

(** A step in which calls are to the extent whose lock the client holds, or create one. *)
Inductive lstep : hstate -> nat * event -> hstate -> Prop :=
| l_acquire v lk c lid : lk !! lid = None -> is_Some (v !! lid) ->
    lstep (mk_hstate v lk) (c, EAcquire lid) (mk_hstate v (<[lid := c]> lk))
| l_local v lk c k id v' : target k = Some id -> lk !! id = Some c -> answer k v = Some v' ->
    lstep (mk_hstate v lk) (c, ECall k) (mk_hstate v' lk)
| l_create v lk c k v' : creates k = true -> answer k v = Some v' ->
    lstep (mk_hstate v lk) (c, ECall k) (mk_hstate v' lk)
| l_release v lk c lid : lk !! lid = Some c ->
    lstep (mk_hstate v lk) (c, ERelease lid) (mk_hstate v (delete lid lk)).

Inductive lrun : hstate -> list (nat * event) -> hstate -> Prop :=
| lr_nil st : lrun st [] st
| lr_cons st e st1 es st2 : lstep st e st1 -> lrun st1 es st2 -> lrun st (e :: es) st2.

(** What is locked exists. *)
Definition good (st : hstate) : Prop := forall lid c, hs_locks st !! lid = Some c -> is_Some (hs_view st !! lid).

Lemma insert_some v i p j : is_Some (v !! j) -> is_Some (<[i := p]> v !! j).
Proof. intros Hj. destruct (decide (j = i)) as [->|Hne]; [rewrite lookup_insert_eq; by eexists|by rewrite lookup_insert_ne]. Qed.

Lemma insert_some_old v i p j : is_Some (v !! i) -> is_Some (<[i := p]> v !! j) <-> is_Some (v !! j).
Proof.
  intros Hi. split; [|apply insert_some]. destruct (decide (j = i)) as [->|Hne]; [done|by rewrite lookup_insert_ne].
Qed.

Lemma lstep_good st e st' : good st -> lstep st e st' -> good st'.
Proof.
  intros Hg Hs. destruct Hs as [v lk c lid Hl Hv|v lk c k id v' Ht Hl Ha|v lk c k v' Hk Ha|v lk c lid Hl]; intros j c'; cbn.
  - intros [[<- _]|[_ Hj]]%lookup_insert_Some; [done|by apply (Hg j c')].
  - intros Hj. destruct (local_call k id v v' Ht (Hg id c Hl) Ha) as (p & -> & _). by apply insert_some, (Hg j c').
  - intros Hj. destruct (create_call k v v' Hk Ha) as (i & p & _ & -> & _). by apply insert_some, (Hg j c').
  - intros [_ Hj]%lookup_delete_Some. by apply (Hg j c').
Qed.

(** Events that others' events may pass: creations and releases are not among them; and
    events that pass all others' events. *)
Definition late (e : event) : bool :=
  match e with EAcquire _ => false | ECall k => creates k | ERelease _ => true end.
Definition passes_all (e : event) : bool :=
  match e with EAcquire _ => false | ECall k => negb (creates k) | ERelease _ => true end.

Lemma target_creates k id : target k = Some id -> creates k = false.
Proof. by destruct k. Qed.

(** The event of [c] can be moved before that of [c']. *)
Lemma lstep_swap st c' e' st1 c e st2 : good st -> c <> c' -> late e' = false \/ passes_all e = true ->
  lstep st (c', e') st1 -> lstep st1 (c, e) st2 -> exists st1', lstep st (c, e) st1' /\ lstep st1' (c', e') st2.
Proof.
  intros Hg Hc Hok Hs1 Hs2. inversion Hs1 as [v lk ? lid' Hl' Hv'|v lk ? k' id' v1 Ht' Hl' Ha'|v lk ? k' v1 Hk' Ha'|v lk ? lid' Hl'];
    subst; inversion Hs2 as [? ? ? lid Hl Hv|? ? ? k id v2 Ht Hl Ha|? ? ? k v2 Hk Ha|? ? ? lid Hl]; subst.
  (* after an acquisition *)
  - apply lookup_insert_None in Hl as [Hl Hne]. eexists. split; [by constructor|]. rewrite insert_insert_ne by done.
    constructor; [by rewrite lookup_insert_ne|done].
  - apply lookup_insert_Some in Hl as [[_ ?]|[Hne Hl]]; [congruence|]. eexists. split; [by eapply l_local|].
    destruct (local_call k id v v2 Ht (Hg id c Hl) Ha) as (p & -> & _). constructor; [done|by apply insert_some].
  - eexists. split; [by apply l_create|]. destruct (create_call k v v2 Hk Ha) as (i & p & _ & -> & _).
    constructor; [done|by apply insert_some].
  - apply lookup_insert_Some in Hl as [[_ ?]|[Hne Hl]]; [congruence|]. eexists. split; [by constructor|].
    rewrite delete_insert_ne by done. constructor; [by rewrite lookup_delete_ne|done].
  (* after a call of the others *)
  - destruct (local_call k' id' v v1 Ht' (Hg id' c' Hl') Ha') as (p & -> & _).
    rewrite insert_some_old in Hv by by apply (Hg id' c'). eexists. split; [by constructor|].
    eapply l_local; [done|rewrite lookup_insert_ne by congruence; done|done].
  - assert (id <> id') as Hne by (intros ->; congruence).
    destruct (local_call k' id' v v1 Ht' (Hg id' c' Hl') Ha') as (p' & -> & Hf').
    destruct (local_call k id _ v2 Ht (insert_some _ _ _ _ (Hg id c Hl)) Ha) as (p & -> & Hf).
    eexists. split; [eapply l_local; [done|done|apply Hf; by rewrite lookup_insert_ne]|]. rewrite insert_insert_ne by done.
    eapply l_local; [done|done|]. apply Hf'. by rewrite lookup_insert_ne.
  - destruct (local_call k' id' v v1 Ht' (Hg id' c' Hl') Ha') as (p' & -> & Hf').
    destruct (create_call k _ v2 Hk Ha) as (i & p & Hi & -> & Hf). pose proof (Hg id' c' Hl') as Hid. cbn in Hid.
    apply lookup_insert_None in Hi as [Hi Hne].
    eexists. split; [apply l_create; [done|apply Hf; intros j; symmetry; by apply insert_some_old]|].
    rewrite insert_insert_ne by done. eapply l_local; [done|done|]. apply Hf'. by rewrite lookup_insert_ne.
  - eexists. split; [by constructor|]. eapply l_local; [done| |done]. rewrite lookup_delete_ne by congruence. done.
  (* after a creation *)
  - cbn in Hok. rewrite Hk' in Hok. by destruct Hok.
  - destruct (create_call k' v v1 Hk' Ha') as (i & p' & Hi & -> & Hf'). pose proof (Hg id c Hl) as Hid. cbn in Hid.
    assert (id <> i) as Hne by (intros ->; rewrite Hi in Hid; by destruct Hid).
    destruct (local_call k id _ v2 Ht (insert_some _ _ _ _ Hid) Ha) as (p & -> & Hf).
    eexists. split; [eapply l_local; [done|done|apply Hf; by rewrite lookup_insert_ne]|]. rewrite insert_insert_ne by done.
    apply l_create; [done|]. apply Hf'. intros j. by apply insert_some_old.
  - cbn in Hok. rewrite Hk', Hk in Hok. by destruct Hok.
  - eexists. split; [by constructor|]. by apply l_create.
  (* after a release *)
  - by destruct Hok.
  - apply lookup_delete_Some in Hl as [Hne Hl]. eexists. split; [by eapply l_local|]. by constructor.
  - cbn in Hok. rewrite Hk in Hok. by destruct Hok.
  - apply lookup_delete_Some in Hl as [Hne Hl]. eexists. split; [by constructor|]. rewrite delete_delete.
    constructor. by rewrite lookup_delete_ne.
Qed.

(** ** Moving a client's events to the front *)

Abbreviation events := (list (nat * event)).
Implicit Types (H G T : events) (c : nat).

Definition mine c H : events := filter (fun x => x.1 = c) H.
Definition theirs c H : events := filter (fun x => x.1 <> c) H.

Lemma lrun_app st H H' st' : lrun st (H ++ H') st' <-> exists st1, lrun st H st1 /\ lrun st1 H' st'.
Proof.
  revert st. induction H as [|x H IH]; intros st; cbn [app].
  - split; [intros Hr; exists st; split; [constructor|done]|]. intros (st1 & H1 & H2). by inversion H1; subst.
  - split.
    + intros Hr. inversion Hr as [|? ? st1 ? ? Hx Hr']; subst. apply IH in Hr' as (st2 & ? & ?). exists st2. split; [by econstructor|done].
    + intros (st2 & Hr & Hr'). inversion Hr as [|? ? st1 ? ? Hx Hr1]; subst. econstructor; [done|]. apply IH. eauto.
Qed.

Lemma lrun_good st H st' : good st -> lrun st H st' -> good st'.
Proof. intros Hg Hr. induction Hr as [|st x st1 H st2 Hx _ IH]; [done|]. by apply IH, (lstep_good st x). Qed.

(** Another client's event moves behind events of [c]. *)
Lemma push_back st c y st1 xs zs st' : good st -> y.1 <> c -> Forall (fun x => x.1 = c) xs ->
  late y.2 = false \/ Forall (fun x => passes_all x.2 = true) xs ->
  lstep st y st1 -> lrun st1 (xs ++ zs) st' -> lrun st (xs ++ y :: zs) st'.
Proof.
  intros Hg Hy Hxs Hok Hs Hr. revert st st1 Hg Hs Hr. induction xs as [|[c0 e] xs IH]; intros st st1 Hg Hs Hr; [by econstructor|].
  apply Forall_cons in Hxs as [Hc Hxs]. cbn in Hc. subst c0. cbn [app] in *. inversion Hr as [|? ? st2 ? ? Hx Hr']; subst.
  destruct y as [c' e']. destruct (lstep_swap st c' e' st1 c e st2 Hg) as (st3 & Hx' & Hy'); [by apply not_eq_sym| |done|done|].
  { destruct Hok as [?|[? _]%Forall_cons]; [by left|by right]. }
  econstructor; [exact Hx'|]. apply (IH Hxs) with st2; [|by apply (lstep_good st (c, e))|done|done].
  destruct Hok as [?|[_ ?]%Forall_cons]; [by left|by right].
Qed.

Lemma mine_of c H : Forall (fun x => x.1 = c) (mine c H).
Proof. apply Forall_forall. intros x [? _]%list_elem_of_filter. done. Qed.

Lemma gather c H st st' : good st -> lrun st H st' ->
  Forall (fun x => late x.2 = false) (theirs c H) \/ Forall (fun x => passes_all x.2 = true) (mine c H) ->
  lrun st (mine c H ++ theirs c H) st'.
Proof.
  intros Hg Hr. induction Hr as [|st x st1 H st2 Hx Hr IH]; intros Hok; [constructor|].
  pose proof (lstep_good _ _ _ Hg Hx) as Hg1. unfold mine, theirs in *. rewrite !filter_cons in *. destruct (decide (x.1 = c)) as [Hc|Hc].
  - rewrite decide_False in * by tauto. cbn [app]. econstructor; [done|]. apply IH; [done|].
    destruct Hok as [?|[_ ?]%Forall_cons]; [by left|by right].
  - rewrite decide_True in * by done. apply (push_back st c x st1); [done|done|apply mine_of| |done|].
    + destruct Hok as [[? _]%Forall_cons|?]; [by left|by right].
    + apply IH; [done|]. destruct Hok as [[_ ?]%Forall_cons|?]; [by left|by right].
Qed.

(** ** The events of one client *)

Lemma of_client_app {A} c (xs ys : list (nat * A)) : of_client c (xs ++ ys) = of_client c xs ++ of_client c ys.
Proof. unfold of_client. by rewrite filter_app, fmap_app. Qed.

Lemma of_client_eq {A} c (x : A) xs : of_client c ((c, x) :: xs) = x :: of_client c xs.
Proof. unfold of_client. by rewrite filter_cons_True. Qed.

Lemma of_client_ne {A} c c' (x : A) xs : c' <> c -> of_client c ((c', x) :: xs) = of_client c xs.
Proof. intros Hc. unfold of_client. by rewrite filter_cons_False. Qed.

Lemma of_client_theirs c c' H : of_client c' (theirs c H) = if decide (c' = c) then [] else of_client c' H.
Proof.
  induction H as [|[c0 e] H IH]; [by destruct (decide _)|]. unfold theirs in *. rewrite filter_cons. cbn [fst].
  destruct (decide (c0 = c)) as [->|Hc]; [rewrite decide_False by tauto|rewrite decide_True by done].
  - rewrite IH. destruct (decide (c' = c)) as [->|Hc']; [done|]. by rewrite of_client_ne.
  - destruct (decide (c' = c0)) as [->|Hc'].
    + rewrite !of_client_eq, IH. by rewrite !decide_False by done.
    + rewrite of_client_ne by done. rewrite IH. destruct (decide (c' = c)); [done|]. by rewrite of_client_ne by done.
Qed.

Lemma mine_pairs c H : mine c H = (pair c) <$> of_client c H.
Proof.
  induction H as [|[c0 e] H IH]; [done|]. unfold mine in *. rewrite filter_cons. cbn [fst]. destruct (decide (c0 = c)) as [->|Hc].
  - by rewrite of_client_eq, fmap_cons, IH.
  - by rewrite of_client_ne.
Qed.

Lemma of_client_split c H a b : of_client c H = a ++ b ->
  exists H1 H2, H = H1 ++ H2 /\ of_client c H1 = a /\ of_client c H2 = b.
Proof.
  revert a. induction H as [|[c0 e] H IH]; intros a.
  - intros [-> ->]%eq_sym%app_eq_nil. by exists [], [].
  - destruct (decide (c0 = c)) as [->|Hc].
    + rewrite of_client_eq. destruct a as [|x a]; cbn [app]; [intros <-; exists [], ((c, e) :: H); by rewrite of_client_eq|].
      intros [= -> E]. destruct (IH a E) as (H1 & H2 & -> & <- & <-). exists ((c, x) :: H1), H2. by rewrite of_client_eq.
    + rewrite of_client_ne by done. intros E. destruct (IH a E) as (H1 & H2 & -> & <- & <-).
      exists ((c0, e) :: H1), H2. by rewrite of_client_ne.
Qed.

(** ** Histories *)

Definition trace_of lid sc : list event := EAcquire lid :: (ECall <$> sc) ++ [ERelease lid].
Definition wf_trace (tr : list event) : Prop := exists lid sc, tr = trace_of lid sc /\ Forall (local lid) sc.

(** What client [c] still does: whole operations, after the rest of one whose lock it holds. *)
Definition rest_ok (lk : gmap Z nat) c (es : list event) : Prop :=
  (exists trs, Forall wf_trace trs /\ es = concat trs) \/
  (exists lid sc trs, lk !! lid = Some c /\ Forall (local lid) sc /\ Forall wf_trace trs /\
    es = (ECall <$> sc) ++ ERelease lid :: concat trs).

Lemma rest_locks lk lk' c es : rest_ok lk c es -> (forall lid, lk !! lid = Some c -> lk' !! lid = Some c) -> rest_ok lk' c es.
Proof. intros [?|(lid & sc & trs & Hl & Hr)] Hlk; [by left|]. right. exists lid, sc, trs. split; [by apply Hlk|done]. Qed.

Lemma concat_trace trs e es : Forall wf_trace trs -> e :: es = concat trs ->
  exists lid sc trs', e = EAcquire lid /\ Forall (local lid) sc /\ Forall wf_trace trs' /\
    es = (ECall <$> sc) ++ ERelease lid :: concat trs'.
Proof.
  intros [|tr trs' (lid & sc & -> & Hl) Htrs]; [done|]. cbn [concat trace_of app]. intros [= -> ->].
  exists lid, sc, trs'. split; [done|]. split; [done|]. split; [done|]. by rewrite <- app_assoc.
Qed.

(** The first event a client still has to do. *)
Lemma rest_first lk c e es : rest_ok lk c (e :: es) ->
  match e with
  | EAcquire lid => forall lk', lk' !! lid = Some c -> rest_ok lk' c es
  | ECall k => exists lid, lk !! lid = Some c /\ local lid k /\ rest_ok lk c es
  | ERelease lid => forall lk', rest_ok lk' c es
  end.
Proof.
  intros [(trs & Htrs & E)|(lid & sc & trs & Hl & Hsc & Htrs & E)].
  - destruct (concat_trace _ _ _ Htrs E) as (lid & sc & trs' & -> & Hsc & Htrs' & ->). intros lk' Hl. right. by exists lid, sc, trs'.
  - destruct sc as [|k sc]; cbn [fmap list_fmap app] in E; injection E as -> ->.
    + intros lk'. left. by exists trs.
    + apply Forall_cons in Hsc as [Hk Hsc]. exists lid. split; [done|]. split; [done|]. right. by exists lid, sc, trs.
Qed.

Lemma history_lrun st H st' : history st H st' -> (forall c, rest_ok (hs_locks st) c (of_client c H)) -> lrun st H st'.
Proof.
  induction 1 as [st|st [c e] st1 H st2 Hs _ IH]; intros Hr; [constructor|].
  pose proof (Hr c) as Hc. rewrite of_client_eq in Hc. apply rest_first in Hc.
  assert (Ho : forall c', c' <> c -> rest_ok (hs_locks st) c' (of_client c' H)).
  { intros c' Hne. specialize (Hr c'). by rewrite of_client_ne in Hr. }
  inversion Hs as [v lk ? lid Hl Hv|v lk ? k v' Ha|v lk ? lid Hl]; subst; cbn [hs_locks] in *.
  - econstructor; [by apply l_acquire|]. apply IH. intros c'. cbn [hs_locks]. destruct (decide (c' = c)) as [->|Hne].
    + apply Hc, lookup_insert_eq.
    + apply (rest_locks lk); [by apply Ho|]. intros lid' Hl'. rewrite lookup_insert_ne; [done|]. intros <-. congruence.
  - destruct Hc as (lid & Hl & Hk & Hc). econstructor; [destruct Hk; [by eapply l_local|by apply l_create]|].
    apply IH. intros c'. cbn [hs_locks]. destruct (decide (c' = c)) as [->|Hne]; [done|by apply Ho].
  - econstructor; [by apply l_release|]. apply IH. intros c'. cbn [hs_locks]. destruct (decide (c' = c)) as [->|Hne]; [apply Hc|].
    apply (rest_locks lk); [by apply Ho|]. intros lid' Hl'. rewrite lookup_delete_ne; [done|]. intros <-. congruence.
Qed.

(** ** The operation that is late first *)

Lemma first_late H : (exists G c e T, H = G ++ (c, e) :: T /\ Forall (fun x => late x.2 = false) G /\ late e = true) \/
  Forall (fun x => late x.2 = false) H.
Proof.
  induction H as [|[c e] H IH]; [by right|]. destruct (late e) eqn:E; [left; by exists [], c, e, H|].
  destruct IH as [(G & c' & e' & T & -> & HG & He)|IH]; [left; exists ((c, e) :: G), c', e', T|right].
  - split; [done|]. split; [by constructor|done].
  - by constructor.
Qed.

Lemma of_client_late c H : Forall (fun x => late x.2 = false) H -> Forall (fun e => late e = false) (of_client c H).
Proof.
  intros HH. unfold of_client. apply Forall_fmap. rewrite Forall_forall in *. intros x [_ Hx]%list_elem_of_filter. by apply HH.
Qed.

Lemma theirs_last c e G : theirs c (G ++ [(c, e)]) = theirs c G.
Proof. unfold theirs. by rewrite filter_app, (filter_cons_False _ (c, e)), filter_nil, app_nil_r by (cbn; tauto). Qed.

Lemma length_theirs c G : (length (theirs c G) <= length G)%nat.
Proof. apply length_filter. Qed.

Lemma late_theirs c e G : Forall (fun x => late x.2 = false) G -> Forall (fun x => late x.2 = false) (theirs c (G ++ [(c, e)])).
Proof.
  intros HG. rewrite theirs_last. unfold theirs. rewrite Forall_forall in *. intros y [_ Hy]%list_elem_of_filter. by apply HG.
Qed.

Lemma trace_release lid sc : ERelease lid ∈ trace_of lid sc.
Proof. apply elem_of_cons. right. apply elem_of_app. right. left. Qed.

(** The first late event of a trace, and that what comes behind it passes all others' events. *)
Lemma trace_split lid sc r a e b : Forall (fun e => late e = false) a -> late e = true ->
  trace_of lid sc ++ r = a ++ e :: b -> exists tl, trace_of lid sc = a ++ e :: tl /\ b = tl ++ r.
Proof.
  intros Ha He E. pose proof (trace_release lid sc) as Hrel. rewrite Forall_forall in Ha.
  apply app_eq_app in E as (l & [[E1 E2]|[E1 E2]]).
  - destruct l as [|e' tl]; [|injection E2 as <- ->; by exists tl]. rewrite app_nil_r in E1. rewrite E1 in Hrel. by specialize (Ha _ Hrel).
  - assert (ERelease lid ∈ a) as Hin by (rewrite E1; apply elem_of_app; by left). by specialize (Ha _ Hin).
Qed.

Lemma tail_passes lid sc a e tl : (length (filter (fun k => creates k = true) sc) <= 1)%nat -> late e = true ->
  trace_of lid sc = a ++ e :: tl -> Forall (fun x => passes_all x = true) tl.
Proof.
  intros Hn He E. destruct a as [|x a]; cbn [trace_of app] in E; [injection E as <- _; done|]. injection E as _ E.
  apply app_eq_app in E as (l & [[E1 E2]|[E1 E2]]).
  - destruct l as [|e' l]; cbn [app] in E2; injection E2 as -> ->; [constructor|].
    apply fmap_app_inv in E1 as (s1 & s2 & -> & E1 & ->). destruct s2 as [|k s2]; [done|]. cbn [fmap list_fmap] in E1. injection E1 as -> ->.
    cbn in He. rewrite filter_app, filter_cons_True, length_app in Hn by done. cbn [length] in Hn.
    apply Forall_app. split; [|by constructor]. apply Forall_fmap, Forall_forall. intros k' Hk'. cbn.
    destruct (creates k') eqn:Ek; [|done]. assert (k' ∈ filter (fun k => creates k = true) s2) as Hin by by apply list_elem_of_filter.
    destruct (filter (fun k => creates k = true) s2); [by apply elem_of_nil in Hin|cbn in Hn; lia].
  - destruct l as [|e' l]; cbn [app] in E2; injection E2 as; [by subst; constructor|]. by destruct l.
Qed.

(** A trace without interruption is the replay of its calls. *)
Lemma calls_run c sc st st' : lrun st ((pair c) <$> (ECall <$> sc)) st' -> replay sc (hs_view st) = Some (hs_view st').
Proof.
  revert st. induction sc as [|k sc IH]; intros st Hr; inversion Hr as [|? ? st1 ? ? Hs Hr1]; subst; [done|].
  cbn [replay]. inversion Hs as [|? ? ? ? ? v2 ? ? Ha|? ? ? ? v2 ? Ha|]; subst; cbn [hs_view]; rewrite Ha; exact (IH _ Hr1).
Qed.

Lemma trace_runs c lid sc st st' : lrun st ((pair c) <$> trace_of lid sc) st' -> replay sc (hs_view st) = Some (hs_view st').
Proof.
  intros Hr. unfold trace_of in Hr. rewrite fmap_cons, fmap_app in Hr. inversion Hr as [|? ? st1 ? ? Hs Hr1]; subst.
  apply lrun_app in Hr1 as (st2 & Hr1%calls_run & Hr2). inversion Hr2 as [|? ? st3 ? ? Hs2 Hr3]; subst.
  inversion Hr3; subst. inversion Hs; subst. inversion Hs2; subst. exact Hr1.
Qed.

(** ** Serialization *)

Section serialize.
Context {hm : HeapMem}.
Implicit Types (progs : nat -> list (yfs_op * yfs_ret)).

Lemma performs_trace x tr : covered x.1 -> performs x tr -> exists lid sc, tr = trace_of lid sc /\ Forall (local lid) sc /\
  (length (filter (fun k => creates k = true) sc) <= 1)%nat /\
  forall v v', replay sc v = Some v' -> perform x.1 (tt, v) = Ok (x.2, (tt, v')).
Proof.
  intros Hc (ls & sc & -> & E). destruct (perform_tracks _ _ _ _ Hc E) as (lid & -> & ? & ? & ?). by exists lid, sc.
Qed.

Lemma client_rest lk c xs es : Forall (fun x => covered x.1) xs -> client_trace xs es -> rest_ok lk c es.
Proof.
  intros Hx (trs & Htrs & ->). left. exists trs. split; [|done]. induction Htrs as [|x tr xs trs Hp _ IH]; [constructor|].
  apply Forall_cons in Hx as [Hx Hxs]. constructor; [|by apply IH]. destruct (performs_trace x tr Hx Hp) as (lid & sc & -> & ? & _). by exists lid, sc.
Qed.

(** A client that has something to do has a release to do. *)
Lemma client_releases xs e es : Forall (fun x => covered x.1) xs -> client_trace xs (e :: es) -> exists lid, ERelease lid ∈ e :: es.
Proof.
  intros Hc (trs & Htrs & E). destruct Htrs as [|x tr xs trs Hx _]; [done|]. apply Forall_cons in Hc as [Hc _].
  destruct (performs_trace x tr Hc Hx) as (lid & sc & -> & _). exists lid. rewrite E. cbn [concat].
  apply elem_of_app. left. apply trace_release.
Qed.

Lemma find_late H progs : H <> [] -> (forall c, Forall (fun x => covered x.1) (progs c)) -> (forall c, client_trace (progs c) (of_client c H)) ->
  exists G c e T, H = G ++ (c, e) :: T /\ Forall (fun x => late x.2 = false) G /\ late e = true.
Proof.
  intros Hne Hcov Hp. destruct (first_late H) as [?|Hl]; [done|]. destruct H as [|[c e] H]; [done|].
  specialize (Hp c). rewrite of_client_eq in Hp. destruct (client_releases _ _ _ (Hcov c) Hp) as (lid & Hin).
  apply (of_client_late c) in Hl. rewrite of_client_eq, Forall_forall in Hl. by specialize (Hl _ Hin).
Qed.

(** The first operation to be late, and the history with its events at the front. *)
Lemma first_op H st st' progs : H <> [] -> good st -> lrun st H st' ->
  (forall c, Forall (fun x => covered x.1) (progs c)) -> (forall c, client_trace (progs c) (of_client c H)) ->
  exists c x xs tr R, progs c = x :: xs /\ performs x tr /\ lrun st ((pair c <$> tr) ++ R) st' /\ (length R < length H)%nat /\
    forall c', client_trace (if decide (c' = c) then xs else progs c') (of_client c' R).
Proof.
  intros Hne Hg Hr Hcov Hp. destruct (find_late H progs Hne Hcov Hp) as (G & c & e & T & -> & HG & He).
  pose proof (Hp c) as (trs & Htrs & Ec). rewrite of_client_app, of_client_eq in Ec.
  inversion Htrs as [E1 E2|x tr xs trs' Hx Htrs' E1 E2]; subst; [by destruct (of_client c G)|]. cbn [concat] in Ec.
  specialize (Hcov c). rewrite <- E1 in Hcov. apply Forall_cons in Hcov as [Hcx _].
  destruct (performs_trace x tr Hcx Hx) as (lid & sc & -> & _ & Hn & _).
  destruct (trace_split lid sc _ _ _ _ (of_client_late c G HG) He (eq_sym Ec)) as (tl & Etr & ET).
  destruct (of_client_split c T tl (concat trs') ET) as (T1 & T2 & -> & ET1 & ET2).
  pose proof (tail_passes lid sc _ _ _ Hn He Etr) as Htl.
  change (G ++ (c, e) :: T1 ++ T2) with (G ++ [(c, e)] ++ T1 ++ T2) in Hr. rewrite app_assoc in Hr.
  apply lrun_app in Hr as (st1 & Hr1 & Hr2). apply lrun_app in Hr2 as (st2 & Hr2 & Hr3).
  apply (gather c) in Hr1; [|done|left; by apply late_theirs].
  rewrite mine_pairs, of_client_app, of_client_eq in Hr1. apply lrun_app in Hr1 as (sa & Hr1 & Hr4).
  assert (Hr5 : lrun sa (theirs c (G ++ [(c, e)]) ++ T1) st2) by (apply lrun_app; eauto).
  assert (Em : of_client c (theirs c (G ++ [(c, e)]) ++ T1) = tl) by (by rewrite of_client_app, of_client_theirs, decide_True).
  apply (gather c) in Hr5; [|by eapply lrun_good|right; rewrite mine_pairs, Em; by apply Forall_fmap].
  rewrite mine_pairs, Em in Hr5. set (R := theirs c (theirs c (G ++ [(c, e)]) ++ T1)) in *.
  exists c, x, xs, (trace_of lid sc), (R ++ T2). split; [done|]. split; [done|]. split.
  { assert (E : pair c <$> of_client c G ++ e :: tl = (pair c <$> of_client c G ++ [e]) ++ (pair c <$> tl))
      by (by rewrite <- fmap_app, <- app_assoc).
    rewrite Etr, E, <- app_assoc. apply lrun_app. exists sa. split; [exact Hr1|].
    rewrite app_assoc. apply lrun_app. by exists st2. }
  assert (Hof : forall c', of_client c' R = if decide (c' = c) then [] else of_client c' (G ++ [(c, e)] ++ T1)).
  { intros c'. unfold R. rewrite of_client_theirs. destruct (decide (c' = c)) as [->|Hc']; [done|].
    by rewrite !of_client_app, of_client_theirs, decide_False, of_client_app, <- app_assoc by done. }
  split.
  { pose proof (length_theirs c (theirs c (G ++ [(c, e)]) ++ T1)) as Hl1. fold R in Hl1. rewrite theirs_last in Hl1.
    pose proof (length_theirs c G). rewrite !length_app in *. cbn [length]. rewrite length_app. lia. }
  intros c'. rewrite of_client_app, Hof. destruct (decide (c' = c)) as [->|Hc'].
  - exists trs'. by rewrite ET2.
  - specialize (Hp c'). rewrite of_client_app, of_client_ne, of_client_app in Hp by done.
    rewrite !of_client_app, (of_client_ne c' c e []), <- !app_assoc by done. exact Hp.
Qed.

Lemma serialize_nil st st' progs : lrun st [] st' -> (forall c, Forall (fun x => covered x.1) (progs c)) ->
  (forall c, client_trace (progs c) (of_client c [])) ->
  exists order, (forall c, of_client c order = progs c) /\ sequential (hs_view st) (snd <$> order) (hs_view st').
Proof.
  intros Hr Hcov Hp. inversion Hr; subst. exists []. split; [|exact (seq_nil _)]. intros c. specialize (Hcov c).
  destruct (Hp c) as (trs & Htrs & E). destruct Htrs as [|x tr xs trs Hx _]; [done|]. apply Forall_cons in Hcov as [Hc _].
  by destruct (performs_trace x tr Hc Hx) as (lid & sc & -> & _).
Qed.

Lemma serialize n : forall H st st' progs, (length H <= n)%nat -> good st -> lrun st H st' ->
  (forall c, Forall (fun x => covered x.1) (progs c)) -> (forall c, client_trace (progs c) (of_client c H)) ->
  exists order, (forall c, of_client c order = progs c) /\ sequential (hs_view st) (snd <$> order) (hs_view st').
Proof.
  induction n as [|n IH]; intros H st st' progs Hlen Hg Hr Hcov Hp.
  { destruct H; [|cbn in Hlen; lia]. by apply serialize_nil. }
  destruct (decide (H = [])) as [->|Hne]; [by apply serialize_nil|].
  destruct (first_op H st st' progs Hne Hg Hr Hcov Hp) as (c & x & xs & tr & R & Hx & Hperf & Hr' & Hlt & Hp').
  assert (Hcov' : Forall (fun x => covered x.1) (x :: xs)) by (by rewrite <- Hx). apply Forall_cons in Hcov' as [Hcx Hcxs].
  destruct (performs_trace x tr Hcx Hperf) as (lid & sc & -> & _ & _ & Halone). apply lrun_app in Hr' as (st1 & Hr1 & Hr2).
  pose proof (lrun_good _ _ _ Hg Hr1) as Hg1. pose proof (trace_runs _ _ _ _ _ Hr1) as Hv.
  destruct (IH R st1 st' (fun c' => if decide (c' = c) then xs else progs c') ltac:(lia) Hg1 Hr2) as (order & Ho & Hseq).
  - intros c'. by destruct (decide (c' = c)).
  - exact Hp'.
  - exists ((c, x) :: order). split.
    + intros c'. specialize (Ho c'). destruct (decide (c' = c)) as [->|Hc']; [by rewrite of_client_eq, Ho, Hx|by rewrite of_client_ne].
    + rewrite fmap_cons. destruct x as [op ret]. econstructor; [|exact Hseq]. by apply Halone.
Qed.
End serialize.
