(* ===== verification/YfsSharedProps.v ===== *)
(** * YfsSharedProps: the guarantees of file system operations among other clients

    Operations that touch only the file or directory they lock, and one new file, can be
    told from atomic ones by nobody.  Removals are not of this kind: the file that goes with a
    directory entry is removed under the lock of the directory only. *)

From Stdlib Require Import ZArith Lia.
From S2P Require Import Prelude CppString BlockLayer Inode FileBlocks FileSystem FileWrite ExtentServer.
From S2P Require Import ExtentRefine ExtentClient YfsClient YfsView YfsFacts YfsShared YfsHistory YfsSerial.

(** ** Operations under locks *)


(** ** A removal that is not isolated *)

Section race.
Context `{Uninit}.

(** Another client unlinks [name] just before the second call. *)
Definition unlinker (d : Z) (name : list byte) (k : nat) (X : gset Z) (s : ehost) : ehost :=
  if (k =? 1)%nat then match yfs_unlink d name s with Ok (_, s') => s' | _ => s end else s.

(** C29: the lock of a directory does not protect the files in it: when a file is unlinked
    between the two calls of a write to it, under the lock of its directory while the
    writer has the lock of the file, the put of the writer makes the extent server
    dereference a null pointer. *)
Theorem unlink_write_race v (s : ehost) d es1 name i es2 t buf off data bw :
  let ents := es1 ++ mk_dirent name i :: es2 in
  holds 6 v s -> is_dir v d ents -> find_ent name ents = Some i -> has_nondigit name -> NoDup (d_inum <$> ents) ->
  plain i -> i <> d -> room_for (delete i v) d (Z.of_nat (length (enc_dir (es1 ++ es2)))) ->
  v !! i = Some (t, buf) -> Z.of_nat (length buf) <= MAXFILE -> 0 <= off <= MAXFILE ->
  yfs_write (H0 := shared_client (unlinker d name)) i (Z.of_nat (length data)) off data bw (mk_world s 0 {[i]} []) = Undef.
Proof.
  intros ents Hh Hd Hf Hnd Hdup Hp Hne Hroom Hi Hl Ho. unfold yfs_write.
  destruct (holds_get 5 v s i [] Hh Hp) as (s1 & E1 & Hh1). rewrite Hi in E1.
  cbn [ec_get ec_put shared_client]. cbv zeta. unfold others, unlinker. cbn [w_time w_s w_own w_log Nat.eqb]. rewrite E1. run_ok.
  cbn [snd option_fmap option_map default from_option Datatypes.id].
  change (negb (extent_OK =? yfs_OK)) with false. cbv iota. rewrite Z.ltb_irrefl, (take_ge data) by lia.
  rewrite MAXFILE_eq in *. rewrite (wrapU_small 64 off) by lia.
  destruct (write_buffer buf off data) as (b1 & E2 & E3); [lia|lia|]. cbn [fmap option_fmap option_map default from_option Datatypes.id snd].
  rewrite E2, bind_Ok, E3, bind_Ok. cbn [set_s w_s w_time w_own w_log Nat.eqb].
  destruct (unlink_spec 0 v s1 d es1 name i es2 Hh1 Hd Hf Hnd Hdup Hp Hne Hroom) as (s2 & E4 & Hh2). rewrite E4.
  destruct Hh2 as (m & Hm & Hv). cbn [ec_put local_client]. unfold meth_put, es_put, write_file.
  assert (m !! eid i = None) as Hmi.
  { rewrite eid_plain by done. apply view_None. rewrite Hv, lookup_insert_ne by done. apply lookup_delete_eq. }
  rewrite (repr_missing m (h_es s2) (eid i) Hm (eid_range i)); [done| |done].
  rewrite eid_plain by done. apply Hp.
Qed.

End race.

(** ** Instances *)

#[local] Existing Instance zero_mem.







(** The root directory. *)
Definition root_of (c : list byte) : gmap Z node := {[1 := (T_DIR, c)]}.

(** A file "a" in the root directory is written to while it is unlinked. *)
Lemma unlink_write_race_witness :
  exists s : ehost, yfs_write (H0 := shared_client (unlinker 1 [x61])) 2 1 0 [x62] 0 (mk_world s 0 {[2]} []) = Undef.
Proof.
  destruct (@es_new_repr zero_mem 7) as (es & _ & Hr).
  assert (holds 8 (root_of []) (mk_ehost es (fun _ => 100) 0)) as H0 by (by exists (spec_init 7)).
  destruct (holds_create 7 _ _ T_FILE 0 2 H0) as (s1 & _ & H1); [done|done|by vm_compute|].
  set (v := <[2 := (T_FILE, [])]> (root_of [])). set (ents := [mk_dirent [x61] 2]).
  destruct (holds_put 6 _ s1 1 (enc_dir ents) H1) as (s2 & _ & H2); [done|by eexists|split; vm_compute; discriminate|].
  exists s2. refine (unlink_write_race _ s2 1 [] [x61] 2 [] T_FILE [] 0 [x62] 0 H2 _ _ _ _ _ _ _ _ _ _).
  - split; [done|done| |by rewrite MAXFILE_eq]. by repeat constructor; [set_solver|..].
  - reflexivity.
  - exists x61. split; [set_solver|reflexivity].
  - apply NoDup_singleton.
  - done.
  - done.
  - split; vm_compute; discriminate.
  - reflexivity.
  - by rewrite MAXFILE_eq.
  - rewrite MAXFILE_eq. lia.
Defined.
