(* ===== verification/YfsProps.v ===== *)
(** * YfsProps: the guarantees of the file system

    What a caller of the file system may rely on, for any extent client that
    keeps its promises; the instances run against an extent server reached over
    the RPC library. *)

From Stdlib Require Import ZArith Lia.
From S2P Require Import Prelude CppString BlockLayer Inode FileBlocks FileSystem FileWrite.
From S2P Require Import ExtentServer ExtentRefine RpcServer RpcClient RpcLink ExtentClient.
From S2P Require Import Sockaddr.
From S2P Require Import ExtentRemote YfsClient YfsView YfsFacts.

(** ** The extent client *)

(** C20: over a working connection and the RPC library, the stubs of the extent
    client create an extent, store data in it and read the data back, each call
    with the server's own status, and leave every other extent alone. *)
Theorem remote_create_put_get `{Uninit} compare conn n m l type id0 buf buf0 :
  linked (3 + n) m l -> 0 <= type < 2 ^ 32 -> admissible m (ReqCreate type) ->
  Z.of_nat (length buf) <= MAXFILE -> space_used m + need (nblocks (Z.of_nat (length buf))) <= CAPACITY ->
  exists i m' l1 l2 l3,
    xc_create (direct_call compare conn) type id0 l = Ok (extent_OK, i, l1) /\
    xc_put (direct_call compare conn) i buf l1 = Ok (extent_OK, l2) /\
    xc_get (direct_call compare conn) i buf0 l2 = Ok (extent_OK, buf, l3) /\ linked n m' l3 /\
    first_ino m = Some i /\ (forall k, k <> i -> m' !! k = m !! k).
Proof.
  intros Hl Ht Ha Hlen Hspace.
  destruct (remote_create compare conn (2 + n) m l type id0 Hl Ht Ha) as (t1 & i & l1 & E1 & Hf & Hl1).
  pose proof (first_ino_spec m i Hf) as (Hv & Hm & _). unfold valid_ino in Hv. rewrite LAST_INO_eq in Hv.
  assert (plain i) as Hp by (unfold plain, ALIASED_INO; lia). pose proof (plain_id i Hp) as Hid.
  cbn [spec_serve] in Hl1. rewrite Hf in Hl1. cbn [snd] in Hl1. set (m1 := <[i := _]> m) in Hl1.
  assert (m1 !! i = Some (mk_extent (s16 type) [] 0 0 (u32 t1))) as Hm1 by apply lookup_insert_eq.
  destruct (remote_put compare conn (1 + n) m1 l1 i buf Hl1 Hid) as (t2 & l2 & E2 & Hl2).
  { cbn [admissible]. rewrite eid_plain by done. split; [by eexists|]. split; [done|].
    unfold m1. rewrite space_used_insert_new by (done || (unfold valid_ino; rewrite LAST_INO_eq; lia)).
    unfold blocks_at. rewrite lookup_insert_eq. unfold e_blocks. cbn [e_data length]. lia. }
  cbn [spec_serve snd] in Hl2. rewrite eid_plain in Hl2 by done. set (m2 := alter _ i m1) in Hl2.
  assert (m2 !! i = Some (mk_extent (s16 type) buf 0 (u32 t2) (u32 t2))) as Hm2
    by (unfold m2; by rewrite lookup_alter_eq, Hm1).
  destruct (remote_get compare conn n m2 l2 i buf0 Hl2 Hid) as (t3 & l3 & E3 & Hl3).
  { cbn. rewrite eid_plain by done. apply Hp. }
  rewrite eid_plain, Hm2 in E3 by done. eexists i, _, l1, l2, l3.
  split; [exact E1|]. split; [exact E2|]. split; [exact E3|]. split; [exact Hl3|]. split; [done|].
  intros k Hk. cbn [spec_serve snd]. rewrite eid_plain by done.
  rewrite lookup_alter_ne by done. unfold m2. rewrite lookup_alter_ne by done. by apply lookup_insert_ne.
Qed.

(** ** The guarantees *)

Section guarantees.
Context `{HeapMem} {S : Type} `{ExtentClientOK S}.

(** C10: a file created under a free name is found under that name, with the number
    the creation returned; it is an empty file, every other name of the directory
    is found as before, and no other file changes. *)
Theorem create_then_lookup n v s d ents name mode i0 i j0 :
  holds (7 + n) v s -> is_dir v d ents -> find_ent name ents = None -> slash ∉ name -> free_ino v = Some i ->
  room_for (<[i := (T_FILE, [])]> v) d (Z.of_nat (length (enc_dir (ents ++ [mk_dirent name i])))) ->
  exists v' s1 s2, yfs_create d name mode i0 s = Ok (yfs_OK, i, s1) /\
    yfs_lookup d name j0 s1 = Ok (yfs_EXIST, true, i, s2) /\ holds n v' s2 /\
    v' !! i = Some (T_FILE, []) /\
    (exists ents', is_dir v' d ents' /\ forall name', name' <> name -> find_ent name' ents' = find_ent name' ents) /\
    (forall k, k <> d -> k <> i -> v' !! k = v !! k).
Proof.
  intros Hh Hd Hf Hs Hi Hroom. pose proof (free_ino_not_dir _ _ _ _ Hi Hd) as Hne.
  destruct (create_spec (2 + n) v s d ents name mode i0 i) as (s1 & E1 & Hh1); [done..|].
  pose proof (add_file_is_dir v d ents name i T_FILE [] Hd Hs Hi (proj1 Hroom)) as Hd1.
  destruct (lookup_spec n _ s1 d _ name j0 Hh1 Hd1) as (s2 & E2 & Hh2).
  unfold lookup_answer in E2. rewrite find_ent_new in E2 by done.
  eexists _, s1, s2. split; [exact E1|]. split; [exact E2|]. split; [exact Hh2|]. split; [by apply add_file_at|].
  split; [|intros; by apply add_file_other]. eexists. split; [exact Hd1|]. intros. by apply find_ent_new_ne.
Qed.

(** A directory made under a free name is found under that name and is an
    empty directory, in which nothing is found. *)
Theorem mkdir_then_lookup n v s d ents name mode i0 i j0 name' :
  holds (9 + n) v s -> is_dir v d ents -> find_ent name ents = None -> slash ∉ name -> free_ino v = Some i ->
  room_for (<[i := (T_DIR, [])]> v) d (Z.of_nat (length (enc_dir (ents ++ [mk_dirent name i])))) ->
  exists v' s1 s2 s3, yfs_mkdir d name mode i0 s = Ok (yfs_OK, i, s1) /\
    yfs_lookup d name j0 s1 = Ok (yfs_EXIST, true, i, s2) /\
    yfs_lookup i name' j0 s2 = Ok (yfs_OK, false, j0, s3) /\ holds n v' s3 /\
    (forall k, k <> d -> k <> i -> v' !! k = v !! k).
Proof.
  intros Hh Hd Hf Hs Hi Hroom. pose proof (free_ino_not_dir _ _ _ _ Hi Hd) as Hne.
  destruct (mkdir_spec (4 + n) v s d ents name mode i0 i) as (s1 & E1 & Hh1); [done..|].
  pose proof (add_file_is_dir v d ents name i T_DIR [] Hd Hs Hi (proj1 Hroom)) as Hd1.
  destruct (lookup_spec (2 + n) _ s1 d _ name j0 Hh1 Hd1) as (s2 & E2 & Hh2).
  unfold lookup_answer in E2. rewrite find_ent_new in E2 by done.
  assert (is_dir (add_file v d ents name i T_DIR []) i []) as Hdi.
  { split; [by eapply free_ino_plain|by apply add_file_at|constructor|by rewrite MAXFILE_eq]. }
  destruct (lookup_spec n _ s2 i [] name' j0 Hh2 Hdi) as (s3 & E3 & Hh3).
  eexists _, s1, s2, s3. split; [exact E1|]. split; [exact E2|]. split; [exact E3|]. split; [exact Hh3|].
  intros. by apply add_file_other.
Qed.

(** C30: a symbolic link is found under its name, and reading it gives its target. *)
Theorem symlink_readlink n v s d ents name link i0 i j0 buf0 :
  holds (9 + n) v s -> is_dir v d ents -> find_ent name ents = None -> slash ∉ name -> free_ino v = Some i ->
  room_for (<[i := (T_SYMLINK, [])]> v) i (Z.of_nat (length link)) ->
  room_for (<[i := (T_SYMLINK, link)]> v) d (Z.of_nat (length (enc_dir (ents ++ [mk_dirent name i])))) ->
  exists v' s1 s2 s3, yfs_symlink d name link i0 s = Ok (yfs_OK, i, s1) /\
    yfs_lookup d name j0 s1 = Ok (yfs_EXIST, true, i, s2) /\
    yfs_readlink i buf0 s2 = Ok (yfs_OK, link, s3) /\ holds n v' s3.
Proof.
  intros Hh Hd Hf Hs Hi Hroom1 Hroom2. pose proof (free_ino_not_dir _ _ _ _ Hi Hd) as Hne.
  destruct (symlink_spec (3 + n) v s d ents name link i0 i) as (s1 & E1 & Hh1); [done..|].
  pose proof (add_file_is_dir v d ents name i T_SYMLINK link Hd Hs Hi (proj1 Hroom2)) as Hd1.
  destruct (lookup_spec (1 + n) _ s1 d _ name j0 Hh1 Hd1) as (s2 & E2 & Hh2).
  unfold lookup_answer in E2. rewrite find_ent_new in E2 by done.
  destruct (holds_get n _ s2 i buf0 Hh2) as (s3 & E3 & Hh3); [by eapply free_ino_plain|].
  rewrite add_file_at in E3 by done. eexists _, s1, s2, s3. unfold yfs_readlink. done.
Qed.

(** C17: in a directory whose names, and whose inode numbers, are distinct, a file
    whose name has a byte that is not a digit can be unlinked: it is then no longer found
    under its name and is gone from the server, and every other name of the directory is
    found as before.  (A name of digits only may be taken for the end of an inode number.) *)
Theorem unlink_then_lookup n v s d es1 name i es2 j0 :
  let ents := es1 ++ mk_dirent name i :: es2 in
  holds (7 + n) v s -> is_dir v d ents -> NoDup (d_name <$> ents) -> NoDup (d_inum <$> ents) ->
  has_nondigit name -> plain i -> i <> d ->
  room_for (delete i v) d (Z.of_nat (length (enc_dir (es1 ++ es2)))) ->
  exists v' s1 s2, yfs_unlink d name s = Ok (yfs_OK, s1) /\
    yfs_lookup d name j0 s1 = Ok (yfs_OK, false, j0, s2) /\ holds n v' s2 /\ v' !! i = None /\
    is_dir v' d (es1 ++ es2) /\
    (forall name', name' <> name -> find_ent name' (es1 ++ es2) = find_ent name' ents) /\
    (forall k, k <> d -> k <> i -> v' !! k = v !! k).
Proof.
  intros ents Hh Hd Hnames Hnums Hnd Hp Hne Hroom. destruct (find_ent_cut name es1 i es2 Hnames) as [Hcut Hother].
  assert (find_ent name ents = Some i) as Hf.
  { unfold ents. rewrite find_ent_app. unfold ents in Hnames. rewrite fmap_app, fmap_cons in Hnames.
    apply NoDup_app in Hnames as (_ & Hdis & _).
    rewrite (proj2 (find_ent_None name es1)); [|intros Hin; apply (Hdis name Hin); left].
    cbn. by rewrite bool_decide_true. }
  destruct (unlink_spec (2 + n) v s d es1 name i es2) as (s1 & E1 & Hh1); [done..|].
  set (v' := <[d := _]> _) in Hh1.
  assert (is_dir v' d (es1 ++ es2)) as Hd1.
  { split; [apply Hd|by unfold v'; rewrite lookup_insert_eq| |apply Hroom].
    pose proof (id_ents _ _ _ Hd) as He. unfold ents in He.
    apply Forall_app in He as [He1 [_ He2]%Forall_cons]. by apply Forall_app. }
  destruct (lookup_spec n v' s1 d _ name j0 Hh1 Hd1) as (s2 & E2 & Hh2).
  unfold lookup_answer in E2. rewrite Hcut in E2. exists v', s1, s2. split_and!; try done.
  - unfold v'. by rewrite lookup_insert_ne, lookup_delete_eq.
  - intros k Hkd Hki. unfold v'. by rewrite lookup_insert_ne, lookup_delete_ne.
Qed.

(** C31: creating a file, a directory or a link under a name that is taken reports
    that it exists, and changes no file; removing a name that is not there reports
    so, and changes no file. *)
Theorem name_conflicts_refused n v s d ents name mode link i0 i :
  holds (2 + n) v s -> is_dir v d ents ->
  (find_ent name ents = Some i ->
    (exists s', yfs_create d name mode i0 s = Ok (yfs_EXIST, i, s') /\ holds n v s') /\
    (exists s', yfs_mkdir d name mode i0 s = Ok (yfs_EXIST, i, s') /\ holds n v s') /\
    (exists s', yfs_symlink d name link i0 s = Ok (yfs_EXIST, i, s') /\ holds n v s')) /\
  (find_ent name ents = None -> exists s', yfs_unlink d name s = Ok (yfs_NOENT, s') /\ holds n v s').
Proof.
  intros Hh Hd. split.
  - intros Hf. destruct (taken_spec n v s d ents name mode i0 i Hh Hd Hf) as (? & ? & Hl). auto.
  - intros Hf. by eapply unlink_missing.
Qed.

(** C32: listing a directory gives its entries, each with its name and number, in
    the order of the directory's content, whatever bytes but slashes the names hold. *)
Theorem readdir_lists n v s d ents : holds (1 + n) v s -> is_dir v d ents ->
  exists s', yfs_readdir d [] s = Ok (yfs_OK, ents, s') /\ holds n v s'.
Proof. intros Hh Hd. by apply (readdir_spec n v s d ents []). Qed.

(** Listing something whose content is not empty and has no slash, such as a
    file of text, does not come back: no bound on the number of rounds is enough. *)
Theorem readdir_without_slash_hangs n v s i t buf fuel :
  holds (1 + n) v s -> plain i -> v !! i = Some (t, buf) -> buf <> [] -> slash ∉ buf ->
  Z.of_nat (length buf) <= MAXFILE -> yfs_readdir i [] s = Hang /\ readdir_loop fuel buf [] = Hang.
Proof.
  intros Hh Hp Hv Hne Hs Hl. rewrite MAXFILE_eq in Hl. split; [|apply readdir_loop_hangs; done || lia].
  unfold yfs_readdir. destruct (holds_get n v s i [] Hh Hp) as (s' & -> & _). run_ok. rewrite Hv.
  cbn [fmap option_fmap option_map default from_option Datatypes.id snd].
  change (negb (extent_OK =? yfs_OK)) with false. cbv iota. rewrite readdir_loop_hangs; done || lia.
Qed.

(** C16: reading back a range that was written gives the bytes written; of the
    bytes of the file those outside the range are as they were, and a gap between
    the old end and the range is filled with zeros. *)
Theorem write_then_read n v s i off data w t buf :
  holds (3 + n) v s -> plain i -> v !! i = Some (t, buf) -> Z.of_nat (length buf) <= MAXFILE ->
  0 <= off <= MAXFILE -> room_for v i (Z.of_nat (length (write_at buf (Z.to_nat off) data))) ->
  exists new s1 s2, yfs_write i (Z.of_nat (length data)) off data w s = Ok (yfs_OK, Z.of_nat (length data), s1) /\
    yfs_read i (Z.of_nat (length data)) off [] s1 = Ok (yfs_OK, data, s2) /\
    holds n (<[i := (t, new)]> v) s2 /\
    forall k, new !! k = if (k <? Z.to_nat off)%nat then (if (k <? length buf)%nat then buf !! k else Some x00)
                         else if (k <? Z.to_nat off + length data)%nat then data !! (k - Z.to_nat off)%nat
                         else buf !! k.
Proof.
  intros Hh Hp Hv Hl Ho Hroom. exists (write_at buf (Z.to_nat off) data).
  destruct (write_spec (1 + n) v s i _ off data w t buf Hh Hp Hv Hl Ho eq_refl Hroom) as (s1 & E1 & Hh1).
  rewrite MAXFILE_eq in *.
  destruct (read_spec n _ s1 i (Z.of_nat (length data)) off [] Hh1 Hp) as (s2 & E2 & Hh2); [lia|lia| |].
  { rewrite lookup_insert_eq. apply Hroom. }
  rewrite lookup_insert_eq in E2. cbn [fmap option_fmap option_map default from_option Datatypes.id snd] in E2.
  rewrite Nat2Z.id, write_at_slice in E2.
  exists s1, s2. split; [exact E1|]. split; [exact E2|]. split; [exact Hh2|]. intros. apply write_at_lookup.
Qed.

(** [setattr] cuts a file to the given size or extends it with zeros. *)
Theorem setattr_resizes n v s i size t buf :
  holds (3 + n) v s -> plain i -> v !! i = Some (t, buf) -> 0 <= size -> room_for v i size ->
  exists s1 s2, yfs_setattr i size s = Ok (yfs_OK, s1) /\
    yfs_read i size 0 [] s1 =
      Ok (yfs_OK, take (Z.to_nat size) buf ++ replicate (Z.to_nat size - length buf) x00, s2) /\
    exists new, holds n (<[i := (t, new)]> v) s2 /\ Z.of_nat (length new) = size.
Proof.
  intros Hh Hp Hv Hs Hroom. destruct (setattr_spec (1 + n) v s i size t buf Hh Hp Hv Hs Hroom) as (s1 & E1 & Hh1 & Hl).
  destruct (read_spec n _ s1 i size 0 [] Hh1 Hp) as (s2 & E2 & Hh2); [lia|lia| |].
  { rewrite lookup_insert_eq. cbn [fmap option_fmap option_map default from_option Datatypes.id snd].
    rewrite Hl. apply Hroom. }
  rewrite lookup_insert_eq in E2. cbn [fmap option_fmap option_map default from_option Datatypes.id snd] in E2.
  rewrite drop_0, (take_ge (_ ++ _)) in E2 by lia. exists s1, s2. split; [exact E1|]. split; [exact E2|]. eauto.
Qed.

(** Creating a file in something that is not a directory succeeds, and appends
    the text of the entry to the content of the file given as the directory. *)
Theorem create_in_file_appends n v s f t buf name mode i0 i :
  holds (4 + n) v s -> plain f -> v !! f = Some (t, buf) -> u32 t <> T_DIR -> free_ino v = Some i ->
  room_for (<[i := (T_FILE, [])]> v) f (Z.of_nat (length (buf ++ entry name i))) ->
  exists s', yfs_create f name mode i0 s = Ok (yfs_OK, i, s') /\
    holds n (<[f := (t, buf ++ entry name i)]> (<[i := (T_FILE, [])]> v)) s'.
Proof.
  intros Hh Hp Hv Ht Hi Hroom. destruct (free_ino_plain v i Hi) as [Hpi Hn].
  assert (i <> f) as Hne by congruence.
  assert (<[i := (T_FILE, [])]> v !! f = Some (t, buf)) as Hf by by rewrite lookup_insert_ne.
  unfold yfs_create. destruct (lookup_not_dir _ v s f name i0 Hh Hp) as (s1 & -> & Hh1);
    [unfold type_of; by rewrite Hv|]. run_ok.
  destruct (holds_create _ v s1 T_FILE i0 i Hh1) as (s2 & -> & Hh2); [done..|]. run_ok.
  change (s16 T_FILE) with T_FILE in Hh2. destruct (holds_get _ _ s2 f [] Hh2 Hp) as (s3 & -> & Hh3). run_ok. rewrite Hf.
  cbn [fmap option_fmap option_map default from_option Datatypes.id snd].
  change (negb (extent_OK =? yfs_OK)) with false. cbv iota.
  destruct (holds_put n _ s3 f (buf ++ entry name i) Hh3 Hp) as (s4 & -> & Hh4); [by eexists|done|]. run_ok.
  exists s4. split; [done|]. by rewrite (alter_insert_id _ _ f (t, buf)) in Hh4.
Qed.

(** The directory x -> 12, 5 -> 3, 2 -> 5, and what is left of it below. *)
Definition digits_dir : list dirent := [mk_dirent [x78] 12; mk_dirent [x35] 3; mk_dirent [x32] 5].
Definition digits_left : list dirent := [mk_dirent [x78] 13; mk_dirent [x32] 5].

(** C35: In a directory with names of digits, unlinking the name 2 succeeds and
    removes the file, but cuts the directory in the wrong place: the name 2 is
    still there, the name 5 is lost, and x stands for another number. *)
Theorem unlink_digit_name_corrupts n v s d :
  holds (5 + n) v s -> is_dir v d digits_dir -> d <> 5 ->
  room_for (delete 5 v) d (Z.of_nat (length (enc_dir digits_left))) ->
  exists s', yfs_unlink d [x32] s = Ok (yfs_OK, s') /\
    holds n (<[d := (T_DIR, enc_dir digits_left)]> (delete 5 v)) s'.
Proof.
  intros Hh Hd Hne Hroom. unfold yfs_unlink. pose proof (id_plain _ _ _ Hd) as Hp.
  destruct (lookup_spec _ v s d _ [x32] (u64 stack_int) Hh Hd) as (s1 & -> & Hh1).
  change (lookup_answer [x32] digits_dir (u64 stack_int)) with (yfs_EXIST, true, 5). run_ok. cbn [negb].
  destruct (holds_remove _ v s1 5 Hh1) as (s2 & -> & Hh2); [done|]. run_ok.
  destruct (holds_get _ _ s2 d [] Hh2 Hp) as (s3 & -> & Hh3). run_ok.
  assert (delete 5 v !! d = Some (T_DIR, enc_dir digits_dir)) as Hl by (rewrite lookup_delete_ne by done; apply Hd).
  rewrite Hl. cbn [fmap option_fmap option_map default from_option Datatypes.id snd].
  change (negb (extent_OK =? yfs_OK)) with false. cbv iota.
  assert (str_replace (enc_dir digits_dir) (find_str (entry [x32] 5) (enc_dir digits_dir) 0)
    (Z.of_nat (length (entry [x32] 5))) [] = Ok (enc_dir digits_left)) as -> by (vm_compute; reflexivity).
  run_ok. destruct (holds_put n _ s3 d (enc_dir digits_left) Hh3 Hp) as (s4 & -> & Hh4); [by eexists|done|].
  exists s4. split; [done|]. by rewrite (alter_insert_id _ _ d (T_DIR, enc_dir digits_dir)) in Hh4.
Qed.

End guarantees.

(** ** A file system over RPC *)

Definition root_only : gmap Z node := {[1 := (T_DIR, [])]}.

Lemma root_is_dir : is_dir root_only 1 [].
Proof. split; [done|done|constructor|by rewrite MAXFILE_eq]. Qed.

(** C11: starting up works from nothing: the extent server formats its disk and
    registers its methods, a client that can resolve the server's address and has a
    nonce of its own binds to it, and the
    file system's constructor leaves an empty root directory, with all the
    calls that 31-bit call numbers allow still to be made. *)
Theorem startup_mounts_root `{Uninit} compare conn inet_addr gethostbyname dst a t0 nonce count cnonce clock n :
  make_sockaddr inet_addr gethostbyname dst = Ok a -> 0 < u32 cnonce -> Z.of_nat n <= 2 ^ 31 - 5 ->
  exists es s l l', es_new t0 = Ok es /\ extent_main nonce count = Ok s /\
    extent_client_new compare conn inet_addr gethostbyname dst s (mk_ehost es clock 0) cnonce 0 = Ok l /\
    @yfs_new _ (remote_client compare conn) l = Ok l' /\
    @holds _ _ (remote_client_ok compare conn) n root_only l' /\ is_dir root_only 1 [].
Proof.
  intros Hdst Hc Hn.
  destruct (connect_linked compare conn inet_addr gethostbyname dst a t0 nonce count cnonce clock (1 + n))
    as (es & s & l & E1 & E2 & E3 & Hl); [done|done|lia|].
  assert (exists l', @yfs_new _ (remote_client compare conn) l = Ok l' /\
    @holds _ _ (remote_client_ok compare conn) n root_only l') as (l' & E4 & Hh).
  { clear E1 E2 E3.
    destruct (@holds_put _ _ (remote_client_ok compare conn) n root_only l 1 []) as (l' & E & Hh).
    - exists (spec_init t0). split; [exact Hl|]. unfold view, spec_init. by rewrite map_fmap_singleton.
    - done.
    - by eexists.
    - split; vm_compute; discriminate.
    - exists l'. unfold yfs_new. rewrite E, bind_Ok. split; [done|].
      unfold root_only in Hh. by rewrite (alter_insert_id _ _ 1 (T_DIR, [])), insert_singleton_eq in Hh. }
  exists es, s, l, l'. exact (conj E1 (conj E2 (conj E3 (conj E4 (conj Hh root_is_dir))))).
Qed.

#[local] Existing Instance zero_mem.
#[local] Instance demo_client : ExtentClient (link ehost) := remote_client Z.sub 3.
#[local] Instance demo_client_ok : ExtentClientOK (link ehost) := remote_client_ok Z.sub 3.

(** A port alone stands for a port of the local host. *)
Lemma demo_dst : make_sockaddr (fun _ => 0x0100007f) (fun _ => None) [x37; x30; x30; x31] =
  Ok (mk_sockaddr 0x0100007f (htons 7001)).
Proof. reflexivity. Qed.

Lemma startup_mounts_root_witness :
  0 < u32 9 /\ exists l' : link ehost, holds 1000 root_only l'.
Proof.
  split; [done|].
  destruct (startup_mounts_root Z.sub 3 _ _ _ _ 7 5 0 9 (fun _ => 100) 1000 demo_dst)
    as (es & s & l & l' & _ & _ & _ & _ & Hh & _); [done|lia|]. exists l'. exact Hh.
Defined.

Lemma demo_linked n : Z.of_nat n < 1000 -> exists s : link ehost, linked n (spec_init 7) s.
Proof.
  intros Hn. destruct (connect_linked Z.sub 3 _ _ _ _ 7 5 0 9 (fun _ => 100) n demo_dst) as (es & s & l & _ & _ & _ & Hl); [done|lia|].
  by exists l.
Qed.

Lemma demo_holds n : Z.of_nat n < 1000 -> exists s : link ehost, holds n root_only s.
Proof. intros Hn. destruct (demo_linked n Hn) as [s Hs]. by exists s, (spec_init 7). Qed.

Lemma remote_create_put_get_witness :
  exists l l1 l2 l3 : link ehost, xc_create (direct_call Z.sub 3) T_FILE 0 l = Ok (0, 2, l1) /\
    xc_put (direct_call Z.sub 3) 2 [x68; x69] l1 = Ok (0, l2) /\
    xc_get (direct_call Z.sub 3) 2 [] l2 = Ok (0, [x68; x69], l3).
Proof.
  destruct (demo_linked 3) as [l Hl]; [done|].
  destruct (remote_create_put_get Z.sub 3 0 (spec_init 7) l T_FILE 0 [x68; x69] [] Hl)
    as (i & m' & l1 & l2 & l3 & E1 & E2 & E3 & _ & Hf & _);
    [done|split; [done|by vm_compute; eexists]|by rewrite MAXFILE_eq|vm_compute; discriminate|].
  assert (first_ino (spec_init 7) = Some 2) as Hf2 by (vm_compute; reflexivity).
  rewrite Hf2 in Hf. injection Hf as <-.
  exists l, l1, l2, l3. exact (conj E1 (conj E2 E3)).
Defined.

(** Any content for the root directory, and a file, number 2. *)
Lemma demo_root n buf : Z.of_nat n < 999 -> room_for root_only 1 (Z.of_nat (length buf)) ->
  exists s : link ehost, holds n {[1 := (T_DIR, buf)]} s.
Proof.
  intros Hn Hroom. destruct (demo_holds (1 + n)) as [s Hh]; [lia|].
  destruct (holds_put n root_only s 1 buf Hh) as (s' & _ & Hh'); [done|by eexists|done|]. exists s'.
  unfold root_only in Hh'. by rewrite (alter_insert_id _ _ 1 (T_DIR, [])), insert_singleton_eq in Hh'.
Qed.

Definition two_files (buf c : list byte) : gmap Z node := <[2 := (T_FILE, c)]> {[1 := (T_DIR, buf)]}.

Lemma demo_file n buf c : Z.of_nat n < 900 -> room_for root_only 1 (Z.of_nat (length buf)) ->
  room_for (two_files buf []) 2 (Z.of_nat (length c)) -> exists s : link ehost, holds n (two_files buf c) s.
Proof.
  intros Hn Hroom1 Hroom2. destruct (demo_root (2 + n) buf) as [s Hh]; [lia|done|].
  destruct (holds_create (1 + n) _ s T_FILE 0 2 Hh) as (s1 & _ & Hh1); [done|done|by vm_compute|].
  destruct (holds_put n _ s1 2 c Hh1) as (s2 & _ & Hh2); [done|by eexists|done|]. exists s2.
  by rewrite (alter_insert_id _ _ 2 (T_FILE, [])), insert_insert_eq in Hh2.
Qed.

(** Side conditions on concrete views. *)
Ltac room := split; vm_compute; discriminate.

Lemma create_then_lookup_witness :
  exists s s1 s2 : link ehost, yfs_create 1 [x61] 0 0 s = Ok (yfs_OK, 2, s1) /\
    yfs_lookup 1 [x61] 0 s1 = Ok (yfs_EXIST, true, 2, s2).
Proof.
  destruct (demo_holds 7) as [s Hh]; [done|].
  destruct (create_then_lookup 0 root_only s 1 [] [x61] 0 0 2 0 Hh root_is_dir) as (v' & s1 & s2 & E1 & E2 & _);
    [reflexivity|set_solver|vm_compute; reflexivity|room|].
  exists s, s1, s2. exact (conj E1 E2).
Defined.

Lemma mkdir_then_lookup_witness :
  exists s s1 s2 s3 : link ehost, yfs_mkdir 1 [x64] 0 0 s = Ok (yfs_OK, 2, s1) /\
    yfs_lookup 1 [x64] 0 s1 = Ok (yfs_EXIST, true, 2, s2) /\ yfs_lookup 2 [x61] 0 s2 = Ok (yfs_OK, false, 0, s3).
Proof.
  destruct (demo_holds 9) as [s Hh]; [done|].
  destruct (mkdir_then_lookup 0 root_only s 1 [] [x64] 0 0 2 0 [x61] Hh root_is_dir)
    as (v' & s1 & s2 & s3 & E1 & E2 & E3 & _); [reflexivity|set_solver|vm_compute; reflexivity|room|].
  exists s, s1, s2, s3. exact (conj E1 (conj E2 E3)).
Defined.

Lemma symlink_readlink_witness :
  exists s s1 s2 s3 : link ehost, yfs_symlink 1 [x6c] [x2f; x61] 0 s = Ok (yfs_OK, 2, s1) /\
    yfs_lookup 1 [x6c] 0 s1 = Ok (yfs_EXIST, true, 2, s2) /\ yfs_readlink 2 [] s2 = Ok (yfs_OK, [x2f; x61], s3).
Proof.
  destruct (demo_holds 9) as [s Hh]; [done|].
  destruct (symlink_readlink 0 root_only s 1 [] [x6c] [x2f; x61] 0 2 0 [] Hh root_is_dir)
    as (v' & s1 & s2 & s3 & E1 & E2 & E3 & _); [reflexivity|set_solver|vm_compute; reflexivity|room|room|].
  exists s, s1, s2, s3. exact (conj E1 (conj E2 E3)).
Defined.

(** The root directory with a file, number 2, under the name a. *)
Definition demo_ents : list dirent := [mk_dirent [x61] 2].

Lemma demo_is_dir c : is_dir (two_files (enc_dir demo_ents) c) 1 demo_ents.
Proof.
  split; [done|done| |by rewrite MAXFILE_eq]. apply Forall_singleton. split; [set_solver|cbn; lia].
Qed.

Lemma unlink_then_lookup_witness :
  exists s s1 s2 : link ehost, yfs_unlink 1 [x61] s = Ok (yfs_OK, s1) /\
    yfs_lookup 1 [x61] 0 s1 = Ok (yfs_OK, false, 0, s2).
Proof.
  destruct (demo_file 7 (enc_dir demo_ents) []) as [s Hh]; [done|room|room|].
  destruct (unlink_then_lookup 0 _ s 1 [] [x61] 2 [] 0 Hh (demo_is_dir [])) as (v' & s1 & s2 & E1 & E2 & _).
  - apply NoDup_singleton.
  - apply NoDup_singleton.
  - exists x61. split; [left|reflexivity].
  - done.
  - done.
  - room.
  - exists s, s1, s2. exact (conj E1 E2).
Defined.

Lemma name_conflicts_refused_witness :
  (exists s s' : link ehost, yfs_create 1 [x61] 0 0 s = Ok (yfs_EXIST, 2, s')) /\
  (exists s s' : link ehost, yfs_unlink 1 [x62] s = Ok (yfs_NOENT, s')).
Proof.
  destruct (demo_file 2 (enc_dir demo_ents) []) as [s Hh]; [done|room|room|].
  destruct (name_conflicts_refused 0 _ s 1 demo_ents [x61] 0 [] 0 2 Hh (demo_is_dir [])) as [H1 _].
  destruct (name_conflicts_refused 0 _ s 1 demo_ents [x62] 0 [] 0 2 Hh (demo_is_dir [])) as [_ H2].
  destruct (H1 eq_refl) as ((s1 & E1 & _) & _). destruct (H2 eq_refl) as (s2 & E2 & _).
  split; [exists s, s1; exact E1|exists s, s2; exact E2].
Defined.

Lemma readdir_lists_witness :
  exists s s' : link ehost, yfs_readdir 1 [] s = Ok (yfs_OK, demo_ents, s').
Proof.
  destruct (demo_file 1 (enc_dir demo_ents) []) as [s Hh]; [done|room|room|].
  destruct (readdir_lists 0 _ s 1 demo_ents Hh (demo_is_dir [])) as (s' & E & _). exists s, s'. exact E.
Defined.

Lemma readdir_without_slash_hangs_witness : exists s : link ehost, yfs_readdir 2 [] s = Hang.
Proof.
  destruct (demo_file 1 (enc_dir demo_ents) [x68; x69]) as [s Hh]; [done|room|room|]. exists s.
  refine (proj1 (readdir_without_slash_hangs 0 _ s 2 T_FILE [x68; x69] 0 Hh _ _ _ _ _)).
  - done.
  - done.
  - done.
  - set_solver.
  - by rewrite MAXFILE_eq.
Defined.

Lemma write_then_read_witness :
  exists s s1 s2 : link ehost, yfs_write 2 2 5 [x68; x69] 0 s = Ok (yfs_OK, 2, s1) /\
    yfs_read 2 2 5 [] s1 = Ok (yfs_OK, [x68; x69], s2).
Proof.
  destruct (demo_file 3 (enc_dir demo_ents) [x61]) as [s Hh]; [done|room|room|].
  destruct (write_then_read 0 _ s 2 5 [x68; x69] 0 T_FILE [x61] Hh) as (new & s1 & s2 & E1 & E2 & _);
    [done|done|by rewrite MAXFILE_eq|by rewrite MAXFILE_eq|room|].
  exists s, s1, s2. exact (conj E1 E2).
Defined.

Lemma setattr_resizes_witness :
  exists s s1 s2 : link ehost, yfs_setattr 2 3 s = Ok (yfs_OK, s1) /\
    yfs_read 2 3 0 [] s1 = Ok (yfs_OK, [x61; x00; x00], s2).
Proof.
  destruct (demo_file 3 (enc_dir demo_ents) [x61]) as [s Hh]; [done|room|room|].
  destruct (setattr_resizes 0 _ s 2 3 T_FILE [x61] Hh) as (s1 & s2 & E1 & E2 & _); [done|done|done|room|].
  exists s, s1, s2. exact (conj E1 E2).
Defined.

Lemma create_in_file_appends_witness :
  exists s s' : link ehost, yfs_create 2 [x62] 0 0 s = Ok (yfs_OK, 3, s') /\
    holds 0 (<[2 := (T_FILE, [x68; x69] ++ entry [x62] 3)]> (<[3 := (T_FILE, [])]> (two_files (enc_dir demo_ents) [x68; x69]))) s'.
Proof.
  destruct (demo_file 4 (enc_dir demo_ents) [x68; x69]) as [s Hh]; [done|room|room|].
  destruct (create_in_file_appends 0 _ s 2 T_FILE [x68; x69] [x62] 0 0 3 Hh) as (s' & E & Hh');
    [done|done|done|vm_compute; reflexivity|room|].
  exists s, s'. exact (conj E Hh').
Defined.

Lemma digits_is_dir : is_dir {[1 := (T_DIR, enc_dir digits_dir)]} 1 digits_dir.
Proof.
  split; [done|done| |by rewrite MAXFILE_eq].
  repeat (apply Forall_cons; split; [split; [set_solver|cbn; lia]|]). by apply Forall_nil.
Qed.

Lemma unlink_digit_name_corrupts_witness :
  exists s s' : link ehost, yfs_unlink 1 [x32] s = Ok (yfs_OK, s') /\
    holds 0 (<[1 := (T_DIR, enc_dir digits_left)]> (delete 5 {[1 := (T_DIR, enc_dir digits_dir)]})) s'.
Proof.
  destruct (demo_root 5 (enc_dir digits_dir)) as [s Hh]; [done|room|].
  destruct (unlink_digit_name_corrupts 0 _ s 1 Hh digits_is_dir) as (s' & E & Hh'); [done|room|].
  exists s, s'. exact (conj E Hh').
Defined.
