(* ===== verification/Fuse.v ===== *)
(** * Fuse: the request handlers (fuse.cc)

    Each handler turns a request of the kernel into operations of the file
    system and one reply.  The size and the bytes of a directory entry for the
    kernel are libfuse's ([fuse_dirent_size], [fuse_add_dirent]) and are
    parameters: [fuse_add_dirent name ino off] are the bytes stored in the
    buffer, [off] the offset of the entry after it. *)

From Stdlib Require Import ZArith Lia.
From S2P Require Import Prelude CppString BlockLayer Inode FileBlocks FileSystem FileWrite.
From S2P Require Import ExtentServer ExtentClient YfsClient YfsView YfsFacts.

Definition ENOENT : Z := 2.
Definition EEXIST : Z := 17.
Definition ENOTDIR : Z := 20.
Definition ENOSYS : Z := 38.
Definition ENOTEMPTY : Z := 39.
Definition S_IFDIR : Z := 0x4000.
Definition S_IFREG : Z := 0x8000.
Definition S_IFLNK : Z := 0xa000.
Definition FUSE_SET_ATTR_SIZE : Z := 8.
Definition FUSE_SET_ATTR_ATIME : Z := 16.
Definition FUSE_SET_ATTR_MTIME : Z := 32.

(** The fields of [struct stat] that are set. *)
Record stat := mk_stat {
  st_ino : Z; st_mode : Z; st_nlink : Z; st_size : Z; st_atime : Z; st_mtime : Z; st_ctime : Z;
}.
(** After [bzero] and the assignment of [st_ino]. *)
Definition stat_init (inum : Z) : stat := mk_stat inum 0 0 0 0 0 0.

Inductive fuse_reply :=
| reply_err (errno : Z)
| reply_attr (st : stat)
| reply_entry (ino : Z) (st : stat)
| reply_create (ino : Z) (st : stat)
| reply_buf (b : list byte)
| reply_write (count : Z)
| reply_open
| reply_readlink (link : list byte)
| reply_statfs (namemax bsize : Z).

(** [c_str()]: up to the first NUL. *)
Fixpoint c_str (s : list byte) : list byte :=
  match s with [] => [] | b :: s => if bool_decide (b = x00) then [] else b :: c_str s end.

Section fuse.
Context `{HeapMem} {S : Type} `{ExtentClient S} {L : Type} `{LockClient L}.
Context (fuse_dirent_size : Z -> Z) (fuse_add_dirent : list byte -> Z -> Z -> list byte).
Abbreviation ST := (L * S)%type.

Definition fuse_getattr (inum : Z) (st : ST) : result (Z * stat * ST) :=
  let zero := mk_fileinfo 0 0 0 0 in
  '(_, st) ← isfile inum st;                        (* the printf *)
  '(f, st) ← isfile inum st;
  if (f : bool) then
    '(ret, info, st) ← getfile inum zero st;
    if negb (ret =? yfs_OK) then Ok (ret, stat_init inum, st)
    else Ok (yfs_OK, mk_stat inum (Z.lor S_IFREG 438) 1 (fi_size info) (fi_atime info) (fi_mtime info)
                       (fi_ctime info), st)
  else
    '(d, st) ← isdir inum st;
    if (d : bool) then
      '(ret, info, st) ← getdir inum (mk_dirinfo 0 0 0) st;
      if negb (ret =? yfs_OK) then Ok (ret, stat_init inum, st)
      else Ok (yfs_OK, mk_stat inum (Z.lor S_IFDIR 511) 2 0 (di_atime info) (di_mtime info)
                         (di_ctime info), st)
    else
      '(ret, info, st) ← getfile inum zero st;
      if negb (ret =? yfs_OK) then Ok (ret, stat_init inum, st)
      else Ok (yfs_OK, mk_stat inum (Z.lor S_IFLNK 511) 1 (fi_size info) (fi_atime info) (fi_mtime info)
                         (fi_ctime info), st).

Definition fuseserver_getattr (ino : Z) (st : ST) : result (fuse_reply * ST) :=
  '(ret, a, st) ← fuse_getattr ino st;
  if negb (ret =? yfs_OK) then Ok (reply_err ENOENT, st) else Ok (reply_attr a, st).

Definition set_mask : Z := Z.lor (Z.lor FUSE_SET_ATTR_SIZE FUSE_SET_ATTR_ATIME) FUSE_SET_ATTR_MTIME.

(** [size] is [attr->st_size], converted to [size_t]. *)
Definition fuseserver_setattr (ino size to_set : Z) (st : ST) : result (fuse_reply * ST) :=
  if negb (Z.land set_mask to_set =? 0) then
    '(_, st) ← setattr ino (u64 size) st;
    '(_, a, st) ← fuse_getattr ino st;
    Ok (reply_attr a, st)
  else Ok (reply_err ENOSYS, st).

Definition fuseserver_read (ino size off : Z) (st : ST) : result (fuse_reply * ST) :=
  '(r, buf, st) ← read ino size off [] st;
  if r =? yfs_OK then Ok (reply_buf buf, st) else Ok (reply_err ENOENT, st).

Definition fuseserver_write (ino : Z) (buf : list byte) (size off : Z) (st : ST) : result (fuse_reply * ST) :=
  '(r, size, st) ← write ino size off buf size st;
  if r =? yfs_OK then Ok (reply_write size, st) else Ok (reply_err ENOENT, st).

(** The status, and the inode number and attributes left in [e]. *)
Definition fuseserver_createhelper (parent : Z) (name : list byte) (mode type : Z) (st : ST)
    : result (Z * Z * stat * ST) :=
  '(ret, inum, st) ← (if type =? T_FILE then create parent name mode (u64 stack_int) st
                      else mkdir parent name mode (u64 stack_int) st);
  if negb (ret =? yfs_OK) then Ok (ret, 0, stat_init 0, st)
  else
    '(ret, a, st) ← fuse_getattr inum st;
    Ok (ret, inum, a, st).

Definition create_err (ret : Z) : fuse_reply :=
  if ret =? yfs_EXIST then reply_err EEXIST else reply_err ENOENT.

Definition fuseserver_create (parent : Z) (name : list byte) (mode : Z) (st : ST) : result (fuse_reply * ST) :=
  '(ret, ino, a, st) ← fuseserver_createhelper parent name mode T_FILE st;
  if ret =? yfs_OK then Ok (reply_create ino a, st) else Ok (create_err ret, st).

Definition fuseserver_mknod (parent : Z) (name : list byte) (mode : Z) (st : ST) : result (fuse_reply * ST) :=
  '(ret, ino, a, st) ← fuseserver_createhelper parent name mode T_FILE st;
  if ret =? yfs_OK then Ok (reply_entry ino a, st) else Ok (create_err ret, st).

Definition fuseserver_lookup (parent : Z) (name : list byte) (st : ST) : result (fuse_reply * ST) :=
  '(_, found, ino, st) ← lookup parent name (u64 stack_int) st;
  if (found : bool) then
    '(_, a, st) ← fuse_getattr ino st;
    Ok (reply_entry ino a, st)
  else Ok (reply_err ENOENT, st).

Definition dirbuf_add (b : list byte) (name : list byte) (ino : Z) : list byte :=
  b ++ fuse_add_dirent name ino (Z.of_nat (length b) + fuse_dirent_size (Z.of_nat (length name))).

Definition reply_buf_limited (buf : list byte) (off maxsize : Z) : fuse_reply :=
  let bufsize := Z.of_nat (length buf) in
  if u64 off <? bufsize
  then reply_buf (take (Z.to_nat (Z.min (bufsize - off) maxsize)) (drop (Z.to_nat off) buf))
  else reply_buf [].

Definition fuseserver_readdir (ino size off : Z) (st : ST) : result (fuse_reply * ST) :=
  '(d, st) ← isdir ino st;
  if negb d then Ok (reply_err ENOTDIR, st)
  else
    '(_, entries, st) ← readdir ino [] st;
    let b := fold_left (fun b it => dirbuf_add b (c_str (d_name it)) (d_inum it)) entries [] in
    Ok (reply_buf_limited b off size, st).

Definition fuseserver_open (ino : Z) (st : ST) : result (fuse_reply * ST) := Ok (reply_open, st).

Definition fuseserver_mkdir (parent : Z) (name : list byte) (mode : Z) (st : ST) : result (fuse_reply * ST) :=
  '(ret, ino, a, st) ← fuseserver_createhelper parent name mode T_DIR st;
  if ret =? yfs_OK then Ok (reply_entry ino a, st) else Ok (create_err ret, st).

Definition fuseserver_unlink (parent : Z) (name : list byte) (st : ST) : result (fuse_reply * ST) :=
  '(r, st) ← unlink parent name st;
  if r =? yfs_OK then Ok (reply_err 0, st)
  else if r =? yfs_NOENT then Ok (reply_err ENOENT, st) else Ok (reply_err ENOTEMPTY, st).

Definition fuseserver_statfs (st : ST) : result (fuse_reply * ST) := Ok (reply_statfs 255 512, st).

Definition fuseserver_symlink (link : list byte) (parent : Z) (name : list byte) (st : ST)
    : result (fuse_reply * ST) :=
  '(ret, ino_out, st) ← symlink parent name link (u64 stack_int) st;
  if negb (ret =? yfs_OK) then Ok (create_err ret, st)
  else
    '(_, a, st) ← fuse_getattr ino_out st;
    Ok (reply_entry ino_out a, st).

Definition fuseserver_readlink (ino : Z) (st : ST) : result (fuse_reply * ST) :=
  '(ret, link, st) ← readlink ino [] st;
  if negb (ret =? yfs_OK) then Ok (reply_err ENOENT, st) else Ok (reply_readlink (c_str link), st).

(** The table of operations of [main]. *)
Inductive fuse_req :=
| FGetattr (ino : Z)
| FStatfs
| FReaddir (ino size off : Z)
| FLookup (parent : Z) (name : list byte)
| FCreate (parent : Z) (name : list byte) (mode : Z)
| FMknod (parent : Z) (name : list byte) (mode : Z)
| FOpen (ino : Z)
| FRead (ino size off : Z)
| FWrite (ino : Z) (buf : list byte) (size off : Z)
| FSetattr (ino size to_set : Z)
| FUnlink (parent : Z) (name : list byte)
| FMkdir (parent : Z) (name : list byte) (mode : Z)
| FSymlink (link : list byte) (parent : Z) (name : list byte)
| FReadlink (ino : Z).

Definition fuse_serve (q : fuse_req) (st : ST) : result (fuse_reply * ST) :=
  match q with
  | FGetattr ino => fuseserver_getattr ino st
  | FStatfs => fuseserver_statfs st
  | FReaddir ino size off => fuseserver_readdir ino size off st
  | FLookup parent name => fuseserver_lookup parent name st
  | FCreate parent name mode => fuseserver_create parent name mode st
  | FMknod parent name mode => fuseserver_mknod parent name mode st
  | FOpen ino => fuseserver_open ino st
  | FRead ino size off => fuseserver_read ino size off st
  | FWrite ino buf size off => fuseserver_write ino buf size off st
  | FSetattr ino size to_set => fuseserver_setattr ino size to_set st
  | FUnlink parent name => fuseserver_unlink parent name st
  | FMkdir parent name mode => fuseserver_mkdir parent name mode st
  | FSymlink link parent name => fuseserver_symlink link parent name st
  | FReadlink ino => fuseserver_readlink ino st
  end.

End fuse.
