(* ===== verification/FuseFacts.v ===== *)
(** * FuseFacts: the handlers answer with what the file system did

    For a lock client whose calls return, each handler performs the operation
    of the file system it stands for and reports its outcome. *)

From Stdlib Require Import ZArith Lia.
From S2P Require Import Prelude CppString BlockLayer Inode FileBlocks FileSystem FileWrite.
From S2P Require Import ExtentServer ExtentClient YfsClient YfsView YfsFacts Fuse.

(** The lock client's calls return. *)
Class LockClientTotal (L : Type) `{LockClient L} : Prop := {
  acquire_total : forall lid l, exists l', lc_acquire lid l = Ok l';
  release_total : forall lid l, exists l', lc_release lid l = Ok l';
}.

Section facts.
Context `{HeapMem} {S : Type} `{ExtentClientOK S} {L : Type} `{LockClientTotal L}.
Context (fuse_dirent_size : Z -> Z) (fuse_add_dirent : list byte -> Z -> Z -> list byte).

Lemma with_lock_ok {A} lid (op : S -> result (A * S)) l s a s' :
  op s = Ok (a, s') -> exists l', with_lock lid op (l, s) = Ok (a, (l', s')).
Proof.
  intros E. unfold with_lock. cbn [fst snd]. destruct (acquire_total lid l) as [l1 ->]. run_ok.
  rewrite E. run_ok. destruct (release_total lid l1) as [l2 ->]. run_ok. eauto.
Qed.

(** The mode, the number of links and the size [getattr] reports for a node. *)
Definition mode_of (t : Z) : Z :=
  if t =? T_FILE then Z.lor S_IFREG 438 else if t =? T_DIR then Z.lor S_IFDIR 511 else Z.lor S_IFLNK 511.
Definition nlink_of (t : Z) : Z := if t =? T_FILE then 1 else if t =? T_DIR then 2 else 1.
Definition size_of (v : gmap Z node) (i : Z) : Z :=
  if type_of v i =? T_DIR then 0 else Z.of_nat (length (default [] (snd <$> v !! i))).

Lemma getfile_spec n v s i fin : holds (Datatypes.S n) v s -> plain i ->
  exists info s', yfs_getfile i fin s = Ok (yfs_OK, info, s') /\ holds n v s' /\
    fi_size info = Z.of_nat (length (default [] (snd <$> v !! i))).
Proof.
  intros Hh Hp. unfold yfs_getfile. destruct (holds_getattr n v s i zero_attr Hh Hp) as (a & s' & -> & Hh' & _ & Hs).
  run_ok. change (negb (extent_OK =? extent_OK)) with false. cbv iota. eexists _, s'. split; [done|]. done.
Qed.

Lemma getdir_spec n v s i din : holds (Datatypes.S n) v s -> plain i ->
  exists info s', yfs_getdir i din s = Ok (yfs_OK, info, s') /\ holds n v s'.
Proof.
  intros Hh Hp. unfold yfs_getdir. destruct (holds_getattr n v s i zero_attr Hh Hp) as (a & s' & -> & Hh' & _).
  run_ok. change (negb (extent_OK =? extent_OK)) with false. cbv iota. eauto.
Qed.

Lemma fuse_getattr_spec n v l s i : holds (4 + n) v s -> plain i ->
  exists a l' s', fuse_getattr i (l, s) = Ok (yfs_OK, a, (l', s')) /\ holds n v s' /\
    st_ino a = i /\ st_mode a = mode_of (type_of v i) /\ st_size a = size_of v i /\ st_nlink a = nlink_of (type_of v i).
Proof.
  intros Hh Hp. unfold fuse_getattr.
  destruct (isfile_spec _ v s i Hh Hp) as (s1 & E1 & Hh1).
  destruct (with_lock_ok i _ l _ _ _ E1) as [l1 W1]. unfold isfile. rewrite W1. run_ok.
  destruct (isfile_spec _ v s1 i Hh1 Hp) as (s2 & E2 & Hh2).
  destruct (with_lock_ok i _ l1 _ _ _ E2) as [l2 W2]. rewrite W2. run_ok.
  unfold mode_of, size_of, nlink_of. destruct (Z.eqb_spec (type_of v i) T_FILE) as [->|Hnf].
  - destruct (getfile_spec _ v s2 i (mk_fileinfo 0 0 0 0) Hh2 Hp) as (info & s3 & E3 & Hh3 & Hsz).
    destruct (with_lock_ok i _ l2 _ _ _ E3) as [l3 W3]. unfold getfile. rewrite W3. run_ok.
    change (negb (yfs_OK =? yfs_OK)) with false. cbv iota. eexists _, l3, s3. split; [done|].
    split; [by apply (holds_less 1)|]. split_and!; done.
  - destruct (isdir_spec _ v s2 i Hh2 Hp) as (s3 & E3 & Hh3).
    destruct (with_lock_ok i _ l2 _ _ _ E3) as [l3 W3]. unfold isdir. rewrite W3. run_ok.
    destruct (Z.eqb_spec (type_of v i) T_DIR) as [Hd|Hnd].
    + destruct (getdir_spec _ v s3 i (mk_dirinfo 0 0 0) Hh3 Hp) as (info & s4 & E4 & Hh4).
      destruct (with_lock_ok i _ l3 _ _ _ E4) as [l4 W4]. unfold getdir. rewrite W4. run_ok.
      change (negb (yfs_OK =? yfs_OK)) with false. cbv iota. eexists _, l4, s4. split; [done|]. done.
    + destruct (getfile_spec _ v s3 i (mk_fileinfo 0 0 0 0) Hh3 Hp) as (info & s4 & E4 & Hh4 & Hsz).
      destruct (with_lock_ok i _ l3 _ _ _ E4) as [l4 W4]. unfold getfile. rewrite W4. run_ok.
      change (negb (yfs_OK =? yfs_OK)) with false. cbv iota. eexists _, l4, s4. split; [done|]. done.
Qed.

(** The new file, seen from the directory it is in. *)
Lemma add_file_type v d ents name i t c : i <> d -> type_of (add_file v d ents name i t c) i = u32 t.
Proof. intros Hne. unfold type_of, add_file. by rewrite lookup_insert_ne, lookup_insert_eq. Qed.

Lemma add_file_data v d ents name i t c :
  i <> d -> default [] (snd <$> add_file v d ents name i t c !! i) = c.
Proof. intros Hne. unfold add_file. by rewrite lookup_insert_ne, lookup_insert_eq. Qed.

End facts.

(** ** Locks are taken one at a time *)

Inductive lock_event := Acquired (lid : Z) | Released (lid : Z).

(** A lock client that records what is asked of it. *)
#[export] Instance log_client : LockClient (list lock_event) := {
  lc_acquire lid l := Ok (l ++ [Acquired lid]);
  lc_release lid l := Ok (l ++ [Released lid]);
}.
#[export] Instance log_client_total : LockClientTotal (list lock_event).
Proof. split; cbn; eauto. Qed.

(** Each lock is released before the next is taken, and none is kept. *)
Inductive paired : list lock_event -> Prop :=
| paired_nil : paired []
| paired_cons lid k : paired k -> paired (Acquired lid :: Released lid :: k).

Lemma paired_app k k' : paired k -> paired k' -> paired (k ++ k').
Proof. induction 1; [done|]. intros. cbn. constructor. auto. Qed.

Section paired.
Context `{HeapMem} {S : Type} `{ExtentClient S}.
Context (fuse_dirent_size : Z -> Z) (fuse_add_dirent : list byte -> Z -> Z -> list byte).
Abbreviation ST := (list lock_event * S)%type.

(** What a computation adds to the log [l], when it returns. *)
Definition locks_paired {A} (l : list lock_event) (r : result (A * ST)) : Prop :=
  match r with Ok (_, (l', _)) => exists k, l' = l ++ k /\ paired k | _ => True end.

Lemma lp_ret {A} (a : A) l s : locks_paired l (Ok (a, (l, s))).
Proof. exists []. split; [by rewrite app_nil_r|constructor]. Qed.

Lemma lp_bind {A B} l (m : result (A * ST)) (f : A * ST -> result (B * ST)) :
  locks_paired l m -> (forall a l1 s1, locks_paired l1 (f (a, (l1, s1)))) -> locks_paired l (m ≫= f).
Proof.
  intros Hm Hf. destruct m as [[a [l1 s1]]| | |]; [|done..]. destruct Hm as (k & -> & Hk).
  cbn [mbind result_bind]. specialize (Hf a (l ++ k) s1).
  destruct (f (a, (l ++ k, s1))) as [[b [l2 s2]]| | |]; [|done..]. destruct Hf as (k' & -> & Hk').
  exists (k ++ k'). split; [by rewrite app_assoc|by apply paired_app].
Qed.

Lemma lp_with_lock {A} lid (op : S -> result (A * S)) l s : locks_paired l (with_lock lid op (l, s)).
Proof.
  unfold with_lock. cbn. destruct (op s) as [[a s']| | |]; [|done..]. cbn.
  exists [Acquired lid; Released lid]. split; [by rewrite <- app_assoc|]. repeat constructor.
Qed.

(** Runs through a handler. *)
Ltac lp :=
  repeat first
    [ apply lp_ret | apply lp_with_lock
    | apply lp_bind; [|intros]
    | progress cbv beta iota
    | match goal with
      | |- context [match ?x with pair _ _ => _ end] => destruct x
      | |- context [if ?b then _ else _] => destruct b
      end ].

Lemma lp_getattr i l s : locks_paired l (fuse_getattr i (l, s)).
Proof. unfold fuse_getattr, isfile, isdir, getfile, getdir. lp. Qed.

Lemma lp_createhelper parent name mode type l s :
  locks_paired l (fuseserver_createhelper parent name mode type (l, s)).
Proof.
  unfold fuseserver_createhelper, create, mkdir. destruct (type =? T_FILE).
  all: apply lp_bind; [lp|intros [ret i] l1 s1]. all: cbv beta iota; destruct (negb _); [lp|].
  all: apply lp_bind; [apply lp_getattr|intros [ret' a] l2 s2; lp].
Qed.

Lemma lp_serve q l s : locks_paired l (fuse_serve fuse_dirent_size fuse_add_dirent q (l, s)).
Proof.
  destruct q; cbn [fuse_serve];
    unfold fuseserver_getattr, fuseserver_statfs, fuseserver_readdir, fuseserver_lookup, fuseserver_create,
      fuseserver_mknod, fuseserver_open, fuseserver_read, fuseserver_write, fuseserver_setattr,
      fuseserver_unlink, fuseserver_mkdir, fuseserver_symlink, fuseserver_readlink,
      isdir, readdir, lookup, read, write, setattr, unlink, symlink, readlink;
    repeat first [apply lp_getattr | apply lp_createhelper | progress lp].
Qed.

End paired.
