(* ===== verification/FuseSpec.v ===== *)
(** * FuseSpec: the file system the kernel sees

    The abstract state is a finite map from inode numbers to objects: files and links with
    their bytes, directories with their entries.  [fs_serve] says how each request is
    answered and what it changes; [allowed] are the requests it speaks of. *)

From Stdlib Require Import ZArith Lia.
From S2P Require Import Prelude CppString BlockLayer Inode FileBlocks FileSystem FileWrite.
From S2P Require Import ExtentServer ExtentRefine ExtentClient YfsClient YfsView YfsFacts Fuse.

Inductive object :=
| OFile (c : list byte)
| OLink (c : list byte)
| ODir (ents : list dirent).
Abbreviation objects := (gmap Z object).

(** The inode of an object, and the inodes of all of them. *)
Definition obj_node (o : object) : node :=
  match o with OFile c => (T_FILE, c) | OLink c => (T_SYMLINK, c) | ODir ents => (T_DIR, enc_dir ents) end.
Definition inodes (fs : objects) : gmap Z node := obj_node <$> fs.

(** ** Answers *)

(** The attributes of object [i], without its times. *)
Definition obj_stat (i : Z) (o : object) : stat :=
  match o with
  | OFile c => mk_stat i (Z.lor S_IFREG 438) 1 (Z.of_nat (length c)) 0 0 0
  | OLink c => mk_stat i (Z.lor S_IFLNK 511) 1 (Z.of_nat (length c)) 0 0 0
  | ODir _ => mk_stat i (Z.lor S_IFDIR 511) 2 0 0 0 0
  end.

Definition stat_no_times (a : stat) : stat := mk_stat (st_ino a) (st_mode a) (st_nlink a) (st_size a) 0 0 0.
Definition no_times (r : fuse_reply) : fuse_reply :=
  match r with
  | reply_attr a => reply_attr (stat_no_times a)
  | reply_entry i a => reply_entry i (stat_no_times a)
  | reply_create i a => reply_create i (stat_no_times a)
  | r => r
  end.

Section spec.
Context (fuse_dirent_size : Z -> Z) (fuse_add_dirent : list byte -> Z -> Z -> list byte).
Implicit Types (fs : objects) (name : list byte).

(** The smallest inode number that is free. *)
Definition free_num fs : option Z := head (filter (fun i => fs !! i = None) inos).

(** A new object [o] with an entry in directory [d]; [reply] tells its number and attributes. *)
Definition fs_make fs (d : Z) name (o : object) (reply : Z -> stat -> fuse_reply) : fuse_reply * objects :=
  match fs !! d with
  | Some (ODir ents) =>
      match find_ent name ents, free_num fs with
      | Some _, _ => (reply_err EEXIST, fs)
      | None, Some i => (reply i (obj_stat i o), <[d := ODir (ents ++ [mk_dirent name i])]> (<[i := o]> fs))
      | None, None => (reply_err ENOENT, fs)
      end
  | _ => (reply_err ENOENT, fs)
  end.

(** The object called [name] and its entry go. *)
Definition fs_unlink fs (d : Z) name : fuse_reply * objects :=
  match fs !! d with
  | Some (ODir ents) =>
      match find_ent name ents with
      | Some i => (reply_err 0, <[d := ODir (filter (fun e => d_name e <> name) ents)]> (delete i fs))
      | None => (reply_err ENOENT, fs)
      end
  | _ => (reply_err ENOENT, fs)
  end.

Definition resized (size : Z) (c : list byte) : list byte :=
  take (Z.to_nat size) c ++ replicate (Z.to_nat size - length c) x00.

(** The bytes of a listing. *)
Definition listing (ents : list dirent) : list byte :=
  fold_left (fun b it => dirbuf_add fuse_dirent_size fuse_add_dirent b (c_str (d_name it)) (d_inum it)) ents [].

Definition fs_serve fs (q : fuse_req) : fuse_reply * objects :=
  match q with
  | FGetattr i =>
      (match fs !! i with Some o => reply_attr (obj_stat i o) | None => reply_err ENOENT end, fs)
  | FStatfs => (reply_statfs 255 512, fs)
  | FReaddir i size off =>
      (match fs !! i with
       | Some (ODir ents) => reply_buf (take (Z.to_nat size) (drop (Z.to_nat off) (listing ents)))
       | _ => reply_err ENOTDIR
       end, fs)
  | FLookup d name =>
      (match fs !! d with
       | Some (ODir ents) =>
           match find_ent name ents with
           | Some i => match fs !! i with Some o => reply_entry i (obj_stat i o) | None => reply_err ENOENT end
           | None => reply_err ENOENT
           end
       | _ => reply_err ENOENT
       end, fs)
  | FCreate d name _ => fs_make fs d name (OFile []) reply_create
  | FMknod d name _ => fs_make fs d name (OFile []) reply_entry
  | FMkdir d name _ => fs_make fs d name (ODir []) reply_entry
  | FSymlink link d name => fs_make fs d name (OLink link) reply_entry
  | FOpen _ => (reply_open, fs)
  | FRead i size off =>
      (match fs !! i with
       | Some (OFile c) => reply_buf (take (Z.to_nat size) (drop (Z.to_nat off) c))
       | _ => reply_err ENOENT
       end, fs)
  | FWrite i buf size off =>
      match fs !! i with
      | Some (OFile c) => (reply_write size, <[i := OFile (write_at c (Z.to_nat off) buf)]> fs)
      | _ => (reply_err ENOENT, fs)
      end
  | FSetattr i size to_set =>
      if Z.land FUSE_SET_ATTR_SIZE to_set =? 0 then (reply_err ENOSYS, fs)
      else match fs !! i with
           | Some (OFile c) =>
               (reply_attr (obj_stat i (OFile (resized size c))), <[i := OFile (resized size c)]> fs)
           | _ => (reply_err ENOENT, fs)
           end
  | FUnlink d name => fs_unlink fs d name
  | FReadlink i =>
      (match fs !! i with Some (OLink c) => reply_readlink (c_str c) | _ => reply_err ENOENT end, fs)
  end.

Fixpoint fs_run fs (qs : list fuse_req) : list fuse_reply * objects :=
  match qs with
  | [] => ([], fs)
  | q :: qs => let r := fs_serve fs q in let rs := fs_run r.2 qs in (r.1 :: rs.1, rs.2)
  end.

(** ** Requests *)

(** A new object under a name without a slash, in a directory; if the name is free, there
    is a free inode, and room for the object and for the longer directory. *)
Definition can_make fs (d : Z) name (o : object) : Prop :=
  exists ents, fs !! d = Some (ODir ents) /\ slash ∉ name /\
    (find_ent name ents = None -> exists i, free_num fs = Some i /\
      room_for (inodes fs) i (Z.of_nat (length (obj_node o).2)) /\
      room_for (inodes (<[i := o]> fs)) d (Z.of_nat (length (enc_dir (ents ++ [mk_dirent name i]))))).

(** The requests name inodes that exist; files are read, written and resized within the
    largest size and while the disk has room, links are read.  A change of times alone is left
    out, and so is the removal of a name that consists of digits. *)
Definition allowed fs (q : fuse_req) : Prop :=
  match q with
  | FGetattr i => is_Some (fs !! i)
  | FStatfs => True
  | FReaddir i size off => is_Some (fs !! i) /\ 0 <= off < 2 ^ 63 /\ 0 <= size
  | FLookup d name => is_Some (fs !! d)
  | FCreate d name _ | FMknod d name _ => can_make fs d name (OFile [])
  | FMkdir d name _ => can_make fs d name (ODir [])
  | FSymlink link d name => can_make fs d name (OLink link)
  | FOpen _ => True
  | FRead i size off => (exists c, fs !! i = Some (OFile c)) /\ 0 <= size /\ 0 <= off < 2 ^ 31
  | FWrite i buf size off => size = Z.of_nat (length buf) /\ 0 <= off <= MAXFILE /\
      exists c, fs !! i = Some (OFile c) /\
        room_for (inodes fs) i (Z.of_nat (length (write_at c (Z.to_nat off) buf)))
  | FSetattr i size to_set => Z.land set_mask to_set = 0 \/
      (Z.land FUSE_SET_ATTR_SIZE to_set <> 0 /\ 0 <= size /\
       (exists c, fs !! i = Some (OFile c)) /\ room_for (inodes fs) i size)
  | FUnlink d name => is_Some (fs !! d) /\
      (forall ents i, fs !! d = Some (ODir ents) -> find_ent name ents = Some i -> has_nondigit name)
  | FReadlink i => exists c, fs !! i = Some (OLink c)
  end.

Fixpoint allowed_run fs (qs : list fuse_req) : Prop :=
  match qs with [] => True | q :: qs => allowed fs q /\ allowed_run (fs_serve fs q).2 qs end.

(** ** Invariant *)

(** Objects are in inodes the disk has and fit into them; names within a directory are
    distinct; every entry leads to an object other than the directory, and to one to which no
    other entry leads. *)
Record objects_ok fs : Prop := {
  ok_ino i o : fs !! i = Some o -> i ∈ inos;
  ok_size i o : fs !! i = Some o -> Z.of_nat (length (obj_node o).2) <= MAXFILE;
  ok_space : vspace (inodes fs) <= CAPACITY;
  ok_ents d ents : fs !! d = Some (ODir ents) -> Forall ent_ok ents;
  ok_names d ents : fs !! d = Some (ODir ents) -> NoDup (d_name <$> ents);
  ok_inums d ents : fs !! d = Some (ODir ents) -> NoDup (d_inum <$> ents);
  ok_linked d ents e : fs !! d = Some (ODir ents) -> e ∈ ents -> d_inum e <> d /\ is_Some (fs !! d_inum e);
  ok_once d d' ents ents' e e' : fs !! d = Some (ODir ents) -> fs !! d' = Some (ODir ents') ->
    e ∈ ents -> e' ∈ ents' -> d_inum e = d_inum e' -> d = d';
}.

(** A file system with an empty root directory. *)
Definition root_fs : objects := {[1 := ODir []]}.

End spec.

(** The handlers serve requests one after the other. *)
Fixpoint fuse_run `{HeapMem} {S L} `{ExtentClient S} `{LockClient L} fuse_dirent_size fuse_add_dirent
    (qs : list fuse_req) (st : L * S) : result (list fuse_reply * (L * S)) :=
  match qs with
  | [] => Ok ([], st)
  | q :: qs =>
      '(r, st) ← fuse_serve fuse_dirent_size fuse_add_dirent q st;
      '(rs, st) ← fuse_run fuse_dirent_size fuse_add_dirent qs st;
      Ok (r :: rs, st)
  end.
