(* ===== verification/FuseRefine.v ===== *)
(** * FuseRefine: the handlers implement the file system the kernel sees

    Every allowed request is answered as [fs_serve] says, up to times, and leaves the
    extents as the inodes of the new objects.  A request takes at most ten calls to the
    extent server. *)

From Stdlib Require Import ZArith Lia.
From S2P Require Import Prelude CppString BlockLayer Inode FileBlocks FileSystem FileWrite.
From S2P Require Import ExtentServer ExtentRefine ExtentClient YfsClient YfsView YfsFacts Fuse FuseFacts FuseSpec.
#[local] Set Default Goal Selector "!".

Implicit Types (fs : objects) (name : list byte) (ents : list dirent) (o : object).

(** ** Objects and inodes *)

Lemma lookup_inodes fs i : inodes fs !! i = obj_node <$> fs !! i.
Proof. apply lookup_fmap. Qed.

Lemma inodes_insert fs i o : inodes (<[i := o]> fs) = <[i := obj_node o]> (inodes fs).
Proof. apply fmap_insert. Qed.

Lemma inodes_delete fs i : inodes (delete i fs) = delete i (inodes fs).
Proof. apply fmap_delete. Qed.

Lemma free_num_ino fs : free_num fs = free_ino (inodes fs).
Proof.
  unfold free_num, free_ino. f_equal. apply list_filter_iff. intros i. rewrite lookup_inodes. symmetry. apply fmap_None.
Qed.

Lemma free_num_None fs i : free_num fs = Some i -> i ∈ inos /\ fs !! i = None.
Proof. unfold free_num. intros Hh%head_Some_elem_of. by apply list_elem_of_filter in Hh as [? ?]. Qed.

(** The type field of an object's inode. *)
Definition obj_type o : Z := match o with OFile _ => T_FILE | OLink _ => T_SYMLINK | ODir _ => T_DIR end.

Lemma type_of_obj fs i o : fs !! i = Some o -> type_of (inodes fs) i = obj_type o.
Proof. intros Hi. unfold type_of. rewrite lookup_inodes, Hi. by destruct o. Qed.

Lemma data_of_obj fs i o : fs !! i = Some o -> default [] (snd <$> inodes fs !! i) = (obj_node o).2.
Proof. intros Hi. by rewrite lookup_inodes, Hi. Qed.

Lemma filter_absent name ents : name ∉ d_name <$> ents -> filter (fun e => d_name e <> name) ents = ents.
Proof.
  induction ents as [|e ents IH]; [done|]. rewrite fmap_cons. intros [He Hn]%not_elem_of_cons.
  rewrite filter_cons_True by congruence. by rewrite IH.
Qed.

Lemma filter_cut name es1 i es2 : NoDup (d_name <$> es1 ++ mk_dirent name i :: es2) ->
  filter (fun e => d_name e <> name) (es1 ++ mk_dirent name i :: es2) = es1 ++ es2.
Proof.
  rewrite fmap_app, fmap_cons. cbn [d_name]. intros (_ & Hd & [Hn _]%NoDup_cons)%NoDup_app.
  rewrite filter_app, filter_cons_False by (cbn; tauto). rewrite !filter_absent; [done|done|].
  intros Hin. apply (Hd name Hin). left.
Qed.

Section ok.
Context fs (Hok : objects_ok fs).

Lemma fs_plain i o : fs !! i = Some o -> plain i.
Proof using Hok. intros Hi. by eapply inos_plain, (ok_ino _ Hok). Qed.

Lemma fs_is_dir d ents : fs !! d = Some (ODir ents) -> is_dir (inodes fs) d ents.
Proof using Hok.
  intros Hd. split.
  - by eapply fs_plain.
  - by rewrite lookup_inodes, Hd.
  - by apply (ok_ents _ Hok d).
  - by apply (ok_size _ Hok d (ODir ents)).
Qed.

Lemma fs_find d ents name i : fs !! d = Some (ODir ents) -> find_ent name ents = Some i ->
  mk_dirent name i ∈ ents /\ i <> d /\ is_Some (fs !! i).
Proof using Hok.
  intros Hd (es1 & es2 & ->)%find_ent_split.
  assert (mk_dirent name i ∈ es1 ++ mk_dirent name i :: es2) as Hin by (apply elem_of_app; right; left).
  split; [done|]. apply (ok_linked _ Hok d _ _ Hd Hin).
Qed.

(** ** The invariant is kept *)

(** A file gets new content. *)
Lemma ok_content i c c' : fs !! i = Some (OFile c) -> room_for (inodes fs) i (Z.of_nat (length c')) ->
  objects_ok (<[i := OFile c']> fs).
Proof using Hok.
  intros Hi [Hm Hc].
  assert (Hdir : forall d ents, <[i := OFile c']> fs !! d = Some (ODir ents) -> fs !! d = Some (ODir ents)).
  { intros d ents [[_ [=]]|[_ Hd]]%lookup_insert_Some. done. }
  split.
  - intros j o [[<- _]|[_ Hj]]%lookup_insert_Some; [by apply (ok_ino _ Hok i _ Hi)|by apply (ok_ino _ Hok j _ Hj)].
  - intros j o [[_ <-]|[_ Hj]]%lookup_insert_Some; [done|by apply (ok_size _ Hok j)].
  - rewrite inodes_insert, vspace_insert by by apply (ok_ino _ Hok i _ Hi). done.
  - intros d ents Hd%Hdir. by apply (ok_ents _ Hok d).
  - intros d ents Hd%Hdir. by apply (ok_names _ Hok d).
  - intros d ents Hd%Hdir. by apply (ok_inums _ Hok d).
  - intros d ents e Hd%Hdir He. destruct (ok_linked _ Hok d ents e Hd He) as [Hne Hs]. split; [done|].
    destruct (decide (d_inum e = i)) as [->|Hj]; [rewrite lookup_insert_eq; by eexists|by rewrite lookup_insert_ne].
  - intros d d' ents ents' e e' Hd%Hdir Hd'%Hdir. by apply (ok_once _ Hok).
Qed.

(** A new object [o], not yet a directory with entries, is entered under [name] in [d]. *)
Section make.
Context (d : Z) ents name (i : Z) o (Hd : fs !! d = Some (ODir ents)) (Hs : slash ∉ name) (Hf : find_ent name ents = None).
Context (Hi : free_num fs = Some i) (Ho : forall es, o = ODir es -> es = []).
Context (Hro : room_for (inodes fs) i (Z.of_nat (length (obj_node o).2))).
Context (Hrd : room_for (inodes (<[i := o]> fs)) d (Z.of_nat (length (enc_dir (ents ++ [mk_dirent name i]))))).
Local Abbreviation fs' := (<[d := ODir (ents ++ [mk_dirent name i])]> (<[i := o]> fs)).

Lemma make_ne : i <> d.
Proof using All. intros ->. apply free_num_None in Hi as [_ Hn]. congruence. Qed.

Lemma make_dirs d' ents' : fs' !! d' = Some (ODir ents') ->
  (d' = d /\ ents' = ents ++ [mk_dirent name i]) \/ (d' <> d /\ ents' = []) \/ (d' <> d /\ fs !! d' = Some (ODir ents')).
Proof using All.
  intros [[<- [= <-]]|[Hne [[_ E]|[_ H']]%lookup_insert_Some]]%lookup_insert_Some; [by left| |by right; right].
  right. left. split; [done|]. by apply Ho.
Qed.

Lemma make_old e : (exists d' es, fs !! d' = Some (ODir es) /\ e ∈ es) -> d_inum e <> i.
Proof using All.
  intros (d' & es & Hd' & He) E. destruct (ok_linked _ Hok d' es e Hd' He) as [_ [o' Ho']].
  apply free_num_None in Hi as [_ Hn]. congruence.
Qed.

Lemma make_some j : is_Some (fs !! j) -> is_Some (fs' !! j).
Proof.
  intros Hj. destruct (decide (j = d)) as [->|H1]; [rewrite lookup_insert_eq; by eexists|]. rewrite lookup_insert_ne by done.
  destruct (decide (j = i)) as [->|H2]; [rewrite lookup_insert_eq; by eexists|by rewrite lookup_insert_ne].
Qed.

Lemma ok_make : objects_ok fs'.
Proof using All.
  pose proof make_ne as Hne. pose proof (free_num_None _ _ Hi) as [Hino Hnone].
  pose proof (ok_ino _ Hok d _ Hd) as Hdi. split.
  - intros j x [[<- _]|[_ [[<- _]|[_ Hj]]%lookup_insert_Some]]%lookup_insert_Some; [done..|by apply (ok_ino _ Hok j _ Hj)].
  - intros j x [[_ <-]|[_ [[_ <-]|[_ Hj]]%lookup_insert_Some]]%lookup_insert_Some; [apply Hrd|apply Hro|by apply (ok_size _ Hok j)].
  - rewrite inodes_insert, vspace_insert by done. apply Hrd.
  - intros d' es [[-> ->]|[[_ ->]|[_ H']]]%make_dirs; [|done|by apply (ok_ents _ Hok d')].
    apply Forall_app. split; [by apply (ok_ents _ Hok d)|]. apply Forall_singleton. split; [done|].
    apply inos_plain in Hino as [? _]. cbn. lia.
  - intros d' es [[-> ->]|[[_ ->]|[_ H']]]%make_dirs; [|constructor|by apply (ok_names _ Hok d')].
    rewrite fmap_app. apply NoDup_app. split; [by apply (ok_names _ Hok d)|]. split; [|apply NoDup_singleton].
    apply find_ent_None in Hf. intros x Hx ->%list_elem_of_singleton. done.
  - intros d' es [[-> ->]|[[_ ->]|[_ H']]]%make_dirs; [|constructor|by apply (ok_inums _ Hok d')].
    rewrite fmap_app. apply NoDup_app. split; [by apply (ok_inums _ Hok d)|]. split; [|apply NoDup_singleton].
    intros x (e & -> & He)%list_elem_of_fmap E%list_elem_of_singleton. cbn in E. apply (make_old e); [eauto|done].
  - intros d' es e [[-> ->]|[[_ ->]|[_ H']]]%make_dirs He; [|by apply elem_of_nil in He|].
    + apply elem_of_app in He as [He| ->%list_elem_of_singleton].
      * destruct (ok_linked _ Hok d ents e Hd He). auto using make_some.
      * split; [done|]. cbn. rewrite lookup_insert_ne, lookup_insert_eq by done. by eexists.
    + destruct (ok_linked _ Hok d' es e H' He). auto using make_some.
  - intros d1 d2 es1 es2 e1 e2 H1%make_dirs H2%make_dirs He1 He2 E.
    destruct H1 as [[-> ->]|[[_ ->]|[N1 H1]]]; [|by apply elem_of_nil in He1|];
      (destruct H2 as [[-> ->]|[[_ ->]|[N2 H2]]]; [|by apply elem_of_nil in He2|]); try done.
    + apply elem_of_app in He1 as [He1| ->%list_elem_of_singleton]; [by eapply (ok_once _ Hok d d2)|].
      exfalso. apply (make_old e2); eauto.
    + apply elem_of_app in He2 as [He2| ->%list_elem_of_singleton]; [by eapply (ok_once _ Hok d1 d)|].
      exfalso. apply (make_old e1); eauto.
    + by eapply (ok_once _ Hok d1 d2).
Qed.
End make.

(** The entry [name] of [d] and the object [i] it leads to go. *)
Section cut.
Context (d : Z) (es1 : list dirent) name (i : Z) (es2 : list dirent) (Hd : fs !! d = Some (ODir (es1 ++ mk_dirent name i :: es2))).
Local Abbreviation ents := (es1 ++ mk_dirent name i :: es2).
Local Abbreviation fs' := (<[d := ODir (es1 ++ es2)]> (delete i fs)).

Lemma cut_entry_in : mk_dirent name i ∈ ents.
Proof. apply elem_of_app. right. left. Qed.

Lemma cut_ne : i <> d.
Proof using All. apply (ok_linked _ Hok d _ _ Hd cut_entry_in). Qed.

Lemma cut_sub e : e ∈ es1 ++ es2 -> e ∈ ents.
Proof. rewrite !elem_of_app, elem_of_cons. tauto. Qed.

Lemma cut_other e : e ∈ es1 ++ es2 -> d_inum e <> i.
Proof using All.
  intros He E. pose proof (ok_inums _ Hok d _ Hd) as Hnd. rewrite fmap_app, fmap_cons in Hnd. cbn [d_inum] in Hnd.
  apply NoDup_app in Hnd as (_ & H1 & [H2 _]%NoDup_cons). apply elem_of_app in He as [He|He].
  - apply (H1 i); [rewrite <- E; by apply list_elem_of_fmap_2|left].
  - apply H2. rewrite <- E. by apply list_elem_of_fmap_2.
Qed.

(** The directories left, each with entries it had. *)
Lemma cut_dirs d' es : fs' !! d' = Some (ODir es) -> d' <> i /\
  exists es0, fs !! d' = Some (ODir es0) /\ (forall e, e ∈ es -> e ∈ es0 /\ d_inum e <> i) /\ (d' <> d -> es = es0).
Proof using All.
  intros [[<- [= <-]]|[Hne [Hi H']%lookup_delete_Some]]%lookup_insert_Some.
  - split; [by apply not_eq_sym, cut_ne|]. exists ents. split; [done|]. split; [|done].
    intros e He. split; [by apply cut_sub|by apply cut_other].
  - split; [done|]. exists es. split; [done|]. split; [|done]. intros e He. split; [done|]. intros E. apply Hne.
    by apply (ok_once _ Hok d d' _ _ (mk_dirent name i) e Hd H' cut_entry_in He).
Qed.

Lemma cut_len : (length (enc_dir (es1 ++ es2)) <= length (enc_dir ents))%nat.
Proof. rewrite !enc_dir_app, enc_dir_cons, !length_app. cbn [length]. rewrite length_app. cbn [length]. lia. Qed.

Lemma cut_room : room_for (inodes (delete i fs)) d (Z.of_nat (length (enc_dir (es1 ++ es2)))).
Proof using All.
  pose proof cut_ne as Hne. pose proof cut_len as Hl. pose proof (ok_size _ Hok d _ Hd) as Hm. cbn in Hm.
  destruct (ok_linked _ Hok d _ _ Hd cut_entry_in) as [_ [o Ho]]. cbn in Ho.
  apply (room_shrink _ d (T_DIR, enc_dir ents)).
  - by apply (ok_ino _ Hok d _ Hd).
  - by rewrite inodes_delete, lookup_delete_ne, lookup_inodes, Hd by done.
  - rewrite inodes_delete, vspace_delete by by apply (ok_ino _ Hok i _ Ho).
    pose proof (ok_space _ Hok). pose proof (vblocks_nonneg (inodes fs) i). lia.
  - cbn. lia.
  - exact Hm.
Qed.

Lemma ok_cut : objects_ok fs'.
Proof using All.
  pose proof cut_room as [Hm Hc]. pose proof (ok_ino _ Hok d _ Hd) as Hdi. split.
  - intros j o [[<- _]|[_ [_ Hj]%lookup_delete_Some]]%lookup_insert_Some; [done|by apply (ok_ino _ Hok j _ Hj)].
  - intros j o [[_ <-]|[_ [_ Hj]%lookup_delete_Some]]%lookup_insert_Some; [done|by apply (ok_size _ Hok j)].
  - rewrite inodes_insert, vspace_insert by done. done.
  - intros d' es (_ & es0 & H' & Hin & _)%cut_dirs. pose proof (ok_ents _ Hok d' _ H') as He. rewrite Forall_forall in He.
    apply Forall_forall. intros e [He' _]%Hin. by apply He.
  - intros d' es H'. destruct (cut_dirs d' es H') as (_ & es0 & H0 & _ & Hsame).
    destruct (decide (d' = d)) as [->|Hne]; [|rewrite Hsame by done; by apply (ok_names _ Hok d')].
    rewrite lookup_insert_eq in H'. injection H' as <-. pose proof (ok_names _ Hok d _ Hd) as Hnd.
    rewrite fmap_app, fmap_cons in Hnd. rewrite fmap_app. eapply sublist_NoDup; [exact Hnd|].
    apply sublist_app; [done|by apply sublist_cons].
  - intros d' es H'. destruct (cut_dirs d' es H') as (_ & es0 & H0 & _ & Hsame).
    destruct (decide (d' = d)) as [->|Hne]; [|rewrite Hsame by done; by apply (ok_inums _ Hok d')].
    rewrite lookup_insert_eq in H'. injection H' as <-. pose proof (ok_inums _ Hok d _ Hd) as Hnd.
    rewrite fmap_app, fmap_cons in Hnd. rewrite fmap_app. eapply sublist_NoDup; [exact Hnd|].
    apply sublist_app; [done|by apply sublist_cons].
  - intros d' es e (_ & es0 & H' & Hin & _)%cut_dirs [He Hei]%Hin. destruct (ok_linked _ Hok d' es0 e H' He) as [Hne Hs].
    split; [done|]. destruct (decide (d_inum e = d)) as [->|Hj]; [rewrite lookup_insert_eq; by eexists|].
    by rewrite lookup_insert_ne, lookup_delete_ne by done.
  - intros d1 d2 s1 s2 e1 e2 (_ & t1 & H1 & Hin1 & _)%cut_dirs (_ & t2 & H2 & Hin2 & _)%cut_dirs [He1 _]%Hin1 [He2 _]%Hin2.
    by apply (ok_once _ Hok d1 d2 t1 t2).
Qed.
End cut.
End ok.

(** ** Requests *)

Section serve.
Context `{HeapMem} {S : Type} `{ExtentClientOK S} {L : Type} `{LockClientTotal L}.
Context (fuse_dirent_size : Z -> Z) (fuse_add_dirent : list byte -> Z -> Z -> list byte).
Implicit Types (l : L) (s : S).

Lemma getattr_obj n fs l s i o : objects_ok fs -> holds (4 + n) (inodes fs) s -> fs !! i = Some o ->
  exists a l' s', fuse_getattr i (l, s) = Ok (yfs_OK, a, (l', s')) /\ holds n (inodes fs) s' /\
    stat_no_times a = obj_stat i o.
Proof.
  intros Hok Hh Hi. destruct (fuse_getattr_spec n _ l s i Hh (fs_plain _ Hok _ _ Hi)) as (a & l' & s' & E & Hh' & Ha1 & Ha2 & Ha3 & Ha4).
  exists a, l', s'. split; [done|]. split; [done|]. unfold stat_no_times. rewrite Ha1, Ha2, Ha3, Ha4. unfold size_of.
  rewrite (type_of_obj fs i o Hi), (data_of_obj fs i o Hi). by destruct o.
Qed.

(** Request [q] is answered as specified. *)
Definition answered n fs (q : fuse_req) l s : Prop :=
  exists r l' s', fuse_serve fuse_dirent_size fuse_add_dirent q (l, s) = Ok (r, (l', s')) /\
    no_times r = (fs_serve fuse_dirent_size fuse_add_dirent fs q).1 /\
    holds n (inodes (fs_serve fuse_dirent_size fuse_add_dirent fs q).2) s'.

Lemma inodes_made fs (d : Z) ents name (i : Z) o :
  inodes (<[d := ODir (ents ++ [mk_dirent name i])]> (<[i := o]> fs)) =
    add_file (inodes fs) d ents name i (obj_node o).1 (obj_node o).2.
Proof. rewrite !inodes_insert. by destruct o. Qed.

Section make.
Context fs (Hok : objects_ok fs) (d : Z) ents name (Hd : fs !! d = Some (ODir ents)) (Hs : slash ∉ name).

Section free.
Context (i : Z) (o : object) (Hf : find_ent name ents = None) (Hi : free_num fs = Some i).
Context (Ho : forall es, o = ODir es -> es = []).
Context (Hro : room_for (inodes fs) i (Z.of_nat (length (obj_node o).2))).
Context (Hrd : room_for (inodes (<[i := o]> fs)) d (Z.of_nat (length (enc_dir (ents ++ [mk_dirent name i]))))).
Local Abbreviation fs' := (<[d := ODir (ents ++ [mk_dirent name i])]> (<[i := o]> fs)).

Lemma made_at : fs' !! i = Some o.
Proof using All.
  destruct (free_num_None _ _ Hi) as [_ Hn]. rewrite lookup_insert_ne by (intros ->; congruence). apply lookup_insert_eq.
Qed.

(** What the handlers do once the object is made. *)
Lemma made_getattr n l s : holds (4 + n) (inodes fs') s ->
  exists a l' s', fuse_getattr i (l, s) = Ok (yfs_OK, a, (l', s')) /\ holds n (inodes fs') s' /\ stat_no_times a = obj_stat i o.
Proof using All. intros Hh. apply (getattr_obj n fs' l s i o); [|done|apply made_at]. by apply ok_make. Qed.

Lemma helper_made n l s mode ty : (ty, o) = (T_FILE, OFile []) \/ (ty, o) = (T_DIR, ODir []) ->
  holds (9 + n) (inodes fs) s ->
  exists a l' s', fuseserver_createhelper d name mode ty (l, s) = Ok (yfs_OK, i, a, (l', s')) /\
    stat_no_times a = obj_stat i o /\ holds n (inodes fs') s'.
Proof using All.
  intros Hty Hh. pose proof Hrd as Hr. rewrite inodes_insert in Hr. pose proof Hi as Hi'. rewrite free_num_ino in Hi'.
  pose proof (fs_is_dir _ Hok _ _ Hd) as Hdir. unfold fuseserver_createhelper, create, mkdir.
  assert (exists l1 s1, (if ty =? T_FILE then with_lock d (yfs_create d name mode (u64 stack_int)) (l, s)
      else with_lock d (yfs_mkdir d name mode (u64 stack_int)) (l, s)) = Ok (yfs_OK, i, (l1, s1)) /\
    holds (4 + n) (inodes fs') s1) as (l1 & s1 & E1 & Hh1).
  { rewrite inodes_made. destruct Hty as [[= -> ->]|[= -> ->]]; cbn [obj_node fst snd] in *.
    - destruct (create_spec (4 + n) (inodes fs) s d ents name mode (u64 stack_int) i Hh Hdir Hf Hi' Hr) as (s1 & E & Hh1).
      destruct (with_lock_ok d _ l _ _ _ E) as [l1 W]. by exists l1, s1.
    - destruct (mkdir_spec (4 + n) (inodes fs) s d ents name mode (u64 stack_int) i Hh Hdir Hf Hi' Hr) as (s1 & E & Hh1).
      destruct (with_lock_ok d _ l _ _ _ E) as [l1 W]. by exists l1, s1. }
  rewrite E1. run_ok. change (negb (yfs_OK =? yfs_OK)) with false. cbv iota.
  destruct (made_getattr n l1 s1 Hh1) as (a & l2 & s2 & -> & Hh2 & Ha). run_ok. by exists a, l2, s2.
Qed.

Lemma symlink_made n l s link : o = OLink link -> holds (10 + n) (inodes fs) s ->
  exists a l' s', fuseserver_symlink link d name (l, s) = Ok (reply_entry i a, (l', s')) /\
    stat_no_times a = obj_stat i o /\ holds n (inodes fs') s'.
Proof using All.
  intros Eo Hh. pose proof Hrd as Hr. rewrite inodes_insert, Eo in Hr. pose proof Hi as Hi'. rewrite free_num_ino in Hi'.
  pose proof (free_num_None _ _ Hi) as [Hino Hnone]. unfold fuseserver_symlink, symlink.
  assert (room_for (<[i := (T_SYMLINK, [])]> (inodes fs)) i (Z.of_nat (length link))) as Hr1.
  { destruct Hro as [Hm Hc]. rewrite Eo in Hm, Hc. split; [done|]. rewrite vspace_insert by done. cbn [snd length].
    change (need (nblocks (Z.of_nat 0))) with 0. pose proof (vblocks_nonneg (<[i := (T_SYMLINK, [])]> (inodes fs)) i).
    cbn [obj_node snd] in Hc. lia. }
  destruct (symlink_spec (4 + n) (inodes fs) s d ents name link (u64 stack_int) i Hh (fs_is_dir _ Hok _ _ Hd) Hf Hi' Hr1 Hr)
    as (s1 & E & Hh1). destruct (with_lock_ok d _ l _ _ _ E) as [l1 W]. rewrite W. run_ok.
  change (negb (yfs_OK =? yfs_OK)) with false. cbv iota. pose proof (inodes_made fs d ents name i o) as Em.
  rewrite Eo in Em at 2 3. cbn [obj_node fst snd] in Em. rewrite <- Em in Hh1.
  destruct (made_getattr n l1 s1 Hh1) as (a & l2 & s2 & -> & Hh2 & Ha). run_ok. by exists a, l2, s2.
Qed.
End free.

Lemma helper_taken n l s mode ty i : find_ent name ents = Some i -> holds (2 + n) (inodes fs) s ->
  exists l' s', fuseserver_createhelper d name mode ty (l, s) = Ok (yfs_EXIST, 0, stat_init 0, (l', s')) /\ holds n (inodes fs) s'.
Proof using H3 Hok Hd.
  intros Hf Hh. destruct (taken_spec n _ s d ents name mode (u64 stack_int) i Hh (fs_is_dir _ Hok _ _ Hd) Hf)
    as ((s1 & E1 & Hh1) & (s2 & E2 & Hh2) & _). unfold fuseserver_createhelper, create, mkdir.
  destruct (ty =? T_FILE).
  - destruct (with_lock_ok d _ l _ _ _ E1) as [l1 W]. rewrite W. run_ok. by exists l1, s1.
  - destruct (with_lock_ok d _ l _ _ _ E2) as [l2 W]. rewrite W. run_ok. by exists l2, s2.
Qed.

Lemma symlink_taken n l s link i : find_ent name ents = Some i -> holds (2 + n) (inodes fs) s ->
  exists l' s', fuseserver_symlink link d name (l, s) = Ok (reply_err EEXIST, (l', s')) /\ holds n (inodes fs) s'.
Proof using H3 Hok Hd.
  intros Hf Hh. destruct (taken_spec n _ s d ents name 0 (u64 stack_int) i Hh (fs_is_dir _ Hok _ _ Hd) Hf) as (_ & _ & Hsym).
  destruct (Hsym link) as (s1 & E1 & Hh1). unfold fuseserver_symlink, symlink.
  destruct (with_lock_ok d _ l _ _ _ E1) as [l1 W]. rewrite W. run_ok. by exists l1, s1.
Qed.
End make.

(** *** Creations *)

(** The three requests that the helper of [create] serves. *)
Lemma answered_helper n fs l s d name mode ty o (reply : Z -> stat -> fuse_reply) q :
  objects_ok fs -> can_make fs d name o -> holds (10 + n) (inodes fs) s ->
  (ty, o) = (T_FILE, OFile []) \/ (ty, o) = (T_DIR, ODir []) ->
  (forall i a, no_times (reply i a) = reply i (stat_no_times a)) ->
  (forall st, fuse_serve fuse_dirent_size fuse_add_dirent q st =
    '(ret, ino, a, st) ← fuseserver_createhelper d name mode ty st;
    if ret =? yfs_OK then Ok (reply ino a, st) else Ok (create_err ret, st)) ->
  fs_serve fuse_dirent_size fuse_add_dirent fs q = fs_make fs d name o reply -> answered n fs q l s.
Proof.
  intros Hok (ents & Hd & Hs & Hmk) Hh Hty Hrep Eq Esp. unfold answered. rewrite Eq, Esp. unfold fs_make. rewrite Hd.
  destruct (find_ent name ents) as [i|] eqn:Hf.
  - destruct (helper_taken fs Hok d ents name Hd (8 + n) l s mode ty i Hf Hh) as (l' & s' & -> & Hh').
    run_ok. exists (reply_err EEXIST), l', s'. split; [done|]. split; [done|]. by apply (holds_less 8).
  - destruct (Hmk eq_refl) as (i & Hi & Hro & Hrd).
    assert (Ho : forall es, o = ODir es -> es = []) by (intros es ->; destruct Hty as [[=]|[= _ ->]]; done).
    destruct (helper_made fs Hok d ents name Hd Hs i o Hf Hi Ho Hro Hrd (1 + n) l s mode ty Hty Hh) as (a & l' & s' & -> & Ha & Hh').
    run_ok. change (yfs_OK =? yfs_OK) with true. cbv iota. exists (reply i a), l', s'. split; [done|]. rewrite Hi. cbn [fst snd].
    split; [by rewrite Hrep, Ha|]. by apply (holds_less 1).
Qed.

Lemma answered_symlink n fs l s link d name : objects_ok fs -> can_make fs d name (OLink link) ->
  holds (10 + n) (inodes fs) s -> answered n fs (FSymlink link d name) l s.
Proof.
  intros Hok (ents & Hd & Hs & Hmk) Hh. unfold answered. cbn [fuse_serve fs_serve]. unfold fs_make. rewrite Hd.
  destruct (find_ent name ents) as [i|] eqn:Hf.
  - destruct (symlink_taken fs Hok d ents name Hd (8 + n) l s link i Hf Hh) as (l' & s' & -> & Hh').
    exists (reply_err EEXIST), l', s'. split; [done|]. split; [done|]. by apply (holds_less 8).
  - destruct (Hmk eq_refl) as (i & Hi & Hro & Hrd).
    destruct (symlink_made fs Hok d ents name Hd Hs i (OLink link) Hf Hi ltac:(done) Hro Hrd n l s link eq_refl Hh)
      as (a & l' & s' & -> & Ha & Hh').
    exists (reply_entry i a), l', s'. rewrite Hi. split; [done|]. split; [cbn [no_times fst]; by rewrite Ha|done].
Qed.

(** *** Other requests on directories *)

Lemma answered_lookup n fs l s d name : objects_ok fs -> is_Some (fs !! d) -> holds (10 + n) (inodes fs) s ->
  answered n fs (FLookup d name) l s.
Proof.
  intros Hok [o Hd] Hh. unfold answered. cbn [fuse_serve fs_serve fst snd]. unfold fuseserver_lookup, lookup. rewrite Hd.
  assert (obj_type o <> T_DIR \/ exists ents, o = ODir ents) as [Ht|[ents ->]]
    by (destruct o as [| |ents]; [by left..|right; by exists ents]).
  - destruct (lookup_not_dir (9 + n) (inodes fs) s d name (u64 stack_int) Hh (fs_plain _ Hok _ _ Hd)) as (s1 & E & Hh1).
    { by rewrite (type_of_obj _ _ _ Hd). }
    destruct (with_lock_ok d _ l _ _ _ E) as [l1 W]. rewrite W. run_ok. exists (reply_err ENOENT), l1, s1.
    split; [done|]. split; [by destruct o|]. by apply (holds_less 9).
  - destruct (lookup_spec (8 + n) (inodes fs) s d ents name (u64 stack_int) Hh (fs_is_dir _ Hok _ _ Hd)) as (s1 & E & Hh1).
    destruct (with_lock_ok d _ l _ _ _ E) as [l1 W]. rewrite W. run_ok. unfold lookup_answer.
    destruct (find_ent name ents) as [i|] eqn:Hf.
    + destruct (fs_find _ Hok d ents name i Hd Hf) as (_ & _ & [o Ho]). run_ok.
      destruct (getattr_obj (4 + n) fs l1 s1 i o Hok Hh1 Ho) as (a & l2 & s2 & -> & Hh2 & Ha). run_ok.
      exists (reply_entry i a), l2, s2. split; [done|]. rewrite Ho. cbn [no_times]. rewrite Ha. split; [done|]. by apply (holds_less 4).
    + run_ok. exists (reply_err ENOENT), l1, s1. split; [done|]. split; [done|]. by apply (holds_less 8).
Qed.

Lemma page_of (all : list byte) size off : 0 <= off < 2 ^ 63 -> 0 <= size ->
  reply_buf_limited all off size = reply_buf (take (Z.to_nat size) (drop (Z.to_nat off) all)).
Proof.
  intros Ho Hs. unfold reply_buf_limited. rewrite wrapU_small by lia.
  destruct (Z.ltb_spec off (Z.of_nat (length all))) as [Hlt|Hge]; f_equal.
  - destruct (decide (size <= Z.of_nat (length all) - off)) as [Hle|Hgt]; [by rewrite Z.min_r|].
    rewrite Z.min_l by lia. rewrite !take_ge; [done|rewrite length_drop; lia..].
  - rewrite drop_ge by lia. by rewrite take_nil.
Qed.

Lemma answered_readdir n fs l s i size off : objects_ok fs -> is_Some (fs !! i) -> 0 <= off < 2 ^ 63 -> 0 <= size ->
  holds (10 + n) (inodes fs) s -> answered n fs (FReaddir i size off) l s.
Proof.
  intros Hok [o Hi] Ho Hs Hh. unfold answered. cbn [fuse_serve fs_serve fst snd]. unfold fuseserver_readdir, isdir, readdir. rewrite Hi.
  destruct (isdir_spec (9 + n) (inodes fs) s i Hh (fs_plain _ Hok _ _ Hi)) as (s1 & E1 & Hh1).
  destruct (with_lock_ok i _ l _ _ _ E1) as [l1 W1]. rewrite W1. run_ok. rewrite (type_of_obj _ _ _ Hi).
  destruct o as [c|c|ents].
  1-2: exists (reply_err ENOTDIR), l1, s1; split; [done|split; [done|by apply (holds_less 9)]].
  change (negb (obj_type (ODir ents) =? T_DIR)) with false. cbv iota.
  destruct (readdir_spec (8 + n) (inodes fs) s1 i ents [] Hh1 (fs_is_dir _ Hok _ _ Hi)) as (s2 & E2 & Hh2).
  destruct (with_lock_ok i _ l1 _ _ _ E2) as [l2 W2]. rewrite W2. run_ok. cbn [app].
  fold (listing fuse_dirent_size fuse_add_dirent ents). rewrite page_of by done.
  eexists _, l2, s2. split; [done|]. split; [done|]. by apply (holds_less 8).
Qed.

Lemma answered_unlink n fs l s d name : objects_ok fs -> allowed fs (FUnlink d name) -> holds (10 + n) (inodes fs) s ->
  answered n fs (FUnlink d name) l s.
Proof.
  intros Hok [[o Hd] Hdig] Hh. unfold answered. cbn [fuse_serve fs_serve]. unfold fuseserver_unlink, unlink, fs_unlink. rewrite Hd.
  assert ((obj_type o <> T_DIR) \/ exists ents, o = ODir ents) as [Ht|[ents ->]]
    by (destruct o as [| |ents]; [by left..|right; by exists ents]).
  - assert (exists s1, yfs_unlink d name s = Ok (yfs_NOENT, s1) /\ holds (9 + n) (inodes fs) s1) as (s1 & E & Hh1).
    { unfold yfs_unlink.
      destruct (lookup_not_dir (9 + n) (inodes fs) s d name (u64 stack_int) Hh (fs_plain _ Hok _ _ Hd)) as (s1 & -> & Hh1).
      - by rewrite (type_of_obj _ _ _ Hd).
      - run_ok. by exists s1. }
    destruct (with_lock_ok d _ l _ _ _ E) as [l1 W]. rewrite W. run_ok. exists (reply_err ENOENT), l1, s1.
    destruct o; [..|done]; split; [done|split; [done|by apply (holds_less 9)]|done|split; [done|by apply (holds_less 9)]].
  - destruct (find_ent name ents) as [i|] eqn:Hf.
    + pose proof (Hdig ents i Hd Hf) as Hnd. destruct (fs_find _ Hok d ents name i Hd Hf) as (_ & Hne & [o Ho]).
      destruct (find_ent_split name ents i Hf) as (es1 & es2 & ->). pose proof (cut_room fs Hok d es1 name i es2 Hd) as Hroom.
      rewrite inodes_delete in Hroom.
      destruct (unlink_spec (5 + n) (inodes fs) s d es1 name i es2 Hh (fs_is_dir _ Hok _ _ Hd) Hf Hnd
        (ok_inums _ Hok d _ Hd) (fs_plain _ Hok _ _ Ho) Hne Hroom) as (s1 & E & Hh1).
      destruct (with_lock_ok d _ l _ _ _ E) as [l1 W]. rewrite W. run_ok. exists (reply_err 0), l1, s1. split; [done|].
      rewrite (filter_cut name es1 i es2) by by apply (ok_names _ Hok d). cbn [fst snd]. split; [done|].
      rewrite inodes_insert, inodes_delete. by apply (holds_less 5).
    + destruct (unlink_missing (8 + n) (inodes fs) s d ents name Hh (fs_is_dir _ Hok _ _ Hd) Hf) as (s1 & E & Hh1).
      destruct (with_lock_ok d _ l _ _ _ E) as [l1 W]. rewrite W. run_ok. exists (reply_err ENOENT), l1, s1.
      split; [done|]. split; [done|]. by apply (holds_less 8).
Qed.

(** *** Requests on files and links *)

Lemma answered_read n fs l s i size off c : objects_ok fs -> fs !! i = Some (OFile c) -> 0 <= size -> 0 <= off < 2 ^ 31 ->
  holds (10 + n) (inodes fs) s -> answered n fs (FRead i size off) l s.
Proof.
  intros Hok Hi Hs Ho Hh. unfold answered. cbn [fuse_serve fs_serve fst snd]. unfold fuseserver_read, read. rewrite Hi.
  pose proof (ok_size _ Hok i _ Hi) as Hl.
  destruct (read_spec (9 + n) (inodes fs) s i size off [] Hh (fs_plain _ Hok _ _ Hi) Hs Ho) as (s1 & E & Hh1).
  { by rewrite (data_of_obj _ _ _ Hi). }
  rewrite (data_of_obj _ _ _ Hi) in E. destruct (with_lock_ok i _ l _ _ _ E) as [l1 W]. rewrite W. run_ok.
  change (yfs_OK =? yfs_OK) with true. cbv iota. eexists _, l1, s1. split; [done|]. split; [done|]. by apply (holds_less 9).
Qed.

Lemma answered_write n fs l s i buf size off : objects_ok fs -> allowed fs (FWrite i buf size off) ->
  holds (10 + n) (inodes fs) s -> answered n fs (FWrite i buf size off) l s.
Proof.
  intros Hok (Esz & Ho & c & Hi & Hroom) Hh. unfold answered. cbn [fuse_serve fs_serve]. unfold fuseserver_write, write. rewrite Hi.
  pose proof (ok_size _ Hok i _ Hi) as Hl.
  destruct (write_spec (8 + n) (inodes fs) s i size off buf size T_FILE c Hh (fs_plain _ Hok _ _ Hi)) as (s1 & E & Hh1); [|done..|].
  { by rewrite lookup_inodes, Hi. }
  destruct (with_lock_ok i _ l _ _ _ E) as [l1 W]. rewrite W. run_ok. change (yfs_OK =? yfs_OK) with true. cbv iota.
  exists (reply_write size), l1, s1. split; [done|]. split; [done|]. cbn [snd]. rewrite inodes_insert. by apply (holds_less 8).
Qed.

Lemma no_mask_no_size to_set : Z.land set_mask to_set = 0 -> Z.land FUSE_SET_ATTR_SIZE to_set = 0.
Proof.
  intros Hm. apply Z.bits_inj'. intros k Hk. pose proof (f_equal (fun z => Z.testbit z k) Hm) as Hk'. cbv beta in Hk'.
  rewrite Z.land_spec, Z.bits_0 in *. unfold set_mask in Hk'. rewrite !Z.lor_spec in Hk'.
  destruct (Z.testbit FUSE_SET_ATTR_SIZE k); [|done]. by destruct (Z.testbit to_set k).
Qed.

Lemma answered_setattr n fs l s i size to_set : objects_ok fs -> allowed fs (FSetattr i size to_set) ->
  holds (10 + n) (inodes fs) s -> answered n fs (FSetattr i size to_set) l s.
Proof.
  intros Hok Hal Hh. unfold answered. cbn [fuse_serve fs_serve]. unfold fuseserver_setattr, setattr.
  destruct Hal as [Hm|(Hm & Hsz & [c Hi] & Hroom)].
  - rewrite Hm, (no_mask_no_size _ Hm). cbn [Z.eqb negb].
    cbn [Z.eqb]. exists (reply_err ENOSYS), l, s. split; [done|]. split; [done|]. by apply (holds_less 10).
  - rewrite (proj2 (Z.eqb_neq _ _) Hm). rewrite Hi.
    assert (Z.land set_mask to_set <> 0) as Hm' by (by intros E%no_mask_no_size).
    rewrite (proj2 (Z.eqb_neq _ _) Hm'). cbn [negb]. pose proof (proj1 Hroom) as Hmax. rewrite MAXFILE_eq in Hmax.
    rewrite wrapU_small by lia.
    destruct (setattr_spec (8 + n) (inodes fs) s i size T_FILE c Hh (fs_plain _ Hok _ _ Hi)) as (s1 & E & Hh1 & Hl); [|done..|].
    { by rewrite lookup_inodes, Hi. }
    destruct (with_lock_ok i _ l _ _ _ E) as [l1 W]. rewrite W. run_ok. fold (resized size c) in Hh1, Hl.
    change (T_FILE, resized size c) with (obj_node (OFile (resized size c))) in Hh1. rewrite <- inodes_insert in Hh1.
    destruct (getattr_obj (4 + n) (<[i := OFile (resized size c)]> fs) l1 s1 i (OFile (resized size c))) as (a & l2 & s2 & E2 & Hh2 & Ha).
    + apply (ok_content fs Hok i c); [done|by rewrite Hl].
    + done.
    + apply lookup_insert_eq.
    + rewrite E2. run_ok. exists (reply_attr a), l2, s2. split; [done|]. cbn [no_times fst snd]. rewrite Ha. split; [done|].
      by apply (holds_less 4).
Qed.

Lemma answered_getattr n fs l s i : objects_ok fs -> is_Some (fs !! i) -> holds (10 + n) (inodes fs) s ->
  answered n fs (FGetattr i) l s.
Proof.
  intros Hok [o Hi] Hh. unfold answered. cbn [fuse_serve fs_serve fst snd]. unfold fuseserver_getattr. rewrite Hi.
  destruct (getattr_obj (6 + n) fs l s i o Hok Hh Hi) as (a & l1 & s1 & -> & Hh1 & Ha). run_ok.
  change (negb (yfs_OK =? yfs_OK)) with false. cbv iota. exists (reply_attr a), l1, s1. split; [done|]. cbn [no_times]. rewrite Ha.
  split; [done|]. by apply (holds_less 6).
Qed.

Lemma answered_readlink n fs l s i c : objects_ok fs -> fs !! i = Some (OLink c) -> holds (10 + n) (inodes fs) s ->
  answered n fs (FReadlink i) l s.
Proof.
  intros Hok Hi Hh. unfold answered. cbn [fuse_serve fs_serve fst snd]. unfold fuseserver_readlink, readlink. rewrite Hi.
  destruct (holds_get (9 + n) (inodes fs) s i [] Hh (fs_plain _ Hok _ _ Hi)) as (s1 & E & Hh1). rewrite (data_of_obj _ _ _ Hi) in E.
  destruct (with_lock_ok i (yfs_readlink i []) l _ _ _ E) as [l1 W]. rewrite W. run_ok. change (negb (extent_OK =? yfs_OK)) with false. cbv iota.
  eexists _, l1, s1. split; [done|]. split; [done|]. by apply (holds_less 9).
Qed.

(** ** Every request *)

Lemma serve_answered n fs l s q : objects_ok fs -> allowed fs q -> holds (10 + n) (inodes fs) s -> answered n fs q l s.
Proof.
  intros Hok Ha Hh. destruct q; cbn [allowed] in Ha.
  - by apply answered_getattr.
  - eexists _, l, s. split; [done|]. split; [done|]. by apply (holds_less 10).
  - destruct Ha as (? & ? & ?). by apply answered_readdir.
  - by apply answered_lookup.
  - by eapply (answered_helper n fs l s parent name mode T_FILE (OFile []) reply_create); try done; left.
  - by eapply (answered_helper n fs l s parent name mode T_FILE (OFile []) reply_entry); try done; left.
  - eexists _, l, s. split; [done|]. split; [done|]. by apply (holds_less 10).
  - destruct Ha as ([c Hc] & ? & ?). by eapply answered_read.
  - by apply answered_write.
  - by apply answered_setattr.
  - by apply answered_unlink.
  - by eapply (answered_helper n fs l s parent name mode T_DIR (ODir []) reply_entry); try done; right.
  - by apply answered_symlink.
  - destruct Ha as [c Hc]. by eapply answered_readlink.
Qed.

(** The invariant holds after every request. *)
Lemma make_ok fs d name o reply : objects_ok fs -> can_make fs d name o -> (forall es, o = ODir es -> es = []) ->
  objects_ok (fs_make fs d name o reply).2.
Proof.
  intros Hok (ents & Hd & Hs & Hmk) Ho. unfold fs_make. rewrite Hd. destruct (find_ent name ents) eqn:Hf; [done|].
  destruct (Hmk eq_refl) as (i & Hi & Hro & Hrd). rewrite Hi. by apply ok_make.
Qed.

Lemma serve_ok fs q : objects_ok fs -> allowed fs q -> objects_ok (fs_serve fuse_dirent_size fuse_add_dirent fs q).2.
Proof.
  intros Hok Ha. destruct q; cbn [allowed fs_serve fst snd] in *; try done; try (apply make_ok; [done|done|]; by intros es [=]).
  - destruct Ha as (-> & Ho & c & Hi & Hroom). rewrite Hi. by apply (ok_content fs Hok ino c).
  - destruct (Z.eqb_spec (Z.land FUSE_SET_ATTR_SIZE to_set) 0) as [E|E]; [done|].
    destruct (fs !! ino) as [[c|c|ents]|] eqn:Hi; [|done..]. destruct Ha as [Hm|(_ & Hsz & _ & Hroom)].
    + by destruct (E (no_mask_no_size _ Hm)).
    + apply (ok_content fs Hok ino c _ Hi). unfold resized. rewrite length_app, length_take, length_replicate.
      by replace (Z.of_nat (_ + _)%nat) with size by lia.
  - unfold fs_unlink. destruct Ha as [[o Hd] _]. rewrite Hd. destruct o as [| |ents]; [done..|].
    destruct (find_ent name ents) as [i|] eqn:Hf; [|done]. destruct (find_ent_split _ _ _ Hf) as (es1 & es2 & ->).
    rewrite filter_cut by by apply (ok_names _ Hok parent). by apply (ok_cut fs Hok parent es1 name i es2).
Qed.

(** A run of requests. *)
Lemma run_answered n qs : forall fs l s, objects_ok fs -> allowed_run fuse_dirent_size fuse_add_dirent fs qs ->
  holds (10 * length qs + n) (inodes fs) s ->
  exists rs l' s', fuse_run fuse_dirent_size fuse_add_dirent qs (l, s) = Ok (rs, (l', s')) /\
    no_times <$> rs = (fs_run fuse_dirent_size fuse_add_dirent fs qs).1 /\
    holds n (inodes (fs_run fuse_dirent_size fuse_add_dirent fs qs).2) s' /\
    objects_ok (fs_run fuse_dirent_size fuse_add_dirent fs qs).2.
Proof.
  induction qs as [|q qs IH]; intros fs l s Hok Ha Hh.
  - exists [], l, s. done.
  - destruct Ha as [Ha Hr]. replace (10 * length (q :: qs) + n)%nat with (10 + (10 * length qs + n))%nat in Hh by (cbn; lia).
    destruct (serve_answered _ fs l s q Hok Ha Hh) as (r & l1 & s1 & E1 & Hr1 & Hh1).
    destruct (IH _ l1 s1 (serve_ok fs q Hok Ha) Hr Hh1) as (rs & l2 & s2 & E2 & Hrs & Hh2 & Hok2).
    exists (r :: rs), l2, s2. split; [cbn [fuse_run]; rewrite E1; run_ok; rewrite E2; by run_ok|].
    split; [|done]. cbn [fs_run fst]. by rewrite fmap_cons, Hr1, Hrs.
Qed.

Lemma root_ok : objects_ok root_fs.
Proof.
  unfold root_fs.
  assert (Hd : forall d ents, {[1 := ODir []]} !! d = Some (ODir ents) -> ents = []) by (intros d ents [_ [= <-]]%lookup_singleton_Some; done).
  split.
  - intros i o [<- _]%lookup_singleton_Some. apply elem_of_inos. unfold valid_ino. rewrite LAST_INO_eq. lia.
  - intros i o [_ <-]%lookup_singleton_Some. by rewrite MAXFILE_eq.
  - vm_compute. discriminate.
  - by intros d ents ->%Hd.
  - intros d ents ->%Hd. constructor.
  - intros d ents ->%Hd. constructor.
  - by intros d ents e ->%Hd ?%elem_of_nil.
  - by intros d d' ents ents' e e' ->%Hd _ ?%elem_of_nil.
Qed.
End serve.
