(* ===== verification/FuseProps.v ===== *)
(** * FuseProps: the guarantees of the request handlers

    What the kernel sees: replies that match what the file system did, locks that
    are all given back, and two places where the handlers do more than asked. *)

From Stdlib Require Import ZArith Lia.
From S2P Require Import Prelude CppString BlockLayer Inode FileBlocks FileSystem FileWrite.
From S2P Require Import ExtentServer ExtentRefine RpcServer RpcClient RpcLink ExtentClient.
From S2P Require Import ExtentRemote YfsClient YfsView YfsFacts YfsProps Fuse FuseFacts FuseSpec FuseRefine.

Section guarantees.
Context `{HeapMem} {S : Type} `{ExtentClientOK S} {L : Type} `{LockClientTotal L}.
Context (fuse_dirent_size : Z -> Z) (fuse_add_dirent : list byte -> Z -> Z -> list byte).

(** A creation under a free name is answered with the new inode and the
    attributes of an empty regular file with mode 0666, and a lookup of the name
    is then answered with the same inode and attributes. *)
Theorem fuse_create_lookup n v l s d ents name mode i :
  holds (15 + n) v s -> is_dir v d ents -> find_ent name ents = None -> slash ∉ name -> free_ino v = Some i ->
  room_for (<[i := (T_FILE, [])]> v) d (Z.of_nat (length (enc_dir (ents ++ [mk_dirent name i])))) ->
  exists a a' st1 l2 s2, fuseserver_create d name mode (l, s) = Ok (reply_create i a, st1) /\
    fuseserver_lookup d name st1 = Ok (reply_entry i a', (l2, s2)) /\
    (st_ino a = i /\ st_mode a = Z.lor S_IFREG 438 /\ st_size a = 0) /\
    (st_ino a' = i /\ st_mode a' = Z.lor S_IFREG 438 /\ st_size a' = 0) /\
    holds n (add_file v d ents name i T_FILE []) s2.
Proof.
  intros Hh Hd Hf Hs Hi Hroom. pose proof (free_ino_not_dir _ _ _ _ Hi Hd) as Hne.
  pose proof (free_ino_plain v i Hi) as [Hp _].
  destruct (create_spec (10 + n) v s d ents name mode (u64 stack_int) i) as (s1 & E1 & Hh1); [done..|].
  destruct (with_lock_ok d _ l _ _ _ E1) as [l1 W1]. unfold fuseserver_create, fuseserver_createhelper, create.
  change (T_FILE =? T_FILE) with true. cbv iota. rewrite W1. run_ok.
  change (negb (yfs_OK =? yfs_OK)) with false. cbv iota.
  destruct (fuse_getattr_spec (6 + n) _ l1 s1 i Hh1 Hp) as (a & l2 & s2 & E2 & Hh2 & Ha1 & Ha2 & Ha3 & _). rewrite E2. run_ok.
  change (yfs_OK =? yfs_OK) with true. cbv iota. unfold fuseserver_lookup, lookup.
  pose proof (add_file_is_dir v d ents name i T_FILE [] Hd Hs Hi (proj1 Hroom)) as Hd1.
  destruct (lookup_spec (4 + n) _ s2 d _ name (u64 stack_int) Hh2 Hd1) as (s3 & E3 & Hh3).
  unfold lookup_answer in E3. rewrite find_ent_new in E3 by done.
  destruct (with_lock_ok d _ l2 _ _ _ E3) as [l3 W3].
  destruct (fuse_getattr_spec n _ l3 s3 i Hh3 Hp) as (a' & l4 & s4 & E4 & Hh4 & Hb1 & Hb2 & Hb3 & _).
  exists a, a', (l2, s2), l4, s4. split; [done|]. split; [by rewrite W3; run_ok; rewrite E4; run_ok|].
  unfold size_of in *. rewrite add_file_type, add_file_data in * by done. split; [|split; [|exact Hh4]].
  - exact (conj Ha1 (conj Ha2 Ha3)).
  - exact (conj Hb1 (conj Hb2 Hb3)).
Qed.

(** Creating anything under a name that is taken is refused with EEXIST, and
    no file changes. *)
Theorem fuse_taken_refused n v l s d ents name mode link i :
  holds (2 + n) v s -> is_dir v d ents -> find_ent name ents = Some i ->
  (exists l' s', fuseserver_create d name mode (l, s) = Ok (reply_err EEXIST, (l', s')) /\ holds n v s') /\
  (exists l' s', fuseserver_mknod d name mode (l, s) = Ok (reply_err EEXIST, (l', s')) /\ holds n v s') /\
  (exists l' s', fuseserver_mkdir d name mode (l, s) = Ok (reply_err EEXIST, (l', s')) /\ holds n v s') /\
  (exists l' s', fuseserver_symlink link d name (l, s) = Ok (reply_err EEXIST, (l', s')) /\ holds n v s').
Proof.
  intros Hh Hd Hf.
  destruct (taken_spec n v s d ents name mode (u64 stack_int) i Hh Hd Hf) as ((s1 & E1 & Hh1) & (s2 & E2 & Hh2) & Hsym).
  destruct (Hsym link) as (s3 & E3 & Hh3).
  destruct (with_lock_ok d _ l _ _ _ E1) as [l1 W1]. destruct (with_lock_ok d _ l _ _ _ E2) as [l2 W2].
  destruct (with_lock_ok d _ l _ _ _ E3) as [l3 W3].
  unfold fuseserver_create, fuseserver_mknod, fuseserver_mkdir, fuseserver_symlink, fuseserver_createhelper,
    create, mkdir, symlink.
  change (T_FILE =? T_FILE) with true. change (T_DIR =? T_FILE) with false. cbv iota.
  rewrite W1, W2, W3. run_ok. split_and!; [exists l1, s1|exists l1, s1|exists l2, s2|exists l3, s3]; done.
Qed.

(** Listing a directory is answered with the bytes from the requested offset
    on, at most as many as requested, of the entries of the directory in order;
    anything else is refused as not a directory. *)
Theorem fuse_readdir_page n v l s i ents size off :
  holds (2 + n) v s -> 0 <= off < 2 ^ 63 -> 0 <= size ->
  let all := fold_left (fun b it => dirbuf_add fuse_dirent_size fuse_add_dirent b (c_str (d_name it)) (d_inum it)) ents [] in
  (is_dir v i ents -> exists l' s',
    fuseserver_readdir fuse_dirent_size fuse_add_dirent i size off (l, s) =
      Ok (reply_buf (take (Z.to_nat size) (drop (Z.to_nat off) all)), (l', s')) /\ holds n v s') /\
  (plain i -> type_of v i <> T_DIR -> exists l' s',
    fuseserver_readdir fuse_dirent_size fuse_add_dirent i size off (l, s) = Ok (reply_err ENOTDIR, (l', s')) /\
    holds n v s').
Proof.
  intros Hh Ho Hs all. split; [intros Hd|intros Hp Ht]; unfold fuseserver_readdir, isdir, readdir.
  - destruct (isdir_spec (1 + n) v s i Hh (id_plain _ _ _ Hd)) as (s1 & E1 & Hh1).
    destruct (with_lock_ok i _ l _ _ _ E1) as [l1 W1]. rewrite W1. run_ok.
    unfold type_of. rewrite (id_node _ _ _ Hd). change (negb (u32 _ =? T_DIR)) with false. cbv iota.
    destruct (readdir_spec n v s1 i ents [] Hh1 Hd) as (s2 & E2 & Hh2).
    destruct (with_lock_ok i _ l1 _ _ _ E2) as [l2 W2]. rewrite W2. run_ok. cbn [app]. fold all.
    exists l2, s2. split; [|done]. do 3 f_equal. unfold reply_buf_limited. rewrite wrapU_small by lia.
    destruct (Z.ltb_spec off (Z.of_nat (length all))) as [Hlt|Hge]; f_equal.
    + rewrite Z.min_comm. destruct (decide (size <= Z.of_nat (length all) - off)) as [Hle|Hgt].
      * by rewrite Z.min_l.
      * rewrite Z.min_r by lia. rewrite !take_ge; [done|rewrite length_drop; lia..].
    + rewrite drop_ge by lia. by rewrite take_nil.
  - destruct (isdir_spec (1 + n) v s i Hh Hp) as (s1 & E1 & Hh1).
    destruct (with_lock_ok i _ l _ _ _ E1) as [l1 W1]. rewrite W1. run_ok.
    rewrite (proj2 (Z.eqb_neq _ _) Ht). cbn [negb]. exists l1, s1. split; [done|]. by apply (holds_less 1).
Qed.

(** A request to set only the modification time cuts or extends the file to
    whatever size the request happens to carry. *)
Theorem fuse_setattr_time_resizes n v l s i size t buf :
  holds (6 + n) v s -> plain i -> v !! i = Some (t, buf) -> 0 <= size < 2 ^ 63 -> room_for v i size ->
  exists a l' s', fuseserver_setattr i size FUSE_SET_ATTR_MTIME (l, s) = Ok (reply_attr a, (l', s')) /\
    holds n (<[i := (t, take (Z.to_nat size) buf ++ replicate (Z.to_nat size - length buf) x00)]> v) s'.
Proof.
  intros Hh Hp Hv Hs Hroom. unfold fuseserver_setattr, setattr.
  change (negb (Z.land set_mask FUSE_SET_ATTR_MTIME =? 0)) with true. cbv iota. rewrite wrapU_small by lia.
  destruct (setattr_spec (4 + n) v s i size t buf Hh Hp Hv) as (s1 & E1 & Hh1 & _); [lia|done|].
  destruct (with_lock_ok i _ l _ _ _ E1) as [l1 W1]. rewrite W1. run_ok.
  destruct (fuse_getattr_spec n _ l1 s1 i Hh1 Hp) as (a & l2 & s2 & E2 & Hh2 & _). rewrite E2. run_ok. eauto.
Qed.

(** A directory can be unlinked like a file, whatever is in it: the request is
    answered with success and the directory is gone. *)
Theorem fuse_unlinks_directories n v l s d es1 name i es2 c :
  holds (5 + n) v s -> is_dir v d (es1 ++ mk_dirent name i :: es2) ->
  find_ent name (es1 ++ mk_dirent name i :: es2) = Some i -> v !! i = Some (T_DIR, c) ->
  has_nondigit name -> NoDup (d_inum <$> es1 ++ mk_dirent name i :: es2) -> plain i -> i <> d ->
  room_for (delete i v) d (Z.of_nat (length (enc_dir (es1 ++ es2)))) ->
  exists l' s', fuseserver_unlink d name (l, s) = Ok (reply_err 0, (l', s')) /\
    holds n (<[d := (T_DIR, enc_dir (es1 ++ es2))]> (delete i v)) s'.
Proof.
  intros Hh Hd Hf _ Hnd Hdup Hp Hne Hroom. unfold fuseserver_unlink, unlink.
  destruct (unlink_spec n v s d es1 name i es2 Hh Hd Hf Hnd Hdup Hp Hne Hroom) as (s1 & E1 & Hh1).
  destruct (with_lock_ok d _ l _ _ _ E1) as [l1 W1]. rewrite W1. run_ok. eauto.
Qed.

End guarantees.

(** C28: whatever the request and however it is answered, a handler that returns has
    released every lock it took, and never held two at a time. *)
Theorem handlers_release_locks `{HeapMem} {S} `{ExtentClient S} fuse_dirent_size fuse_add_dirent q
    (l : list lock_event) (s : S) rep l' s' :
  fuse_serve fuse_dirent_size fuse_add_dirent q (l, s) = Ok (rep, (l', s')) -> exists k, l' = l ++ k /\ paired k.
Proof.
  intros E. pose proof (lp_serve fuse_dirent_size fuse_add_dirent q l s) as Hp. by rewrite E in Hp.
Qed.

(** ** The file system as a whole *)



(** ** Instances, over the RPC library and with a lock client that records *)

#[local] Existing Instance zero_mem.
#[local] Existing Instance demo_client.
#[local] Existing Instance demo_client_ok.
Abbreviation demo_st := (list lock_event * link ehost)%type.

(** A dirent encoding of the right shape: the name, padded to 24 bytes and more. *)
Definition demo_dirent_size (n : Z) : Z := 24 + n.
Definition demo_dirent (name : list byte) (ino off : Z) : list byte :=
  le_enc 8 ino ++ le_enc 8 off ++ le_enc 8 (Z.of_nat (length name)) ++ name.

Lemma fuse_create_lookup_witness :
  exists (s : link ehost) a a' (st1 st2 : demo_st),
    fuseserver_create 1 [x61] 0 ([], s) = Ok (reply_create 2 a, st1) /\
    fuseserver_lookup 1 [x61] st1 = Ok (reply_entry 2 a', st2) /\ st_ino a' = 2 /\ st_size a' = 0.
Proof.
  destruct (demo_holds 15) as [s Hh]; [done|].
  destruct (fuse_create_lookup 0 root_only ([] : list lock_event) s 1 [] [x61] 0 2 Hh root_is_dir)
    as (a & a' & st1 & l2 & s2 & E1 & E2 & _ & (Hi & _ & Hs) & _);
    [reflexivity|set_solver|vm_compute; reflexivity|room|].
  exists s, a, a', st1, (l2, s2). exact (conj E1 (conj E2 (conj Hi Hs))).
Defined.

Lemma fuse_taken_refused_witness :
  exists (s : link ehost) (st' : demo_st), fuseserver_mkdir 1 [x61] 0 ([], s) = Ok (reply_err EEXIST, st').
Proof.
  destruct (demo_file 2 (enc_dir demo_ents) []) as [s Hh]; [done|room|room|].
  destruct (fuse_taken_refused 0 _ ([] : list lock_event) s 1 demo_ents [x61] 0 [] 2 Hh (demo_is_dir []) eq_refl)
    as (_ & _ & (l' & s' & E & _) & _).
  exists s, (l', s'). exact E.
Defined.

Lemma fuse_readdir_page_witness :
  exists (s : link ehost) (st' : demo_st), fuseserver_readdir demo_dirent_size demo_dirent 1 100 8 ([], s) =
    Ok (reply_buf (le_enc 8 25 ++ le_enc 8 1 ++ [x61]), st').
Proof.
  destruct (demo_file 2 (enc_dir demo_ents) []) as [s Hh]; [done|room|room|].
  destruct (fuse_readdir_page demo_dirent_size demo_dirent 0 _ ([] : list lock_event) s 1 demo_ents 100 8 Hh)
    as [Hd _]; [lia|lia|].
  destruct (Hd (demo_is_dir [])) as (l' & s' & E & _). exists s, (l', s'). exact E.
Defined.

Lemma fuse_setattr_time_resizes_witness :
  exists (s : link ehost) a (st' : demo_st),
    fuseserver_setattr 2 0 FUSE_SET_ATTR_MTIME ([], s) = Ok (reply_attr a, st') /\
    holds 0 (<[2 := (T_FILE, [])]> (two_files (enc_dir demo_ents) [x68; x69])) st'.2.
Proof.
  destruct (demo_file 6 (enc_dir demo_ents) [x68; x69]) as [s Hh]; [done|room|room|].
  destruct (fuse_setattr_time_resizes 0 _ ([] : list lock_event) s 2 0 T_FILE [x68; x69] Hh)
    as (a & l' & s' & E & Hh'); [done|done|lia|room|].
  exists s, a, (l', s'). exact (conj E Hh').
Defined.

(** The root directory with a directory, number 2, that is not empty. *)
Lemma demo_subdir n : Z.of_nat n < 900 ->
  exists s : link ehost, holds n (<[2 := (T_DIR, enc_dir demo_ents)]> {[1 := (T_DIR, enc_dir demo_ents)]}) s.
Proof.
  intros Hn. destruct (demo_root (2 + n) (enc_dir demo_ents)) as [s Hh]; [lia|room|].
  destruct (holds_create (1 + n) _ s T_DIR 0 2 Hh) as (s1 & _ & Hh1); [done|done|by vm_compute|].
  destruct (holds_put n _ s1 2 (enc_dir demo_ents) Hh1) as (s2 & _ & Hh2); [done|by eexists|room|]. exists s2.
  by rewrite (alter_insert_id _ _ 2 (T_DIR, [])), insert_insert_eq in Hh2.
Qed.

Lemma fuse_unlinks_directories_witness :
  exists (s : link ehost) (st' : demo_st), fuseserver_unlink 1 [x61] ([], s) = Ok (reply_err 0, st').
Proof.
  destruct (demo_subdir 5) as [s Hh]; [done|].
  destruct (fuse_unlinks_directories 0 _ ([] : list lock_event) s 1 [] [x61] 2 [] (enc_dir demo_ents) Hh)
    as (l' & s' & E & _).
  - split; [done|done| |by rewrite MAXFILE_eq]. apply Forall_singleton. split; [set_solver|cbn; lia].
  - reflexivity.
  - reflexivity.
  - exists x61. split; [left|reflexivity].
  - apply NoDup_singleton.
  - done.
  - done.
  - room.
  - exists s, (l', s'). exact E.
Defined.

Lemma handlers_release_locks_witness :
  exists (s : link ehost) rep l' s',
    fuse_serve demo_dirent_size demo_dirent (FLookup 1 [x7a]) ([], s) = Ok (rep, (l', s')) /\
    exists k, l' = [] ++ k /\ paired k.
Proof.
  destruct (demo_holds 2) as [s Hh]; [done|].
  destruct (lookup_spec 0 root_only s 1 [] [x7a] (u64 stack_int) Hh root_is_dir) as (s1 & E1 & _).
  destruct (with_lock_ok 1 _ ([] : list lock_event) _ _ _ E1) as [l1 W1].
  assert (fuse_serve demo_dirent_size demo_dirent (FLookup 1 [x7a]) ([], s) = Ok (reply_err ENOENT, (l1, s1))) as E
    by (cbn [fuse_serve]; unfold fuseserver_lookup, lookup; rewrite W1; reflexivity).
  exists s, (reply_err ENOENT), l1, s1. split; [exact E|].
  exact (handlers_release_locks demo_dirent_size demo_dirent (FLookup 1 [x7a]) [] s _ l1 s1 E).
Defined.




