(* ===== verification/LockServer.v ===== *)
(** * LockServer: the lock servers (lock_server.cc, lock_server_cache.cc)

    [Module Basic] is the first server, [Module Cache] the caching one that
    lock_smain.cc runs.  Handlers run with the server's mutex held; waiting on a
    condition variable, and the calls back to the clients that follow the locked
    part, are separate steps. *)

From Stdlib Require Import ZArith Lia Sorted.
From S2P Require Import Prelude.

(** lock_protocol::xxstatus *)
Definition lock_OK : Z := 0.
Definition lock_RETRY : Z := 1.
Definition lock_RPCERR : Z := 2.
Definition lock_NOENT : Z := 3.
Definition lock_IOERR : Z := 4.

(** ** class lock_server *)

Module Basic.

Inductive state := FREE | LOCKED.
#[export] Instance state_eq_dec : EqDecision state.
Proof. solve_decision. Defined.

Record lock_server := mk_ls { nacquire : Z; lock_pool : gmap Z state }.
Definition ls_new : lock_server := mk_ls 0 ∅.

Definition stat (ls : lock_server) (clt lid : Z) : Z * Z := (lock_OK, nacquire ls).

(** [acquire] from the locking of the mutex to its end, or [None] when the
    thread waits on the lock's condition variable; it then tries again. *)
Definition acquire (ls : lock_server) (clt lid : Z) : option (Z * lock_server) :=
  match lock_pool ls !! lid with
  | Some LOCKED => None
  | Some FREE => Some (lock_OK, mk_ls (nacquire ls) (<[lid := LOCKED]> (lock_pool ls)))
  | None => Some (lock_OK, mk_ls (nacquire ls) (<[lid := FREE]> (lock_pool ls)))
  end.

Definition release (ls : lock_server) (clt lid : Z) : Z * lock_server :=
  match lock_pool ls !! lid with
  | None => (lock_NOENT, ls)
  | Some _ => (lock_OK, mk_ls (nacquire ls) (<[lid := FREE]> (lock_pool ls)))
  end.

End Basic.

(** ** class lock_server_cache *)

Module Cache.

(** Clients are named by their "host:port" strings, ordered by their characters. *)
Abbreviation cid := (list byte).

Fixpoint str_lt (a b : cid) : bool :=
  match a, b with
  | _, [] => false
  | [], _ :: _ => true
  | x :: a, y :: b => (b2z x <? b2z y) || ((b2z x =? b2z y) && str_lt a b)
  end.

(** std::set<std::string> as the list of its elements in order. *)
Fixpoint set_insert (x : cid) (l : list cid) : list cid :=
  match l with
  | [] => [x]
  | y :: r => if bool_decide (x = y) then l else if str_lt x y then x :: l else y :: set_insert x r
  end.
Definition set_erase (x : cid) (l : list cid) : list cid := filter (fun y => y <> x) l.

Inductive state := FREE | LOCKED | REVOKING | RETRYING.
#[export] Instance state_eq_dec : EqDecision state.
Proof. solve_decision. Defined.

Record lock_t := mk_lock { holder : cid; retryer : cid; waiter : list cid; st : state }.
Definition lock_new : lock_t := mk_lock [] [] [] FREE.

Definition is_empty {A} (l : list A) : bool := match l with [] => true | _ => false end.

(** The switch of [acquire]: the answer, [need_revoke], and the lock. *)
Definition lock_acquire (lock : lock_t) (id : cid) : result (Z * bool * lock_t) :=
  match st lock with
  | FREE =>
      _ ← verify (is_empty (waiter lock));
      Ok (lock_OK, false, mk_lock id (retryer lock) (waiter lock) LOCKED)
  | LOCKED =>
      _ ← verify (is_empty (waiter lock));
      _ ← verify (negb (is_empty (holder lock) || is_empty id || bool_decide (holder lock = id)));
      Ok (lock_RETRY, true, mk_lock (holder lock) (retryer lock) (set_insert id (waiter lock)) REVOKING)
  | REVOKING =>
      _ ← verify (negb (is_empty (waiter lock)));
      _ ← verify (negb (is_empty (holder lock) || is_empty id || bool_decide (holder lock = id)));
      Ok (lock_RETRY, false, mk_lock (holder lock) (retryer lock) (set_insert id (waiter lock)) REVOKING)
  | RETRYING =>
      if bool_decide (retryer lock = id) then
        if negb (is_empty (waiter lock))
        then Ok (lock_OK, true, mk_lock id [] (waiter lock) REVOKING)
        else Ok (lock_OK, false, mk_lock id [] (waiter lock) LOCKED)
      else Ok (lock_RETRY, false, mk_lock (holder lock) (retryer lock) (set_insert id (waiter lock)) RETRYING)
  end.

(** The locked part of [release] on a known lock. *)
Definition lock_release (lock : lock_t) (id : cid) : result lock_t :=
  _ ← verify (bool_decide (st lock = REVOKING));
  _ ← verify (bool_decide (id = holder lock));
  r ← deref (head (waiter lock));
  Ok (mk_lock [] r (set_erase r (waiter lock)) RETRYING).

Record server := mk_server { nacquire : Z; lock_pool : gmap Z lock_t }.
Definition server_new : server := mk_server 0 ∅.

Definition acquire (sv : server) (lid : Z) (id : cid) : result (Z * bool * server) :=
  '(ret, need_revoke, lock) ← lock_acquire (default lock_new (lock_pool sv !! lid)) id;
  Ok (ret, need_revoke, mk_server (nacquire sv) (<[lid := lock]> (lock_pool sv))).

(** [release] to the unlocking of the mutex. *)
Definition release (sv : server) (lid : Z) (id : cid) : result (Z * server) :=
  match lock_pool sv !! lid with
  | None => Ok (lock_NOENT, sv)
  | Some lock =>
      lock ← lock_release lock id;
      Ok (lock_OK, mk_server (nacquire sv) (<[lid := lock]> (lock_pool sv)))
  end.

Definition stat (sv : server) (lid : Z) : Z * Z := (lock_OK, nacquire sv).

(** The calls made after the mutex is unlocked read the lock's fields again. *)
Definition revoke_target (sv : server) (lid : Z) : cid := holder (default lock_new (lock_pool sv !! lid)).
Definition retry_target (sv : server) (lid : Z) : cid := retryer (default lock_new (lock_pool sv !! lid)).

(** *** std::set operations *)

Lemma elem_of_set_insert x l y : y ∈ set_insert x l <-> y = x \/ y ∈ l.
Proof.
  induction l as [|z l IH]; cbn [set_insert]; [set_solver|].
  case_bool_decide as Hx; [subst; set_solver|]. destruct (str_lt x z); [set_solver|].
  rewrite !elem_of_cons, IH. tauto.
Qed.

Lemma elem_of_set_erase x l y : y ∈ set_erase x l <-> y ∈ l /\ y <> x.
Proof. unfold set_erase. rewrite list_elem_of_filter. tauto. Qed.

Lemma set_insert_nonempty x l : set_insert x l <> [].
Proof. destruct l as [|y l]; cbn; [done|]. case_bool_decide; [done|]. by destruct (str_lt x y). Qed.

Lemma is_empty_false {A} (l : list A) : is_empty l = false <-> l <> [].
Proof. by destruct l. Qed.
Lemma is_empty_true {A} (l : list A) : is_empty l = true <-> l = [].
Proof. by destruct l. Qed.

(** *** The invariant of a lock *)

Definition lock_inv (k : lock_t) : Prop :=
  [] ∉ waiter k /\
  match st k with
  | FREE => holder k = [] /\ retryer k = [] /\ waiter k = []
  | LOCKED => holder k <> [] /\ retryer k = [] /\ waiter k = []
  | REVOKING => holder k <> [] /\ retryer k = [] /\ waiter k <> [] /\ holder k ∉ waiter k
  | RETRYING => holder k = [] /\ retryer k <> [] /\ retryer k ∉ waiter k
  end.

(** The client that has been granted the lock and has not given it back. *)
Definition owner (k : lock_t) : option cid :=
  match st k with LOCKED | REVOKING => Some (holder k) | FREE | RETRYING => None end.

Lemma verify_ok b x : verify b = Ok x -> b = true.
Proof. by destruct b. Qed.

Lemma lock_acquire_spec k id ret rv k' :
  lock_inv k -> id <> [] -> lock_acquire k id = Ok (ret, rv, k') ->
  lock_inv k' /\
  (ret = lock_OK /\ owner k = None /\ owner k' = Some id \/
   ret = lock_RETRY /\ owner k' = owner k /\ id ∈ waiter k').
Proof.
  intros [Hw Hk] Hid. unfold lock_acquire, lock_inv, owner in *.
  destruct k as [h r w s]; cbn [holder retryer waiter st] in *.
  assert ([] ∉ set_insert id w) as Hw' by (rewrite elem_of_set_insert; naive_solver).
  assert (id ∈ set_insert id w) as Hin by (rewrite elem_of_set_insert; auto).
  destruct s.
  - intros (x & Hv%verify_ok & E)%bind_ok. injection E as <- <- <-. cbn. naive_solver.
  - intros (x & Hv%verify_ok & (y & Hv2%verify_ok & E)%bind_ok)%bind_ok. injection E as <- <- <-. cbn.
    rewrite negb_true_iff, !orb_false_iff, bool_decide_eq_false in Hv2. destruct Hv2 as [[_ _] Hne].
    destruct Hk as (Hh & -> & ->). cbn. split; [|right; set_solver].
    split_and!; [done..|]. set_solver.
  - intros (x & Hv%verify_ok & (y & Hv2%verify_ok & E)%bind_ok)%bind_ok. injection E as <- <- <-. cbn.
    rewrite negb_true_iff, !orb_false_iff, bool_decide_eq_false in Hv2. destruct Hv2 as [[_ _] Hne].
    destruct Hk as (Hh & -> & Hwe & Hhw). split; [|right; done].
    split_and!; [done..|apply set_insert_nonempty|]. rewrite elem_of_set_insert. naive_solver.
  - case_bool_decide as Hr.
    + subst r. destruct Hk as (-> & Hr & Hrw). destruct (is_empty w) eqn:Ew; cbn [negb]; intros [= <- <- <-]; cbn.
      * apply is_empty_true in Ew as ->. naive_solver.
      * apply is_empty_false in Ew. naive_solver.
    + intros [= <- <- <-]. cbn. destruct Hk as (-> & Hr' & Hrw). split; [|right; done].
      split_and!; [done..|]. rewrite elem_of_set_insert. naive_solver.
Qed.

Lemma lock_release_spec k id k' :
  lock_inv k -> lock_release k id = Ok k' ->
  lock_inv k' /\ owner k = Some id /\ owner k' = None /\ retryer k' ∈ waiter k.
Proof.
  intros [Hw Hk]. unfold lock_release.
  intros (x & Hs%verify_ok%bool_decide_eq_true & (y & Hh%verify_ok%bool_decide_eq_true &
    (r & Hr & E)%bind_ok)%bind_ok)%bind_ok.
  destruct (waiter k) as [|c w] eqn:Ew; [done|]. cbn in Hr. injection Hr as <-. injection E as <-.
  unfold lock_inv, owner. rewrite Hs in *. cbn [holder retryer waiter st]. subst id. split_and!.
  - rewrite elem_of_set_erase. naive_solver.
  - done.
  - intros ->. apply Hw. left.
  - rewrite elem_of_set_erase. naive_solver.
  - done.
  - done.
  - left.
Qed.

(** A named client that does not have the lock is answered, and so is the holder
    that gives back a lock others wait for. *)
Lemma lock_acquire_total k id : lock_inv k -> id <> [] -> owner k <> Some id ->
  exists r, lock_acquire k id = Ok r.
Proof.
  intros [_ Hk] Hid. destruct k as [h r w s]. unfold owner, lock_acquire.
  cbn [holder retryer waiter st] in *. intros Ho. destruct s.
  - destruct Hk as (_ & _ & ->). eexists. reflexivity.
  - destruct Hk as (Hh & _ & ->). rewrite (proj2 (is_empty_false h)), (proj2 (is_empty_false id)) by done.
    rewrite bool_decide_false by congruence. eexists. reflexivity.
  - destruct Hk as (Hh & _ & Hw & _). rewrite (proj2 (is_empty_false w)) by done.
    rewrite (proj2 (is_empty_false h)), (proj2 (is_empty_false id)) by done.
    rewrite bool_decide_false by congruence. eexists. reflexivity.
  - case_bool_decide; [destruct (negb _)|]; eexists; reflexivity.
Qed.

Lemma lock_release_total k id : lock_inv k -> st k = REVOKING -> holder k = id ->
  exists k', lock_release k id = Ok k'.
Proof.
  intros [_ Hinv] Hs Hh. rewrite Hs in Hinv. unfold lock_release. rewrite !bool_decide_true by congruence.
  destruct (waiter k) as [|c w]; [naive_solver|]. eexists. reflexivity.
Qed.

(** *** Runs of the server *)

Inductive event := EvAcquire (lid : Z) (id : cid) | EvRelease (lid : Z) (id : cid).

(** One request and its answer. *)
Definition serve (sv : server) (e : event) : result (Z * server) :=
  match e with
  | EvAcquire lid id => '(ret, _, sv) ← acquire sv lid id; Ok (ret, sv)
  | EvRelease lid id => release sv lid id
  end.
Fixpoint serve_all (sv : server) (es : list event) : result (list (event * Z) * server) :=
  match es with
  | [] => Ok ([], sv)
  | e :: es =>
      '(ret, sv) ← serve sv e;
      '(log, sv) ← serve_all sv es;
      Ok ((e, ret) :: log, sv)
  end.

(** Specification: a lock is owned by one client at a time; only a free lock is
    granted, only its owner can give it back. *)
Definition spec_step (own : gmap Z cid) (l : event * Z) : option (gmap Z cid) :=
  match l with
  | (EvAcquire lid id, ret) =>
      if ret =? lock_OK
      then match own !! lid with None => Some (<[lid := id]> own) | Some _ => None end
      else Some own
  | (EvRelease lid id, ret) =>
      if ret =? lock_OK
      then if bool_decide (own !! lid = Some id) then Some (delete lid own) else None
      else Some own
  end.
Fixpoint spec_run (own : gmap Z cid) (log : list (event * Z)) : option (gmap Z cid) :=
  match log with [] => Some own | l :: log => own ← spec_step own l; spec_run own log end.

Definition owners (sv : server) : gmap Z cid := omap owner (lock_pool sv).
Definition server_inv (sv : server) : Prop := forall lid k, lock_pool sv !! lid = Some k -> lock_inv k.
Definition event_ok (e : event) : Prop := match e with EvAcquire _ id | EvRelease _ id => id <> [] end.

Lemma lock_new_inv : lock_inv lock_new.
Proof. split; [set_solver|done]. Qed.

Lemma server_inv_lookup sv lid : server_inv sv -> lock_inv (default lock_new (lock_pool sv !! lid)).
Proof. intros Hi. destruct (lock_pool sv !! lid) eqn:E; [by eapply Hi|apply lock_new_inv]. Qed.

Lemma server_inv_insert sv lid k : server_inv sv -> lock_inv k ->
  server_inv (mk_server (nacquire sv) (<[lid := k]> (lock_pool sv))).
Proof.
  intros Hi Hk lid' k'. cbn. rewrite lookup_insert. destruct (decide (lid = lid')); [by intros [= <-]|apply Hi].
Qed.

Lemma owner_lookup sv lid : owners sv !! lid = owner (default lock_new (lock_pool sv !! lid)).
Proof. unfold owners. rewrite lookup_omap. by destruct (lock_pool sv !! lid). Qed.

Lemma owners_insert sv lid k :
  owners (mk_server (nacquire sv) (<[lid := k]> (lock_pool sv))) =
  match owner k with Some id => <[lid := id]> (owners sv) | None => delete lid (owners sv) end.
Proof.
  unfold owners. cbn. destruct (owner k) as [id|] eqn:E.
  - by rewrite (omap_insert_Some _ _ _ _ id).
  - by rewrite omap_insert_None.
Qed.

Lemma request_refines sv e ret sv' : server_inv sv -> event_ok e -> serve sv e = Ok (ret, sv') ->
  server_inv sv' /\ spec_step (owners sv) (e, ret) = Some (owners sv').
Proof.
  intros Hi He. destruct e as [lid id|lid id]; cbn [serve spec_step].
  - intros ([[r rv] sv1] & Ea & E)%bind_ok. injection E as -> ->. unfold acquire in Ea.
    apply bind_ok in Ea as ([[r' rv'] k'] & Ek & E). injection E as -> -> <-.
    pose proof (server_inv_lookup sv lid Hi) as Hk.
    destruct (lock_acquire_spec _ _ _ _ _ Hk He Ek) as [Hk' Hcase].
    split; [by apply server_inv_insert|]. rewrite owners_insert, owner_lookup.
    destruct Hcase as [(-> & -> & ->)|(-> & Ho & _)]; cbn [Z.eqb lock_OK lock_RETRY]; [done|].
    rewrite Ho, <- owner_lookup. f_equal. destruct (owners sv !! lid) as [o|] eqn:E.
    + symmetry. by apply insert_id.
    + symmetry. by apply delete_id.
  - unfold release. destruct (lock_pool sv !! lid) as [k|] eqn:Ek; [|by intros [= <- <-]].
    intros (k' & Er & E)%bind_ok. injection E as <- <-.
    destruct (lock_release_spec k id k' (Hi lid k Ek) Er) as (Hk' & Ho & Ho' & _).
    split; [by apply server_inv_insert|]. rewrite owners_insert, owner_lookup, Ek. cbn [default from_option Datatypes.id].
    rewrite Ho, Ho'. cbn [Z.eqb lock_OK]. by rewrite bool_decide_true.
Qed.

Lemma requests_refine es : forall sv log sv', server_inv sv -> Forall event_ok es ->
  serve_all sv es = Ok (log, sv') -> server_inv sv' /\ spec_run (owners sv) log = Some (owners sv').
Proof.
  induction es as [|e es IH]; intros sv log sv' Hi He; cbn [serve_all].
  { intros [= <- <-]. done. }
  apply Forall_cons in He as [He Hes]. intros ([ret sv1] & Es & E)%bind_ok.
  apply bind_ok in E as ([log1 sv2] & El & E). injection E as <- <-.
  destruct (request_refines _ _ _ _ Hi He Es) as [Hi1 Hs]. cbn [spec_run]. rewrite Hs. cbn [mbind option_bind].
  by apply IH.
Qed.

End Cache.
