(* ===== verification/Handle.v ===== *)
(** * Handle: the cache of RPC clients (src/handle.cc, src/handle.h)

    The global [handle_mgr] with its map from addresses to [hinfo] objects, the
    heap of these objects and of the [rpcc] objects they own, and the methods of
    [handle] and [handle_mgr].  Objects are known by their addresses; an access to
    an object that is not there is undefined.  [safebind] is in two parts, because
    it holds no lock of the manager while it binds.  The step relation
    [handle_step] lets any number of handles be made, used and destroyed by
    concurrent threads.  [call_client] of the caching lock server is here as well, the
    one user of handles. *)

From Stdlib Require Import ZArith Lia.
From S2P Require Import Prelude LockServer.

Record hinfo := mk_hinfo { hi_cl : option Z; hi_refcnt : Z; hi_del : bool; hi_m : list byte }.

(** [hmap], and the objects that have been made with [new] and not been deleted. *)
Record handle_mgr := mk_mgr { hmap : gmap (list byte) Z; hinfos : gmap Z hinfo; rpccs : gset Z }.
Definition mgr_new : handle_mgr := mk_mgr ∅ ∅ ∅.

Definition set_hinfo (g : handle_mgr) (p : Z) (h : hinfo) : handle_mgr :=
  mk_mgr (hmap g) (<[p := h]> (hinfos g)) (rpccs g).
Definition set_rpccs (g : handle_mgr) (s : gset Z) : handle_mgr := mk_mgr (hmap g) (hinfos g) s.

(** [get_handle]; [p] is the address [new hinfo] returns. *)
Definition get_handle (g : handle_mgr) (m : list byte) (p : Z) : result (option Z * handle_mgr) :=
  match hmap g !! m with
  | None => Ok (Some p, mk_mgr (<[m := p]> (hmap g)) (<[p := mk_hinfo None 1 false m]> (hinfos g)) (rpccs g))
  | Some q =>
      h ← deref (hinfos g !! q);
      if hi_del h then Ok (None, g)
      else
        n ← chk_int (hi_refcnt h + 1);
        Ok (Some q, set_hinfo g q (mk_hinfo (hi_cl h) n (hi_del h) (hi_m h)))
  end.

(** [delete c], after [c->cancel()]. *)
Definition free_rpcc (g : handle_mgr) (cl : option Z) : result handle_mgr :=
  match cl with
  | None => Ok g
  | Some c => if decide (c ∈ rpccs g) then Ok (set_rpccs g (rpccs g ∖ {[c]})) else Undef
  end.

Definition delete_handle_wo (g : handle_mgr) (m : list byte) : result handle_mgr :=
  match hmap g !! m with
  | None => Ok g
  | Some p =>
      h ← deref (hinfos g !! p);
      if hi_refcnt h =? 0 then
        g ← free_rpcc g (hi_cl h);
        Ok (mk_mgr (delete m (hmap g)) (delete p (hinfos g)) (rpccs g))
      else Ok (set_hinfo g p (mk_hinfo (hi_cl h) (hi_refcnt h) true (hi_m h)))
  end.
Definition delete_handle (g : handle_mgr) (m : list byte) : result handle_mgr := delete_handle_wo g m.

Definition done_handle (g : handle_mgr) (p : Z) : result handle_mgr :=
  h ← deref (hinfos g !! p);
  n ← chk_int (hi_refcnt h - 1);
  let g := set_hinfo g p (mk_hinfo (hi_cl h) n (hi_del h) (hi_m h)) in
  if (n =? 0) && hi_del h then delete_handle_wo g (hi_m h) else Ok g.

(** ** class handle: the pointer [h] it holds *)

Definition handle_new (g : handle_mgr) (m : list byte) (p : Z) : result (option Z * handle_mgr) := get_handle g m p.
Definition handle_destroy (g : handle_mgr) (h : option Z) : result handle_mgr :=
  match h with Some p => done_handle g p | None => Ok g end.

(** [safebind] up to the call of [bind]: the value it returns at once, or the
    [hinfo] for which it has made the [rpcc] at [c]. *)
Definition safebind_begin (g : handle_mgr) (h : option Z) (c : Z) : result ((option Z + Z) * handle_mgr) :=
  match h with
  | None => Ok (inl None, g)
  | Some p =>
      hi ← deref (hinfos g !! p);
      if hi_del hi then Ok (inl None, g)
      else match hi_cl hi with
           | Some cl => Ok (inl (Some cl), g)
           | None => Ok (inr p, set_rpccs g (rpccs g ∪ {[c]}))
           end
  end.

(** From the return of [bind], with [ret]. *)
Definition safebind_end (g : handle_mgr) (p c ret : Z) : result (option Z * handle_mgr) :=
  h ← deref (hinfos g !! p);
  if ret <? 0 then
    g ← free_rpcc g (Some c);
    Ok (hi_cl h, set_hinfo g p (mk_hinfo (hi_cl h) (hi_refcnt h) true (hi_m h)))
  else Ok (Some c, set_hinfo g p (mk_hinfo (Some c) (hi_refcnt h) (hi_del h) (hi_m h))).

(** The whole method, with nothing in between; [ret] is what [bind] returns. *)
Definition safebind (g : handle_mgr) (h : option Z) (c ret : Z) : result (option Z * handle_mgr) :=
  '(r, g) ← safebind_begin g h c;
  match r with inl cl => Ok (cl, g) | inr p => safebind_end g p c ret end.

(** [lock_server_cache::call_client]; [call cl] is what the [call] method of the
    [rpcc] at [cl] returns. *)
Definition call_client (g : handle_mgr) (cid : list byte) (func lid : Z) (p c ret : Z) (call : Z -> Z -> Z -> Z)
    : result (Z * handle_mgr) :=
  '(h, g) ← handle_new g cid p;
  '(bound, g) ← safebind g h c ret;
  '(r, g) ← match bound with
            | Some _ =>
                '(bound, g) ← safebind g h c ret;
                cl ← deref bound;
                Ok (call cl func lid, g)
            | None => Ok (lock_RPCERR, g)
            end;
  g ← handle_destroy g h;
  Ok (r, g).

(** ** Concurrent use *)

(** The handles in use, by names of their own, and those inside [bind]: the
    [hinfo] whose [cl_mutex] they hold and the [rpcc] they bind. *)
Record hsys := mk_hsys { mg : handle_mgr; handles : gmap Z (option Z); binding : gmap Z (Z * Z) }.
Definition hsys_new : hsys := mk_hsys mgr_new ∅ ∅.

Definition unlocked (y : hsys) (h : option Z) : Prop :=
  forall x p c, binding y !! x = Some (p, c) -> h <> Some p.

Inductive handle_step : hsys -> hsys -> Prop :=
| step_new y x m p h g :
    handles y !! x = None -> hinfos (mg y) !! p = None -> handle_new (mg y) m p = Ok (h, g) ->
    handle_step y (mk_hsys g (<[x := h]> (handles y)) (binding y))
| step_bind y x h c p g :
    handles y !! x = Some h -> unlocked y h -> c ∉ rpccs (mg y) ->
    safebind_begin (mg y) h c = Ok (inr p, g) ->
    handle_step y (mk_hsys g (handles y) (<[x := (p, c)]> (binding y)))
| step_bound y x p c ret r g :
    binding y !! x = Some (p, c) -> safebind_end (mg y) p c ret = Ok (r, g) ->
    handle_step y (mk_hsys g (handles y) (delete x (binding y)))
| step_destroy y x h g :
    handles y !! x = Some h -> binding y !! x = None -> handle_destroy (mg y) h = Ok g ->
    handle_step y (mk_hsys g (delete x (handles y)) (binding y))
| step_delete y m g :
    delete_handle (mg y) m = Ok g -> handle_step y (mk_hsys g (handles y) (binding y)).
