(* ===== verification/HandleFacts.v ===== *)
(** * HandleFacts: handles never touch a freed object

    The invariant [hsys_inv] of concurrent handles: every handle points to a live
    [hinfo], whose count is the number of handles on it, and every [rpcc] is owned
    by exactly one [hinfo] or one bind in progress.  Each operation succeeds and
    keeps it.  [call_client_spec] is the behaviour of a call when no other handle
    is in use. *)

From Stdlib Require Import ZArith Lia.
From stdpp Require Import fin_maps.
From S2P Require Import Prelude LockServer Handle.

(** ** Counting the handles on a [hinfo] *)

Definition refs (hs : gmap Z (option Z)) (p : Z) : nat := size (filter (fun kv => kv.2 = Some p) hs).
Definition points (h : option Z) (p : Z) : nat := if decide (h = Some p) then 1 else 0.

Lemma refs_insert hs x h p : hs !! x = None -> refs (<[x := h]> hs) p = (points h p + refs hs p)%nat.
Proof.
  intros Hx. unfold refs, points. destruct (decide (h = Some p)) as [->|Hne].
  - rewrite map_filter_insert_True by done. rewrite map_size_insert_None; [done|].
    apply map_lookup_filter_None_2. by left.
  - rewrite map_filter_insert_False by done. by rewrite delete_id.
Qed.

Lemma refs_delete hs x h p : hs !! x = Some h -> refs hs p = (points h p + refs (delete x hs) p)%nat.
Proof.
  intros Hx. rewrite <- (insert_delete_id hs x h) at 1 by done. apply refs_insert, lookup_delete_eq.
Qed.

Lemma refs_pos hs x p : hs !! x = Some (Some p) -> (0 < refs hs p)%nat.
Proof. intros Hx. rewrite (refs_delete hs x (Some p) p Hx). unfold points. rewrite decide_True by done. lia. Qed.

Lemma refs_zero hs p : (forall x, hs !! x <> Some (Some p)) -> refs hs p = 0%nat.
Proof.
  intros Hx. unfold refs. rewrite map_size_empty_iff. apply map_empty. intros x.
  apply map_lookup_filter_None_2. destruct (hs !! x) as [h|] eqn:E; [right|by left].
  intros ? [= <-]. cbn. intros ->. by apply (Hx x).
Qed.

Lemma refs_le hs p : (refs hs p <= size hs)%nat.
Proof. apply map_size_filter. Qed.

(** ** The invariant *)

(** Who owns the [rpcc] at an address: a [hinfo], or a handle that is binding it. *)
Inductive owner := InInfo (p : Z) | InBind (x : Z).
Definition owns (y : hsys) (o : owner) (c : Z) : Prop :=
  match o with
  | InInfo p => exists h, hinfos (mg y) !! p = Some h /\ hi_cl h = Some c
  | InBind x => exists p, binding y !! x = Some (p, c)
  end.

Definition info_ok (y : hsys) (p : Z) (h : hinfo) : Prop :=
  hmap (mg y) !! hi_m h = Some p /\ hi_refcnt h = Z.of_nat (refs (handles y) p) /\
  hi_refcnt h <= INT_MAX /\ (hi_del h = true -> 0 < hi_refcnt h).

Record hsys_inv (y : hsys) : Prop := {
  hv_live : forall x p, handles y !! x = Some (Some p) -> is_Some (hinfos (mg y) !! p);
  hv_map : forall m p, hmap (mg y) !! m = Some p -> exists h, hinfos (mg y) !! p = Some h /\ hi_m h = m;
  hv_info : forall p h, hinfos (mg y) !! p = Some h -> info_ok y p h;
  hv_bind : forall x p c, binding y !! x = Some (p, c) -> handles y !! x = Some (Some p);
  hv_lock : forall x p c h, binding y !! x = Some (p, c) -> hinfos (mg y) !! p = Some h -> hi_cl h = None;
  hv_mutex : forall x x' p c c', binding y !! x = Some (p, c) -> binding y !! x' = Some (p, c') -> x = x';
  hv_owned : forall c, c ∈ rpccs (mg y) <-> exists o, owns y o c;
  hv_once : forall o o' c, owns y o c -> owns y o' c -> o = o';
}.

Lemma hsys_new_inv : hsys_inv hsys_new.
Proof.
  split; try (intros; cbn in *; simplify_map_eq; done).
  - intros c. split; [set_solver|]. intros [[p|x] Ho]; cbn in Ho; destruct Ho as (? & ? & _) || destruct Ho; simplify_map_eq.
  - intros [p|x] o' c Ho _; cbn in Ho; destruct Ho as (? & ? & _) || destruct Ho; simplify_map_eq.
Qed.

Lemma owns_info y o c : owns y o c -> match o with InInfo p => is_Some (hinfos (mg y) !! p) | InBind x => is_Some (binding y !! x) end.
Proof. destruct o; cbn; intros (? & ?); naive_solver. Qed.

(** Handles may come and go, and a count and a deletion mark may change. *)
Lemma inv_update y p h n d hs :
  hsys_inv y -> hinfos (mg y) !! p = Some h ->
  (forall x q, hs !! x = Some (Some q) -> is_Some (hinfos (mg y) !! q)) ->
  (forall x q c, binding y !! x = Some (q, c) -> hs !! x = Some (Some q)) ->
  n = Z.of_nat (refs hs p) -> n <= INT_MAX -> (d = true -> 0 < n) ->
  (forall q, q <> p -> refs hs q = refs (handles y) q) ->
  hsys_inv (mk_hsys (set_hinfo (mg y) p (mk_hinfo (hi_cl h) n d (hi_m h))) hs (binding y)).
Proof.
  intros [Hl Hm Hi Hb Hk Hx Ho H1] Hp Hhs Hbs Hn Hmax Hd Hq.
  set (y' := mk_hsys _ _ _).
  assert (forall o c, owns y' o c <-> owns y o c) as Eo.
  { intros [q|x] c; [|done]. cbn. destruct (decide (q = p)) as [->|Hne]; [|by rewrite lookup_insert_ne].
    rewrite lookup_insert_eq, Hp. naive_solver. }
  split; cbn [y' mg handles binding set_hinfo hmap hinfos rpccs].
  - intros x q Hxq. destruct (decide (q = p)) as [->|]; [rewrite lookup_insert_eq; eauto|].
    rewrite lookup_insert_ne by done. eauto.
  - intros m q Hmq. destruct (Hm m q Hmq) as (h' & Hh' & <-). destruct (decide (q = p)) as [->|].
    + rewrite lookup_insert_eq. exists (mk_hinfo (hi_cl h) n d (hi_m h)). split; [done|]. cbn. congruence.
    + rewrite lookup_insert_ne by done. eauto.
  - intros q h' Hh'. destruct (decide (q = p)) as [->|Hne].
    + rewrite lookup_insert_eq in Hh'. injection Hh' as <-. split; [apply (Hi p h Hp)|]. done.
    + rewrite lookup_insert_ne in Hh' by done. destruct (Hi q h' Hh') as (? & ? & ?).
      split; [done|]. cbn [handles]. by rewrite Hq.
  - done.
  - intros x q c h' Hxq Hh'. destruct (decide (q = p)) as [->|Hne].
    + rewrite lookup_insert_eq in Hh'. injection Hh' as <-. by apply (Hk x p c h).
    + rewrite lookup_insert_ne in Hh' by done. by eapply Hk.
  - done.
  - intros c. rewrite Ho. by setoid_rewrite Eo.
  - intros o o' c. rewrite !Eo. apply H1.
Qed.

(** The last handle is gone: the [hinfo] and its [rpcc] are freed. *)
Lemma inv_erase y p h hs :
  hsys_inv y -> hinfos (mg y) !! p = Some h ->
  (forall x q, hs !! x = Some (Some q) -> is_Some (hinfos (mg y) !! q)) ->
  (forall x q c, binding y !! x = Some (q, c) -> hs !! x = Some (Some q)) ->
  refs hs p = 0%nat -> (forall q, q <> p -> refs hs q = refs (handles y) q) ->
  exists g, free_rpcc (mg y) (hi_cl h) = Ok g /\ hmap g = hmap (mg y) /\ hinfos g = hinfos (mg y) /\
  hsys_inv (mk_hsys (mk_mgr (delete (hi_m h) (hmap g)) (delete p (hinfos g)) (rpccs g)) hs (binding y)).
Proof.
  intros [Hl Hm Hi Hb Hk Hx Ho H1] Hp Hhs Hbs H0 Hq.
  destruct (Hi p h Hp) as (Hmp & _ & _).
  assert (exists s, free_rpcc (mg y) (hi_cl h) = Ok (set_rpccs (mg y) s) /\
    forall c, c ∈ s <-> c ∈ rpccs (mg y) /\ hi_cl h <> Some c) as (s & Hs & Es).
  { destruct (hi_cl h) as [c|] eqn:Ec; cbn.
    - rewrite decide_True by (apply Ho; exists (InInfo p); cbn; eauto).
      eexists. split; [done|]. intros c'. rewrite elem_of_difference, elem_of_singleton. naive_solver.
    - exists (rpccs (mg y)). split; [by destruct (mg y)|]. intros. naive_solver. }
  rewrite Hs. eexists. split; [done|]. split; [done|]. split; [done|].
  cbn [hmap hinfos rpccs set_rpccs].
  set (y' := mk_hsys _ _ _).
  assert (forall o c, owns y' o c <-> owns y o c /\ o <> InInfo p) as Eo.
  { intros [q|x] c; [|naive_solver]. cbn. destruct (decide (q = p)) as [->|Hne].
    - rewrite lookup_delete_eq. naive_solver.
    - rewrite lookup_delete_ne by done. naive_solver. }
  assert (forall x, hs !! x <> Some (Some p)) as Hnp.
  { intros x Hxp. apply refs_pos in Hxp. lia. }
  split; cbn [y' mg handles binding hmap hinfos rpccs].
  - intros x q Hxq. rewrite lookup_delete_ne; [eauto|]. intros ->. by apply (Hnp x).
  - intros m q Hmq. destruct (decide (m = hi_m h)) as [->|Hne]; [by rewrite lookup_delete_eq in Hmq|].
    rewrite lookup_delete_ne in Hmq by done. destruct (Hm m q Hmq) as (h' & Hh' & E).
    rewrite lookup_delete_ne; [eauto|]. intros <-. congruence.
  - intros q h' Hh'. destruct (decide (q = p)) as [->|Hne]; [by rewrite lookup_delete_eq in Hh'|].
    rewrite lookup_delete_ne in Hh' by done. destruct (Hi q h' Hh') as (Hmq & Hr & ?).
    split; [|cbn [handles]; by rewrite Hq]. cbn. rewrite lookup_delete_ne; [done|]. intros E. congruence.
  - done.
  - intros x q c h' Hxq Hh'. destruct (decide (q = p)) as [->|Hne]; [by rewrite lookup_delete_eq in Hh'|].
    rewrite lookup_delete_ne in Hh' by done. by eapply Hk.
  - done.
  - intros c. rewrite Es, Ho. setoid_rewrite Eo. split.
    + intros [[o Hoc] Hne]. exists o. split; [done|]. intros ->. cbn in Hoc. naive_solver.
    + intros (o & Hoc & Hne). split; [eauto|]. intros E. apply Hne, (H1 o (InInfo p) c); [done|]. cbn. eauto.
  - intros o o' c [? _]%Eo [? _]%Eo. by eapply H1.
Qed.

(** A handle that points to nothing comes or goes. *)
Lemma inv_none y hs :
  hsys_inv y ->
  (forall x q, hs !! x = Some (Some q) -> is_Some (hinfos (mg y) !! q)) ->
  (forall x q c, binding y !! x = Some (q, c) -> hs !! x = Some (Some q)) ->
  (forall q, refs hs q = refs (handles y) q) -> hsys_inv (mk_hsys (mg y) hs (binding y)).
Proof.
  intros [Hl Hm Hi Hb Hk Hx Ho H1] Hhs Hbs Hq. split; try done.
  intros p h Hp. destruct (Hi p h Hp) as (? & ? & ?). split; [done|]. cbn [handles]. by rewrite Hq.
Qed.

(** A first handle for an address: a new [hinfo] at [p]. *)
Lemma inv_fresh y x m p :
  hsys_inv y -> handles y !! x = None -> hinfos (mg y) !! p = None -> hmap (mg y) !! m = None ->
  (forall x' q c, binding y !! x' = Some (q, c) -> <[x := Some p]> (handles y) !! x' = Some (Some q)) ->
  hsys_inv (mk_hsys (mk_mgr (<[m := p]> (hmap (mg y))) (<[p := mk_hinfo None 1 false m]> (hinfos (mg y))) (rpccs (mg y)))
    (<[x := Some p]> (handles y)) (binding y)).
Proof.
  intros Hv Hx Hp Em Hbs. destruct Hv as [Hl Hm Hi Hb Hk Hmx Ho H1].
  assert (forall x', handles y !! x' <> Some (Some p)) as Hnp.
  { intros x' Hx'. destruct (Hl x' p Hx'). congruence. }
  set (y' := mk_hsys _ _ _).
  assert (forall o c, owns y' o c <-> owns y o c) as Eo.
  { intros [q|x'] c; [|done]. cbn. destruct (decide (q = p)) as [->|Hne]; [|by rewrite lookup_insert_ne].
    rewrite lookup_insert_eq, Hp. naive_solver. }
  split; cbn [y' mg handles binding hmap hinfos rpccs].
  + intros x' q Hx'. destruct (decide (q = p)) as [->|]; [rewrite lookup_insert_eq; eauto|].
    rewrite lookup_insert_ne by done. destruct (decide (x' = x)) as [->|].
    * rewrite lookup_insert_eq in Hx'. congruence.
    * rewrite lookup_insert_ne in Hx' by done. eauto.
  + intros m' q Hq. destruct (decide (m' = m)) as [->|].
    * rewrite lookup_insert_eq in Hq. injection Hq as <-. rewrite lookup_insert_eq. eexists. by split.
    * rewrite lookup_insert_ne in Hq by done. destruct (Hm m' q Hq) as (h' & Hh' & <-).
      rewrite lookup_insert_ne by congruence. eauto.
  + intros q h' Hh'. destruct (decide (q = p)) as [->|].
    * rewrite lookup_insert_eq in Hh'. injection Hh' as <-. split; [apply lookup_insert_eq|]. cbn.
      rewrite refs_insert, (refs_zero _ p) by done. unfold points. by rewrite decide_True.
    * rewrite lookup_insert_ne in Hh' by done. destruct (Hi q h' Hh') as (Hmq & Hr & ?).
      split; [|cbn [y' handles]; rewrite refs_insert by done; unfold points; by rewrite decide_False by congruence].
      cbn. rewrite lookup_insert_ne; [done|]. intros E. congruence.
  + done.
  + intros x' q c h' Hxq Hh'. rewrite lookup_insert_ne in Hh'; [by eapply Hk|].
    intros <-. by eapply (Hnp x'), Hb.
  + done.
  + intros c. rewrite Ho. by setoid_rewrite Eo.
  + intros o o' c. rewrite !Eo. apply H1.
Qed.

(** ** Each operation: it succeeds, and keeps the invariant *)

Lemma new_handle_inv y x m p h g :
  hsys_inv y -> handles y !! x = None -> hinfos (mg y) !! p = None -> handle_new (mg y) m p = Ok (h, g) ->
  hsys_inv (mk_hsys g (<[x := h]> (handles y)) (binding y)).
Proof.
  intros Hv Hx Hp E. unfold handle_new, get_handle in E.
  assert (forall x' q c, binding y !! x' = Some (q, c) -> <[x := h]> (handles y) !! x' = Some (Some q)) as Hbs.
  { intros x' q c Hb. rewrite lookup_insert_ne; [by eapply hv_bind|]. intros <-.
    apply (hv_bind y Hv) in Hb. congruence. }
  destruct (hmap (mg y) !! m) as [q|] eqn:Em.
  - destruct (hv_map y Hv m q Em) as (hi & Hq & <-). rewrite Hq in E. cbn in E.
    destruct (hi_del hi) eqn:Ed.
    + injection E as <- <-. apply inv_none; [done| |done|].
      * intros x' p' Hx'. destruct (decide (x' = x)) as [->|]; [by rewrite lookup_insert_eq in Hx'|].
        rewrite lookup_insert_ne in Hx' by done. by eapply hv_live.
      * intros p'. by rewrite refs_insert.
    + unfold chk_int in E. destruct (_ || _) eqn:Emax; [done|]. cbn in E. injection E as <- <-.
      destruct (hv_info y Hv q hi Hq) as (_ & Hr & _).
      apply inv_update; try done; try lia.
      * intros x' p' Hx'. destruct (decide (x' = x)) as [->|].
        -- rewrite lookup_insert_eq in Hx'. injection Hx' as <-. eauto.
        -- rewrite lookup_insert_ne in Hx' by done. by eapply hv_live.
      * rewrite refs_insert by done. unfold points. rewrite decide_True by done. lia.
      * intros p' Hne. rewrite refs_insert by done. unfold points. by rewrite decide_False by congruence.
  - injection E as <- <-. by apply inv_fresh.
Qed.

Lemma new_handle_total y m p :
  hsys_inv y -> Z.of_nat (size (handles y)) < INT_MAX -> exists h g, handle_new (mg y) m p = Ok (h, g).
Proof.
  intros Hv Hsz. unfold handle_new, get_handle. destruct (hmap (mg y) !! m) as [q|] eqn:Em; [|eauto].
  destruct (hv_map y Hv m q Em) as (hi & Hq & _). rewrite Hq. cbn. destruct (hi_del hi); [eauto|].
  destruct (hv_info y Hv q hi Hq) as (_ & Hr & _). pose proof (refs_le (handles y) q).
  rewrite chk_int_ok by lia. cbn. eauto.
Qed.

Lemma delete_handle_ok y m : hsys_inv y ->
  exists g, delete_handle (mg y) m = Ok g /\ hsys_inv (mk_hsys g (handles y) (binding y)).
Proof.
  intros Hv. unfold delete_handle, delete_handle_wo.
  destruct (hmap (mg y) !! m) as [p|] eqn:Em; [|exists (mg y); split; [done|by destruct y]].
  destruct (hv_map y Hv m p Em) as (h & Hp & <-). rewrite Hp. cbn [deref]. rewrite bind_Ok.
  destruct (hv_info y Hv p h Hp) as (_ & Hr & Hmax & _).
  destruct (Z.eqb_spec (hi_refcnt h) 0) as [E0|E0].
  - destruct (inv_erase y p h (handles y)) as (g & -> & _ & _ & Hg); [done|done|apply Hv|apply Hv|lia|done|].
    rewrite bind_Ok. eauto.
  - eexists. split; [done|]. apply inv_update; try done; try apply Hv. lia.
Qed.

Lemma destroy_handle_ok y x h :
  hsys_inv y -> handles y !! x = Some h -> binding y !! x = None ->
  exists g, handle_destroy (mg y) h = Ok g /\ hsys_inv (mk_hsys g (delete x (handles y)) (binding y)).
Proof.
  intros Hv Hx Hb.
  assert (forall x' q c, binding y !! x' = Some (q, c) -> delete x (handles y) !! x' = Some (Some q)) as Hbs.
  { intros x' q c Hxq. rewrite lookup_delete_ne by congruence. by eapply hv_bind. }
  assert (forall x' q, delete x (handles y) !! x' = Some (Some q) -> is_Some (hinfos (mg y) !! q)) as Hhs.
  { intros x' q [_ Hxq]%lookup_delete_Some. by eapply hv_live. }
  assert (forall q, h <> Some q -> refs (delete x (handles y)) q = refs (handles y) q) as Hq.
  { intros q Hne. rewrite (refs_delete _ x h q Hx). unfold points. by rewrite decide_False. }
  destruct h as [p|]; cbn [handle_destroy].
  2:{ exists (mg y). split; [done|]. apply inv_none; [done..|]. intros q. by apply Hq. }
  destruct (hv_live y Hv x p Hx) as [h Hp]. unfold done_handle. rewrite Hp. cbn [deref]. rewrite bind_Ok.
  destruct (hv_info y Hv p h Hp) as (Hmp & Hr & Hmax & _).
  pose proof (refs_delete _ x _ p Hx) as Hrd. unfold points in Hrd. rewrite decide_True in Hrd by done.
  rewrite chk_int_ok, bind_Ok by lia.
  assert (forall q, q <> p -> refs (delete x (handles y)) q = refs (handles y) q) as Hq'.
  { intros q Hne. apply Hq. congruence. }
  destruct (_ && _) eqn:E.
  - apply andb_true_iff in E as [E0 Ed]. apply Z.eqb_eq in E0.
    destruct (inv_erase y p h (delete x (handles y))) as (g & Hg & Hgm & Hgi & Hgv); [done..|lia|done|].
    unfold delete_handle_wo. cbn [set_hinfo hmap hinfos]. rewrite Hmp, lookup_insert_eq. cbn [deref]. rewrite bind_Ok.
    cbn [hi_refcnt hi_cl]. rewrite E0. cbn [Z.eqb].
    rewrite Hgm, Hgi in Hgv. revert Hg. destruct (hi_cl h) as [c|]; cbn.
    + destruct (decide (c ∈ rpccs (mg y))); [|done]. intros [= <-]. cbn.
      rewrite delete_insert_eq. eauto.
    + intros [= <-]. cbn. rewrite delete_insert_eq. eauto.
  - eexists. split; [done|]. apply inv_update; try done; try lia.
    intros Ed. rewrite Ed, andb_true_r in E. lia.
Qed.

Lemma bind_begin_inv y x h c p g :
  hsys_inv y -> handles y !! x = Some h -> unlocked y h -> c ∉ rpccs (mg y) ->
  safebind_begin (mg y) h c = Ok (inr p, g) -> hsys_inv (mk_hsys g (handles y) (<[x := (p, c)]> (binding y))).
Proof.
  intros Hv Hx Hu Hc E. destruct h as [q|]; [|done]. cbn in E.
  destruct (hinfos (mg y) !! q) as [hi|] eqn:Hq; [|done]. cbn in E.
  destruct (hi_del hi); [done|]. destruct (hi_cl hi) eqn:Ecl; [done|]. injection E as <- <-.
  assert (binding y !! x = None) as Hbx.
  { destruct (binding y !! x) as [[p' c']|] eqn:E; [|done]. apply (hv_bind y Hv) in E as E'.
    destruct (Hu x p' c' E). congruence. }
  destruct Hv as [Hl Hm Hi Hb Hk Hmx Ho H1].
  set (y' := mk_hsys _ _ _).
  assert (forall o c', owns y' o c' <-> owns y o c' \/ o = InBind x /\ c' = c) as Eo.
  { intros [p|x'] c'; cbn; [naive_solver|]. destruct (decide (x' = x)) as [->|Hne].
    - rewrite lookup_insert_eq, Hbx. naive_solver.
    - rewrite lookup_insert_ne by done. naive_solver. }
  assert (forall o, owns y o c -> False) as Hnc by (intros o Hoc; apply Hc, Ho; eauto).
  split; cbn [y' mg handles binding hmap hinfos rpccs set_rpccs]; try done.
  - intros x' p c' [[<- [= <- <-]]|[_ H]]%lookup_insert_Some; eauto.
  - intros x' p c' h [[<- [= <- <-]]|[_ H]]%lookup_insert_Some Hh; [congruence|eauto].
  - intros x1 x2 p c1 c2 E1%lookup_insert_Some E2%lookup_insert_Some.
    destruct E1 as [[? E1]|[? E1]], E2 as [[? E2]|[? E2]]; simplify_eq; [done| | |eauto].
    + by destruct (Hu _ _ _ E2).
    + by destruct (Hu _ _ _ E1).
  - intros c'. rewrite elem_of_union, elem_of_singleton, Ho. setoid_rewrite Eo. naive_solver.
  - intros o o' c' [?|[-> ->]]%Eo [?|[-> E]]%Eo; [by eapply H1|subst; by destruct (Hnc o)|by destruct (Hnc o')|done].
Qed.

(** The end of a bind: the [rpcc] goes to the [hinfo], or is freed. *)
Lemma inv_bound y x p c h d (ok : bool) :
  hsys_inv y -> binding y !! x = Some (p, c) -> hinfos (mg y) !! p = Some h ->
  hsys_inv (mk_hsys (mk_mgr (hmap (mg y)) (<[p := mk_hinfo (if ok then Some c else None) (hi_refcnt h) d (hi_m h)]> (hinfos (mg y)))
      (if ok then rpccs (mg y) else rpccs (mg y) ∖ {[c]})) (handles y) (delete x (binding y))).
Proof.
  intros Hv Hx Hp. pose proof (hv_bind y Hv x p c Hx) as Hxp.
  pose proof (hv_lock y Hv x p c h Hx Hp) as Ecl. destruct (hv_info y Hv p h Hp) as (Hmp & Hr & Hmax & _).
  pose proof (refs_pos _ x p Hxp) as Hpos.
  destruct Hv as [Hl Hm Hi Hb Hk Hmx Ho H1].
  assert (owns y (InBind x) c) as Hox by (cbn; eauto).
  set (y' := mk_hsys _ _ _).
  assert (forall o c', owns y' o c' <-> owns y o c' /\ o <> InBind x \/ ok = true /\ o = InInfo p /\ c' = c) as Eo.
  { intros [q|x'] c'; cbn.
    - destruct (decide (q = p)) as [->|Hne].
      + rewrite lookup_insert_eq, Hp. destruct ok; naive_solver.
      + rewrite lookup_insert_ne by done. naive_solver.
    - destruct (decide (x' = x)) as [->|Hne].
      + rewrite lookup_delete_eq. naive_solver.
      + rewrite lookup_delete_ne by done. naive_solver. }
  split; cbn [y' mg handles binding hmap hinfos rpccs].
  - intros x' q Hxq. destruct (decide (q = p)) as [->|]; [rewrite lookup_insert_eq; eauto|].
    rewrite lookup_insert_ne by done. eauto.
  - intros m q Hmq. destruct (Hm m q Hmq) as (h' & Hh' & <-). destruct (decide (q = p)) as [->|].
    + rewrite lookup_insert_eq. eexists. split; [done|]. cbn. congruence.
    + rewrite lookup_insert_ne by done. eauto.
  - intros q h' [[<- <-]|[_ Hh']]%lookup_insert_Some; [|by apply Hi].
    split; [done|]. split; [done|]. split; [done|]. intros _. cbn. lia.
  - intros x' q c' [_ Hxq]%lookup_delete_Some. eauto.
  - intros x' q c' h' [Hne Hxq]%lookup_delete_Some [[<- <-]|[_ Hh']]%lookup_insert_Some; [|by eapply Hk].
    by destruct Hne; eapply Hmx.
  - intros x1 x2 q c1 c2 [_ E1]%lookup_delete_Some [_ E2]%lookup_delete_Some. by eapply Hmx.
  - intros c'. setoid_rewrite Eo. destruct (decide (c' = c)) as [->|Hne].
    + destruct ok.
      * split; [|intros _; apply Ho; eauto]. intros _. exists (InInfo p). auto.
      * split; [set_solver|]. intros (o & [[Ho' Hne]|[? _]]); [|done]. by destruct Hne; eapply H1.
    + assert (c' ∈ (if ok then rpccs (mg y) else rpccs (mg y) ∖ {[c]}) <-> c' ∈ rpccs (mg y)) as ->
        by (destruct ok; set_solver).
      rewrite Ho. split; [|naive_solver]. intros [o Ho']. exists o. left. split; [done|]. intros ->.
      cbn in Ho'. destruct Ho'. congruence.
  - assert (forall o, owns y o c -> o <> InBind x -> False) as Hnc by (intros o Ho' Hne; by apply Hne, (H1 o (InBind x) c)).
    intros o o' c' [[? ?]|(? & -> & ->)]%Eo [[? ?]|(? & -> & E)]%Eo; subst;
      [by eapply H1|by destruct (Hnc o)|by destruct (Hnc o')|done].
Qed.

Lemma bind_end_ok y x p c ret : hsys_inv y -> binding y !! x = Some (p, c) ->
  exists g, safebind_end (mg y) p c ret = Ok (if ret <? 0 then None else Some c, g) /\
    hsys_inv (mk_hsys g (handles y) (delete x (binding y))).
Proof.
  intros Hv Hx. pose proof (hv_bind y Hv x p c Hx) as Hxp. destruct (hv_live y Hv x p Hxp) as [h Hp].
  pose proof (hv_lock y Hv x p c h Hx Hp) as Ecl.
  unfold safebind_end. rewrite Hp. cbn [deref]. rewrite bind_Ok. destruct (ret <? 0).
  - cbn [free_rpcc]. rewrite decide_True by (apply hv_owned; [done|]; exists (InBind x); cbn; eauto).
    rewrite bind_Ok, Ecl. eexists. split; [done|]. apply (inv_bound y x p c h true false Hv Hx Hp).
  - eexists. split; [done|]. apply (inv_bound y x p c h (hi_del h) true Hv Hx Hp).
Qed.

Lemma handle_step_inv y y' : handle_step y y' -> hsys_inv y -> hsys_inv y'.
Proof.
  intros Hs Hv. destruct Hs as [y x m p h g Hx Hp E|y x h c p g Hx Hu Hc E|y x p c ret r g Hx E|y x h g Hx Hb E|y m g E].
  - by eapply new_handle_inv.
  - by eapply bind_begin_inv.
  - destruct (bind_end_ok y x p c ret Hv Hx) as (g' & E' & Hg'). congruence.
  - destruct (destroy_handle_ok y x h Hv Hx Hb) as (g' & E' & Hg'). congruence.
  - destruct (delete_handle_ok y m Hv) as (g' & E' & Hg'). congruence.
Qed.

Lemma hsys_reachable_inv y : rtc handle_step hsys_new y -> hsys_inv y.
Proof.
  apply rtc_invariant; [apply handle_step_inv|apply hsys_new_inv].
Qed.

(** ** One caller at a time *)

(** A manager with no handle in use, and the client it keeps for an address. *)
Definition idle (g : handle_mgr) : Prop := hsys_inv (mk_hsys g ∅ ∅).
Definition bound_to (g : handle_mgr) (m : list byte) : option Z :=
  p ← hmap g !! m; h ← hinfos g !! p; hi_cl h.

(** The manager while one handle, for the address [cid], is in use. *)
Record in_use (g0 : handle_mgr) (cid : list byte) (q : Z) (h : hinfo) (g : handle_mgr) : Prop := {
  us_inv : hsys_inv (mk_hsys g {[0 := Some q]} ∅);
  us_info : hinfos g !! q = Some h;
  us_m : hi_m h = cid;
  us_other : forall m, m <> cid -> bound_to g m = bound_to g0 m;
}.

Lemma in_use_map g0 cid q h g : in_use g0 cid q h g -> hmap g !! cid = Some q /\ hi_refcnt h = 1.
Proof.
  intros [Hv Hq <- _]. destruct (hv_info _ Hv q h Hq) as (? & Hr & _). split; [done|]. rewrite Hr.
  cbn [handles]. rewrite <- (insert_empty (M := gmap Z) 0 (Some q)), refs_insert by done.
  unfold points. by rewrite decide_True.
Qed.

Lemma bound_to_set g0 cid q h g h' m : in_use g0 cid q h g -> m <> cid ->
  bound_to (set_hinfo g q h') m = bound_to g0 m.
Proof.
  intros Hu Hne. rewrite <- (us_other _ _ _ _ _ Hu m Hne). unfold bound_to. cbn.
  destruct (hmap g !! m) as [p|] eqn:Em; [cbn|done].
  destruct (hv_map _ (us_inv _ _ _ _ _ Hu) m p Em) as (h1 & Hp & <-).
  rewrite lookup_insert_ne; [done|]. intros <-. destruct Hu as [_ Hq <- _]. cbn in Hp. congruence.
Qed.

Lemma handle_new_idle g cid p : idle g -> hinfos g !! p = None ->
  exists q h g1, handle_new g cid p = Ok (Some q, g1) /\ in_use g cid q h g1 /\ hi_del h = false /\
    hi_cl h = bound_to g cid /\ rpccs g1 = rpccs g.
Proof.
  intros Hv Hp. unfold handle_new.
  destruct (new_handle_total (mk_hsys g ∅ ∅) cid p Hv) as (o & g1 & E); [cbn; rewrite map_size_empty; done|].
  pose proof (new_handle_inv (mk_hsys g ∅ ∅) 0 cid p o g1 Hv (lookup_empty _) Hp E) as Hv1. cbn in Hv1, E.
  revert E. unfold handle_new, get_handle, bound_to. destruct (hmap g !! cid) as [q|] eqn:Em; cbn.
  - destruct (hv_map _ Hv cid q Em) as (h & Hq & Hm). cbn in Hq. rewrite Hq. cbn.
    destruct (hv_info _ Hv q h Hq) as (_ & Hr & _ & Hd).
    rewrite (refs_zero _ q) in Hr by (intros; cbn; by rewrite lookup_empty).
    destruct (hi_del h) eqn:Ed; [specialize (Hd eq_refl); lia|]. rewrite Hr. cbn. intros [= <- <-].
    eexists q, _, _. split; [done|].
    split; [split; [done|apply lookup_insert_eq|done|]|done]. intros m Hne. unfold bound_to. cbn.
    destruct (hmap g !! m) as [p'|] eqn:Em'; [cbn|done].
    destruct (hv_map _ Hv m p' Em') as (h' & Hp' & <-). cbn in Hp'.
    rewrite lookup_insert_ne; [done|]. intros <-. congruence.
  - intros [= <- <-]. eexists p, _, _. split; [done|].
    split; [split; [done|apply lookup_insert_eq|done|]|done]. intros m Hne. unfold bound_to. cbn.
    rewrite lookup_insert_ne by done. destruct (hmap g !! m) as [p'|] eqn:Em'; [cbn|done].
    destruct (hv_map _ Hv m p' Em') as (h' & Hp' & <-). cbn in Hp'.
    rewrite lookup_insert_ne; [done|]. intros <-. congruence.
Qed.

Lemma handle_destroy_in_use g0 cid q h g : in_use g0 cid q h g ->
  exists g', handle_destroy g (Some q) = Ok g' /\ idle g' /\
    bound_to g' cid = (if hi_del h then None else hi_cl h) /\
    forall m, m <> cid -> bound_to g' m = bound_to g0 m.
Proof.
  intros Hu. destruct (in_use_map _ _ _ _ _ Hu) as [Hm Hr].
  destruct (destroy_handle_ok _ 0 (Some q) (us_inv _ _ _ _ _ Hu)) as (g' & E & Hg');
    [apply lookup_singleton_eq|done|].
  cbn [handles binding mg] in E, Hg'. rewrite delete_singleton_eq in Hg'.
  exists g'. split; [done|]. split; [done|]. revert E. cbn. unfold done_handle.
  rewrite (us_info _ _ _ _ _ Hu). cbn [deref]. rewrite bind_Ok, Hr.
  change (chk_int (1 - 1)) with (Ok 0). cbn. destruct (hi_del h) eqn:Ed.
  - unfold delete_handle_wo. cbn. rewrite (us_m _ _ _ _ _ Hu), Hm. cbn. rewrite lookup_insert_eq. cbn.
    intros (g1 & Hg1 & [= <-])%bind_ok.
    assert (hmap g1 = hmap g /\ hinfos g1 = <[q := mk_hinfo (hi_cl h) 0 true cid]> (hinfos g)) as [Eg1 Eg2].
    { revert Hg1. destruct (hi_cl h); cbn; [case_decide; [|done]|]; by intros [= <-]. }
    split; [unfold bound_to; cbn; by rewrite Eg1, lookup_delete_eq|]. intros m Hne.
    rewrite <- (us_other _ _ _ _ _ Hu m Hne). unfold bound_to. cbn.
    rewrite Eg1, Eg2, lookup_delete_ne, delete_insert_eq by done.
    destruct (hmap g !! m) as [p'|] eqn:Em'; [cbn|done].
    destruct (hv_map _ (us_inv _ _ _ _ _ Hu) m p' Em') as (h' & Hp' & <-).
    rewrite lookup_delete_ne; [done|]. intros <-. destruct Hu as [_ Hq <- _]. cbn in Hp'. congruence.
  - intros [= <-]. split; [|intros m Hne; by eapply bound_to_set].
    unfold bound_to. cbn. rewrite Hm. cbn. by rewrite lookup_insert_eq.
Qed.

Lemma safebind_in_use g0 cid q h g c ret : in_use g0 cid q h g -> hi_del h = false -> c ∉ rpccs g ->
  exists h' g', safebind g (Some q) c ret = Ok (if hi_cl h is Some c0 then Some c0 else if ret <? 0 then None else Some c, g') /\
    in_use g0 cid q h' g' /\
    (if hi_cl h is Some c0 then h' = h
     else if ret <? 0 then hi_del h' = true else hi_del h' = false /\ hi_cl h' = Some c).
Proof.
  intros Hu Hd Hc. unfold safebind, safebind_begin. rewrite (us_info _ _ _ _ _ Hu). cbn. rewrite Hd.
  destruct (hi_cl h) as [c0|] eqn:Ecl; cbn; [eauto|].
  assert (safebind_begin g (Some q) c = Ok (inr q, set_rpccs g (rpccs g ∪ {[c]}))) as Eb.
  { unfold safebind_begin. rewrite (us_info _ _ _ _ _ Hu). cbn. by rewrite Hd, Ecl. }
  pose proof (bind_begin_inv _ 0 (Some q) c q _ (us_inv _ _ _ _ _ Hu) (lookup_singleton_eq _ _)
    ltac:(intros ? ? ? ?; done) Hc Eb) as Hb. cbn in Hb. rewrite insert_empty in Hb.
  destruct (bind_end_ok _ 0 q c ret Hb (lookup_singleton_eq _ _)) as (g' & E & Hg').
  cbn [handles binding mg] in E, Hg'. rewrite delete_singleton_eq in Hg'. rewrite E.
  assert (exists h' s, g' = set_hinfo (set_rpccs g s) q h' /\ hi_m h' = cid /\
    if ret <? 0 then hi_del h' = true else hi_del h' = false /\ hi_cl h' = Some c) as (h' & s & -> & Hm & Hh').
  { revert E. unfold safebind_end. cbn. rewrite (us_info _ _ _ _ _ Hu). cbn. destruct (ret <? 0).
    - rewrite decide_True by set_solver. cbn. rewrite Ecl. intros [= <-]. eexists _, _. split; [done|]. cbn. by destruct Hu.
    - intros [= <-]. eexists _, _. split; [done|]. cbn. by destruct Hu. }
  eexists h', _. split; [done|]. split; [|done].
  split; [done|apply lookup_insert_eq|done|]. intros m Hne.
  rewrite <- (bound_to_set g0 cid q h g h' m Hu Hne). done.
Qed.

(** [call_client]: the client kept for the address is used, and made first when
    there is none. *)
Lemma call_client_spec g cid func lid p c ret call :
  idle g -> hinfos g !! p = None -> c ∉ rpccs g ->
  let bound := if bound_to g cid is Some c0 then Some c0 else if ret <? 0 then None else Some c in
  exists g', call_client g cid func lid p c ret call =
      Ok (if bound is Some cl then call cl func lid else lock_RPCERR, g') /\
    idle g' /\ bound_to g' cid = bound /\ forall m, m <> cid -> bound_to g' m = bound_to g m.
Proof.
  intros Hv Hp Hc. cbv zeta. unfold call_client.
  destruct (handle_new_idle g cid p Hv Hp) as (q & h & g1 & -> & Hu & Hd & Hcl & Hr). rewrite bind_Ok. cbv beta iota.
  destruct (safebind_in_use g cid q h g1 c ret Hu Hd) as (h' & g2 & -> & Hu2 & Hh'); [by rewrite Hr|].
  rewrite bind_Ok. cbv beta iota. rewrite <- Hcl.
  assert (forall c1, hi_del h' = false -> hi_cl h' = Some c1 -> safebind g2 (Some q) c ret = Ok (Some c1, g2)) as Hs.
  { intros c1 Hd' Hc'. unfold safebind, safebind_begin. rewrite (us_info _ _ _ _ _ Hu2). cbn. by rewrite Hd', Hc'. }
  destruct (handle_destroy_in_use _ _ _ _ _ Hu2) as (g' & Ed & Hi & Hb & Ho).
  destruct (hi_cl h) as [c0|] eqn:Ecl; [subst h'|destruct (ret <? 0)].
  - rewrite (Hs c0) by done. rewrite !bind_Ok. cbn [deref]. rewrite !bind_Ok, Ed, bind_Ok.
    rewrite Hd, Ecl in Hb. eauto.
  - rewrite bind_Ok, Ed, bind_Ok. rewrite Hh' in Hb. eauto.
  - destruct Hh' as [Hd' Hc']. rewrite (Hs c) by done. rewrite !bind_Ok. cbn [deref]. rewrite !bind_Ok, Ed, bind_Ok.
    rewrite Hd', Hc' in Hb. eauto.
Qed.
