(* ===== verification/LockClient.v ===== *)
(** * LockClient: the caching lock client (lock_client_cache.cc)

    The client's threads share the record of a lock, a queue of condition
    variables and one mutex.  Each definition is the part of a method between two
    points at which the mutex is free: where a thread waits on its condition
    variable, where it calls the server, or where it returns.  The stubs of
    [class lock_client] are at the end. *)

From Stdlib Require Import ZArith Lia.
From S2P Require Import Prelude Marshall RpcServer RpcStub LockServer.

Module Client.

Inductive lstate := NONE | ACQUIRING | FREE | RELEASING | LOCKED.
#[export] Instance lstate_eq_dec : EqDecision lstate.
Proof. solve_decision. Defined.

(** [struct lock_t]; a condition variable is named by the thread that made it. *)
Record lock_t := mk_lock {
  revoke_later : bool; retry_earlier : bool; state : lstate; queue : list Z;
}.
Definition lock_new : lock_t := mk_lock false false NONE [].

(** The three places where [acquire] waits: with the queue empty before it, with
    threads before it, and in [acquire_server] for a retry. *)
Inductive point := AtEmpty | AtQueue | AtRetry.

(** Where a thread is; a thread that is nowhere is outside the methods. *)
Inductive pc :=
| Waiting (p : point) (signalled : bool)
| Calling                      (* the call of acquire, not yet served *)
| Answered (ret : Z)           (* served, its answer on the way *)
| Holding                      (* acquire has returned the lock *)
| Releasing                    (* the call of release, not yet served *)
| Released (ret : Z)
| Leaked.                      (* acquire has returned 0 with the mutex locked *)

#[export] Instance point_eq_dec : EqDecision point.
Proof. solve_decision. Defined.
#[export] Instance pc_eq_dec : EqDecision pc.
Proof. solve_decision. Defined.

(** One client's share of one lock; [rv] is the call of release that
    [revoke_handler] makes, with its answer. *)
Record client := mk_client { lk : option lock_t; pcs : gmap Z pc; rv : option (option Z) }.
Definition client_new : client := mk_client None ∅ None.

Definition lock_of (k : client) : lock_t := default lock_new (lk k).
Definition mutex_free (k : client) : Prop := map_Forall (fun _ p => p <> Leaked) (pcs k).

Definition set_state (l : lock_t) (s : lstate) : lock_t := mk_lock (revoke_later l) (retry_earlier l) s (queue l).
Definition set_queue (l : lock_t) (q : list Z) : lock_t := mk_lock (revoke_later l) (retry_earlier l) (state l) q.
Definition set_retry (l : lock_t) (b : bool) : lock_t := mk_lock (revoke_later l) b (state l) (queue l).
Definition set_revoke (l : lock_t) (b : bool) : lock_t := mk_lock b (retry_earlier l) (state l) (queue l).
(** Thread [t] goes on to [p], leaving the lock as [l]. *)
Definition goto (k : client) (l : lock_t) (t : Z) (p : pc) : client :=
  mk_client (Some l) (<[t := p]> (pcs k)) (rv k).

(** [cond_t::signal]: nothing happens when the thread does not wait. *)
Definition signal (t : Z) (m : gmap Z pc) : gmap Z pc :=
  match m !! t with Some (Waiting p _) => <[t := Waiting p true]> m | _ => m end.

(** ** acquire *)

(** The test of the loop of [acquire_server]. *)
Definition acquire_loop (k : client) (l : lock_t) (t : Z) : client :=
  if bool_decide (state l = ACQUIRING) then goto k l t Calling else goto k l t Leaked.
Definition acquire_server (k : client) (l : lock_t) (t : Z) : client :=
  acquire_loop k (set_state l ACQUIRING) t.

(** From the call of [acquire]. *)
Definition acquire (k : client) (t : Z) : client :=
  let l := lock_of k in
  let l' := set_queue l (queue l ++ [t]) in
  match queue l with
  | [] =>
      match state l with
      | NONE => acquire_server k l' t
      | FREE => goto k (set_state l' LOCKED) t Holding
      | _ => goto k l' t (Waiting AtEmpty false)
      end
  | _ :: _ => goto k l' t (Waiting AtQueue false)
  end.

(** From the end of a wait. *)
Definition acquire_woken (k : client) (t : Z) (p : point) : client :=
  let l := lock_of k in
  match p with
  | AtEmpty => acquire_server k l t
  | AtQueue =>
      match state l with
      | NONE => acquire_server k l t
      | FREE => goto k (set_state l LOCKED) t Holding
      | LOCKED => goto k l t Holding
      | _ => goto k l t Leaked
      end
  | AtRetry => acquire_loop k (set_retry l false) t
  end.

(** From the return of the call to the server. *)
Definition acquire_answer (k : client) (t ret : Z) : client :=
  let l := lock_of k in
  if ret =? lock_OK then goto k (set_state l LOCKED) t Holding
  else if ret =? lock_RETRY then
    if negb (retry_earlier l) then goto k l t (Waiting AtRetry false)
    else acquire_loop k (set_retry l false) t
  else acquire_loop k l t.

(** ** release *)

(** From "dequeue waiter" on. *)
Definition release_finish (k : client) (l : lock_t) (t : Z) : result client :=
  match queue l with
  | [] => Undef
  | _ :: q =>
      let m := delete t (pcs k) in
      match q with
      | [] => Ok (mk_client (Some (set_revoke (set_queue l q) false)) m (rv k))
      | next :: _ =>
          let s := if negb (revoke_later l) then LOCKED else state l in
          Ok (mk_client (Some (set_revoke (set_queue (set_state l s) q) false)) (signal next m) (rv k))
      end
  end.

(** From the call of [release]: the value it returns at once, if any. *)
Definition release (k : client) (t : Z) : result (option Z * client) :=
  match lk k with
  | None => Ok (Some lock_NOENT, mk_client None (delete t (pcs k)) (rv k))
  | Some l =>
      if revoke_later l then Ok (None, goto k (set_state l RELEASING) t Releasing)
      else k' ← release_finish k (set_state l FREE) t; Ok (Some 0, k')
  end.

(** From the return of the call to the server. *)
Definition release_answer (k : client) (t : Z) : result client :=
  release_finish k (set_state (lock_of k) NONE) t.

(** ** The handlers of the server's calls *)

Definition revoke_handler (k : client) : client :=
  let l := lock_of k in
  if bool_decide (state l = FREE)
  then mk_client (Some (set_state l RELEASING)) (pcs k) (Some None)
  else mk_client (Some (set_revoke l true)) (pcs k) (rv k).

(** From the return of its call to the server. *)
Definition revoke_answer (k : client) : client :=
  let l := set_state (lock_of k) NONE in
  mk_client (Some l) (match queue l with [] => pcs k | t :: _ => signal t (pcs k) end) None.

Definition retry_handler (k : client) : result client :=
  let l := set_retry (lock_of k) true in
  match queue l with
  | [] => Undef
  | t :: _ => Ok (mk_client (Some l) (signal t (pcs k)) (rv k))
  end.

End Client.

(** ** class lock_client

    The stubs over a transport [call1]; [id] is [cl->id()], an [unsigned int]. *)
Section stubs.
Context `{HeapMem} {St : Type} (call1 : Z -> marshall -> St -> result (Z * unmarshall * St)) (id : Z).

(** lock_protocol::rpc_numbers *)
Definition lock_acquire_proc : Z := 0x7001.
Definition lock_release_proc : Z := 0x7002.
Definition lock_stat_proc : Z := 0x7003.

(** [r] is a local variable without an initialiser; all three return it. *)
Definition lock_call (proc lid : Z) (s : St) : result (Z * St) :=
  '(ret, r, s) ← rcall2 call1 int_c uint_c ull_c proc id lid stack_int s;
  _ ← verify (ret =? lock_OK);
  Ok (r, s).
Definition lock_client_stat : Z -> St -> result (Z * St) := lock_call lock_stat_proc.
Definition lock_client_acquire : Z -> St -> result (Z * St) := lock_call lock_acquire_proc.
Definition lock_client_release : Z -> St -> result (Z * St) := lock_call lock_release_proc.

End stubs.
