(* ===== verification/LockRemote.v ===== *)
(** * LockRemote: the caching lock server behind the RPC library

    The methods that lock_smain.cc registers, on a state that also records the
    calls the server makes to its clients, and the calls the caching client makes
    (src/lock_client_cache.cc).  Over a working connection such a call does what
    the server's operation does, which is how [LockSystem] uses it. *)

From Stdlib Require Import ZArith Lia.
From S2P Require Import Prelude Marshall MarshallFacts RpcServer RpcServerFacts RpcClient.
From S2P Require Import RpcStub RpcLink LockServer LockClient.

(** rlock_protocol::rpc_numbers *)
Definition rlock_revoke : Z := 0x8001.
Definition rlock_retry : Z := 0x8002.

(** The server, and the calls it has made: procedure, client and lock. *)
Record lhost := mk_lhost { lh_sv : Cache.server; lh_calls : list (Z * list byte * Z) }.

Section smain.
(** What a call to a client leaves in its [int &]. *)
Context `{HeapMem} (answer : Z * list byte * Z -> Z -> Z).

Definition meth_stat (lid r : Z) (h : lhost) : result (Z * Z * lhost) :=
  let '(ret, n) := Cache.stat (lh_sv h) lid in Ok (ret, n, h).

(** The revoke call gets a variable of the method's own, not [r]. *)
Definition meth_acquire (lid : Z) (id : list byte) (r : Z) (h : lhost) : result (Z * Z * lhost) :=
  '(ret, need_revoke, sv) ← Cache.acquire (lh_sv h) lid id;
  let calls := if need_revoke : bool then [(rlock_revoke, Cache.revoke_target sv lid, lid)] else [] in
  Ok (ret, r, mk_lhost sv (lh_calls h ++ calls)).

Definition meth_release (lid : Z) (id : list byte) (r : Z) (h : lhost) : result (Z * Z * lhost) :=
  '(ret, sv) ← Cache.release (lh_sv h) lid id;
  if ret =? lock_NOENT then Ok (ret, r, mk_lhost sv (lh_calls h))
  else
    let call := (rlock_retry, Cache.retry_target sv lid, lid) in
    Ok (ret, answer call r, mk_lhost sv (lh_calls h ++ [call])).

Definition h_stat : handler lhost := reg_h1 int_c ull_c meth_stat.
Definition h_release : handler lhost := reg_h2 int_c ull_c string_c meth_release.
Definition h_acquire : handler lhost := reg_h2 int_c ull_c string_c meth_acquire.

Definition lock_main (nonce count : Z) : result (rpcs lhost) :=
  s ← rpcs_new nonce count;
  s ← reg1 s lock_stat_proc h_stat;
  s ← reg1 s lock_release_proc h_release;
  reg1 s lock_acquire_proc h_acquire.

(** The calls of [acquire_server], [release] and [revoke_handler]; [r] is a local
    variable without an initialiser and is not looked at. *)
Definition cache_call {T} (call1 : Z -> marshall -> T -> result (Z * unmarshall * T))
    (proc lid : Z) (id : list byte) (t : T) : result (Z * T) :=
  '(ret, _, t) ← rcall2 call1 int_c ull_c string_c proc lid id stack_int t; Ok (ret, t).

(** ** Facts *)

Record lock_registered (s : rpcs lhost) : Prop := {
  lr_stat : s_procs s !! lock_stat_proc = Some h_stat;
  lr_release : s_procs s !! lock_release_proc = Some h_release;
  lr_acquire : s_procs s !! lock_acquire_proc = Some h_acquire;
}.

Lemma lock_main_registered nonce count :
  exists s, lock_main nonce count = Ok s /\ lock_registered s /\ s_nonce s = u32 nonce /\ s_window s = ∅ /\
    s_procs s !! rpc_bind = Some (reg_h1 int_c int_c (rpcbind (s_nonce s))).
Proof.
  unfold lock_main, rpcs_new.
  destruct (reg1_ok (mk_rpcs (St := lhost) (u32 nonce) ∅ ∅ ∅ count count ∅ true) rpc_bind
    (reg_h1 int_c int_c (rpcbind (u32 nonce)))) as (s0 & -> & P0 & N0 & W0); [done|done|]. run_ok.
  destruct (reg1_ok s0 lock_stat_proc h_stat) as (s1 & -> & P1 & N1 & W1); [done|by rewrite P0|]. run_ok.
  destruct (reg1_ok s1 lock_release_proc h_release) as (s2 & -> & P2 & N2 & W2); [done|by rewrite P1, P0|]. run_ok.
  destruct (reg1_ok s2 lock_acquire_proc h_acquire) as (s3 & -> & P3 & N3 & W3); [done|by rewrite P2, P1, P0|].
  exists s3. split; [done|]. rewrite N3, N2, N1, N0, W3, W2, W1, W0.
  split; [|split_and!; [done..|]].
  - split; rewrite P3, P2, P1; simplify_map_eq; done.
  - rewrite P3, P2, P1, P0. simplify_map_eq. done.
Qed.

Section calls.
Context (compare : Z -> Z -> Z) (conn : Z).

Lemma fits_call lid (id : list byte) : Z.of_nat (length id) <= 2 ^ 20 -> fits (be8 lid ++ enc_string id).
Proof. intros Hl. unfold fits, MAX_PDU, enc_string. rewrite !length_app. cbn. lia. Qed.

(** A call of the caching client over a connection to its server. *)
Lemma cache_call_spec (l : link lhost) proc (meth : Z -> list byte -> Z -> lhost -> result (Z * Z * lhost)) lid id ret r app' :
  link_ok l -> c_xid (k_cl l) < 2 ^ 31 - 2 -> proc <> rpc_bind -> 0 <= proc < 2 ^ 31 ->
  s_procs (k_srv l) !! proc = Some (reg_h2 int_c ull_c string_c meth) ->
  0 <= lid < 2 ^ 64 -> Z.of_nat (length id) <= 2 ^ 20 ->
  meth lid id stack_int (k_app l) = Ok (ret, r, app') -> 0 <= ret < 2 ^ 31 -> - 2 ^ 31 <= r < 2 ^ 31 ->
  exists l', cache_call (direct_call compare conn) proc lid id l = Ok (ret, l') /\ link_ok l' /\
    k_app l' = app' /\ s_procs (k_srv l') = s_procs (k_srv l) /\ c_xid (k_cl l') = c_xid (k_cl l) + 1.
Proof.
  intros Hl Hx Hp1 Hp2 Hp Hlid Hid Hm Hret Hr. unfold cache_call.
  destruct (rcall2_spec compare conn int_c ull_c string_c l proc meth lid id stack_int ret r app')
    as (l' & -> & Hl' & Ha & Hs & Hx'); try done.
  - unfold MAX_PDU. lia.
  - by apply fits_call.
  - rewrite bind_Ok. by exists l'.
Qed.

(** The status a lock operation returns. *)
Lemma acquire_status sv lid id ret nr sv' : Cache.acquire sv lid id = Ok (ret, nr, sv') -> ret = lock_OK \/ ret = lock_RETRY.
Proof.
  unfold Cache.acquire. intros ([[r n] k] & E & E')%bind_ok. injection E' as -> -> _. revert E.
  unfold Cache.lock_acquire. destruct (Cache.st _).
  - intros (? & _ & [= <- _ _])%bind_ok. auto.
  - intros (? & _ & (? & _ & [= <- _ _])%bind_ok)%bind_ok. auto.
  - intros (? & _ & (? & _ & [= <- _ _])%bind_ok)%bind_ok. auto.
  - repeat case_match; intros [= <- _ _]; auto.
Qed.

Lemma release_status sv lid id ret sv' : Cache.release sv lid id = Ok (ret, sv') -> ret = lock_OK \/ ret = lock_NOENT.
Proof.
  unfold Cache.release. destruct (Cache.lock_pool sv !! lid); [|intros [= <- <-]; auto].
  intros (k & _ & [= <- <-])%bind_ok. auto.
Qed.

End calls.
End smain.
