(* ===== verification/LockCallbacks.v ===== *)
(** * LockCallbacks: a caching lock client behind the RPC library

    A caching client is a server as well: its constructor (src/lock_client_cache.cc)
    binds to the lock server and registers [revoke_handler] and [retry_handler] with
    an endpoint of its own, which the lock server calls.  The state of that endpoint
    is the client's table of locks and its connection to the lock server, over which
    [revoke_handler] gives a lock back. *)

From Stdlib Require Import ZArith Lia.
From S2P Require Import Prelude Marshall MarshallFacts RpcServer RpcServerFacts Sockaddr RpcClient.
From S2P Require Import RpcStub RpcLink LockServer LockClient LockRemote.
Import Client.

(** rlock_protocol::xxstatus *)
Definition rlock_OK : Z := 0.
Definition rlock_RPCERR : Z := 1.

Record chost := mk_chost { ch_id : list byte; ch_pool : gmap Z client; ch_up : link lhost }.

(** [lock_pool[lid]], which makes the lock when it is not there. *)
Definition pool_at (h : chost) (lid : Z) : client := default client_new (ch_pool h !! lid).
Definition set_pool (h : chost) (lid : Z) (k : client) (up : link lhost) : chost :=
  mk_chost (ch_id h) (<[lid := k]> (ch_pool h)) up.

Section callbacks.
Context `{HeapMem} (compare : Z -> Z -> Z) (conn : Z).

(** [revoke_handler] with its call to the lock server. *)
Definition meth_revoke (lid r : Z) (h : chost) : result (Z * Z * chost) :=
  let k := pool_at h lid in
  if bool_decide (state (lock_of k) = FREE) then
    let k := revoke_handler k in
    '(ret, up) ← cache_call (direct_call compare conn) lock_release_proc lid (ch_id h) (ch_up h);
    Ok (ret, r, set_pool h lid (revoke_answer k) up)
  else Ok (rlock_OK, r, set_pool h lid (revoke_handler k) (ch_up h)).

Definition meth_retry (lid r : Z) (h : chost) : result (Z * Z * chost) :=
  k ← retry_handler (pool_at h lid);
  Ok (rlock_OK, r, set_pool h lid k (ch_up h)).

Definition h_revoke : handler chost := reg_h1 int_c ull_c meth_revoke.
Definition h_retry : handler chost := reg_h1 int_c ull_c meth_retry.

Section resolver.
Context (inet_addr : list byte -> Z) (gethostbyname : list byte -> option (Z * Z)).

(** [lock_client::lock_client]: the server [s] is the one at the address. *)
Definition lock_client_new (dst : list byte) (s : rpcs lhost) (host : lhost) (cnonce lossy : Z) : result (link lhost) :=
  _ ← make_sockaddr inet_addr gethostbyname dst;
  '(_, l) ← bind compare conn (mk_link (rpcc_new true cnonce lossy) s host);
  Ok l.

(** [rnd] is what [rand()] returns, [nonce] what [random()] does. *)
Definition lock_client_cache_new (xdst : list byte) (s : rpcs lhost) (host : lhost) (cnonce lossy rnd nonce : Z)
    : result (rpcs chost * chost) :=
  up ← lock_client_new xdst s host cnonce lossy;
  rlsrpc ← rpcs_new nonce 0;
  rlsrpc ← reg1 rlsrpc rlock_revoke h_revoke;
  rlsrpc ← reg1 rlsrpc rlock_retry h_retry;
  Ok (rlsrpc, mk_chost (lock_client_id rnd) ∅ up).

End resolver.

(** [lock_client_cache::~lock_client_cache] *)
Definition lock_client_cache_destroy (h : chost) : chost := mk_chost (ch_id h) ∅ (ch_up h).

(** The call in [call_client]; [r] is the caller's variable. *)
Definition rlock_call {T} (call1 : Z -> marshall -> T -> result (Z * unmarshall * T)) (func lid r : Z) (t : T)
    : result (Z * Z * T) := rcall1 call1 int_c ull_c func lid r t.

(** ** Facts *)

Record rlock_registered (s : rpcs chost) : Prop := {
  rr_revoke : s_procs s !! rlock_revoke = Some h_revoke;
  rr_retry : s_procs s !! rlock_retry = Some h_retry;
}.

Lemma pool_at_set h lid k up : pool_at (set_pool h lid k up) lid = k.
Proof. unfold pool_at, set_pool. cbn. by rewrite lookup_insert_eq. Qed.

Lemma pool_at_other h lid lid' k up : lid' <> lid -> pool_at (set_pool h lid k up) lid' = pool_at h lid'.
Proof. intros Hne. unfold pool_at, set_pool. cbn. by rewrite lookup_insert_ne. Qed.

(** The endpoint of a new client. *)
Lemma rls_registered nonce :
  exists s, (rlsrpc ← rpcs_new nonce 0; rlsrpc ← reg1 rlsrpc rlock_revoke h_revoke; reg1 rlsrpc rlock_retry h_retry) = Ok s /\
    rlock_registered s /\ s_nonce s = u32 nonce /\ s_window s = ∅ /\
    s_procs s !! rpc_bind = Some (reg_h1 int_c int_c (rpcbind (s_nonce s))).
Proof.
  unfold rpcs_new.
  destruct (reg1_ok (mk_rpcs (St := chost) (u32 nonce) ∅ ∅ ∅ 0 0 ∅ true) rpc_bind
    (reg_h1 int_c int_c (rpcbind (u32 nonce)))) as (s0 & -> & P0 & N0 & W0); [done|done|]. run_ok.
  destruct (reg1_ok s0 rlock_revoke h_revoke) as (s1 & -> & P1 & N1 & W1); [done|by rewrite P0|]. run_ok.
  destruct (reg1_ok s1 rlock_retry h_retry) as (s2 & -> & P2 & N2 & W2); [done|by rewrite P1, P0|].
  exists s2. split; [done|]. rewrite N2, N1, N0, W2, W1, W0. split; [|split_and!; [done..|]].
  - split; rewrite P2, P1; simplify_map_eq; done.
  - rewrite P2, P1, P0. simplify_map_eq. done.
Qed.

(** One call of the lock server to a client. *)
Lemma rlock_call_spec (l : link chost) func meth lid r0 ret r app' :
  link_ok l -> c_xid (k_cl l) < 2 ^ 31 - 2 -> func <> rpc_bind -> 0 <= func < 2 ^ 31 ->
  s_procs (k_srv l) !! func = Some (reg_h1 int_c ull_c meth) -> 0 <= lid < 2 ^ 64 ->
  meth lid stack_int (k_app l) = Ok (ret, r, app') -> 0 <= ret < 2 ^ 31 -> - 2 ^ 31 <= r < 2 ^ 31 ->
  exists l', rlock_call (direct_call compare conn) func lid r0 l = Ok (ret, r, l') /\ link_ok l' /\ k_app l' = app'.
Proof.
  intros Hl Hx Hf1 Hf2 Hp Hlid Hm Hret Hr. unfold rlock_call.
  destruct (rcall1_spec compare conn int_c ull_c l func meth lid r0 ret r app')
    as (l' & E & Hl' & Ha & _); try done. eauto.
Qed.

(** The whole constructor. *)
Lemma lock_client_cache_new_ok inet_addr gethostbyname xdst a (s : rpcs lhost) host cnonce rnd nonce :
  make_sockaddr inet_addr gethostbyname xdst = Ok a -> 0 < u32 cnonce -> 0 <= s_nonce s < 2 ^ 32 -> s_window s = ∅ ->
  s_procs s !! rpc_bind = Some (reg_h1 int_c int_c (rpcbind (s_nonce s))) ->
  exists rls h, lock_client_cache_new inet_addr gethostbyname xdst s host cnonce 0 rnd nonce = Ok (rls, h) /\
    rlock_registered rls /\ s_nonce rls = u32 nonce /\ s_window rls = ∅ /\
    s_procs rls !! rpc_bind = Some (reg_h1 int_c int_c (rpcbind (s_nonce rls))) /\
    ch_id h = lock_client_id rnd /\ ch_pool h = ∅ /\ link_ok (ch_up h) /\ k_app (ch_up h) = host /\
    s_procs (k_srv (ch_up h)) = s_procs s /\ c_xid (k_cl (ch_up h)) = 2.
Proof.
  intros Ha Hc Hn Hw Hb. destruct (rls_registered nonce) as (rls & E & Hreg & Hn' & Hw' & Hb').
  destruct (connect_ok compare conn s host cnonce Hc Hn Hw Hb) as (up & Eu & Hup).
  exists rls, (mk_chost (lock_client_id rnd) ∅ up). split; [|split_and!; done || apply Hup].
  unfold lock_client_cache_new, lock_client_new. rewrite Ha, bind_Ok, Eu, bind_Ok, bind_Ok.
  revert E. generalize (rpcs_new (St := chost) nonce 0). intros [s0| | |]; cbn; [|done..].
  destruct (reg1 s0 rlock_revoke h_revoke) as [s1| | |]; cbn; [|done..]. by intros ->.
Qed.

(** Giving back a lock that others wait for, over the network. *)
Lemma release_remote answer (up : link lhost) lid id rt w ws :
  link_ok up -> lock_registered answer (k_srv up) -> c_xid (k_cl up) < 2 ^ 31 - 2 -> 0 <= lid < 2 ^ 64 ->
  Z.of_nat (length id) <= 2 ^ 20 -> (forall call r, - 2 ^ 31 <= answer call r < 2 ^ 31) ->
  Cache.lock_pool (lh_sv (k_app up)) !! lid = Some (Cache.mk_lock id rt (w :: ws) Cache.REVOKING) ->
  exists up', cache_call (direct_call compare conn) lock_release_proc lid id up = Ok (lock_OK, up') /\ link_ok up' /\
    k_app up' = mk_lhost
      (Cache.mk_server (Cache.nacquire (lh_sv (k_app up)))
        (<[lid := Cache.mk_lock [] w (Cache.set_erase w (w :: ws)) Cache.RETRYING]> (Cache.lock_pool (lh_sv (k_app up)))))
      (lh_calls (k_app up) ++ [(rlock_retry, w, lid)]).
Proof.
  intros Hl [_ Hrel _] Hx Hlid Hid Hans Hlk. set (sv' := Cache.mk_server _ _).
  assert (Cache.release (lh_sv (k_app up)) lid id = Ok (lock_OK, sv')) as E.
  { unfold Cache.release. rewrite Hlk. unfold Cache.lock_release. cbn [Cache.st Cache.holder Cache.waiter head deref].
    rewrite !bool_decide_true by done. done. }
  assert (Cache.retry_target sv' lid = w) as Ew.
  { unfold Cache.retry_target, sv'. cbn. by rewrite lookup_insert_eq. }
  destruct (cache_call_spec compare conn up lock_release_proc (meth_release answer) lid id lock_OK
    (answer (rlock_retry, w, lid) stack_int) (mk_lhost sv' (lh_calls (k_app up) ++ [(rlock_retry, w, lid)])))
    as (up' & E' & Hl' & Ha & _); try done; [|by eauto].
  unfold meth_release. rewrite E, bind_Ok, Ew. done.
Qed.

End callbacks.
