(* ===== verification/Demo.v ===== *)
(** * Demo: the demonstration programs (src/demo_server.cc, demo_client.cc, lock_demo.cc)

    A server with one method, a client that binds to it and calls the method once,
    and a program that asks the lock server for its statistics, as they run over the
    RPC library. *)

From Stdlib Require Import ZArith Lia.
From S2P Require Import Prelude CppString Marshall MarshallFacts RpcServer RpcServerFacts Sockaddr RpcClient.
From S2P Require Import RpcStub RpcLink LockServer LockClient LockRemote LockCallbacks.

(** demo_protocol *)
Definition demo_OK : Z := 0.
Definition demo_stat_proc : Z := 0x7001.

Section demo.
Context `{HeapMem} (compare : Z -> Z -> Z) (conn : Z).

(** class demo_server: no members *)
Definition meth_demo_stat (clt var r : Z) (st : unit) : result (Z * Z * unit) :=
  let ret := demo_OK in
  let r := 0 in
  Ok (ret, r, st).
Definition h_demo_stat : handler unit := reg_h2 int_c int_c ull_c meth_demo_stat.
Definition demo_main (nonce count : Z) : result (rpcs unit) :=
  s ← rpcs_new nonce count;
  reg1 s demo_stat_proc h_demo_stat.

Section resolver.
Context (inet_addr : list byte -> Z) (gethostbyname : list byte -> option (Z * Z)).

(** The constructor goes on when [bind] has failed. *)
Definition demo_client_new (dst : list byte) (s : rpcs unit) (cnonce lossy : Z) : result (link unit) :=
  _ ← make_sockaddr inet_addr gethostbyname dst;
  '(_, l) ← bind compare conn (mk_link (rpcc_new true cnonce lossy) s tt);
  Ok l.

(** [id] is [cl->id()], an [unsigned int]; the method takes an [int]. *)
Definition demo_client_stat (id var : Z) (l : link unit) : result (Z * link unit) :=
  '(ret, r, l) ← rcall2 (direct_call compare conn) int_c uint_c ull_c demo_stat_proc id var stack_int l;
  _ ← verify (ret =? demo_OK);
  Ok (r, l).

Definition demo_client_main (dst : list byte) (s : rpcs unit) (cnonce lossy : Z) : result Z :=
  l ← demo_client_new dst s cnonce lossy;
  '(r, _) ← demo_client_stat (c_clt_nonce (k_cl l)) 1 l;
  Ok r.

Definition lock_demo_main (dst : list byte) (s : rpcs lhost) (host : lhost) (cnonce lossy : Z) : result Z :=
  l ← lock_client_new compare conn inet_addr gethostbyname dst s host cnonce lossy;
  '(r, _) ← lock_client_stat (direct_call compare conn) (c_clt_nonce (k_cl l)) 1 l;
  Ok r.

End resolver.

(** ** Facts *)

Lemma demo_main_registered nonce count :
  exists s, demo_main nonce count = Ok s /\ s_procs s !! demo_stat_proc = Some h_demo_stat /\
    s_nonce s = u32 nonce /\ s_window s = ∅ /\
    s_procs s !! rpc_bind = Some (reg_h1 int_c int_c (rpcbind (s_nonce s))).
Proof.
  unfold demo_main, rpcs_new.
  destruct (reg1_ok (mk_rpcs (St := unit) (u32 nonce) ∅ ∅ ∅ count count ∅ true) rpc_bind
    (reg_h1 int_c int_c (rpcbind (u32 nonce)))) as (s0 & -> & P0 & N0 & W0); [done|done|]. run_ok.
  destruct (reg1_ok s0 demo_stat_proc h_demo_stat) as (s1 & -> & P1 & N1 & W1); [done|by rewrite P0|].
  exists s1. rewrite N1, N0, W1, W0, P1, P0. split_and!; [done|by simplify_map_eq|done..|by simplify_map_eq].
Qed.

(** The wire does not tell an [unsigned int] from an [int]. *)
Lemma put_uint_int m x : 0 <= x < 2 ^ 32 -> put_uint m x = put_int m (s32 x).
Proof. intros Hx. unfold put_int. by rewrite wrapU_wrapS, wrapU_small. Qed.

Lemma demo_client_stat_spec (l : link unit) id var :
  link_ok l -> c_xid (k_cl l) < 2 ^ 31 - 2 -> s_procs (k_srv l) !! demo_stat_proc = Some h_demo_stat ->
  0 <= id < 2 ^ 32 -> 0 <= var < 2 ^ 64 ->
  exists l', demo_client_stat id var l = Ok (0, l') /\ link_ok l' /\ s_procs (k_srv l') = s_procs (k_srv l).
Proof.
  intros Hl Hx Hp Hid Hvar. unfold demo_client_stat.
  assert (rcall2 (direct_call compare conn) int_c uint_c ull_c demo_stat_proc id var stack_int l =
    rcall2 (direct_call compare conn) int_c int_c ull_c demo_stat_proc (s32 id) var stack_int l) as ->
    by (unfold rcall2; cbn [c_put uint_c int_c]; by rewrite put_uint_int).
  pose proof (wrapS_range 32 id ltac:(lia)) as Hs.
  destruct (rcall2_spec compare conn int_c int_c ull_c l demo_stat_proc meth_demo_stat (s32 id) var stack_int demo_OK 0 tt)
    as (l' & -> & Hl' & _ & Hp' & _); try done; [by destruct (k_app l)|].
  rewrite bind_Ok. exists l'. by split_and!.
Qed.

End demo.
