(* ===== verification/FsTest.v ===== *)
(** * FsTest: the file system tests (src/test-lab-3-a.c, test-lab-3-b.c, test-lab2-*.c)

    A test is a process that makes system calls, forks and waits for its children.
    The kernel, with the file system mounted twice, is a parameter: a function from a
    call and a state to an answer and a state.  [run_step] interleaves the processes.
    What the tests expect of the kernel is in [FsTestSpec].  Printing and sleeping are left
    out: neither has a part in what the tests check. *)

From Stdlib Require Import ZArith Lia.
From stdpp Require Import sorting.
From S2P Require Import Prelude CppString.

(** ** Processes *)

Abbreviation path := (list byte).
(** "%s/%s" *)
Definition join (d f : path) : path := d ++ slash :: f.

(** The flags the tests pass to open. *)
Inductive flags := O_RDONLY | O_WRONLY | O_WRONLY_APPEND | O_WRONLY_CREAT.

Inductive syscall :=
| Creat (p : path)
| Open (p : path) (f : flags)
| Write (fd : Z) (data : list byte)
| Read (fd : Z) (n : Z)
| Lseek (fd : Z) (off : Z)        (* SEEK_SET *)
| Fsync (fd : Z)
| Close (fd : Z)
| Unlink (p : path)
| Mkdir (p : path)
| Access (p : path)               (* F_OK *)
| Readdir (p : path).             (* opendir, readdir until it returns 0, closedir *)

(** What a call returns, with [errno], the bytes read and the names listed. *)
Record answer := ans { a_ret : Z; a_errno : Z; a_data : list byte; a_names : list path }.

Definition EEXIST : Z := 17.
Definition ENOENT : Z := 2.

Inductive prog (A : Type) :=
| Ret (a : A)
| Exit (code : Z)
| Undefined
| Sys (e : syscall) (k : answer -> prog A)
| Fork (k : Z -> prog A)                    (* the child goes on with 0 *)
| Waitpid (pid : Z) (k : Z * Z -> prog A).  (* the child's number and exit status *)
Arguments Ret {A} a.
Arguments Exit {A} code.
Arguments Undefined {A}.
Arguments Sys {A} e k.
Arguments Fork {A} k.
Arguments Waitpid {A} pid k.

#[export] Instance prog_bind : MBind prog := fun A B f =>
  fix go (p : prog A) : prog B :=
    match p with
    | Ret a => f a
    | Exit c => Exit c
    | Undefined => Undefined
    | Sys e k => Sys e (fun r => go (k r))
    | Fork k => Fork (fun r => go (k r))
    | Waitpid pid k => Waitpid pid (fun r => go (k r))
    end.

Definition sys (e : syscall) : prog answer := Sys e Ret.
Definition fork : prog Z := Fork Ret.
Definition waitpid (pid : Z) : prog (Z * Z) := Waitpid pid Ret.
(** [fprintf(stderr, ...); exit(1);] when the condition holds. *)
Definition exit_if (b : bool) : prog unit := if b then Exit 1 else Ret tt.

(** [sprintf] into a buffer of 512 bytes. *)
Definition sprintf512 (s : list byte) : prog (list byte) :=
  if Z.of_nat (length s) <? 512 then Ret s else Undefined.

(** ** The functions the tests share *)

Definition create1 (d f inp : list byte) : prog unit :=
  n ← sprintf512 (join d f);
  fd ← sys (Creat n);
  exit_if (a_ret fd <? 0);;
  r ← sys (Write (a_ret fd) inp);
  exit_if (negb (a_ret r =? Z.of_nat (length inp)));;
  r ← sys (Close (a_ret fd));
  exit_if (negb (a_ret r =? 0)).

(** A string up to its NUL, and [strncmp(s, t, n) != 0]. *)
Fixpoint cstr (s : list byte) : list byte :=
  match s with [] => [] | b :: s => if bool_decide (b = x00) then [] else b :: cstr s end.
Definition strncmp_differ (s t : list byte) (n : nat) : bool :=
  negb (bool_decide (take n (cstr s) = take n (cstr t))).

(** Only as many bytes are compared as the name of the file has. *)
Definition check1 (d f inp : list byte) : prog unit :=
  n ← sprintf512 (join d f);
  fd ← sys (Open n O_RDONLY);
  exit_if (a_ret fd <? 0);;
  r ← sys (Read (a_ret fd) 20999);
  let cc := a_ret r in
  exit_if (negb (cc =? Z.of_nat (length inp)));;
  _ ← sys (Close (a_ret fd));
  if (cc <? 0) || (20999 <? cc) then Undefined
  else exit_if (strncmp_differ (take (Z.to_nat cc) (a_data r)) inp (length n)).

Definition unlink1 (d f : list byte) : prog unit :=
  n ← sprintf512 (join d f);
  r ← sys (Unlink n);
  exit_if (negb (a_ret r =? 0)).

Definition checknot (d f : list byte) : prog unit :=
  n ← sprintf512 (join d f);
  fd ← sys (Open n O_RDONLY);
  exit_if (0 <=? a_ret fd).

Definition append1 (d f inp : list byte) : prog unit :=
  n ← sprintf512 (join d f);
  fd ← sys (Open n O_WRONLY_APPEND);
  exit_if (a_ret fd <? 0);;
  r ← sys (Write (a_ret fd) inp);
  exit_if (negb (a_ret r =? Z.of_nat (length inp)));;
  r ← sys (Close (a_ret fd));
  exit_if (negb (a_ret r =? 0)).

Fixpoint write1_loop (fd : Z) (n : nat) (c : byte) : prog unit :=
  match n with
  | O => Ret tt
  | S n =>
      r ← sys (Write fd [c]);
      exit_if (negb (a_ret r =? 1));;
      r ← sys (Fsync fd);
      exit_if (negb (a_ret r =? 0));;
      write1_loop fd n c
  end.
Definition write1 (d f : list byte) (start : Z) (n : nat) (c : byte) : prog unit :=
  name ← sprintf512 (join d f);
  fd ← sys (Open name O_WRONLY_CREAT);
  fd ← (if (a_ret fd <? 0) && (a_errno fd =? EEXIST) then sys (Open name O_WRONLY) else Ret fd);
  exit_if (a_ret fd <? 0);;
  r ← sys (Lseek (a_ret fd) start);
  exit_if (negb (a_ret r =? start));;
  write1_loop (a_ret fd) n c;;
  r ← sys (Close (a_ret fd));
  exit_if (negb (a_ret r =? 0)).

Fixpoint checkread_loop (fd : Z) (n : nat) (c : byte) : prog unit :=
  match n with
  | O => Ret tt
  | S n =>
      r ← sys (Read fd 1);
      exit_if (negb (a_ret r =? 1));;
      exit_if (negb (bool_decide (head (a_data r) = Some c)));;
      checkread_loop fd n c
  end.
Definition checkread (d f : list byte) (start : Z) (n : nat) (c : byte) : prog unit :=
  name ← sprintf512 (join d f);
  fd ← sys (Open name O_RDONLY);
  exit_if (a_ret fd <? 0);;
  r ← sys (Lseek (a_ret fd) start);
  exit_if (negb (a_ret r =? start));;
  checkread_loop (a_ret fd) n c;;
  _ ← sys (Close (a_ret fd));
  Ret tt.

(** "%s/%s-%d", and the bytes of an [int]. *)
Definition nth_name (prefix : list byte) (i : nat) : list byte := prefix ++ x2d :: dec (Z.of_nat i).
Definition int_bytes (i : nat) : list byte := le_enc 4 (Z.of_nat i).

(** [n] rounds from [i] on. *)
Fixpoint createn_loop (d prefix : list byte) (possible_dup : bool) (i n : nat) : prog unit :=
  match n with
  | O => Ret tt
  | S n =>
      p ← sprintf512 (join d (nth_name prefix i));
      fd ← sys (Creat p);
      (if (a_ret fd <? 0) && possible_dup && (a_errno fd =? EEXIST) then Ret tt
       else
         exit_if (a_ret fd <? 0);;
         r ← sys (Write (a_ret fd) (int_bytes i));
         exit_if (negb (a_ret r =? 4));;
         r ← sys (Close (a_ret fd));
         exit_if (negb (a_ret r =? 0)));;
      createn_loop d prefix possible_dup (S i) n
  end.
Definition createn (d prefix : list byte) (nf : nat) (possible_dup : bool) : prog unit :=
  createn_loop d prefix possible_dup 0 nf.

Fixpoint checkn_loop (d prefix : list byte) (i n : nat) : prog unit :=
  match n with
  | O => Ret tt
  | S n =>
      p ← sprintf512 (join d (nth_name prefix i));
      fd ← sys (Open p O_RDONLY);
      exit_if (a_ret fd <? 0);;
      r ← sys (Read (a_ret fd) 4);
      exit_if (negb (a_ret r =? 4));;
      exit_if (negb (s32 (le_dec (a_data r)) =? Z.of_nat i));;
      _ ← sys (Close (a_ret fd));
      checkn_loop d prefix (S i) n
  end.
Definition checkn (d prefix : list byte) (nf : nat) : prog unit := checkn_loop d prefix 0 nf.

Fixpoint unlinkn_loop (d prefix : list byte) (i n : nat) : prog unit :=
  match n with
  | O => Ret tt
  | S n =>
      p ← sprintf512 (join d (nth_name prefix i));
      r ← sys (Unlink p);
      exit_if (negb (a_ret r =? 0));;
      unlinkn_loop d prefix (S i) n
  end.
Definition unlinkn (d prefix : list byte) (nf : nat) : prog unit := unlinkn_loop d prefix 0 nf.

(** [compar]: [strcmp] as an order. *)
Fixpoint strcmp_le (a b : list byte) : bool :=
  match a, b with
  | [], _ => true
  | _, [] => false
  | x :: a, y :: b => (b2z x <? b2z y) || ((b2z x =? b2z y) && strcmp_le a b)
  end.
(** Two neighbours that are the same. *)
Fixpoint adjacent_dup (l : list path) : bool :=
  match l with x :: (y :: _) as r => bool_decide (x = y) || adjacent_dup r | _ => false end.

Definition visible (n : path) : Prop := head n <> Some x2e.
(** [names] has room for 1000; the warning does not stop the loop. *)
Definition dircheck (d : path) (nf : Z) : prog unit :=
  r ← sys (Readdir d);
  exit_if (negb (a_ret r =? 0));;
  let names := filter visible (a_names r) in
  if 1000 <? Z.of_nat (length names) then Undefined
  else
    exit_if (negb (nf =? Z.of_nat (length names)));;
    exit_if (adjacent_dup (merge_sort (fun a b => Is_true (strcmp_le a b)) names)).

Definition reap (pid : Z) : prog unit :=
  '(wpid, status) ← waitpid pid;
  exit_if (wpid <? 0);;
  exit_if (negb (wpid =? pid));;
  exit_if (negb (status =? 0)).

(** ** The tests *)

Module Names.
From Stdlib Require Import Strings.String.
Definition f1 := Eval cbv in list_byte_of_string "f1"%string.
Definition f2 := Eval cbv in list_byte_of_string "f2"%string.
Definition f3 := Eval cbv in list_byte_of_string "f3"%string.
Definition fx1 := Eval cbv in list_byte_of_string "fx1"%string.
Definition fx2 := Eval cbv in list_byte_of_string "fx2"%string.
Definition bf := Eval cbv in list_byte_of_string "bf"%string.
Definition www := Eval cbv in list_byte_of_string "www"%string.
Definition aa := Eval cbv in list_byte_of_string "aa"%string.
Definition bb := Eval cbv in list_byte_of_string "bb"%string.
Definition xx := Eval cbv in list_byte_of_string "xx"%string.
Definition yy := Eval cbv in list_byte_of_string "yy"%string.
Definition zz := Eval cbv in list_byte_of_string "zz"%string.
Definition p1 := Eval cbv in list_byte_of_string "x1"%string.
Definition p2 := Eval cbv in list_byte_of_string "x2"%string.
Definition p3 := Eval cbv in list_byte_of_string "x3"%string.
Definition p4 := Eval cbv in list_byte_of_string "x4"%string.
Definition aaa := Eval cbv in list_byte_of_string "aaa"%string.
Definition bbb := Eval cbv in list_byte_of_string "bbb"%string.
Definition ccc := Eval cbv in list_byte_of_string "ccc"%string.
Definition aaabbbccc := Eval cbv in list_byte_of_string "aaabbbccc"%string.
Definition fxx := Eval cbv in list_byte_of_string "fxx"%string.
Definition s222 := Eval cbv in list_byte_of_string "222"%string.
Definition s333 := Eval cbv in list_byte_of_string "333"%string.
Definition s22 := Eval cbv in list_byte_of_string "22"%string.
Definition d := Eval cbv in list_byte_of_string "d"%string.
Definition da := Eval cbv in list_byte_of_string "da"%string.
Definition db := Eval cbv in list_byte_of_string "db"%string.
End Names.
Import Names.

(** [big] and [huge] without their NUL. *)
Definition big : list byte := replicate 20000 x78.
Definition huge : list byte := replicate 65535 x30.

(** "%s/d%d" *)
Definition work_dir (argv prefix : path) (pid : Z) : path := join argv (prefix ++ dec pid).

(** A part of a test that runs in two processes: the child ends with [exit(0)]. *)
Definition fork_child (child : prog unit) : prog Z :=
  pid ← fork;
  exit_if (pid <? 0);;
  if pid =? 0 then child;; Exit 0 else Ret pid.

Definition create_then_read (d1 d2 : path) : prog unit :=
  create1 d1 f1 aaa;;
  check1 d2 f1 aaa;;
  check1 d1 f1 aaa.

Definition unlink_part (d1 d2 : path) : prog unit :=
  unlink1 d2 f1;;
  create1 d1 fx1 fxx;;
  unlink1 d1 fx1;;
  checknot d1 f1;;
  checknot d2 f1;;
  create1 d1 f2 s222;;
  unlink1 d2 f2;;
  checknot d1 f2;;
  checknot d2 f2;;
  create1 d1 f3 s333;;
  check1 d2 f3 s333;;
  check1 d1 f3 s333;;
  unlink1 d1 f3;;
  create1 d2 fx2 s22;;
  unlink1 d2 fx2;;
  checknot d2 f3;;
  checknot d1 f3.

Definition append_part (d1 d2 : path) : prog unit :=
  create1 d2 f1 aaa;;
  append1 d1 f1 bbb;;
  append1 d2 f1 ccc;;
  check1 d1 f1 aaabbbccc;;
  check1 d2 f1 aaabbbccc.

Definition readdir_part (d1 d2 : path) : prog unit :=
  dircheck d1 1;;
  dircheck d2 1;;
  unlink1 d1 f1;;
  dircheck d1 0;;
  dircheck d2 0;;
  create1 d2 f2 aaa;;
  create1 d1 f3 aaa;;
  dircheck d1 2;;
  dircheck d2 2;;
  unlink1 d2 f2;;
  dircheck d2 1;;
  dircheck d1 1;;
  unlink1 d2 f3;;
  dircheck d1 0;;
  dircheck d2 0.

Definition many_creates (d1 d2 : path) : prog unit :=
  createn d1 aa 10 false;;
  createn d2 bb 10 false;;
  dircheck d2 20;;
  checkn d2 bb 10;;
  checkn d2 aa 10;;
  checkn d1 aa 10;;
  checkn d1 bb 10;;
  unlinkn d1 aa 10;;
  unlinkn d2 bb 10.

Definition write_20000 (d1 d2 : path) : prog unit :=
  create1 d1 bf big;;
  check1 d1 bf big;;
  check1 d2 bf big;;
  unlink1 d1 bf.

Definition concurrent_creates (d1 d2 : path) : prog unit :=
  pid ← fork_child (createn d2 xx 10 false);
  createn d1 yy 10 false;;
  reap pid;;
  dircheck d1 20;;
  checkn d1 xx 10;;
  checkn d2 yy 10;;
  unlinkn d1 xx 10;;
  unlinkn d1 yy 10.

Definition concurrent_same (d1 d2 : path) : prog unit :=
  pid ← fork_child (createn d2 zz 10 true);
  createn d1 zz 10 true;;
  dircheck d1 10;;
  reap pid;;
  checkn d1 zz 10;;
  checkn d2 zz 10;;
  unlinkn d1 zz 10.

Definition create_delete (d1 d2 : path) : prog unit :=
  createn d1 p1 5 false;;
  createn d2 p2 5 false;;
  pid ← fork_child (unlinkn d2 p1 5;; createn d1 p3 5 false);
  createn d1 p4 5 false;;
  reap pid;;
  unlinkn d2 p2 5;;
  unlinkn d2 p4 5;;
  unlinkn d2 p3 5;;
  dircheck d1 0.

Definition concurrent_same_server (d1 : path) : prog unit :=
  pid ← fork_child (createn d1 zz 10 true);
  createn d1 zz 10 true;;
  dircheck d1 10;;
  reap pid;;
  checkn d1 zz 10;;
  unlinkn d1 zz 10.

Definition concurrent_writes (d1 d2 : path) : prog unit :=
  create1 d1 www huge;;
  pid ← fork_child (write1 d2 www 10000 64 x32);
  write1 d1 www 0 64 x31;;
  reap pid;;
  checkread d1 www 0 64 x31;;
  checkread d2 www 0 64 x31;;
  checkread d1 www 10000 64 x32;;
  checkread d2 www 10000 64 x32.

(** [main] up to the first test, for the tests that use one directory. *)
Definition one_dir (argv1 argv2 : path) (pid : Z) : prog (path * path) :=
  d1 ← sprintf512 (work_dir argv1 d pid);
  r ← sys (Mkdir d1);
  exit_if (negb (a_ret r =? 0));;
  d2 ← sprintf512 (work_dir argv2 d pid);
  r ← sys (Access d2);
  exit_if (negb (a_ret r =? 0));;
  Ret (d1, d2).

(** test-lab2-part1-g.c *)
Definition part1_g (argv1 argv2 : path) (pid : Z) : prog unit :=
  '(d1, d2) ← one_dir argv1 argv2 pid;
  create_then_read d1 d2;;
  unlink_part d1 d2;;
  append_part d1 d2;;
  readdir_part d1 d2;;
  many_creates d1 d2;;
  write_20000 d1 d2;;
  Exit 0.

(** test-lab2-part2-a.c *)
Definition part2_a (argv1 argv2 : path) (pid : Z) : prog unit :=
  '(d1, d2) ← one_dir argv1 argv2 pid;
  concurrent_creates d1 d2;;
  concurrent_same d1 d2;;
  create_delete d1 d2;;
  concurrent_same_server d1;;
  concurrent_writes d1 d2;;
  Exit 0.

(** test-lab-3-a.c *)
Definition lab3_a (argv1 argv2 : path) (pid : Z) : prog unit :=
  '(d1, d2) ← one_dir argv1 argv2 pid;
  create_then_read d1 d2;;
  unlink_part d1 d2;;
  append_part d1 d2;;
  readdir_part d1 d2;;
  many_creates d1 d2;;
  write_20000 d1 d2;;
  concurrent_creates d1 d2;;
  concurrent_same d1 d2;;
  create_delete d1 d2;;
  concurrent_same_server d1;;
  concurrent_writes d1 d2;;
  Exit 0.

(** Two directories: [n] files made, all but the last removed. *)
Definition two_dirs (n : nat) (argv1 argv2 : path) (pid : Z) : prog unit :=
  d1 ← sprintf512 (work_dir argv1 da pid);
  r ← sys (Mkdir d1);
  exit_if (negb (a_ret r =? 0));;
  d2 ← sprintf512 (work_dir argv2 db pid);
  r ← sys (Mkdir d2);
  exit_if (negb (a_ret r =? 0));;
  dd ← sprintf512 (work_dir argv2 da pid);
  r ← sys (Access dd);
  exit_if (negb (a_ret r =? 0));;
  child ← fork_child (createn d2 xx n false;; unlinkn d2 xx (n - 1));
  createn d1 yy n false;;
  unlinkn d1 yy (n - 1);;
  reap child;;
  dircheck d1 1;;
  dircheck d2 1;;
  Exit 0.
(** test-lab-3-b.c and test-lab2-part2-b.c, whose [createn] has no [possible_dup]. *)
Definition lab3_b := two_dirs 100.
Definition part2_b := two_dirs 10.

(** [main] with the arguments after the program's name. *)
Definition main_of (test : path -> path -> Z -> prog unit) (args : list path) (pid : Z) : prog unit :=
  match args with [argv1; argv2] => test argv1 argv2 pid | _ => Exit 1 end.

(** ** Running them *)

Inductive proc := Running (pid : Z) (p : prog unit) | Gone (code : Z).

Section run.
Context {W : Type} (kern : Z -> syscall -> W -> result (answer * W)).

(** The kernel's state and, for each process, its parent and its exit status. *)
Record machine := mk_machine { m_fs : W; m_procs : gmap Z (Z * option Z) }.

(** What a process does next, and the processes it starts.  The number of a new process
    is not in use, nor the parent of a process.  A wait is over when the child is gone;
    returning from [main] is [exit(0)].  The tests have no file open when they fork. *)
Inductive proc_step : proc -> machine -> proc -> machine -> list proc -> Prop :=
| ps_sys pid e k w ps a w' :
    kern pid e w = Ok (a, w') ->
    proc_step (Running pid (Sys e k)) (mk_machine w ps) (Running pid (k a)) (mk_machine w' ps) []
| ps_fork pid k w ps child :
    0 < child -> ps !! child = None -> (forall q o, ps !! q <> Some (child, o)) ->
    proc_step (Running pid (Fork k)) (mk_machine w ps)
      (Running pid (k child)) (mk_machine w (<[child := (pid, None)]> ps)) [Running child (k 0)]
| ps_wait pid q k w ps c :
    ps !! q = Some (pid, Some c) ->
    proc_step (Running pid (Waitpid q k)) (mk_machine w ps) (Running pid (k (q, c))) (mk_machine w (delete q ps)) []
| ps_no_child pid q k w ps :
    (forall o, ps !! q <> Some (pid, o)) ->
    proc_step (Running pid (Waitpid q k)) (mk_machine w ps) (Running pid (k (-1, 0))) (mk_machine w ps) []
| ps_exit pid c w ps parent :
    ps !! pid = Some (parent, None) ->
    proc_step (Running pid (Exit c)) (mk_machine w ps) (Gone c) (mk_machine w (<[pid := (parent, Some c)]> ps)) []
| ps_return pid w ps parent :
    ps !! pid = Some (parent, None) ->
    proc_step (Running pid (Ret tt)) (mk_machine w ps) (Gone 0) (mk_machine w (<[pid := (parent, Some 0)]> ps)) [].

Inductive run_step : list proc * machine -> list proc * machine -> Prop :=
| rs_proc l1 l2 p m p' m' new :
    proc_step p m p' m' new -> run_step (l1 ++ p :: l2, m) (l1 ++ p' :: l2 ++ new, m').

Definition start (pid : Z) (p : prog unit) (w : W) : list proc * machine :=
  ([Running pid p], mk_machine w {[pid := (0, None)]}).

(** Every process has ended with status 0. *)
Definition passed (ps : list proc) : Prop := Forall (fun p => p = Gone 0) ps.
End run.
Arguments machine W : clear implicits.
