(* ===== verification/FsTestSpec.v ===== *)
(** * FsTestSpec: what the file system tests expect of the kernel

    The documented behaviour of the system calls that the tests make, on a mounted
    file system that they have to themselves: a finite map from paths to files and
    directories, and the open files of the processes.  [KernelOK] is the interface:
    it says that a kernel behaves in this way as long as the files stay within a
    given set of paths and a given length. *)

From Stdlib Require Import ZArith Lia.
From S2P Require Import Prelude CppString FsTest.

Inductive node := File (data : list byte) | Dir.

(** An open file: the file, the offset, and whether O_APPEND was given. *)
Record ofile := mk_ofile { o_path : path; o_off : nat; o_append : bool }.

Record fs := mk_fs { nodes : gmap path node; ofiles : gmap (Z * Z) ofile }.

Definition set_node (s : fs) (p : path) (n : node) : fs := mk_fs (<[p := n]> (nodes s)) (ofiles s).
Definition set_ofile (s : fs) (pid fd : Z) (o : ofile) : fs := mk_fs (nodes s) (<[(pid, fd) := o]> (ofiles s)).

(** The bytes [data] at offset [off]; a gap is filled with zeros. *)
Definition overwrite (c : list byte) (off : nat) (data : list byte) : list byte :=
  take off (c ++ replicate (off - length c) x00) ++ data ++ drop (off + length data) c.

(** [p] names an entry of a directory that exists, or of the root. *)
Definition in_dir (s : fs) (p : path) : Prop :=
  (p <> [] /\ slash ∉ p) \/ exists d n, p = join d n /\ n <> [] /\ slash ∉ n /\ nodes s !! d = Some Dir.

(** The listing of directory [d] (and, it may be, names that start with a dot). *)
Definition lists (s : fs) (d : path) (l : list path) : Prop :=
  NoDup (filter visible l) /\
  forall n, visible n -> n <> [] -> slash ∉ n -> n ∈ l <-> is_Some (nodes s !! join d n).
Definition plain_names (l : list path) : Prop := Forall (fun n => n <> [] /\ slash ∉ n) l.

Section spec.
(** Where a path leads inside the file system. *)
Context (place : path -> path).

(** What a call may answer, and the file system afterwards.  A call that creates a file
    may report that the file exists, when another process has made it. *)
Inductive posix (pid : Z) : syscall -> fs -> answer -> fs -> Prop :=
| px_creat s p fd e :
    in_dir s (place p) -> nodes s !! place p <> Some Dir -> 0 <= fd -> ofiles s !! (pid, fd) = None ->
    posix pid (Creat p) s (ans fd e [] [])
      (set_ofile (set_node s (place p) (File [])) pid fd (mk_ofile (place p) 0 false))
| px_creat_exists s p c :
    in_dir s (place p) -> nodes s !! place p = Some (File c) -> posix pid (Creat p) s (ans (-1) EEXIST [] []) s
| px_open s p f c fd e :
    nodes s !! place p = Some (File c) -> 0 <= fd -> ofiles s !! (pid, fd) = None ->
    posix pid (Open p f) s (ans fd e [] [])
      (set_ofile s pid fd (mk_ofile (place p) 0 (if f is O_WRONLY_APPEND then true else false)))
| px_open_create s p fd e :
    in_dir s (place p) -> nodes s !! place p = None -> 0 <= fd -> ofiles s !! (pid, fd) = None ->
    posix pid (Open p O_WRONLY_CREAT) s (ans fd e [] [])
      (set_ofile (set_node s (place p) (File [])) pid fd (mk_ofile (place p) 0 false))
| px_open_exists s p c :
    nodes s !! place p = Some (File c) -> posix pid (Open p O_WRONLY_CREAT) s (ans (-1) EEXIST [] []) s
| px_open_missing s p f :
    in_dir s (place p) -> nodes s !! place p = None -> f <> O_WRONLY_CREAT -> posix pid (Open p f) s (ans (-1) ENOENT [] []) s
| px_write s fd data p off app c e :
    ofiles s !! (pid, fd) = Some (mk_ofile p off app) -> nodes s !! p = Some (File c) -> data <> [] ->
    posix pid (Write fd data) s (ans (Z.of_nat (length data)) e [] [])
      (let off := if app : bool then length c else off in
       set_ofile (set_node s p (File (overwrite c off data))) pid fd (mk_ofile p (off + length data) app))
| px_read s fd n p off app c e data :
    ofiles s !! (pid, fd) = Some (mk_ofile p off app) -> nodes s !! p = Some (File c) -> 0 < n ->
    data = take (Z.to_nat n) (drop off c) ->
    posix pid (Read fd n) s (ans (Z.of_nat (length data)) e data [])
      (set_ofile s pid fd (mk_ofile p (off + length data) app))
| px_lseek s fd o p off app e :
    ofiles s !! (pid, fd) = Some (mk_ofile p off app) -> 0 <= o ->
    posix pid (Lseek fd o) s (ans o e [] []) (set_ofile s pid fd (mk_ofile p (Z.to_nat o) app))
| px_fsync s fd o e :
    ofiles s !! (pid, fd) = Some o -> posix pid (Fsync fd) s (ans 0 e [] []) s
| px_close s fd o e :
    ofiles s !! (pid, fd) = Some o ->
    posix pid (Close fd) s (ans 0 e [] []) (mk_fs (nodes s) (delete (pid, fd) (ofiles s)))
| px_unlink s p c e :
    nodes s !! place p = Some (File c) ->
    posix pid (Unlink p) s (ans 0 e [] []) (mk_fs (delete (place p) (nodes s)) (ofiles s))
| px_mkdir s p e :
    in_dir s (place p) -> nodes s !! place p = None ->
    posix pid (Mkdir p) s (ans 0 e [] []) (set_node s (place p) Dir)
| px_access s p n e :
    nodes s !! place p = Some n -> posix pid (Access p) s (ans 0 e [] []) s
| px_readdir s p e l :
    nodes s !! place p = Some Dir -> lists s (place p) l -> plain_names l ->
    posix pid (Readdir p) s (ans 0 e [] l) s.

(** The files stay within [U] and [len] bytes. *)
Definition bounded (U : gset path) (len : nat) (s : fs) : Prop :=
  dom (nodes s) ⊆ U /\ forall p c, nodes s !! p = Some (File c) -> (length c <= len)%nat.

(** A call that the specification covers: it is made on a file that is there and
    that nobody has open when it is to go. *)
Definition covered (pid : Z) (e : syscall) (s : fs) : Prop :=
  (exists a s', posix pid e s a s') /\
  match e with Unlink p => forall k o, ofiles s !! k = Some o -> o_path o <> place p | _ => True end.

Class KernelOK {W} (kern : Z -> syscall -> W -> result (answer * W)) (U : gset path) (len : nat) := {
  k_shows : W -> fs -> Prop;
  k_serves pid e w s : k_shows w s -> bounded U len s -> covered pid e s ->
    (forall a s', posix pid e s a s' -> bounded U len s') ->
    exists a w' s', kern pid e w = Ok (a, w') /\ posix pid e s a s' /\ k_shows w' s';
}.
End spec.
Arguments k_shows {place W kern U len _} _ _.
Arguments k_serves {place W kern U len _} _ _ _ _ _ _ _ _.
