(* ===== verification/FsTestCells.v ===== *)
(** * FsTestCells: a file system seen as one cell per path

    A cell holds what is at the path, if anything, and the descriptors that may be open
    on it. *)

From Stdlib Require Import ZArith Lia.
From S2P Require Import Prelude CppString FsTest FsTestSpec.

Abbreviation cell := (option node * gset (Z * Z))%type.

(** What the ghost map of paths says of the file system. *)
Record agree (U : gset path) (len : nat) (s : fs) (g : gmap path cell) : Prop := {
  ag_dom : dom g = U;
  ag_nodes : forall p, nodes s !! p = mjoin (fst <$> g !! p);
  ag_open : forall k o, ofiles s !! k = Some o -> exists x S, g !! o_path o = Some (x, S) /\ k ∈ S;
  ag_len : forall p c, nodes s !! p = Some (File c) -> (length c <= len)%nat;
}.

Section agree.
Context (U : gset path) (len : nat).
Implicit Types (s : fs) (g : gmap path cell).

Lemma agree_bounded s g : agree U len s g -> bounded U len s.
Proof.
  intros H. split; [|apply (ag_len _ _ _ _ H)]. intros p [x Hp]%elem_of_dom.
  rewrite (ag_nodes _ _ _ _ H) in Hp. rewrite <- (ag_dom _ _ _ _ H).
  destruct (g !! p) eqn:E; [by eapply elem_of_dom_2|done].
Qed.

Lemma agree_lookup s g p x S : agree U len s g -> g !! p = Some (x, S) -> nodes s !! p = x.
Proof. intros H Hp. rewrite (ag_nodes _ _ _ _ H), Hp. by destruct x. Qed.

Lemma agree_nobody s g p x : agree U len s g -> g !! p = Some (x, ∅) ->
  forall k o, ofiles s !! k = Some o -> o_path o <> p.
Proof. intros H Hp k o Ho <-. destruct (ag_open _ _ _ _ H _ _ Ho) as (x' & S & E & Hk). set_solver. Qed.

Lemma agree_set s g p x S x' :
  agree U len s g -> g !! p = Some (x, S) -> (forall c, x' = Some (File c) -> (length c <= len)%nat) ->
  agree U len (mk_fs (partial_alter (fun _ => x') p (nodes s)) (ofiles s)) (<[p := (x', S)]> g).
Proof.
  intros H Hp Hl. split; cbn [nodes ofiles].
  - rewrite dom_insert_lookup_L; [apply H|by eexists].
  - intros p'. destruct (decide (p' = p)) as [->|Hne].
    + rewrite lookup_partial_alter_eq, lookup_insert_eq. by destruct x'.
    + rewrite lookup_partial_alter_ne, lookup_insert_ne by done. apply H.
  - intros k o Ho. destruct (ag_open _ _ _ _ H _ _ Ho) as (y & T & E & Hk).
    destruct (decide (o_path o = p)) as [<-|Hne].
    + rewrite lookup_insert_eq. eexists _, _. split; [done|]. congruence.
    + rewrite lookup_insert_ne by done. eauto.
  - intros p' c Hc. destruct (decide (p' = p)) as [->|Hne].
    + rewrite lookup_partial_alter_eq in Hc. by apply Hl.
    + rewrite lookup_partial_alter_ne in Hc by done. by apply (ag_len _ _ _ _ H _ _ Hc).
Qed.

Lemma agree_node s g p x S n :
  agree U len s g -> g !! p = Some (x, S) -> (forall c, n = File c -> (length c <= len)%nat) ->
  agree U len (set_node s p n) (<[p := (Some n, S)]> g).
Proof.
  intros H Hp Hl. refine (agree_set s g p x S (Some n) H Hp _). intros c [= ->]. by apply Hl.
Qed.

Lemma agree_gone s g p x : agree U len s g -> g !! p = Some (x, ∅) ->
  agree U len (mk_fs (delete p (nodes s)) (ofiles s)) (<[p := (None, ∅)]> g).
Proof. intros H Hp. by apply (agree_set s g p x ∅ None H Hp). Qed.

Lemma agree_open s g p x S pid fd off app :
  agree U len s g -> g !! p = Some (x, S) ->
  agree U len (set_ofile s pid fd (mk_ofile p off app)) (<[p := (x, S ∪ {[(pid, fd)]})]> g).
Proof.
  intros H Hp. split; cbn [nodes ofiles set_ofile].
  - rewrite dom_insert_lookup_L; [apply H|by eexists].
  - intros p'. destruct (decide (p' = p)) as [->|Hne].
    + rewrite lookup_insert_eq, (agree_lookup _ _ _ _ _ H Hp). by destruct x.
    + rewrite lookup_insert_ne by done. apply H.
  - intros k o. destruct (decide (k = (pid, fd))) as [->|Hk].
    + rewrite lookup_insert_eq. intros [= <-]. cbn [o_path]. rewrite lookup_insert_eq. eexists _, _. split; [done|set_solver].
    + rewrite lookup_insert_ne by done. intros Ho. destruct (ag_open _ _ _ _ H _ _ Ho) as (y & T & E & Hk').
      destruct (decide (o_path o = p)) as [<-|Hne].
      * rewrite lookup_insert_eq. eexists _, _. split; [done|]. set_solver.
      * rewrite lookup_insert_ne by done. eauto.
  - apply (ag_len _ _ _ _ H).
Qed.

Lemma agree_move s g pid fd o o' :
  agree U len s g -> ofiles s !! (pid, fd) = Some o -> o_path o' = o_path o -> agree U len (set_ofile s pid fd o') g.
Proof.
  intros H Ho Hp. split; cbn [nodes ofiles set_ofile]; [apply H..| |apply (ag_len _ _ _ _ H)].
  intros k o1 Hk. apply lookup_insert_Some in Hk as [[<- <-]|[_ Hk]].
  - rewrite Hp. by apply (ag_open _ _ _ _ H).
  - by apply (ag_open _ _ _ _ H).
Qed.

Lemma agree_close s g pid fd o x S :
  agree U len s g -> ofiles s !! (pid, fd) = Some o -> g !! o_path o = Some (x, S) ->
  agree U len (mk_fs (nodes s) (delete (pid, fd) (ofiles s))) (<[o_path o := (x, S ∖ {[(pid, fd)]})]> g).
Proof.
  intros H Ho Hp. split; cbn [nodes ofiles].
  - rewrite dom_insert_lookup_L; [apply H|by eexists].
  - intros p'. destruct (decide (p' = o_path o)) as [->|Hne].
    + rewrite lookup_insert_eq, (agree_lookup _ _ _ _ _ H Hp). by destruct x.
    + rewrite lookup_insert_ne by done. apply H.
  - intros k o1 [Hk Ho1]%lookup_delete_Some. destruct (ag_open _ _ _ _ H _ _ Ho1) as (y & T & E & Hk').
    destruct (decide (o_path o1 = o_path o)) as [E'|Hne].
    + rewrite E', lookup_insert_eq. eexists _, _. split; [done|]. rewrite E', Hp in E. set_solver.
    + rewrite lookup_insert_ne by done. eauto.
  - apply (ag_len _ _ _ _ H).
Qed.
End agree.

(** ** What each call does to the cells *)

Lemma fresh_fd {A} (m : gmap (Z * Z) A) pid : exists fd, 0 <= fd /\ m !! (pid, fd) = None.
Proof.
  set (X := set_map (fun k : Z * Z => Z.to_nat k.2) (dom m) : gset nat).
  exists (Z.of_nat (fresh X)). split; [lia|]. apply not_elem_of_dom. intros H. apply (is_fresh X).
  apply elem_of_map. eexists. split; [|exact H]. cbn [snd]. lia.
Qed.

Section calls.
Context (place : path -> path) (U : gset path) (len : nat).
Context (pid : Z) (s : fs) (g : gmap path cell) (Hag : agree U len s g).

(** [a] is a new descriptor on [p] with cell [x]. *)
Definition opened (p : path) (x : option node) (S : gset (Z * Z)) (app : bool) (a : answer) (s' : fs) : Prop :=
  exists fd e, a = ans fd e [] [] /\ 0 <= fd /\ ofiles s !! (pid, fd) = None /\
    ofiles s' = <[(pid, fd) := mk_ofile p 0 app]> (ofiles s) /\
    agree U len s' (<[p := (x, S ∪ {[(pid, fd)]})]> g).

Lemma agree_create p x S fd :
  g !! p = Some (x, S) ->
  agree U len (set_ofile (set_node s p (File [])) pid fd (mk_ofile p 0 false))
    (<[p := (Some (File []), S ∪ {[(pid, fd)]})]> g).
Proof.
  intros Hp. rewrite <- (insert_insert_eq g p (Some (File []), S ∪ {[(pid, fd)]}) (Some (File []), S)).
  apply agree_open; [|apply lookup_insert_eq]. apply (agree_node _ _ s g p x S); [done..|]. intros c [= <-]. cbn. lia.
Qed.

(** A file that is there was reported to exist. *)
Definition exists_already (x : option node) (a : answer) (s' : fs) : Prop :=
  x <> None /\ a = ans (-1) EEXIST [] [] /\ s' = s.

Lemma creat_posix p x S : g !! place p = Some (x, S) -> x <> Some Dir -> in_dir s (place p) ->
  covered place pid (Creat p) s /\
  forall a s', posix place pid (Creat p) s a s' ->
    opened (place p) (Some (File [])) S false a s' \/ exists_already x a s'.
Proof.
  intros Hp Hx Hd. pose proof (agree_lookup _ _ _ _ _ _ _ Hag Hp) as Hn. destruct (fresh_fd (ofiles s) pid) as (fd & Hfd & Ho).
  split; [split; [eexists _, _; apply (px_creat _ _ _ _ fd 0); congruence|done]|].
  intros a s' H. inversion H as [| s0 p0 c Hc0 Hc| | | | | | | | | | | | |]; subst.
  - left. eexists _, _. split_and!; [done..|]. by eapply agree_create.
  - right. split; [congruence|done].
Qed.

Lemma open_posix p f c S : g !! place p = Some (Some (File c), S) ->
  covered place pid (Open p f) s /\
  forall a s', posix place pid (Open p f) s a s' ->
    opened (place p) (Some (File c)) S (if f is O_WRONLY_APPEND then true else false) a s' \/
    (f = O_WRONLY_CREAT /\ exists_already (Some (File c)) a s').
Proof.
  intros Hp. pose proof (agree_lookup _ _ _ _ _ _ _ Hag Hp) as Hn. destruct (fresh_fd (ofiles s) pid) as (fd & Hfd & Ho).
  split; [split; [eexists _, _; by apply (px_open _ _ _ _ _ c fd 0)|done]|].
  intros a s' H. inversion H; subst; try congruence.
  - left. eexists _, _. split_and!; [done..|]. by apply agree_open.
  - right. split; [done|]. split; [congruence|done].
Qed.

Lemma open_create_posix p S : g !! place p = Some (None, S) -> in_dir s (place p) ->
  covered place pid (Open p O_WRONLY_CREAT) s /\
  forall a s', posix place pid (Open p O_WRONLY_CREAT) s a s' -> opened (place p) (Some (File [])) S false a s'.
Proof.
  intros Hp Hd. pose proof (agree_lookup _ _ _ _ _ _ _ Hag Hp) as Hn. destruct (fresh_fd (ofiles s) pid) as (fd & Hfd & Ho).
  split; [split; [eexists _, _; by apply (px_open_create _ _ _ _ fd 0)|done]|].
  intros a s' H. inversion H; subst; try congruence. eexists _, _. split_and!; [done..|]. by apply (agree_create _ None).
Qed.

Lemma open_missing_posix p S : g !! place p = Some (None, S) -> in_dir s (place p) ->
  covered place pid (Open p O_RDONLY) s /\
  forall a s', posix place pid (Open p O_RDONLY) s a s' -> a = ans (-1) ENOENT [] [] /\ s' = s.
Proof.
  intros Hp Hd. pose proof (agree_lookup _ _ _ _ _ _ _ Hag Hp) as Hn.
  split; [split; [eexists _, _; by apply px_open_missing|done]|].
  intros a s' H. inversion H; subst; try congruence. done.
Qed.

(** The calls on a descriptor. *)
Section descriptor.
Context (fd : Z) (p : path) (off : nat) (app : bool) (Ho : ofiles s !! (pid, fd) = Some (mk_ofile p off app)).

Definition moved (off' : nat) (s' : fs) : Prop := ofiles s' = <[(pid, fd) := mk_ofile p off' app]> (ofiles s).

Lemma write_posix data c S (off' := if app then length c else off) :
  g !! p = Some (Some (File c), S) -> data <> [] -> (length (overwrite c off' data) <= len)%nat ->
  covered place pid (Write fd data) s /\
  forall a s', posix place pid (Write fd data) s a s' ->
    a_ret a = Z.of_nat (length data) /\ moved (off' + length data) s' /\
    agree U len s' (<[p := (Some (File (overwrite c off' data)), S)]> g).
Proof.
  intros Hp Hd Hl. pose proof (agree_lookup _ _ _ _ _ _ _ Hag Hp) as Hn.
  split; [split; [eexists _, _; by apply (px_write _ _ _ _ _ p off app c 0)|done]|].
  intros a s' H. inversion H as [| | | | | |? ? ? ? ? ? ? ? Ho' Hn'| | | | | | | |]; subst. rewrite Ho in Ho'. injection Ho' as <- <- <-.
  rewrite Hn in Hn'. injection Hn' as <-. split_and!; [done..|].
  eapply agree_move; [|exact Ho|done]. apply (agree_node _ _ s g p (Some (File c)) S); [done..|]. by intros c' [= <-].
Qed.

Lemma read_posix n c S : g !! p = Some (Some (File c), S) -> 0 < n ->
  covered place pid (Read fd n) s /\
  forall a s', posix place pid (Read fd n) s a s' ->
    a_data a = take (Z.to_nat n) (drop off c) /\ a_ret a = Z.of_nat (length (a_data a)) /\
    moved (off + length (a_data a)) s' /\ agree U len s' g.
Proof.
  intros Hp Hn0. pose proof (agree_lookup _ _ _ _ _ _ _ Hag Hp) as Hn.
  split; [split; [eexists _, _; by eapply (px_read _ _ _ _ n p off app c 0)|done]|].
  intros a s' H. inversion H as [| | | | | | |? ? ? ? ? ? ? ? ? Ho' Hn'| | | | | | |]; subst. rewrite Ho in Ho'. injection Ho' as <- <- <-.
  rewrite Hn in Hn'. injection Hn' as <-. split_and!; [done..|]. by eapply agree_move.
Qed.

Lemma lseek_posix o : 0 <= o ->
  covered place pid (Lseek fd o) s /\
  forall a s', posix place pid (Lseek fd o) s a s' -> a_ret a = o /\ moved (Z.to_nat o) s' /\ agree U len s' g.
Proof.
  intros H0. split; [split; [eexists _, _; by eapply (px_lseek _ _ _ _ _ p off app 0)|done]|].
  intros a s' H. inversion H as [| | | | | | | |? ? ? ? ? ? ? Ho'| | | | | |]; subst. rewrite Ho in Ho'. injection Ho' as <- <- <-.
  split_and!; [done..|]. by eapply agree_move.
Qed.

Lemma fsync_posix :
  covered place pid (Fsync fd) s /\
  forall a s', posix place pid (Fsync fd) s a s' -> a_ret a = 0 /\ s' = s.
Proof.
  split; [split; [eexists _, _; by eapply (px_fsync _ _ _ _ _ 0)|done]|]. intros a s' H. by inversion H.
Qed.

Lemma close_posix x S : g !! p = Some (x, S) ->
  covered place pid (Close fd) s /\
  forall a s', posix place pid (Close fd) s a s' ->
    a_ret a = 0 /\ ofiles s' = delete (pid, fd) (ofiles s) /\ agree U len s' (<[p := (x, S ∖ {[(pid, fd)]})]> g).
Proof.
  intros Hp. split; [split; [eexists _, _; by eapply (px_close _ _ _ _ _ 0)|done]|].
  intros a s' H. inversion H; subst. split_and!; [done..|]. by apply (agree_close _ _ s g pid fd _ x S Hag Ho).
Qed.
End descriptor.

Lemma unlink_posix p c : g !! place p = Some (Some (File c), ∅) ->
  covered place pid (Unlink p) s /\
  forall a s', posix place pid (Unlink p) s a s' ->
    a_ret a = 0 /\ ofiles s' = ofiles s /\ agree U len s' (<[place p := (None, ∅)]> g).
Proof.
  intros Hp. pose proof (agree_lookup _ _ _ _ _ _ _ Hag Hp) as Hn.
  split; [split; [eexists _, _; by apply (px_unlink _ _ _ _ c 0)|by apply (agree_nobody _ _ _ _ _ _ Hag Hp)]|].
  intros a s' H. inversion H; subst. split_and!; [done..|]. by eapply agree_gone.
Qed.

Lemma mkdir_posix p S : g !! place p = Some (None, S) -> in_dir s (place p) ->
  covered place pid (Mkdir p) s /\
  forall a s', posix place pid (Mkdir p) s a s' ->
    a_ret a = 0 /\ ofiles s' = ofiles s /\ agree U len s' (<[place p := (Some Dir, S)]> g).
Proof.
  intros Hp Hd. pose proof (agree_lookup _ _ _ _ _ _ _ Hag Hp) as Hn.
  split; [split; [eexists _, _; by apply (px_mkdir _ _ _ _ 0)|done]|].
  intros a s' H. inversion H; subst. split_and!; [done..|]. by eapply agree_node.
Qed.

Lemma access_posix p n S : g !! place p = Some (Some n, S) ->
  covered place pid (Access p) s /\
  forall a s', posix place pid (Access p) s a s' -> a_ret a = 0 /\ s' = s.
Proof.
  intros Hp. pose proof (agree_lookup _ _ _ _ _ _ _ Hag Hp) as Hn.
  split; [split; [eexists _, _; by apply (px_access _ _ _ _ n 0)|done]|]. intros a s' H. by inversion H.
Qed.

(** [X] has all the names that directory [d] may have. *)
Definition all_names (d : path) (X : gset path) : Prop :=
  (forall n, n ∈ X -> n <> [] /\ slash ∉ n /\ visible n) /\
  forall n, n <> [] -> slash ∉ n -> visible n -> join d n ∈ U -> n ∈ X.

Definition present (d : path) (X : gset path) : list path :=
  filter (fun n => is_Some (nodes s !! join d n)) (elements X).

Lemma present_spec d X n : all_names d X -> n <> [] -> slash ∉ n -> visible n ->
  n ∈ present d X <-> is_Some (nodes s !! join d n).
Proof.
  intros [_ HX] Hn Hs Hv. unfold present. rewrite list_elem_of_filter, elem_of_elements. split; [tauto|].
  intros H. split; [done|]. apply HX; [done..|]. apply (agree_bounded _ _ _ _ Hag). by apply elem_of_dom.
Qed.

Lemma readdir_posix p X S : g !! place p = Some (Some Dir, S) -> all_names (place p) X ->
  covered place pid (Readdir p) s /\
  forall a s', posix place pid (Readdir p) s a s' ->
    a_ret a = 0 /\ s' = s /\ filter visible (a_names a) ≡ₚ present (place p) X.
Proof.
  intros Hp HX. pose proof (agree_lookup _ _ _ _ _ _ _ Hag Hp) as Hn.
  assert (Hmem : forall n, n ∈ present (place p) X -> n <> [] /\ slash ∉ n /\ visible n).
  { intros n Hn'. unfold present in Hn'. rewrite list_elem_of_filter, elem_of_elements in Hn'. apply (proj1 HX), Hn'. }
  assert (Hnd : NoDup (present (place p) X)) by apply NoDup_filter, NoDup_elements.
  split; [split; [|done]|].
  - eexists _, _. apply (px_readdir _ _ _ _ 0 (present (place p) X)); [done| |].
    + split; [by apply NoDup_filter|]. intros n Hv Hn1 Hs. by apply present_spec.
    + apply Forall_forall. intros n Hn1%Hmem. naive_solver.
  - intros a s' H. inversion H as [| | | | | | | | | | | | | |? ? ? l Hd [Hnd' Hl] Hpl]; subst. split_and!; [done..|].
    cbn [a_names]. apply NoDup_Permutation; [done..|]. intros n. rewrite list_elem_of_filter. split.
    + intros [Hv Hin]. unfold plain_names in Hpl. rewrite Forall_forall in Hpl. destruct (Hpl n Hin).
      apply present_spec; [done..|]. by apply Hl.
    + intros Hin. destruct (Hmem n Hin) as (? & ? & ?). split; [done|]. rewrite Hl by done. by apply (present_spec _ X).
Qed.
End calls.

(** ** Listings *)

Lemma adjacent_dup_NoDup l : NoDup l -> adjacent_dup l = false.
Proof.
  induction l as [|x [|y l] IH]; [done..|]. intros [Hx Hl]%NoDup_cons. cbn [adjacent_dup].
  rewrite bool_decide_false by set_solver. by apply IH.
Qed.
