(* ===== verification/FsTestEnds.v ===== *)
(** * FsTestEnds: every run of a test ends

    [within p n]: program [p] and the processes it starts take at most [n] steps, whatever
    the kernel answers.  The processes form a tree in which a child comes after its parent,
    so somebody can always go on. *)

From Stdlib Require Import ZArith Lia.
From S2P Require Import Prelude CppString FsTest.
Import Names.
#[local] Set Default Goal Selector "!".

(** ** Bounds *)

Inductive within {A} : prog A -> nat -> Prop :=
| in_ret a n : within (Ret a) n
| in_exit c n : within (Exit c) n
| in_undefined n : within Undefined n
| in_sys e k n m : (forall r, within (k r) n) -> (S n <= m)%nat -> within (Sys e k) m
| in_fork k n m : (forall r, within (k r) n) -> (2 * n + 2 <= m)%nat -> within (Fork k) m
| in_wait q k n m : (forall r, within (k r) n) -> (S n <= m)%nat -> within (Waitpid q k) m.

Lemma within_mono {A} (p : prog A) n m : within p n -> (n <= m)%nat -> within p m.
Proof. intros H Hm. destruct H; econstructor; eauto; lia. Qed.

Definition bind_bound (n m : nat) : nat := ((n + 1) * (m + 2))%nat.

Lemma within_bind {A B} (p : prog A) (f : A -> prog B) n m :
  within p n -> (forall a, within (f a) m) -> within (p ≫= f) (bind_bound n m).
Proof.
  intros H Hf. unfold bind_bound. induction H as [a n|c n|n|e k n n' _ IH Hn|k n n' _ IH Hn|q k n n' _ IH Hn]; cbn [mbind prog_bind].
  - apply (within_mono _ m); [apply Hf|]. nia.
  - constructor.
  - constructor.
  - eapply in_sys; [exact IH|]. nia.
  - eapply in_fork; [exact IH|]. nia.
  - eapply in_wait; [exact IH|]. nia.
Qed.

Lemma within_sys e : within (sys e) 1.
Proof. apply (in_sys _ _ 0); [|lia]. intros r. constructor. Qed.
Lemma within_fork : within fork 2.
Proof. apply (in_fork _ 0); [|lia]. intros r. constructor. Qed.
Lemma within_waitpid q : within (waitpid q) 1.
Proof. apply (in_wait _ _ 0); [|lia]. intros r. constructor. Qed.
Lemma within_if {A} (b : bool) (p q : prog A) n m : within p n -> within q m -> within (if b then p else q) (Nat.max n m).
Proof. intros Hp Hq. destruct b; eapply within_mono; eauto; lia. Qed.
Lemma within_pair {A B C} (x : A * B) (f : A -> B -> prog C) n :
  (forall a b, within (f a b) n) -> within (let '(a, b) := x in f a b) n.
Proof. by destruct x. Qed.

(** Finding a bound by following the program. *)
Ltac bound :=
  lazymatch goal with
  | |- within (Ret _) _ => apply (in_ret _ 0)
  | |- within (Exit _) _ => apply (in_exit _ 0)
  | |- within Undefined _ => apply (in_undefined 0)
  | |- within (sys _) _ => apply within_sys
  | |- within fork _ => apply within_fork
  | |- within (waitpid _) _ => apply within_waitpid
  | |- within (_ ≫= _) _ => eapply within_bind; [bound|intros ?; bound]
  | |- within (if _ then _ else _) _ => eapply within_if; bound
  | |- within (match ?x with (_, _) => _ end) _ => eapply within_pair; intros ? ?; bound
  | |- _ => eauto with bounds
  end.
Create HintDb bounds.

Lemma within_exit_if b : within (exit_if b) 0.
Proof. destruct b; constructor. Qed.
Lemma within_sprintf s : within (sprintf512 s) 0.
Proof. unfold sprintf512. destruct (_ <? _); constructor. Qed.
#[export] Hint Resolve within_exit_if within_sprintf : bounds.

(** ** The functions *)

Lemma create1_ends : exists n, forall d f inp, within (create1 d f inp) n.
Proof. eexists. intros d f inp. unfold create1. bound. Qed.
Lemma check1_ends : exists n, forall d f inp, within (check1 d f inp) n.
Proof. eexists. intros d f inp. unfold check1. bound. Qed.
Lemma unlink1_ends : exists n, forall d f, within (unlink1 d f) n.
Proof. eexists. intros d f. unfold unlink1. bound. Qed.
Lemma checknot_ends : exists n, forall d f, within (checknot d f) n.
Proof. eexists. intros d f. unfold checknot. bound. Qed.
Lemma append1_ends : exists n, forall d f inp, within (append1 d f inp) n.
Proof. eexists. intros d f inp. unfold append1. bound. Qed.
Lemma dircheck_ends : exists n, forall d nf, within (dircheck d nf) n.
Proof. eexists. intros d nf. unfold dircheck. bound. Qed.
Lemma reap_ends : exists n, forall pid, within (reap pid) n.
Proof. eexists. intros pid. unfold reap. bound. Qed.
Lemma one_dir_ends : exists n, forall argv1 argv2 pid, within (one_dir argv1 argv2 pid) n.
Proof. eexists. intros argv1 argv2 pid. unfold one_dir. bound. Qed.

Lemma createn_ends n : exists b, forall d prefix dup i, within (createn_loop d prefix dup i n) b.
Proof. induction n as [|n [b IH]]; eexists; intros d prefix dup i; cbn [createn_loop]; bound. Qed.
Lemma checkn_ends n : exists b, forall d prefix i, within (checkn_loop d prefix i n) b.
Proof. induction n as [|n [b IH]]; eexists; intros d prefix i; cbn [checkn_loop]; bound. Qed.
Lemma unlinkn_ends n : exists b, forall d prefix i, within (unlinkn_loop d prefix i n) b.
Proof. induction n as [|n [b IH]]; eexists; intros d prefix i; cbn [unlinkn_loop]; bound. Qed.
Lemma write1_loop_ends n : exists b, forall fd c, within (write1_loop fd n c) b.
Proof. induction n as [|n [b IH]]; eexists; intros fd c; cbn [write1_loop]; bound. Qed.
Lemma checkread_loop_ends n : exists b, forall fd c, within (checkread_loop fd n c) b.
Proof. induction n as [|n [b IH]]; eexists; intros fd c; cbn [checkread_loop]; bound. Qed.
Lemma write1_ends n : exists b, forall d f start c, within (write1 d f start n c) b.
Proof. destruct (write1_loop_ends n) as [b Hb]. eexists. intros d f start c. unfold write1. bound. Qed.
Lemma checkread_ends n : exists b, forall d f start c, within (checkread d f start n c) b.
Proof. destruct (checkread_loop_ends n) as [b Hb]. eexists. intros d f start c. unfold checkread. bound. Qed.

(** ** The parts and the programs *)

(** The bounds of the functions that a part calls. *)
#[local] Opaque create1 check1 unlink1 checknot append1 dircheck reap one_dir createn_loop checkn_loop unlinkn_loop
  write1 checkread exit_if sprintf512.
Ltac know H := let n := fresh "n" in destruct H as [n ?].

Lemma create_then_read_ends : exists n, forall d1 d2, within (create_then_read d1 d2) n.
Proof.
  know create1_ends. know check1_ends.
  eexists. intros d1 d2. unfold create_then_read, fork_child, createn, checkn, unlinkn. bound.
Qed.
Lemma unlink_part_ends : exists n, forall d1 d2, within (unlink_part d1 d2) n.
Proof.
  know create1_ends. know check1_ends. know unlink1_ends. know checknot_ends.
  eexists. intros d1 d2. unfold unlink_part, fork_child, createn, checkn, unlinkn. bound.
Qed.
Lemma append_part_ends : exists n, forall d1 d2, within (append_part d1 d2) n.
Proof.
  know create1_ends. know check1_ends. know append1_ends.
  eexists. intros d1 d2. unfold append_part, fork_child, createn, checkn, unlinkn. bound.
Qed.
Lemma readdir_part_ends : exists n, forall d1 d2, within (readdir_part d1 d2) n.
Proof.
  know create1_ends. know unlink1_ends. know dircheck_ends.
  eexists. intros d1 d2. unfold readdir_part, fork_child, createn, checkn, unlinkn. bound.
Qed.
Lemma many_creates_ends : exists n, forall d1 d2, within (many_creates d1 d2) n.
Proof.
  know (createn_ends 10). know (checkn_ends 10). know (unlinkn_ends 10). know dircheck_ends.
  eexists. intros d1 d2. unfold many_creates, fork_child, createn, checkn, unlinkn. bound.
Qed.
Lemma write_20000_ends : exists n, forall d1 d2, within (write_20000 d1 d2) n.
Proof.
  know create1_ends. know check1_ends. know unlink1_ends.
  eexists. intros d1 d2. unfold write_20000, fork_child, createn, checkn, unlinkn. bound.
Qed.
Lemma concurrent_creates_ends : exists n, forall d1 d2, within (concurrent_creates d1 d2) n.
Proof.
  know (createn_ends 10). know (checkn_ends 10). know (unlinkn_ends 10). know dircheck_ends. know reap_ends.
  eexists. intros d1 d2. unfold concurrent_creates, fork_child, createn, checkn, unlinkn. bound.
Qed.
Lemma concurrent_same_ends : exists n, forall d1 d2, within (concurrent_same d1 d2) n.
Proof.
  know (createn_ends 10). know (checkn_ends 10). know (unlinkn_ends 10). know dircheck_ends. know reap_ends.
  eexists. intros d1 d2. unfold concurrent_same, fork_child, createn, checkn, unlinkn. bound.
Qed.
Lemma create_delete_ends : exists n, forall d1 d2, within (create_delete d1 d2) n.
Proof.
  know (createn_ends 5). know (unlinkn_ends 5). know dircheck_ends. know reap_ends.
  eexists. intros d1 d2. unfold create_delete, fork_child, createn, checkn, unlinkn. bound.
Qed.
Lemma concurrent_same_server_ends : exists n, forall d1, within (concurrent_same_server d1) n.
Proof.
  know (createn_ends 10). know (checkn_ends 10). know (unlinkn_ends 10). know dircheck_ends. know reap_ends.
  eexists. intros d1. unfold concurrent_same_server, fork_child, createn, checkn, unlinkn. bound.
Qed.
Lemma concurrent_writes_ends : exists n, forall d1 d2, within (concurrent_writes d1 d2) n.
Proof.
  know create1_ends. know (write1_ends 64). know (checkread_ends 64). know reap_ends.
  eexists. intros d1 d2. unfold concurrent_writes, fork_child, createn, checkn, unlinkn. bound.
Qed.

#[local] Opaque create_then_read unlink_part append_part readdir_part many_creates write_20000 concurrent_creates
  concurrent_same create_delete concurrent_same_server concurrent_writes.
Lemma part1_g_ends argv1 argv2 pid : exists n, within (part1_g argv1 argv2 pid) n.
Proof.
  know one_dir_ends. know create_then_read_ends. know unlink_part_ends. know append_part_ends. know readdir_part_ends.
  know many_creates_ends. know write_20000_ends. eexists. unfold part1_g. bound.
Qed.
Lemma part2_a_ends argv1 argv2 pid : exists n, within (part2_a argv1 argv2 pid) n.
Proof.
  know one_dir_ends. know concurrent_creates_ends. know concurrent_same_ends. know create_delete_ends.
  know concurrent_same_server_ends. know concurrent_writes_ends. eexists. unfold part2_a. bound.
Qed.
Lemma lab3_a_ends argv1 argv2 pid : exists n, within (lab3_a argv1 argv2 pid) n.
Proof.
  know one_dir_ends. know create_then_read_ends. know unlink_part_ends. know append_part_ends. know readdir_part_ends.
  know many_creates_ends. know write_20000_ends. know concurrent_creates_ends. know concurrent_same_ends. know create_delete_ends.
  know concurrent_same_server_ends. know concurrent_writes_ends. eexists. unfold lab3_a. bound.
Qed.
Lemma two_dirs_ends n argv1 argv2 pid : exists b, within (two_dirs n argv1 argv2 pid) b.
Proof.
  know (createn_ends n). know (unlinkn_ends (n - 1)). know dircheck_ends. know reap_ends.
  eexists. unfold two_dirs, fork_child, createn, unlinkn. bound.
Qed.

(** ** Every run is finite *)

Section run.
Context {W : Type} (kern : Z -> syscall -> W -> result (answer * W)).

Definition proc_cost (p : proc) (n : nat) : Prop :=
  match p with Running _ prg => exists k, n = S k /\ within prg k | Gone _ => n = O end.
Definition costs (l : list proc) (n : nat) : Prop := exists ns, Forall2 proc_cost l ns /\ sum_list ns = n.

Lemma proc_step_cost p m p' m' new n : proc_step kern p m p' m' new -> proc_cost p n ->
  exists n' ns, proc_cost p' n' /\ Forall2 proc_cost new ns /\ (n' + sum_list ns < n)%nat.
Proof.
  intros Hs. destruct Hs; cbn [proc_cost]; intros (b & -> & Hb); inversion Hb as [| | |? ? n ? Hk|? n ? Hk|? ? n ? Hk]; subst.
  - exists (S n), []. repeat split; [eauto|constructor|cbn; lia].
  - exists (S n), [S n]. repeat split; [eauto|repeat constructor; cbn; eauto|cbn; lia].
  - exists (S n), []. repeat split; [eauto|constructor|cbn; lia].
  - exists (S n), []. repeat split; [eauto|constructor|cbn; lia].
  - exists O, []. repeat split; [constructor|cbn; lia].
  - exists O, []. repeat split; [constructor|cbn; lia].
Qed.

Lemma run_step_costs l m c' n : run_step kern (l, m) c' -> costs l n -> exists n', (n' < n)%nat /\ costs c'.1 n'.
Proof.
  intros Hs (ns & Hf & <-). inversion Hs as [l1 l2 p m1 p' m' new Hp]; subst.
  apply Forall2_app_inv_l in Hf as (ns1 & ns2 & Hf1 & Hf2 & ->). apply Forall2_cons_inv_l in Hf2 as (n & ns3 & Hn & Hf2 & ->).
  destruct (proc_step_cost _ _ _ _ _ _ Hp Hn) as (n' & ns' & Hn' & Hnew & Hlt).
  exists (sum_list (ns1 ++ n' :: ns3 ++ ns')). split.
  - rewrite !sum_list_with_app. cbn. rewrite !sum_list_with_app. lia.
  - eexists. split; [|done]. cbn [fst]. apply Forall2_app; [done|]. constructor; [done|]. by apply Forall2_app.
Qed.

Lemma runs_end l m n : costs l n -> Acc (flip (run_step kern)) (l, m).
Proof.
  revert l m. induction n as [n IH] using lt_wf_ind. intros l m Hc. constructor. intros [l' m'] Hs.
  destruct (run_step_costs _ _ _ _ Hs Hc) as (n' & Hlt & Hc'). by apply (IH n').
Qed.

(** ** Somebody can go on *)

Definition running (l : list proc) (i : nat) (q : Z) : Prop := exists p, l !! i = Some (Running q p).

Record tree (l : list proc) (ps : gmap Z (Z * option Z)) : Prop := {
  tr_known : forall i q, running l i q -> exists par, ps !! q = Some (par, None);
  tr_there : forall q par, ps !! q = Some (par, None) -> exists i, running l i q;
  tr_once : forall i j q, running l i q -> running l j q -> i = j;
  tr_order : forall i j p q, running l i p -> running l j q -> ps !! q = Some (p, None) -> (i < j)%nat;
}.

Lemma running_app l l' j q : running (l ++ l') j q <-> running l j q \/ exists k, j = (length l + k)%nat /\ running l' k q.
Proof.
  unfold running. split.
  - intros [p [H|[Hl H]]%lookup_app_Some]; [eauto|]. right. exists (j - length l)%nat. split; [lia|eauto].
  - intros [[p H]|(k & -> & [p H])]; exists p; apply lookup_app_Some; [by left|]. right. split; [lia|].
    by replace (length l + k - length l)%nat with k by lia.
Qed.

Lemma running_middle l1 l2 p j q :
  running (l1 ++ p :: l2) j q <->
  (j = length l1 /\ exists prg, p = Running q prg) \/ (j <> length l1 /\ (running l1 j q \/ exists k, j = S (length l1 + k) /\ running l2 k q)).
Proof.
  rewrite running_app. unfold running. split.
  - intros [[x H]|(k & -> & x & H)].
    + right. pose proof (lookup_lt_Some _ _ _ H). split; [lia|eauto].
    + destruct k as [|k]; cbn in H; [left; split; [lia|naive_solver]|]. right. split; [lia|]. right. exists k. split; [lia|eauto].
  - intros [(-> & prg & ->)|(Hj & [[x H]|(k & -> & x & H)])].
    + right. exists O. split; [lia|]. by eexists.
    + left. eauto.
    + right. exists (S k). split; [lia|eauto].
Qed.

(** Who runs after a step. *)
Lemma running_step l1 l2 p p' new j q :
  running (l1 ++ p' :: l2 ++ new) j q <->
  (j = length l1 /\ exists prg, p' = Running q prg) \/ (j <> length l1 /\ running (l1 ++ p :: l2) j q) \/
  (exists k, j = (length (l1 ++ p :: l2) + k)%nat /\ running new k q).
Proof.
  rewrite app_comm_cons, app_assoc, running_app, !running_middle, !length_app. cbn [length]. intuition.
Qed.

Lemma running_here l1 l2 pid prg j q : running (l1 ++ Running pid prg :: l2) j q -> j = length l1 -> q = pid.
Proof. intros [[_ [prg' E]]|[? _]]%running_middle Hj; [by injection E|done]. Qed.

Lemma running_same l1 l2 pid prg prg' j q :
  running (l1 ++ Running pid prg' :: l2 ++ []) j q <-> running (l1 ++ Running pid prg :: l2) j q.
Proof. rewrite app_nil_r, !running_middle. naive_solver. Qed.

Lemma running_gone l1 l2 pid prg c j q : (forall i, running (l1 ++ Running pid prg :: l2) i pid -> i = length l1) ->
  running (l1 ++ Gone c :: l2 ++ []) j q <-> running (l1 ++ Running pid prg :: l2) j q /\ q <> pid.
Proof.
  intros Honce. rewrite (running_step l1 l2 (Running pid prg)). split.
  - intros [(_ & prg' & [=])|[[Hj H]|(k & _ & x & [=])]]. split; [done|]. intros ->. by apply Hj, Honce.
  - intros [H Hq]. right. left. split; [|done]. intros Hj. by apply Hq, (running_here _ _ _ _ _ _ H).
Qed.

Lemma running_forked l1 l2 pid prg prg' child prg0 j q :
  running (l1 ++ Running pid prg' :: l2 ++ [Running child prg0]) j q <->
  running (l1 ++ Running pid prg :: l2) j q \/ (j = length (l1 ++ Running pid prg :: l2) /\ q = child).
Proof.
  rewrite (running_step l1 l2 (Running pid prg)). split.
  - intros [(-> & prg1 & [= -> ->])|[[Hj H]|(k & -> & x & H)]].
    + left. apply running_middle. left. eauto.
    + by left.
    + right. destruct k as [|k]; [|done]. injection H as -> ->. split; [lia|done].
  - intros [H|[-> ->]].
    + destruct (decide (j = length l1)) as [->|]; [|by right; left]. left. split; [done|].
      rewrite (running_here _ _ _ _ _ _ H eq_refl). eauto.
    + right. right. exists O. split; [lia|]. by eexists.
Qed.

Lemma tree_same l l' ps ps' :
  (forall j q, running l' j q <-> running l j q) -> (forall q par, ps' !! q = Some (par, None) <-> ps !! q = Some (par, None)) ->
  tree l ps -> tree l' ps'.
Proof.
  intros Hr Hp [T1 T2 T3 T4]. split.
  - intros i q [par H]%Hr%T1. exists par. by apply Hp.
  - intros q par [i H]%Hp%T2. exists i. by apply Hr.
  - intros i j q H1%Hr H2%Hr. by apply (T3 i j q).
  - intros i j p q H1%Hr H2%Hr H%Hp. by apply (T4 i j p q).
Qed.

Lemma tree_exit l l' ps pid par c :
  (forall j q, running l' j q <-> running l j q /\ q <> pid) -> tree l ps -> tree l' (<[pid := (par, Some c)]> ps).
Proof.
  intros Hr [T1 T2 T3 T4].
  assert (Hp : forall q par', <[pid := (par, Some c)]> ps !! q = Some (par', None) <-> ps !! q = Some (par', None) /\ q <> pid).
  { intros q par'. rewrite lookup_insert_Some. naive_solver. }
  split.
  - intros i q [H Hq]%Hr. destruct (T1 i q H) as [par' Hpar]. exists par'. by apply Hp.
  - intros q par' [H Hq]%Hp. destruct (T2 q par' H) as [i Hi]. exists i. by apply Hr.
  - intros i j q [H1 _]%Hr [H2 _]%Hr. by apply (T3 i j q).
  - intros i j p q [H1 _]%Hr [H2 _]%Hr [H _]%Hp. by apply (T4 i j p q).
Qed.

Lemma tree_fork l l' ps pid child i :
  (forall j q, running l' j q <-> running l j q \/ (j = length l /\ q = child)) ->
  running l i pid -> ps !! child = None -> (forall q o, ps !! q <> Some (child, o)) ->
  tree l ps -> tree l' (<[child := (pid, None)]> ps).
Proof.
  intros Hr Hi Hc Hpar [T1 T2 T3 T4].
  assert (Hlt : forall j q, running l j q -> (j < length l)%nat) by (intros j q [x H]; by apply lookup_lt_Some in H).
  assert (Hne : forall j q, running l j q -> q <> child) by (intros j q [par H]%T1 ->; congruence).
  split.
  - intros j q [H|[_ ->]]%Hr; [|rewrite lookup_insert_eq; eauto].
    rewrite lookup_insert_ne by (apply not_eq_sym; by eapply Hne). by eapply T1.
  - intros q par [[<- _]|[_ H]]%lookup_insert_Some; [exists (length l); apply Hr; by right|].
    destruct (T2 q par H) as [j Hj]. exists j. apply Hr. by left.
  - intros j k q [H1|[-> ->]]%Hr [H2|[-> E]]%Hr; [by apply (T3 j k q)| | |done].
    + subst q. by destruct (Hne j child H1).
    + by destruct (Hne k child H2).
  - intros j k p q [H1|[-> ->]]%Hr [H2|[-> ->]]%Hr [[E E2]|[_ H]]%lookup_insert_Some.
    + subst q. by destruct (Hne k child H2).
    + by apply (T4 j k p q).
    + by apply Hlt in H1.
    + congruence.
    + subst q. by destruct (Hne k child H2).
    + by destruct (Hpar q None).
    + injection E2 as <-. by destruct (Hne i pid Hi).
    + by destruct (Hpar child None).
Qed.

Lemma tree_step l m c' : run_step kern (l, m) c' -> tree l (m_procs m) -> tree c'.1 (m_procs c'.2).
Proof.
  intros Hs HT. inversion Hs as [l1 l2 p m1 p' m' new Hp]; subst. cbn [fst snd].
  destruct Hp as [pid e k w ps a w' E|pid k w ps child H0 Hc Hpar|pid q k w ps c Hq|pid q k w ps Hno|pid c w ps par Hpar|pid w ps par Hpar];
    cbn [m_procs] in *.
  - eapply tree_same; [|done|exact HT]. intros j q. apply running_same.
  - eapply tree_fork; [| |done..|exact HT]; [intros j q; apply running_forked|]. apply running_middle. left. eauto.
  - eapply tree_same; [| |exact HT]; [intros j q'; apply running_same|]. intros q' par. rewrite lookup_delete_Some. naive_solver.
  - eapply tree_same; [|done|exact HT]. intros j q'. apply running_same.
  - eapply tree_exit; [|exact HT]. intros j q. apply running_gone. intros i Hi. eapply (tr_once _ _ HT); [exact Hi|]. apply running_middle. left. eauto.
  - eapply tree_exit; [|exact HT]. intros j q. apply running_gone. intros i Hi. eapply (tr_once _ _ HT); [exact Hi|]. apply running_middle. left. eauto.
Qed.

Lemma tree_start pid p : 0 < pid -> tree [Running pid p] {[pid := (0, None)]}.
Proof.
  intros Hpid. assert (H : forall i q, running [Running pid p] i q -> i = O /\ q = pid).
  { intros [|i] q [x E]; cbn in E; [|done]. naive_solver. }
  split.
  - intros i q [_ ->]%H. exists 0. by rewrite lookup_singleton_eq.
  - intros q par [<- _]%lookup_singleton_Some. exists O. by eexists.
  - intros i j q [-> _]%H [-> _]%H. done.
  - intros i j p' q [_ ->]%H [_ ->]%H [_ [= ?]]%lookup_singleton_Some. lia.
Qed.

Definition gone (p : proc) : Prop := exists c, p = Gone c.

Lemma last_running l : Forall gone l \/ exists l1 pid prg l2, l = l1 ++ Running pid prg :: l2 /\ Forall gone l2.
Proof.
  induction l as [|p l [IH|(l1 & pid & prg & l2 & -> & H)]]; [by left| |right; by exists (p :: l1), pid, prg, l2].
  destruct p as [pid prg|c]; [right; by exists [], pid, prg, l|]. left. constructor; [by exists c|done].
Qed.

(** A process that can go on, waits for a child that runs, or has ended with status 0. *)
Definition fine (m : machine W) (p : proc) : Prop :=
  match p with
  | Gone c => c = 0
  | Running pid prg =>
      (exists p' m' new, proc_step kern p m p' m' new) \/
      (exists q k, prg = Waitpid q k /\ m_procs m !! q = Some (pid, None))
  end.

(** The last process that runs does not wait. *)
Lemma somebody_steps l m : tree l (m_procs m) -> Forall (fine m) l -> passed l \/ exists c', run_step kern (l, m) c'.
Proof.
  intros HT Hf. destruct (last_running l) as [H|(l1 & pid & prg & l2 & -> & H)].
  - left. apply Forall_forall. intros p Hp. rewrite Forall_forall in Hf, H. destruct (H p Hp) as [c ->].
    by rewrite (Hf _ Hp : c = 0).
  - right. apply Forall_app in Hf as [_ Hf]. apply Forall_cons in Hf as [[(p' & m' & new & Hs)|(q & k & -> & Hq)] _].
    + destruct m as [w ps]. eexists. by apply rs_proc.
    + exfalso. destruct (tr_there _ _ HT _ _ Hq) as [j Hj].
      assert (Hi : running (l1 ++ Running pid (Waitpid q k) :: l2) (length l1) pid) by (apply running_middle; left; eauto).
      pose proof (tr_order _ _ HT _ _ _ _ Hi Hj Hq) as Hlt.
      apply running_middle in Hj as [[-> _]|[_ [[x Hx]|(i & -> & x & Hx)]]]; [lia| |].
      * apply lookup_lt_Some in Hx. lia.
      * eapply Forall_lookup_1 in H; [|exact Hx]. by destruct H.
Qed.

(** Every run of [p] ends, with status 0 in every process. *)
Definition succeeds (c : list proc * machine W) : Prop :=
  Acc (flip (run_step kern)) c /\
  forall l m, rtc (run_step kern) c (l, m) -> passed l \/ exists c', run_step kern (l, m) c'.

Lemma fine_succeeds pid p w n : 0 < pid -> within p n ->
  (forall l m, rtc (run_step kern) (start pid p w) (l, m) -> Forall (fine m) l) -> succeeds (start pid p w).
Proof.
  intros Hpid Hn Hf. split.
  - apply (runs_end _ _ (S n)). exists [S n]. split; [|cbn; lia]. repeat constructor. cbn. eauto.
  - intros l m Hr. apply somebody_steps; [|by apply Hf].
    change (tree (l, m).1 (m_procs (l, m).2)). revert Hr.
    apply (rtc_invariant _ (fun c => tree c.1 (m_procs c.2))); [|by apply tree_start].
    intros [l1 m1] c2 Hs HT. by apply (tree_step l1 m1).
Qed.
End run.
