(* ===== verification/FsTestLogic.v ===== *)
(** * FsTestLogic: a separation logic for the processes of the tests

    The processes are a language of Iris over an arbitrary kernel that satisfies
    [KernelOK].  A process owns the files it uses: [node p x S] says that path [p] is
    [x] (or missing) and open at most in [S], [ofd pid fd o] that a descriptor is open.
    [wpp] is the weakest precondition of a program by recursion on the program;
    [wpp_WP] relates it to that of Iris, whose adequacy theorem then speaks of all
    interleavings. *)

From iris.proofmode Require Import proofmode.
From iris.base_logic.lib Require Import invariants ghost_map ghost_var token.
From iris.program_logic Require Import weakestpre lifting adequacy.
From S2P Require Import Prelude CppString FsTest FsTestSpec FsTestCells FsTestEnds.

(** ** The language *)

Section language.
Context {W : Type} (kern : Z -> syscall -> W -> result (answer * W)).

Definition to_code (p : proc) : option Z := if p is Gone c then Some c else None.

(** A wait that is not over goes on. *)
Definition lang_step (p : proc) (m : machine W) (obs : list unit) (p' : proc) (m' : machine W) (new : list proc) : Prop :=
  obs = [] /\
  (proc_step kern p m p' m' new \/
   exists pid q k, p = Running pid (Waitpid q k) /\ m_procs m !! q = Some (pid, None) /\ p' = p /\ m' = m /\ new = []).

Lemma proc_mixin : LanguageMixin Gone to_code lang_step.
Proof.
  split; [done|by intros [] v [= ->]|].
  intros p m obs p' m' new [_ [Hs|(pid & q & k & -> & _)]]; [|done]. by destruct Hs.
Qed.
Canonical Structure proc_lang := Language proc_mixin.
End language.

(** ** Ghost state *)

Class fsG Σ := FsG {
  fsG_inv :: invGS Σ;
  fsG_nodes :: ghost_mapG Σ path cell;
  fsG_ofiles :: ghost_mapG Σ (Z * Z) ofile;
  fsG_procs :: ghost_mapG Σ Z (Z * option Z);
  fsG_token :: tokenG Σ;
  fsG_stage :: ghost_varG Σ (nat * Z);
  γn : gname; γo : gname; γp : gname;
}.

Section logic.
Context {W : Type} (kern : Z -> syscall -> W -> result (answer * W)) (place : path -> path) (U : gset path) (len : nat).
Context `{HK : !KernelOK place kern U len} `{!fsG Σ}.
Implicit Types (pid q : Z) (s : fs) (x : option node) (S : gset (Z * Z)).

Definition file_interp s : iProp Σ :=
  ∃ g, ⌜agree U len s g⌝ ∗ ghost_map_auth γn 1 g ∗ ghost_map_auth γo 1 (ofiles s).

(** Every process that is gone has ended with status 0. *)
Definition machine_interp (m : machine W) : iProp Σ :=
  (∃ s, ⌜k_shows (m_fs m) s⌝ ∗ file_interp s) ∗ ghost_map_auth γp 1 (m_procs m) ∗
  ⌜forall pid par c, m_procs m !! pid = Some (par, Some c) -> c = 0⌝.

#[global] Instance fs_irisGS : irisGS (proc_lang kern) Σ := {
  iris_invGS := fsG_inv;
  state_interp m _ _ _ := machine_interp m;
  fork_post c := ⌜c = 0⌝%I;
  num_laters_per_step _ := 0%nat;
  state_interp_mono _ _ _ _ := fupd_intro _ _;
}.

Definition file_at (p : path) x S : iProp Σ := p ↪[γn] (x, S).
Definition ofd pid fd (o : ofile) : iProp Σ := (pid, fd) ↪[γo] o.
Definition is_dir (p : path) : iProp Σ := p ↪[γn]□ (Some Dir, ∅).
Definition process pid parent (o : option Z) : iProp Σ := pid ↪[γp] (parent, o).

#[global] Instance is_dir_persistent p : Persistent (is_dir p).
Proof. apply _. Qed.
#[global] Instance file_at_timeless p x S : Timeless (file_at p x S).
Proof. apply _. Qed.
#[global] Instance ofd_timeless pid fd o : Timeless (ofd pid fd o).
Proof. apply _. Qed.

(** ** Programs *)

(** A child [q] of [pid] that will leave [R] behind: the parent has the first token
    until it has waited, the child the second until it ends. *)
Definition joinN : namespace := nroot .@ "join".
Definition join_inv γ γ' pid q (R : iProp Σ) : iProp Σ :=
  (∃ o, process q pid o ∗ if o is Some _ then R ∗ token γ' else emp) ∨ token γ ∗ token γ'.
Definition child_of pid q (R : iProp Σ) : iProp Σ := ∃ γ γ', inv joinN (join_inv γ γ' pid q R) ∗ token γ.

Definition sys_ok pid (e : syscall) (Q : answer -> iProp Σ) : iProp Σ :=
  ∀ s, file_interp s ={⊤,∅}=∗
    ⌜covered place pid e s /\ forall a s', posix place pid e s a s' -> bounded U len s'⌝ ∗
    ∀ a s', ⌜posix place pid e s a s'⌝ ={∅,⊤}=∗ file_interp s' ∗ Q a.

Definition exit_ok pid (c : Z) : iProp Σ :=
  |={⊤,∅}=> ∃ par, process pid par None ∗ ⌜c = 0⌝ ∗ (process pid par (Some c) ={∅,⊤}=∗ True).

Fixpoint wpp {A} pid (p : prog A) (Q : A -> iProp Σ) {struct p} : iProp Σ :=
  match p with
  | Ret a => |={⊤}=> Q a
  | Exit c => exit_ok pid c
  | Undefined => |={⊤}=> False
  | Sys e k => sys_ok pid e (fun a => wpp pid (k a) Q)
  | Fork k => ∀ q, ⌜0 < q⌝ -∗ process q pid None ={⊤}=∗ wpp pid (k q) Q ∗ wpp q (k 0) (fun _ => False%I)
  | Waitpid q k => |={⊤}=> ∃ R, child_of pid q R ∗ (R ={⊤}=∗ wpp pid (k (q, 0)) Q)
  end.

Lemma sys_ok_mono pid e Q Q' : (∀ a, Q a -∗ Q' a) -∗ sys_ok pid e Q -∗ sys_ok pid e Q'.
Proof.
  iIntros "HQ H" (s) "Hs". iMod ("H" with "Hs") as "[$ H]". iIntros "!>" (a s' Hp).
  iMod ("H" $! a s' Hp) as "[$ H]". by iApply "HQ".
Qed.

Lemma fupd_wpp {A} pid (p : prog A) Q : (|={⊤}=> wpp pid p Q) ⊢ wpp pid p Q.
Proof.
  destruct p; cbn [wpp]; iIntros "H".
  - by iMod "H".
  - by iMod "H".
  - by iMod "H".
  - iIntros (s) "Hs". iMod "H". by iApply "H".
  - iIntros (q Hq) "Hp". iMod "H". by iApply "H".
  - by iMod "H".
Qed.

Lemma wpp_mono {A} pid (p : prog A) Q Q' : (∀ a, Q a -∗ Q' a) -∗ wpp pid p Q -∗ wpp pid p Q'.
Proof.
  revert pid Q Q'. induction p as [a|c| |e k IH|k IH|q k IH]; intros pid Q Q'; cbn [wpp]; iIntros "HQ H".
  - iMod "H". by iApply "HQ".
  - done.
  - done.
  - iApply (sys_ok_mono with "[HQ] H"). iIntros (a) "H". iApply (IH with "HQ H").
  - iIntros (q Hq) "Hp". iMod ("H" $! q Hq with "Hp") as "[H1 $]". iModIntro. iApply (IH with "HQ H1").
  - iMod "H" as (R) "[Hc H]". iModIntro. iExists R. iFrame "Hc". iIntros "HR". iMod ("H" with "HR") as "H".
    iModIntro. iApply (IH with "HQ H").
Qed.

Lemma wpp_bind {A B} pid (p : prog A) (f : A -> prog B) Q :
  wpp pid p (fun a => wpp pid (f a) Q) ⊢ wpp pid (p ≫= f) Q.
Proof.
  revert pid Q. induction p as [a|c| |e k IH|k IH|q k IH]; intros pid Q; cbn [wpp mbind prog_bind].
  - apply fupd_wpp.
  - done.
  - done.
  - iApply sys_ok_mono. iIntros (a). iApply IH.
  - iIntros "H" (q Hq) "Hp". iMod ("H" $! q Hq with "Hp") as "[H1 H2]". iModIntro.
    iSplitL "H1"; [by iApply IH|]. iApply IH. iApply (wpp_mono with "[] H2"). iIntros (a) "[]".
  - iIntros "H". iMod "H" as (R) "[Hc H]". iModIntro. iExists R. iFrame "Hc". iIntros "HR".
    iMod ("H" with "HR") as "H". iModIntro. by iApply IH.
Qed.

(** ** Soundness *)

Lemma fresh_pid (ps : gmap Z (Z * option Z)) :
  exists q, 0 < q /\ ps !! q = None /\ forall q' o, ps !! q' <> Some (q, o).
Proof.
  set (Y := dom ps ∪ list_to_set (fst <$> (map_to_list ps).*2)).
  set (X := set_map (fun z => Z.to_nat (z - 1)) Y : gset nat).
  assert (H : Z.of_nat (fresh X) + 1 ∉ Y).
  { intros H. apply (is_fresh X), elem_of_map. eexists. split; [|exact H]. lia. }
  apply not_elem_of_union in H as [H1 H2]. exists (Z.of_nat (fresh X) + 1). split_and!; [lia|by apply not_elem_of_dom|].
  intros q' o E. apply H2. apply elem_of_list_to_set, list_elem_of_fmap. eexists (_, o). split; [done|].
  apply list_elem_of_fmap. eexists (q', _). split; [done|]. by apply elem_of_map_to_list.
Qed.

Lemma exit_WP pid c : exit_ok pid c ⊢ WP (Running pid (Exit c) : expr (proc_lang kern)) {{ c, ⌜c = 0⌝ }}.
Proof.
  iIntros "H". iApply wp_lift_step; [done|]. iIntros ([w ps] ns κ κs nt) "Hm".
  iMod "H" as (par) "(Hp & -> & H)". iDestruct "Hm" as "(Hf & Ha & %Hz)".
  iDestruct (ghost_map_lookup with "Ha Hp") as %Hl. iModIntro. iSplit.
  { iPureIntro. exists [], (Gone 0), (mk_machine w (<[pid := (par, Some 0)]> ps)), [].
    split; [done|left]. by apply ps_exit. }
  iIntros "!>" (p' m' new [-> Hs]) "_".
  destruct Hs as [Hs|(? & ? & ? & [=] & _)]. inversion Hs; subst. cbn in Hl, Hz. simplify_eq.
  iMod (ghost_map_update (par, Some 0) with "Ha Hp") as "[Ha Hp]". iMod ("H" with "Hp") as "_".
  iModIntro. cbn [m_procs m_fs]. iFrame "Hf Ha". iSplit.
  { iPureIntro. intros q par' c' Hq. cbn [m_procs] in Hq, Hz.
    apply lookup_insert_Some in Hq as [[<- [= <- <-]]|[_ Hq]]; [done|by eapply Hz]. }
  iSplit; [|done]. iApply wp_value'. done.
Qed.

Lemma sys_WP pid e (k : answer -> prog unit) :
  sys_ok pid e (fun a => WP (Running pid (k a) : expr (proc_lang kern)) {{ c, ⌜c = 0⌝ }}) ⊢
  WP (Running pid (Sys e k) : expr (proc_lang kern)) {{ c, ⌜c = 0⌝ }}.
Proof.
  iIntros "H". iApply wp_lift_step; [done|]. iIntros ([w ps] ns κ κs nt) "((%s & %Hs & Hf) & Ha & %Hz)".
  iAssert ⌜bounded U len s⌝%I as %Hb.
  { iDestruct "Hf" as (g Hg) "_". iPureIntro. by eapply agree_bounded. }
  iMod ("H" with "Hf") as "[[%Hcov %Hbd] H]". iModIntro.
  destruct (k_serves pid e w s Hs Hb Hcov Hbd) as (a & w' & s' & E & Hp & Hs').
  iSplit.
  { iPureIntro. exists [], (Running pid (k a)), (mk_machine w' ps), []. split; [done|left]. by apply ps_sys. }
  iIntros "!>" (p' m' new [-> Hst]) "_".
  destruct Hst as [Hst|(? & ? & ? & [=] & _)]. inversion Hst as [? ? ? ? ? a' w'' E'| | | | |]; subst.
  rewrite E in E'. injection E' as <- <-.
  iMod ("H" $! a s' Hp) as "[Hf H]". iModIntro. iFrame "H". iSplit; [|done]. cbn [m_procs m_fs]. iFrame "Ha". iSplit; [|done].
  iExists s'. by iFrame "Hf".
Qed.

Lemma fork_WP pid (k : Z -> prog unit) :
  (∀ q, ⌜0 < q⌝ -∗ process q pid None ={⊤}=∗
    WP (Running pid (k q) : expr (proc_lang kern)) {{ c, ⌜c = 0⌝ }} ∗
    WP (Running q (k 0) : expr (proc_lang kern)) {{ c, ⌜c = 0⌝ }}) ⊢
  WP (Running pid (Fork k) : expr (proc_lang kern)) {{ c, ⌜c = 0⌝ }}.
Proof.
  iIntros "H". iApply wp_lift_step; [done|]. iIntros ([w ps] ns κ κs nt) "(Hf & Ha & %Hz)".
  iApply fupd_mask_intro; [set_solver|]. iIntros "Hclose". iSplit.
  { iPureIntro. destruct (fresh_pid ps) as (q & Hq & Hps & Hpar). eexists [], _, _, _. split; [done|left]. by apply (ps_fork _ _ _ _ _ q). }
  iIntros "!>" (p' m' new [-> Hst]) "_". iMod "Hclose" as "_".
  destruct Hst as [Hst|(? & ? & ? & [=] & _)]. inversion Hst as [|? ? ? ? q Hq Hps Hpar| | | |]; subst. cbn [m_procs m_fs] in *.
  iMod (ghost_map_insert q (pid, None) with "Ha") as "[Ha Hp]"; [done|].
  iMod ("H" $! q Hq with "Hp") as "[H1 H2]". iModIntro. iFrame "H1 H2". iSplit; [|done]. cbn [m_procs m_fs]. iFrame "Hf Ha".
  iPureIntro. intros q' par' c' Hl. cbn [m_procs] in Hl. apply lookup_insert_Some in Hl as [[_ [=]]|[_ Hl]]. by eapply Hz.
Qed.

Lemma wait_WP pid q R (k : Z * Z -> prog unit) :
  child_of pid q R ∗ (R ={⊤}=∗ WP (Running pid (k (q, 0)) : expr (proc_lang kern)) {{ c, ⌜c = 0⌝ }}) ⊢
  WP (Running pid (Waitpid q k) : expr (proc_lang kern)) {{ c, ⌜c = 0⌝ }}.
Proof.
  iIntros "[(%γ & %γ' & #Hi & Ht) H]". iLöb as "IH".
  iApply wp_lift_step; [done|]. iIntros ([w ps] ns κ κs nt) "(Hf & Ha & %Hz)".
  iInv "Hi" as "[(%o & >Hp & HR)|>[Ht' _]]" "Hclose"; last first.
  { iDestruct (token_exclusive with "Ht Ht'") as "[]". }
  iDestruct (ghost_map_lookup with "Ha Hp") as %Hl. cbn [m_procs] in Hl, Hz.
  iApply fupd_mask_intro; [set_solver|]. iIntros "Hm". destruct o as [c|].
  - pose proof (Hz _ _ _ Hl) as ->. iSplit.
    { iPureIntro. eexists [], _, _, _. split; [done|left]. by eapply ps_wait. }
    iIntros "!>" (p' m' new [-> Hst]) "_". iMod "Hm" as "_".
    destruct Hst as [Hst|(? & ? & ? & [= -> ->] & ? & _)]; [|cbn in *; congruence].
    inversion Hst as [| |? ? ? ? ? c|? ? ? ? ? Hno| |]; subst; [|by destruct (Hno _ Hl)].
    assert (c = 0) as -> by congruence.
    iDestruct "HR" as "[HR Ht']".
    iMod (ghost_map_delete with "Ha Hp") as "Ha". iMod ("Hclose" with "[Ht Ht']") as "_"; [iRight; by iFrame|].
    iMod ("H" with "HR") as "H". iModIntro. iFrame "H". iSplit; [|done]. cbn [m_procs m_fs]. iFrame "Hf Ha".
    iPureIntro. intros q' par' c' Hq'. cbn [m_procs] in Hq'. apply lookup_delete_Some in Hq' as [_ Hq']. by eapply Hz.
  - iSplit.
    { iPureIntro. eexists [], _, _, []. split; [done|right]. eauto 10. }
    iIntros "!>" (p' m' new [-> Hst]) "_". iMod "Hm" as "_".
    destruct Hst as [Hst|(? & ? & ? & [= -> ->] & ? & -> & -> & ->)].
    { inversion Hst as [| |? ? ? ? ? c|? ? ? ? ? Hno| |]; subst; [congruence|by destruct (Hno _ Hl)]. }
    iMod ("Hclose" with "[Hp HR]") as "_". { iLeft. iExists None. iFrame. }
    iModIntro. iFrame "Hf Ha". iSplit; [done|]. iSplit; [|done]. iApply ("IH" with "Ht H").
Qed.

(** The weakest precondition of a program is sound for its process. *)
Lemma wpp_WP pid (p : prog unit) :
  wpp pid p (fun _ => False) ⊢ WP (Running pid p : expr (proc_lang kern)) {{ c, ⌜c = 0⌝ }}.
Proof.
  revert pid. induction p as [a|c| |e k IH|k IH|q k IH]; intros pid; cbn [wpp].
  - iIntros "H". iApply fupd_wp. by iMod "H".
  - apply exit_WP.
  - iIntros "H". iApply fupd_wp. by iMod "H".
  - iIntros "H". iApply sys_WP. iApply (sys_ok_mono with "[] H"). iIntros (a). iApply IH.
  - iIntros "H". iApply fork_WP. iIntros (q Hq) "Hp". iMod ("H" $! q Hq with "Hp") as "[H1 H2]".
    iModIntro. iSplitL "H1"; by iApply IH.
  - iIntros "H". iApply fupd_wp. iMod "H" as (R) "[Hc H]". iModIntro. iApply (wait_WP with "[$Hc H]"). iIntros "HR".
    iMod ("H" with "HR") as "H". iModIntro. by iApply IH.
Qed.

(** ** Forking *)

Lemma child_exits γ γ' pid q R :
  inv joinN (join_inv γ γ' pid q R) -∗ token γ' -∗ R -∗ exit_ok q 0.
Proof.
  iIntros "#Hi Ht HR". rewrite /exit_ok. iInv "Hi" as "[(%o & >Hp & Ho)|>[_ Ht']]" "Hclose"; last first.
  { iDestruct (token_exclusive with "Ht Ht'") as "[]". }
  destruct o as [c|].
  { iDestruct "Ho" as "[_ >Ht']". iDestruct (token_exclusive with "Ht Ht'") as "[]". }
  iApply fupd_mask_intro; [set_solver|]. iIntros "Hm". iExists pid. iFrame "Hp". iSplit; [done|].
  iIntros "Hp". iMod "Hm" as "_". iMod ("Hclose" with "[Hp HR Ht]") as "_"; [|done].
  iLeft. iExists (Some 0). by iFrame.
Qed.

Lemma wpp_fork_child pid par child (R : Z -> iProp Σ) Q :
  process pid par None -∗
  (∀ q, ⌜0 < q⌝ -∗ ⌜q <> pid⌝ -∗ process pid par None ={⊤}=∗
    wpp q child (fun _ => R q) ∗ (child_of pid q (R q) ={⊤}=∗ Q q)) -∗
  wpp pid (fork_child child) Q.
Proof.
  iIntros "Hpid H". cbn [fork_child fork mbind prog_bind wpp]. iIntros (q Hq) "Hp".
  iDestruct (ghost_map_elem_ne with "Hp Hpid") as %Hne.
  iMod ("H" $! q Hq Hne with "Hpid") as "[Hc HQ]".
  iMod token_alloc as (γ) "Ht". iMod token_alloc as (γ') "Ht'".
  iMod (inv_alloc joinN _ (join_inv γ γ' pid q (R q)) with "[Hp]") as "#Hi".
  { iLeft. iExists None. by iFrame. }
  iMod ("HQ" with "[$Hi $Ht]") as "HQ". iModIntro. iSplitL "HQ".
  { rewrite /exit_if. destruct (Z.ltb_spec q 0); [lia|]. cbn. destruct (Z.eqb_spec q 0); [lia|]. by iModIntro. }
  cbn. iApply (wpp_bind q child (fun _ : unit => Exit 0)).
  iApply (wpp_mono with "[Ht'] Hc"). iIntros (_) "HR". iApply (child_exits with "Hi Ht' HR").
Qed.

Lemma wpp_reap pid q R (Q : unit -> iProp Σ) : child_of pid q R -∗ ⌜0 < q⌝ -∗ (R -∗ Q tt) -∗ wpp pid (reap q) Q.
Proof.
  iIntros "Hc %Hq HQ". cbn [reap waitpid mbind prog_bind wpp]. iModIntro. iExists R. iFrame "Hc". iIntros "HR".
  iModIntro. destruct (Z.ltb_spec q 0); [lia|]. cbn. rewrite Z.eqb_refl. cbn. iModIntro. by iApply "HQ".
Qed.
End logic.

(** ** Adequacy *)

Definition fsΣ : gFunctors :=
  #[invΣ; ghost_mapΣ path cell; ghost_mapΣ (Z * Z) ofile; ghost_mapΣ Z (Z * option Z); tokenΣ; ghost_varΣ (nat * Z)].

Section adequacy.
Context {W : Type} (kern : Z -> syscall -> W -> result (answer * W)) (place : path -> path) (U : gset path) (len : nat).
Context `{HK : !KernelOK place kern U len}.

Lemma run_steps_erased c c' : rtc (run_step kern) c c' -> rtc (@erased_step (proc_lang kern)) c c'.
Proof.
  intros H. induction H as [|c1 c2 c3 Hs _ IH]; [done|]. eapply rtc_l; [|exact IH].
  destruct Hs as [l1 l2 p m p' m' new Hs]. exists []. eapply (step_atomic p m p' m' new l1 l2); [done..|]. split; [done|by left].
Qed.

(** The cells of a file system in which nothing is open. *)
Definition initial_cells (s : fs) : gmap path cell := set_to_map (fun x => (x, (nodes s !! x, ∅))) U.

Lemma lookup_initial_cells s x v : initial_cells s !! x = Some v <-> x ∈ U /\ v = (nodes s !! x, ∅).
Proof.
  unfold initial_cells. rewrite lookup_set_to_map; [|done]. split.
  - intros (y & Hy & [= <- <-]). done.
  - intros [Hx ->]. eauto.
Qed.

Lemma dom_initial_cells s : dom (initial_cells s) = U.
Proof.
  apply set_eq. intros x. rewrite elem_of_dom. split.
  - intros [v [Hx _]%lookup_initial_cells]. done.
  - intros Hx. exists (nodes s !! x, ∅). by apply lookup_initial_cells.
Qed.

Lemma initial_agree s : bounded U len s -> ofiles s = ∅ -> agree U len s (initial_cells s).
Proof.
  intros [Hd Hl] Ho. split; [apply dom_initial_cells| |by rewrite Ho|done].
  intros p. destruct (initial_cells s !! p) as [v|] eqn:E; cbn.
  - by apply lookup_initial_cells in E as [_ ->].
  - apply not_elem_of_dom. intros H%Hd. rewrite <- (dom_initial_cells s) in H. apply elem_of_dom in H as [v H]. congruence.
Qed.

(** What a process that fulfils its precondition does under every interleaving. *)
Lemma processes_fine pid (p : prog unit) w s l m :
  k_shows w s -> bounded U len s -> ofiles s = ∅ ->
  (forall `{!fsG fsΣ}, ([∗ set] x ∈ U, file_at x (nodes s !! x) ∅) ∗ process pid 0 None ⊢
     wpp place U len pid p (fun _ => False)) ->
  rtc (run_step kern) (start pid p w) (l, m) -> Forall (fine kern m) l.
Proof.
  intros Hs Hb Ho Hp Hr. apply run_steps_erased, erased_steps_nsteps in Hr as (n & κs & Hr).
  revert Hr. apply (wp_strong_adequacy fsΣ (proc_lang kern) NotStuck _ _ _ _ _ _ _ (fun _ => 0%nat)).
  iIntros (Hinv).
  iMod (ghost_map_alloc (initial_cells s)) as (γ1) "[Hn Hcells]".
  iMod (ghost_map_alloc (∅ : gmap (Z * Z) ofile)) as (γ2) "[Ho _]".
  iMod (ghost_map_alloc ({[pid := (0, None)]} : gmap Z (Z * option Z))) as (γ3) "[Hps Hpid]".
  rewrite big_sepM_singleton.
  pose (G := FsG fsΣ Hinv _ _ _ _ _ γ1 γ2 γ3).
  iModIntro. iExists (fun m _ _ _ => machine_interp kern place U len m), [fun c => ⌜c = 0⌝%I], (fun c => ⌜c = 0⌝%I), (fun _ _ _ _ => fupd_intro _ _).
  iSplitL "Hn Ho Hps".
  { iFrame "Hps". iSplit.
    - iExists s. iSplit; [done|]. iExists (initial_cells s). rewrite Ho. iFrame. iPureIntro. by apply initial_agree.
    - iPureIntro. intros q par c Hq. cbn [m_procs] in Hq. apply lookup_singleton_Some in Hq as [_ [=]]. }
  iSplitL "Hcells Hpid".
  { iApply big_sepL2_singleton. iApply (wpp_WP kern place U len (fsG0:=G) pid p). iApply Hp. iFrame "Hpid". rewrite <- (dom_initial_cells s), <- big_sepM_dom.
    iApply (big_sepM_mono with "Hcells"). intros x v (_ & ->)%lookup_initial_cells. done. }
  iIntros (es' t2 -> Hlen Hns) "Hm Hmain Hforked".
  iApply fupd_mask_intro; [set_solver|]. iIntros "_".
  iAssert ⌜forall c, Gone c ∈ es' ++ t2 -> c = 0⌝%I as %Hz.
  { destruct es' as [|e [|]]; [done| |done]. cbn [big_sepL2 app]. iDestruct "Hmain" as "[He _]".
    iIntros (c [<-|Hc]%elem_of_cons); [iDestruct "He" as %He; done|].
    iDestruct (big_sepL_elem_of _ _ c with "Hforked") as %Hc0; [|done]. apply list_elem_of_omap. exists (Gone c). done. }
  iPureIntro. apply Forall_forall. intros [q prg|c] Hx; [|by apply Hz].
  destruct (Hns _ eq_refl Hx) as [[v [=]]|(κ & p' & m' & new & _ & [Hst|Hw])]; [left; eauto|].
  right. destruct Hw as (pid' & q' & k & [= -> ->] & Hq & _). eauto.
Qed.
End adequacy.
