(* ===== verification/FsTestRules.v ===== *)
(** * FsTestRules: the rules of the system calls, and of the functions of the tests

    Each rule takes the cells it needs out of whatever holds them at the moment of the
    call, so that it serves private files and files that processes share. *)

From iris.proofmode Require Import proofmode.
From iris.base_logic.lib Require Import invariants ghost_map ghost_var token.
From S2P Require Import Prelude CppString FsTest FsTestSpec FsTestCells FsTestLogic.

Section rules.
Context (place : path -> path) (U : gset path) (len : nat) `{!fsG Σ}.
Implicit Types (pid fd : Z) (s : fs) (p d n : path) (x : option node) (S : gset (Z * Z)) (c data : list byte).

Definition plain n : Prop := n <> [] /\ slash ∉ n.

Lemma sys_intro pid e (Q : answer -> iProp Σ) :
  (∀ s g, ⌜agree U len s g⌝ -∗ ghost_map_auth γn 1 g -∗ ghost_map_auth γo 1 (ofiles s) ={⊤,∅}=∗
     ∃ P : answer -> fs -> Prop,
       ⌜covered place pid e s /\ forall a s', posix place pid e s a s' -> P a s'⌝ ∗
       ⌜forall a s', P a s' -> exists g', agree U len s' g'⌝ ∗
       ∀ a s', ⌜P a s'⌝ ={∅,⊤}=∗ ∃ g', ⌜agree U len s' g'⌝ ∗ ghost_map_auth γn 1 g' ∗ ghost_map_auth γo 1 (ofiles s') ∗ Q a) -∗
  sys_ok place U len pid e Q.
Proof.
  iIntros "H" (s) "(%g & %Hg & Hn & Ho)". iMod ("H" $! s g Hg with "Hn Ho") as (P) "([%Hc %HP] & %Hb & H)".
  iModIntro. iSplit.
  { iPureIntro. split; [done|]. intros a s' Hp. destruct (Hb a s' (HP a s' Hp)) as [g' Hg']. by eapply agree_bounded. }
  iIntros (a s' Hp). iMod ("H" $! a s' (HP _ _ Hp)) as (g') "(%Hg' & Hn & Ho & $)". iModIntro. iExists g'. by iFrame.
Qed.

(** The calls that open a file. *)
Definition with_fd pid p x S app (Q : Z -> iProp Σ) : iProp Σ :=
  ∀ fd, ⌜0 <= fd⌝ -∗ file_at p x (S ∪ {[(pid, fd)]}) -∗ ofd pid fd (mk_ofile p 0 app) ={∅,⊤}=∗ Q fd.

Lemma opened_ghost pid s g p x0 x S app (Q : Z -> iProp Σ) a s' :
  opened U len pid s g p x S app a s' ->
  ghost_map_auth γn 1 g -∗ ghost_map_auth γo 1 (ofiles s) -∗ file_at p x0 S -∗ with_fd pid p x S app Q ={∅,⊤}=∗
  ∃ g', ⌜agree U len s' g'⌝ ∗ ghost_map_auth γn 1 g' ∗ ghost_map_auth γo 1 (ofiles s') ∗ ⌜0 <= a_ret a⌝ ∗ Q (a_ret a).
Proof.
  iIntros ((fd & e & -> & Hfd & Hnew & Ho' & Hag)) "Hn Ho Hp H".
  iMod (ghost_map_update (x, S ∪ {[(pid, fd)]}) with "Hn Hp") as "[Hn Hp]".
  iMod (ghost_map_insert (pid, fd) (mk_ofile p 0 app) with "Ho") as "[Ho Hfd]"; [done|].
  iMod ("H" $! fd Hfd with "Hp Hfd") as "HQ". iModIntro. iExists _. iSplit; [done|]. rewrite Ho'. by iFrame.
Qed.

(** A call that may find that another process has made the file. *)
Definition new_or_exists (Q : Z -> iProp Σ) (QE : iProp Σ) (a : answer) : iProp Σ :=
  (⌜0 <= a_ret a⌝ ∗ Q (a_ret a)) ∨ (⌜a_ret a = -1 /\ a_errno a = EEXIST⌝ ∗ QE).

Lemma sys_creat pid p d n (Q : Z -> iProp Σ) QE : place p = join d n -> plain n ->
  is_dir d -∗
  (|={⊤,∅}=> ∃ x S, file_at (join d n) x S ∗ ⌜x <> Some Dir⌝ ∗
     (with_fd pid (join d n) (Some (File [])) S false Q ∧ (⌜x <> None⌝ -∗ file_at (join d n) x S ={∅,⊤}=∗ QE))) -∗
  sys_ok place U len pid (Creat p) (new_or_exists Q QE).
Proof.
  iIntros (Hpl [Hn0 Hns]) "#Hd H". iApply sys_intro. iIntros (s g Hg) "Hn Ho".
  iMod "H" as (x S) "(Hp & %Hx & H)".
  iDestruct (ghost_map_lookup with "Hn Hp") as %Hl. iDestruct (ghost_map_lookup with "Hn Hd") as %Hld.
  iModIntro. iExists _. iSplit.
  { iPureIntro. apply (creat_posix _ _ _ _ _ _ Hg _ x S); rewrite ?Hpl; [done..|]. right. exists d, n.
    split_and!; [done..|]. by eapply agree_lookup. }
  iSplit; [iPureIntro; intros a s' [(? & ? & ? & ? & ? & ? & ?)|(_ & _ & ->)]; eauto|].
  iIntros (a s' [Ha|(Hne & -> & ->)]).
  - iDestruct "H" as "[H _]". rewrite Hpl in Ha.
    iMod (opened_ghost with "Hn Ho Hp H") as (g') "(Hg & Hn & Ho & HQ)"; [done|]. iModIntro. iExists g'. iFrame "Hg Hn Ho". by iLeft.
  - iDestruct "H" as "[_ H]". iMod ("H" with "[//] Hp") as "HQ". iModIntro. iExists g. iFrame "Hn Ho". iSplit; [done|].
    iRight. by iFrame "HQ".
Qed.

Lemma sys_open pid p f pl (Q : Z -> iProp Σ) QE : place p = pl ->
  (|={⊤,∅}=> ∃ c S, file_at pl (Some (File c)) S ∗
     (with_fd pid pl (Some (File c)) S (if f is O_WRONLY_APPEND then true else false) Q ∧
      (⌜f = O_WRONLY_CREAT⌝ -∗ file_at pl (Some (File c)) S ={∅,⊤}=∗ QE))) -∗
  sys_ok place U len pid (Open p f) (new_or_exists Q QE).
Proof.
  iIntros (<-) "H". iApply sys_intro. iIntros (s g Hg) "Hn Ho". iMod "H" as (c S) "[Hp H]".
  iDestruct (ghost_map_lookup with "Hn Hp") as %Hl. iModIntro. iExists _. iSplit.
  { iPureIntro. by apply (open_posix _ _ _ _ _ _ Hg _ f c S). }
  iSplit; [iPureIntro; intros a s' [(? & ? & ? & ? & ? & ? & ?)|(_ & _ & _ & ->)]; eauto|].
  iIntros (a s' [Ha|(Hf & _ & -> & ->)]).
  - iDestruct "H" as "[H _]".
    iMod (opened_ghost with "Hn Ho Hp H") as (g') "(Hg & Hn & Ho & HQ)"; [done|]. iModIntro. iExists g'. iFrame "Hg Hn Ho". by iLeft.
  - iDestruct "H" as "[_ H]". iMod ("H" with "[//] Hp") as "HQ". iModIntro. iExists g. iFrame "Hn Ho". iSplit; [done|].
    iRight. by iFrame "HQ".
Qed.

Lemma sys_open_missing pid p d n (Q : answer -> iProp Σ) : place p = join d n -> plain n ->
  is_dir d -∗
  (|={⊤,∅}=> ∃ S, file_at (join d n) None S ∗ (file_at (join d n) None S ={∅,⊤}=∗ Q (ans (-1) ENOENT [] []))) -∗
  sys_ok place U len pid (Open p O_RDONLY) Q.
Proof.
  iIntros (Hpl [Hn0 Hns]) "#Hd H". iApply sys_intro. iIntros (s g Hg) "Hn Ho". iMod "H" as (S) "[Hp H]".
  iDestruct (ghost_map_lookup with "Hn Hp") as %Hl. iDestruct (ghost_map_lookup with "Hn Hd") as %Hld.
  iModIntro. iExists _. iSplit.
  { iPureIntro. apply (open_missing_posix _ _ _ _ _ _ Hg _ S); rewrite ?Hpl; [done|]. right. exists d, n.
    split_and!; [done..|]. by eapply agree_lookup. }
  iSplit; [iPureIntro; intros a s' (_ & ->); eauto|].
  iIntros (a s' [-> ->]). iMod ("H" with "Hp") as "$". iModIntro. iExists g. by iFrame.
Qed.

(** The calls on a descriptor. *)
Lemma sys_write pid fd p off app data (Q : answer -> iProp Σ) : data <> [] ->
  ofd pid fd (mk_ofile p off app) -∗
  (|={⊤,∅}=> ∃ c S, let off' := if app then length c else off in
     file_at p (Some (File c)) S ∗ ⌜(length (overwrite c off' data) <= len)%nat⌝ ∗
     (file_at p (Some (File (overwrite c off' data))) S -∗ ofd pid fd (mk_ofile p (off' + length data) app) ={∅,⊤}=∗
      ∀ a, ⌜a_ret a = Z.of_nat (length data)⌝ -∗ Q a)) -∗
  sys_ok place U len pid (Write fd data) Q.
Proof.
  iIntros (Hd) "Hfd H". iApply sys_intro. iIntros (s g Hg) "Hn Ho". iMod "H" as (c S) "(Hp & %Hlen & H)".
  iDestruct (ghost_map_lookup with "Hn Hp") as %Hl. iDestruct (ghost_map_lookup with "Ho Hfd") as %Hlo.
  iModIntro. iExists _. iSplit; [iPureIntro; by apply (write_posix _ _ _ _ _ _ Hg fd p off app Hlo data c S)|].
  iSplit; [iPureIntro; intros a s' (_ & _ & ?); eauto|]. iIntros (a s' (Ha & Hm & Hag)).
  iMod (ghost_map_update with "Hn Hp") as "[Hn Hp]". iMod (ghost_map_update with "Ho Hfd") as "[Ho Hfd]".
  iMod ("H" with "Hp Hfd") as "H". iModIntro. iExists _. iSplit; [done|]. rewrite Hm. iFrame. by iApply "H".
Qed.

Lemma sys_read pid fd p off app (n : Z) (Q : answer -> iProp Σ) : 0 < n ->
  ofd pid fd (mk_ofile p off app) -∗
  (|={⊤,∅}=> ∃ c S, let data := take (Z.to_nat n) (drop off c) in
     file_at p (Some (File c)) S ∗
     (file_at p (Some (File c)) S -∗ ofd pid fd (mk_ofile p (off + length data) app) ={∅,⊤}=∗
      ∀ a, ⌜a_data a = data /\ a_ret a = Z.of_nat (length data)⌝ -∗ Q a)) -∗
  sys_ok place U len pid (Read fd n) Q.
Proof.
  iIntros (Hn0) "Hfd H". iApply sys_intro. iIntros (s g Hg) "Hn Ho". iMod "H" as (c S) "[Hp H]".
  iDestruct (ghost_map_lookup with "Hn Hp") as %Hl. iDestruct (ghost_map_lookup with "Ho Hfd") as %Hlo.
  iModIntro. iExists _. iSplit; [iPureIntro; by apply (read_posix _ _ _ _ _ _ Hg fd p off app Hlo n c S)|].
  iSplit; [iPureIntro; intros a s' (_ & _ & _ & ?); eauto|]. iIntros (a s' (Ha & Hr & Hm & Hag)). rewrite Ha in Hr, Hm.
  iMod (ghost_map_update with "Ho Hfd") as "[Ho Hfd]".
  iMod ("H" with "Hp Hfd") as "H". iModIntro. iExists _. iSplit; [done|]. rewrite Hm. iFrame. by iApply "H".
Qed.

Lemma sys_lseek pid fd p off app o (Q : answer -> iProp Σ) : 0 <= o ->
  ofd pid fd (mk_ofile p off app) -∗
  (ofd pid fd (mk_ofile p (Z.to_nat o) app) -∗ ∀ a, ⌜a_ret a = o⌝ -∗ Q a) -∗
  sys_ok place U len pid (Lseek fd o) Q.
Proof.
  iIntros (Hn0) "Hfd H". iApply sys_intro. iIntros (s g Hg) "Hn Ho".
  iDestruct (ghost_map_lookup with "Ho Hfd") as %Hlo. iApply fupd_mask_intro; [set_solver|]. iIntros "Hm".
  iExists _. iSplit; [iPureIntro; by apply (lseek_posix _ _ _ _ _ _ Hg fd p off app Hlo o)|].
  iSplit; [iPureIntro; intros a s' (_ & _ & ?); eauto|]. iIntros (a s' (Ha & Hm & Hag)).
  iMod (ghost_map_update with "Ho Hfd") as "[Ho Hfd]".
  iMod "Hm" as "_". iModIntro. iExists _. iSplit; [done|]. rewrite Hm. iFrame. by iApply ("H" with "Hfd").
Qed.

Lemma sys_fsync pid fd o (Q : answer -> iProp Σ) :
  ofd pid fd o -∗ (ofd pid fd o -∗ ∀ a, ⌜a_ret a = 0⌝ -∗ Q a) -∗ sys_ok place U len pid (Fsync fd) Q.
Proof.
  iIntros "Hfd H". iApply sys_intro. iIntros (s g Hg) "Hn Ho".
  iDestruct (ghost_map_lookup with "Ho Hfd") as %Hlo. iApply fupd_mask_intro; [set_solver|]. iIntros "Hm".
  destruct o as [p off app]. iExists _. iSplit; [iPureIntro; by apply (fsync_posix place pid s fd p off app Hlo)|].
  iSplit; [iPureIntro; intros a s' (_ & ->); eauto|]. iIntros (a s' [Ha ->]).
  iMod "Hm" as "_". iModIntro. iExists g. iSplit; [done|]. iFrame. by iApply ("H" with "Hfd").
Qed.

Lemma sys_close pid fd p off app (Q : answer -> iProp Σ) :
  ofd pid fd (mk_ofile p off app) -∗
  (|={⊤,∅}=> ∃ x S, file_at p x S ∗
     (file_at p x (S ∖ {[(pid, fd)]}) ={∅,⊤}=∗ ∀ a, ⌜a_ret a = 0⌝ -∗ Q a)) -∗
  sys_ok place U len pid (Close fd) Q.
Proof.
  iIntros "Hfd H". iApply sys_intro. iIntros (s g Hg) "Hn Ho". iMod "H" as (x S) "[Hp H]".
  iDestruct (ghost_map_lookup with "Hn Hp") as %Hl. iDestruct (ghost_map_lookup with "Ho Hfd") as %Hlo.
  iModIntro. iExists _. iSplit; [iPureIntro; by apply (close_posix _ _ _ _ _ _ Hg fd p off app Hlo x S)|].
  iSplit; [iPureIntro; intros a s' (_ & _ & ?); eauto|]. iIntros (a s' (Ha & Ho' & Hag)).
  iMod (ghost_map_update with "Hn Hp") as "[Hn Hp]". iMod (ghost_map_delete with "Ho Hfd") as "Ho".
  iMod ("H" with "Hp") as "H". iModIntro. iExists _. iSplit; [done|]. rewrite Ho'. iFrame. by iApply "H".
Qed.

(** The calls on names. *)
Lemma sys_unlink pid p pl c (Q : answer -> iProp Σ) : place p = pl ->
  file_at pl (Some (File c)) ∅ -∗ (file_at pl None ∅ -∗ ∀ a, ⌜a_ret a = 0⌝ -∗ Q a) -∗
  sys_ok place U len pid (Unlink p) Q.
Proof.
  iIntros (<-) "Hp H". iApply sys_intro. iIntros (s g Hg) "Hn Ho".
  iDestruct (ghost_map_lookup with "Hn Hp") as %Hl. iApply fupd_mask_intro; [set_solver|]. iIntros "Hm".
  iExists _. iSplit; [iPureIntro; by apply (unlink_posix _ _ _ _ _ _ Hg p c)|].
  iSplit; [iPureIntro; intros a s' (_ & _ & ?); eauto|]. iIntros (a s' (Ha & Ho' & Hag)).
  iMod (ghost_map_update with "Hn Hp") as "[Hn Hp]". iMod "Hm" as "_". iModIntro. iExists _. iSplit; [done|].
  rewrite Ho'. iFrame. by iApply ("H" with "Hp").
Qed.

Lemma sys_mkdir pid p n (Q : answer -> iProp Σ) : place p = n -> plain n ->
  file_at n None ∅ -∗ (is_dir n -∗ ∀ a, ⌜a_ret a = 0⌝ -∗ Q a) -∗ sys_ok place U len pid (Mkdir p) Q.
Proof.
  iIntros (<- [Hn0 Hns]) "Hp H". iApply sys_intro. iIntros (s g Hg) "Hn Ho".
  iDestruct (ghost_map_lookup with "Hn Hp") as %Hl. iApply fupd_mask_intro; [set_solver|]. iIntros "Hm".
  iExists _. iSplit; [iPureIntro; apply (mkdir_posix _ _ _ _ _ _ Hg p ∅); [done|by left]|].
  iSplit; [iPureIntro; intros a s' (_ & _ & ?); eauto|]. iIntros (a s' (Ha & Ho' & Hag)).
  iMod (ghost_map_update with "Hn Hp") as "[Hn Hp]". iMod (ghost_map_elem_persist with "Hp") as "Hp".
  iMod "Hm" as "_". iModIntro. iExists _. iSplit; [done|]. rewrite Ho'. iFrame. by iApply ("H" with "Hp").
Qed.

Lemma sys_access pid p d (Q : answer -> iProp Σ) : place p = d ->
  is_dir d -∗ (∀ a, ⌜a_ret a = 0⌝ -∗ Q a) -∗ sys_ok place U len pid (Access p) Q.
Proof.
  iIntros (<-) "Hp H". iApply sys_intro. iIntros (s g Hg) "Hn Ho".
  iDestruct (ghost_map_lookup with "Hn Hp") as %Hl. iApply fupd_mask_intro; [set_solver|]. iIntros "Hm".
  iExists _. iSplit; [iPureIntro; by eapply (access_posix _ _ _ _ _ _ Hg p)|].
  iSplit; [iPureIntro; intros a s' (_ & ->); eauto|]. iIntros (a s' [Ha ->]).
  iMod "Hm" as "_". iModIntro. iExists g. iSplit; [done|]. iFrame. by iApply "H".
Qed.
End rules.
