(* ===== verification/FsTestFiles.v ===== *)
(** * FsTestFiles: the functions of the tests on files that a process has to itself *)

From iris.proofmode Require Import proofmode.
From iris.base_logic.lib Require Import invariants ghost_map ghost_var token.
From S2P Require Import Prelude CppString FsTest FsTestSpec FsTestCells FsTestLogic FsTestRules.

Lemma length_join d n : length (join d n) = (length d + 1 + length n)%nat.
Proof. rewrite /join length_app /=. lia. Qed.

Lemma overwrite_nil data : overwrite [] 0 data = data.
Proof. rewrite /overwrite drop_nil /= app_nil_r //. Qed.

Lemma overwrite_end c data : overwrite c (length c) data = c ++ data.
Proof.
  rewrite /overwrite Nat.sub_diag app_nil_r take_ge // drop_ge; [|lia]. by rewrite app_nil_r.
Qed.

Lemma int_bytes_dec i : (i < 1000)%nat -> s32 (le_dec (int_bytes i)) = Z.of_nat i.
Proof.
  intros Hi. rewrite /int_bytes le_dec_enc Z.mod_small; [|lia]. apply wrapS_small; lia.
Qed.

Section files.
Context (place : path -> path) (U : gset path) (len : nat) `{!fsG Σ}.
Implicit Types (pid fd : Z) (D d f : path) (x : option node) (S : gset (Z * Z)) (inp c data : list byte).
Local Abbreviation WPP := (wpp place U len).

(** ** Steps of a program *)

Lemma wpp_sys_bind {A} pid e (k : answer -> prog A) Q :
  sys_ok place U len pid e (fun a => WPP pid (k a) Q) ⊢ WPP pid (sys e ≫= k) Q.
Proof. done. Qed.

Lemma wpp_exit_if {A} pid b (k : unit -> prog A) Q : b = false -> WPP pid (k tt) Q ⊢ WPP pid (exit_if b ≫= k) Q.
Proof. by intros ->. Qed.

Lemma wpp_exit_if_last pid b (Q : unit -> iProp Σ) : b = false -> Q tt ⊢ WPP pid (exit_if b) Q.
Proof. intros ->. cbn. iIntros "$". done. Qed.

Lemma wpp_sprintf {A} pid s (k : list byte -> prog A) Q : (length s < 512)%nat ->
  WPP pid (k s) Q ⊢ WPP pid (sprintf512 s ≫= k) Q.
Proof. intros H. rewrite /sprintf512. destruct (Z.ltb_spec (Z.of_nat (length s)) 512); [done|lia]. Qed.

Lemma main_exits pid (Q : unit -> iProp Σ) : process pid 0 None -∗ WPP pid (Exit 0) Q.
Proof.
  iIntros "Hp". cbn. iApply fupd_mask_intro; [set_solver|]. iIntros "Hm". iExists 0. iFrame "Hp". iSplit; [done|].
  iIntros "_". by iMod "Hm".
Qed.

(** [D] is the name of directory [d] under one of the mount points. *)
Definition mounted D d : Prop :=
  place D = d /\ (forall n, place (join D n) = join d n) /\ (length D < 470)%nat.
Definition good f : Prop := plain f /\ visible f /\ (length f < 40)%nat.

Lemma good_path D d f : mounted D d -> good f -> (length (join D f) < 512)%nat.
Proof. intros (_ & _ & H) (_ & _ & H'). rewrite length_join. lia. Qed.

Section one_path.
Context (pid : Z) (fl : path).

Lemma wpp_open {A} fl' c (k : answer -> prog A) fg Q : place fl' = fl -> fg <> O_WRONLY_CREAT ->
  file_at fl (Some (File c)) ∅ -∗
  (∀ a, ⌜0 <= a_ret a⌝ -∗ file_at fl (Some (File c)) {[(pid, a_ret a)]} -∗
     ofd pid (a_ret a) (mk_ofile fl 0 (if fg is O_WRONLY_APPEND then true else false)) -∗ WPP pid (k a) Q) -∗
  WPP pid (sys (Open fl' fg) ≫= k) Q.
Proof.
  iIntros (Hpl Hfg) "Hp H". iApply wpp_sys_bind.
  iApply (sys_ok_mono with "[H]"); last first.
  - iApply (sys_open _ _ _ _ _ fg fl (fun fd => file_at fl (Some (File c)) {[(pid, fd)]} ∗
      ofd pid fd (mk_ofile fl 0 (if fg is O_WRONLY_APPEND then true else false)))%I False); [done|].
    iApply fupd_mask_intro; [set_solver|]. iIntros "Hm". iExists c, ∅. iFrame "Hp". iSplit.
    + iIntros (fd Hfd) "Hp Hfd". iMod "Hm" as "_". rewrite union_empty_l_L. by iFrame.
    + by iIntros (?).
  - iIntros (a) "[(%Ha & Hp & Hfd)|[_ []]]". iApply ("H" $! a Ha with "Hp Hfd").
Qed.

Lemma wpp_write {A} fd off app c data S (k : answer -> prog A) Q (off' := if app : bool then length c else off) :
  data <> [] -> (length (overwrite c off' data) <= len)%nat ->
  file_at fl (Some (File c)) S -∗ ofd pid fd (mk_ofile fl off app) -∗
  (∀ a, ⌜a_ret a = Z.of_nat (length data)⌝ -∗ file_at fl (Some (File (overwrite c off' data))) S -∗
     ofd pid fd (mk_ofile fl (off' + length data) app) -∗ WPP pid (k a) Q) -∗
  WPP pid (sys (Write fd data) ≫= k) Q.
Proof.
  iIntros (Hd Hl) "Hp Hfd H". iApply wpp_sys_bind. iApply (sys_write with "Hfd"); [done|].
  iApply fupd_mask_intro; [set_solver|]. iIntros "Hm". iExists c, S. iFrame "Hp". iSplit; [done|].
  iIntros "Hp Hfd". iMod "Hm" as "_". iIntros "!>" (a Ha). iApply ("H" $! a Ha with "Hp Hfd").
Qed.

Lemma wpp_read {A} fd off app c (n : Z) S (k : answer -> prog A) Q (data := take (Z.to_nat n) (drop off c)) : 0 < n ->
  file_at fl (Some (File c)) S -∗ ofd pid fd (mk_ofile fl off app) -∗
  (∀ a, ⌜a_data a = data /\ a_ret a = Z.of_nat (length data)⌝ -∗ file_at fl (Some (File c)) S -∗
     ofd pid fd (mk_ofile fl (off + length data) app) -∗ WPP pid (k a) Q) -∗
  WPP pid (sys (Read fd n) ≫= k) Q.
Proof.
  iIntros (Hn) "Hp Hfd H". iApply wpp_sys_bind. iApply (sys_read with "Hfd"); [done|].
  iApply fupd_mask_intro; [set_solver|]. iIntros "Hm". iExists c, S. iFrame "Hp".
  iIntros "Hp Hfd". iMod "Hm" as "_". iIntros "!>" (a Ha). iApply ("H" $! a Ha with "Hp Hfd").
Qed.

Lemma wpp_close {A} fd off app x (k : answer -> prog A) Q :
  file_at fl x {[(pid, fd)]} -∗ ofd pid fd (mk_ofile fl off app) -∗
  (∀ a, ⌜a_ret a = 0⌝ -∗ file_at fl x ∅ -∗ WPP pid (k a) Q) -∗
  WPP pid (sys (Close fd) ≫= k) Q.
Proof.
  iIntros "Hp Hfd H". iApply wpp_sys_bind. iApply (sys_close with "Hfd").
  iApply fupd_mask_intro; [set_solver|]. iIntros "Hm". iExists x, _. iFrame "Hp".
  rewrite difference_diag_L. iIntros "Hp". iMod "Hm" as "_". iIntros "!>" (a Ha). iApply ("H" $! a Ha with "Hp").
Qed.

End one_path.

Lemma wpp_unlink {A} pid D d f c (k : answer -> prog A) Q :
  mounted D d ->
  file_at (join d f) (Some (File c)) ∅ -∗ (∀ a, ⌜a_ret a = 0⌝ -∗ file_at (join d f) None ∅ -∗ WPP pid (k a) Q) -∗
  WPP pid (sys (Unlink (join D f)) ≫= k) Q.
Proof.
  iIntros (HD) "Hp H". iApply wpp_sys_bind. iApply (sys_unlink with "Hp"); [apply HD|].
  iIntros "Hp" (a Ha). iApply ("H" $! a Ha with "Hp").
Qed.

Section one_file.
Context (pid : Z) (D d : path) (HD : mounted D d) (f : path) (Hf : good f).
Local Abbreviation fl := (join d f).

Lemma wpp_creat {A} (k : answer -> prog A) Q :
  is_dir d -∗ file_at fl None ∅ -∗
  (∀ a, ⌜0 <= a_ret a⌝ -∗ file_at fl (Some (File [])) {[(pid, a_ret a)]} -∗ ofd pid (a_ret a) (mk_ofile fl 0 false) -∗ WPP pid (k a) Q) -∗
  WPP pid (sys (Creat (join D f)) ≫= k) Q.
Proof.
  iIntros "Hd Hp H". iApply wpp_sys_bind.
  iApply (sys_ok_mono with "[H]"); last first.
  - iApply (sys_creat _ _ _ _ _ d f (fun fd => file_at fl (Some (File [])) {[(pid, fd)]} ∗ ofd pid fd (mk_ofile fl 0 false))%I False
      with "Hd"); [apply HD|apply Hf|].
    iApply fupd_mask_intro; [set_solver|]. iIntros "Hm". iExists None, ∅. iFrame "Hp". iSplit; [done|]. iSplit.
    + iIntros (fd Hfd) "Hp Hfd". iMod "Hm" as "_". rewrite union_empty_l_L. by iFrame.
    + by iIntros (?).
  - iIntros (a) "[(%Ha & Hp & Hfd)|[_ []]]". iApply ("H" $! a Ha with "Hp Hfd").
Qed.

(** ** The functions on one file *)

Lemma wpp_create1 inp (Q : unit -> iProp Σ) : inp <> [] -> (length inp <= len)%nat ->
  is_dir d -∗ file_at fl None ∅ -∗ (file_at fl (Some (File inp)) ∅ -∗ Q tt) -∗ WPP pid (create1 D f inp) Q.
Proof.
  iIntros (Hi Hl) "Hd Hp HQ". iApply wpp_sprintf; [by eapply good_path|].
  iApply (wpp_creat with "Hd Hp"). iIntros (a Ha) "Hp Hfd".
  iApply wpp_exit_if; [by apply Z.ltb_ge|].
  iApply (wpp_write with "Hp Hfd"); [done|by rewrite overwrite_nil|]. rewrite overwrite_nil. iIntros (b Hb) "Hp Hfd".
  iApply wpp_exit_if; [by rewrite Hb Z.eqb_refl|].
  iApply (wpp_close with "Hp Hfd"). iIntros (z Hz) "Hp".
  iApply wpp_exit_if_last; [by rewrite Hz|]. by iApply "HQ".
Qed.

(** [check1] looks at the size and at as many bytes as the path is long. *)
Lemma wpp_check1_prefix c inp (Q : unit -> iProp Σ) : Z.of_nat (length inp) <= 20999 -> length c = length inp ->
  strncmp_differ c inp (length (join D f)) = false ->
  file_at fl (Some (File c)) ∅ -∗ (file_at fl (Some (File c)) ∅ -∗ Q tt) -∗ WPP pid (check1 D f inp) Q.
Proof.
  iIntros (Hl Hc Hs) "Hp HQ". iApply wpp_sprintf; [by eapply good_path|].
  iApply (wpp_open with "Hp"); [apply HD|done|]. iIntros (a Ha) "Hp Hfd".
  iApply wpp_exit_if; [by apply Z.ltb_ge|].
  iApply (wpp_read with "Hp Hfd"); [done|]. iIntros (b [Hd Hb]) "Hp Hfd".
  assert (E : take (Z.to_nat 20999) (drop 0 c) = c) by (apply take_ge; lia). rewrite E in Hd, Hb. rewrite Hc in Hb.
  iApply wpp_exit_if; [by rewrite Hb Z.eqb_refl|].
  iApply (wpp_close with "Hp Hfd"). iIntros (z Hz) "Hp". rewrite Hb Hd.
  destruct (Z.ltb_spec (Z.of_nat (length inp)) 0); [lia|]. destruct (Z.ltb_spec 20999 (Z.of_nat (length inp))); [lia|].
  iApply wpp_exit_if_last; [|by iApply "HQ"]. by rewrite Nat2Z.id -Hc firstn_all.
Qed.

Lemma wpp_check1 inp (Q : unit -> iProp Σ) : Z.of_nat (length inp) <= 20999 ->
  file_at fl (Some (File inp)) ∅ -∗ (file_at fl (Some (File inp)) ∅ -∗ Q tt) -∗ WPP pid (check1 D f inp) Q.
Proof.
  intros Hl. apply wpp_check1_prefix; [done..|]. rewrite /strncmp_differ bool_decide_true //.
Qed.

Lemma wpp_append1 c inp (Q : unit -> iProp Σ) : inp <> [] -> (length (c ++ inp) <= len)%nat ->
  file_at fl (Some (File c)) ∅ -∗ (file_at fl (Some (File (c ++ inp))) ∅ -∗ Q tt) -∗ WPP pid (append1 D f inp) Q.
Proof.
  iIntros (Hi Hl) "Hp HQ". iApply wpp_sprintf; [by eapply good_path|].
  iApply (wpp_open with "Hp"); [apply HD|done|]. iIntros (a Ha) "Hp Hfd".
  iApply wpp_exit_if; [by apply Z.ltb_ge|].
  iApply (wpp_write with "Hp Hfd"); [done|by rewrite overwrite_end|]. rewrite overwrite_end. iIntros (b Hb) "Hp Hfd".
  iApply wpp_exit_if; [by rewrite Hb Z.eqb_refl|].
  iApply (wpp_close with "Hp Hfd"). iIntros (z Hz) "Hp".
  iApply wpp_exit_if_last; [by rewrite Hz|]. by iApply "HQ".
Qed.

Lemma wpp_unlink1 c (Q : unit -> iProp Σ) :
  file_at fl (Some (File c)) ∅ -∗ (file_at fl None ∅ -∗ Q tt) -∗ WPP pid (unlink1 D f) Q.
Proof.
  iIntros "Hp HQ". iApply wpp_sprintf; [by eapply good_path|]. iApply (wpp_unlink with "Hp"); [done|].
  iIntros (a Ha) "Hp". iApply wpp_exit_if_last; [by rewrite Ha|]. by iApply "HQ".
Qed.

Lemma wpp_checknot (Q : unit -> iProp Σ) :
  is_dir d -∗ file_at fl None ∅ -∗ (file_at fl None ∅ -∗ Q tt) -∗ WPP pid (checknot D f) Q.
Proof.
  iIntros "Hd Hp HQ". iApply wpp_sprintf; [by eapply good_path|]. iApply wpp_sys_bind.
  iApply (sys_open_missing with "Hd"); [apply HD|apply Hf|]. iApply fupd_mask_intro; [set_solver|]. iIntros "Hm". iExists ∅. iFrame "Hp".
  iIntros "Hp". iMod "Hm" as "_". iModIntro. iApply wpp_exit_if_last; [done|]. by iApply "HQ".
Qed.

(** A round of [checkn]. *)
Lemma wpp_checkint {A} i (k : prog A) Q : (i < 1000)%nat ->
  file_at fl (Some (File (int_bytes i))) ∅ -∗ (file_at fl (Some (File (int_bytes i))) ∅ -∗ WPP pid k Q) -∗
  WPP pid (p ← sprintf512 (join D f);
      fd ← sys (Open p O_RDONLY);
      exit_if (a_ret fd <? 0);;
      r ← sys (Read (a_ret fd) 4);
      exit_if (negb (a_ret r =? 4));;
      exit_if (negb (s32 (le_dec (a_data r)) =? Z.of_nat i));;
      _ ← sys (Close (a_ret fd));
      k) Q.
Proof.
  iIntros (Hi) "Hp HQ". iApply wpp_sprintf; [by eapply good_path|].
  iApply (wpp_open with "Hp"); [apply HD|done|]. iIntros (a Ha) "Hp Hfd".
  iApply wpp_exit_if; [by apply Z.ltb_ge|].
  iApply (wpp_read with "Hp Hfd"); [done|]. iIntros (b [Hd Hb]) "Hp Hfd".
  assert (El : length (int_bytes i) = 4%nat) by apply length_le_enc.
  assert (E : take (Z.to_nat 4) (drop 0 (int_bytes i)) = int_bytes i) by (apply take_ge; cbn; lia).
  rewrite E in Hd, Hb. rewrite El in Hb.
  iApply wpp_exit_if; [by rewrite Hb|].
  iApply wpp_exit_if; [|].
  { rewrite Hd int_bytes_dec // Z.eqb_refl //. }
  iApply (wpp_close with "Hp Hfd"). iIntros (z Hz) "Hp". by iApply "HQ".
Qed.
End one_file.
End files.
