(* ===== verification/FsTestSteps.v ===== *)
(** * FsTestSteps: the functions of the tests on a directory

    [own d X F]: the process has directory [d] to itself, as far as the names in [X] go,
    and its files are [F].  [step] relates the files before and after a part of a test. *)

From iris.proofmode Require Import proofmode.
From stdpp Require Import sorting.
From iris.base_logic.lib Require Import invariants ghost_map ghost_var token.
From S2P Require Import Prelude CppString FsTest FsTestSpec FsTestCells FsTestLogic FsTestRules FsTestFiles.

Abbreviation files := (gmap path (list byte)).

(** The names of [X] that are there. *)
Definition listed (X : gset path) (F : files) : list path := filter (fun n => is_Some (F !! n)) (elements X).

(** The files after [createn_loop] and [unlinkn_loop], what [checkn_loop] looks for, and what
    the loops find. *)
Fixpoint with_n (prefix : list byte) (i n : nat) (F : files) : files :=
  match n with O => F | S n => with_n prefix (S i) n (<[nth_name prefix i := int_bytes i]> F) end.
Fixpoint without_n (prefix : list byte) (i n : nat) (F : files) : files :=
  match n with O => F | S n => without_n prefix (S i) n (delete (nth_name prefix i) F) end.
Fixpoint has_n (prefix : list byte) (i n : nat) (F : files) : bool :=
  match n with O => true | S n => bool_decide (F !! nth_name prefix i = Some (int_bytes i)) && has_n prefix (S i) n F end.
Fixpoint there_n (prefix : list byte) (i n : nat) (F : files) : bool :=
  match n with O => true | S n => bool_decide (is_Some (F !! nth_name prefix i)) && there_n prefix (S i) n (delete (nth_name prefix i) F) end.
Fixpoint missing_n (prefix : list byte) (i n : nat) (F : files) : bool :=
  match n with
  | O => true
  | S n => bool_decide (F !! nth_name prefix i = None) && missing_n prefix (S i) n (<[nth_name prefix i := int_bytes i]> F)
  end.
Fixpoint names_n (prefix : list byte) (i n : nat) : list path :=
  match n with O => [] | S n => nth_name prefix i :: names_n prefix (S i) n end.

Lemma filter_elements_ext (X : gset path) (P Q : path -> Prop) `{!∀ x, Decision (P x), !∀ x, Decision (Q x)} :
  (forall n, n ∈ X -> P n <-> Q n) -> filter P (elements X) = filter Q (elements X).
Proof.
  intros Hx. assert (H' : Forall (fun n => P n <-> Q n) (elements X)).
  { apply Forall_forall. intros n. rewrite elem_of_elements. apply Hx. }
  induction H' as [|n l Hn _ IH]; [done|]. rewrite !filter_cons. destruct (decide (P n)), (decide (Q n)); naive_solver congruence.
Qed.

Section steps.
Context (place : path -> path) (U : gset path) (len : nat) `{!fsG Σ}.
Implicit Types (pid fd : Z) (D d f : path) (x : option node) (S : gset (Z * Z)) (inp c data : list byte) (X : gset path) (F : files).
Local Abbreviation WPP := (wpp place U len).

Definition own_cells d X F (Sf : path -> gset (Z * Z)) : iProp Σ :=
  [∗ set] n ∈ X, file_at (join d n) (File <$> F !! n) (Sf n).
Definition own d X F : iProp Σ := is_dir d ∗ own_cells d X F (fun _ => ∅).

Lemma own_cells_ext d X F F' Sf Sf' : (forall n, n ∈ X -> F !! n = F' !! n /\ Sf n = Sf' n) ->
  own_cells d X F Sf ⊢ own_cells d X F' Sf'.
Proof. intros H. apply big_sepS_mono. intros n [-> ->]%H. done. Qed.

Lemma own_cells_take d X F Sf f : f ∈ X ->
  own_cells d X F Sf ⊢ file_at (join d f) (File <$> F !! f) (Sf f) ∗
    (∀ F' Sf', ⌜forall n, n <> f -> F' !! n = F !! n /\ Sf' n = Sf n⌝ -∗
       file_at (join d f) (File <$> F' !! f) (Sf' f) -∗ own_cells d X F' Sf').
Proof.
  iIntros (Hf) "H". rewrite /own_cells big_sepS_delete //. iDestruct "H" as "[$ H]". iIntros (F' Sf' HF) "Hf".
  rewrite (big_sepS_delete _ X f) //. iFrame "Hf". iApply (big_sepS_mono with "H").
  intros n [_ Hn]%elem_of_difference. destruct (HF n) as [-> ->]; [set_solver|done].
Qed.

Lemma own_take d X F f : f ∈ X ->
  own d X F ⊢ is_dir d ∗ file_at (join d f) (File <$> F !! f) ∅ ∗
    (∀ F', ⌜forall n, n <> f -> F' !! n = F !! n⌝ -∗ file_at (join d f) (File <$> F' !! f) ∅ -∗ own d X F').
Proof.
  iIntros (Hf) "[#$ H]". iDestruct (own_cells_take with "H") as "[$ H]"; [done|]. iIntros (F' HF) "Hf".
  iFrame "#". iApply ("H" with "[] Hf"). iPureIntro. intros n Hn. by rewrite HF.
Qed.

(** ** Listing *)

Lemma sys_readdir pid p d X (Q : answer -> iProp Σ) : place p = d -> all_names U d X ->
  is_dir d -∗
  (|={⊤,∅}=> ∃ F Sf, own_cells d X F Sf ∗
     (own_cells d X F Sf ={∅,⊤}=∗ ∀ a, ⌜a_ret a = 0 /\ filter visible (a_names a) ≡ₚ listed X F⌝ -∗ Q a)) -∗
  sys_ok place U len pid (Readdir p) Q.
Proof.
  iIntros (<- HX) "#Hd H". iApply sys_intro. iIntros (s g Hg) "Hn Ho". iMod "H" as (F Sf) "[Hc H]".
  iDestruct (ghost_map_lookup with "Hn Hd") as %Hld.
  iAssert ⌜forall n, n ∈ X -> nodes s !! join (place p) n = File <$> F !! n⌝%I as %Hnodes.
  { iIntros (n Hx). iDestruct (big_sepS_elem_of _ _ _ Hx with "Hc") as "Hf".
    iDestruct (ghost_map_lookup with "Hn Hf") as %Hl. iPureIntro. by eapply agree_lookup. }
  assert (E : present s (place p) X = listed X F).
  { apply filter_elements_ext. intros n Hx. rewrite Hnodes // fmap_is_Some //. }
  iModIntro. iExists _. iSplit; [iPureIntro; by eapply (readdir_posix _ _ _ _ _ _ Hg p X)|].
  iSplit; [iPureIntro; intros a s' (_ & -> & _); eauto|]. iIntros (a s' (Ha & -> & Hl)).
  iMod ("H" with "Hc") as "H". iModIntro. iExists g. iSplit; [done|]. iFrame. iApply "H". by rewrite -E.
Qed.

Lemma wpp_dircheck pid D d X nf (Q : unit -> iProp Σ) : mounted place D d -> all_names U d X -> nf <= 1000 ->
  is_dir d -∗
  (|={⊤,∅}=> ∃ F Sf, own_cells d X F Sf ∗ ⌜Z.of_nat (length (listed X F)) = nf⌝ ∗ (own_cells d X F Sf ={∅,⊤}=∗ Q tt)) -∗
  WPP pid (dircheck D nf) Q.
Proof.
  iIntros ((HD & _) HX Hnf) "#Hd H". iApply wpp_sys_bind. iApply (sys_readdir with "Hd"); [done..|].
  iMod "H" as (F Sf) "(Hc & %Hl & H)". iModIntro. iExists F, Sf. iFrame "Hc". iIntros "Hc".
  iMod ("H" with "Hc") as "HQ". iIntros "!>" (a [Ha Hp]). iApply wpp_exit_if; [by rewrite Ha|].
  assert (El : length (filter visible (a_names a)) = length (listed X F)) by by apply Permutation_length.
  cbn zeta. rewrite El Hl. destruct (Z.ltb_spec 1000 nf); [lia|]. rewrite Z.eqb_refl. iApply wpp_exit_if; [done|].
  iApply wpp_exit_if_last; [|done]. apply adjacent_dup_NoDup. rewrite merge_sort_Permutation Hp.
  apply NoDup_filter, NoDup_elements.
Qed.

(** ** Steps *)

Section step.
Context (d : path) (X : gset path) (Hgood : forall n, n ∈ X -> good n) (pid : Z).

Definition step (p : prog unit) F F' : Prop := own d X F ⊢ WPP pid p (fun _ => own d X F').

Lemma step_seq p q F F' F'' : step p F F' -> step q F' F'' -> step (p;; q) F F''.
Proof.
  intros Hp Hq. rewrite /step Hp -wpp_bind. iIntros "H". iApply (wpp_mono with "[] H"). iIntros (_). iApply Hq.
Qed.

Lemma step_ret F : step (Ret tt) F F.
Proof. rewrite /step. iIntros "$". done. Qed.

Lemma step_eq p F F' F'' : step p F F' -> F' = F'' -> step p F F''.
Proof. by intros ? <-. Qed.

Section here.
Context (D : path) (HD : mounted place D d).

Lemma create1_step f inp F : f ∈ X -> F !! f = None -> inp <> [] -> (length inp <= len)%nat -> step (create1 D f inp) F (<[f := inp]> F).
Proof.
  iIntros (Hf HF Hi Hl) "H". iDestruct (own_take with "H") as "(Hd & Hp & H)"; [done|]. rewrite HF.
  iApply (wpp_create1 with "Hd Hp"); [done|by apply Hgood|done..|]. iIntros "Hp".
  iApply ("H" with "[] [Hp]").
  - iPureIntro. intros n Hn. by apply lookup_insert_ne.
  - by rewrite lookup_insert_eq.
Qed.

Lemma check1_step f inp F : f ∈ X -> F !! f = Some inp -> Z.of_nat (length inp) <= 20999 -> step (check1 D f inp) F F.
Proof.
  iIntros (Hf HF Hl) "H". iDestruct (own_take with "H") as "(Hd & Hp & H)"; [done|].
  rewrite HF. iApply (wpp_check1 with "Hp"); [done|by apply Hgood|done|]. iIntros "Hp".
  iApply ("H" with "[//]"). by rewrite HF.
Qed.

Lemma append1_step f c inp F : f ∈ X -> F !! f = Some c -> inp <> [] -> (length (c ++ inp) <= len)%nat ->
  step (append1 D f inp) F (<[f := c ++ inp]> F).
Proof.
  iIntros (Hf HF Hi Hl) "H". iDestruct (own_take with "H") as "(Hd & Hp & H)"; [done|].
  rewrite HF. iApply (wpp_append1 with "Hp"); [done|by apply Hgood|done..|]. iIntros "Hp".
  iApply ("H" with "[] [Hp]").
  - iPureIntro. intros n Hn. by apply lookup_insert_ne.
  - by rewrite lookup_insert_eq.
Qed.

Lemma unlink1_step f F : f ∈ X -> is_Some (F !! f) -> step (unlink1 D f) F (delete f F).
Proof.
  iIntros (Hf [c HF]) "H". iDestruct (own_take with "H") as "(Hd & Hp & H)"; [done|].
  rewrite HF. iApply (wpp_unlink1 with "Hp"); [done|by apply Hgood|]. iIntros "Hp".
  iApply ("H" with "[] [Hp]").
  - iPureIntro. intros n Hn. by apply lookup_delete_ne.
  - by rewrite lookup_delete_eq.
Qed.

Lemma checknot_step f F : f ∈ X -> F !! f = None -> step (checknot D f) F F.
Proof.
  iIntros (Hf HF) "H". iDestruct (own_take with "H") as "(Hd & Hp & H)"; [done|].
  rewrite HF. iApply (wpp_checknot with "Hd Hp"); [done|by apply Hgood|]. iIntros "Hp".
  iApply ("H" with "[//]"). by rewrite HF.
Qed.

Lemma dircheck_step nf F : all_names U d X -> Z.of_nat (length (listed X F)) = nf -> nf <= 1000 -> step (dircheck D nf) F F.
Proof.
  iIntros (HX Hl Hn) "[#Hd H]". iApply (wpp_dircheck with "Hd"); [done..|].
  iApply fupd_mask_intro; [set_solver|]. iIntros "Hm". iExists F, (fun _ => ∅). iFrame "H". iSplit; [done|].
  iIntros "H". iMod "Hm" as "_". by iFrame "Hd H".
Qed.

(** ** Loops *)

Lemma createn_step prefix dup n F i : Forall (.∈ X) (names_n prefix i n) -> missing_n prefix i n F = true -> (4 <= len)%nat ->
  step (createn_loop D prefix dup i n) F (with_n prefix i n F).
Proof.
  intros Hn Hm Hl. revert i F Hn Hm. induction n as [|n IH]; intros i F Hn Hm; [apply step_ret|].
  apply Forall_cons in Hn as [Hf Hn]. apply andb_prop in Hm as [HF%bool_decide_eq_true Hm]. cbn [createn_loop with_n]. iIntros "H".
  iDestruct (own_take with "H") as "(Hd & Hp & H)"; [done|]. rewrite HF.
  iApply wpp_sprintf; [by eapply good_path; [|apply Hgood]|].
  iApply (wpp_creat with "Hd Hp"); [done|by apply Hgood|]. iIntros (a Ha) "Hp Hfd".
  assert (E : (a_ret a <? 0) = false) by by apply Z.ltb_ge. rewrite E. cbn [andb].
  iApply wpp_bind. iApply wpp_exit_if; [done|].
  iApply (wpp_write with "Hp Hfd"); [done|by rewrite overwrite_nil length_le_enc|]. rewrite overwrite_nil. iIntros (b Hb) "Hp Hfd".
  iApply wpp_exit_if; [by rewrite Hb /int_bytes length_le_enc|].
  iApply (wpp_close with "Hp Hfd"). iIntros (z Hz) "Hp".
  iApply wpp_exit_if_last; [by rewrite Hz|]. iApply (IH (Datatypes.S i)); [done..|].
  iApply ("H" with "[] [Hp]").
  - iPureIntro. intros m Hne. by apply lookup_insert_ne.
  - by rewrite lookup_insert_eq.
Qed.

Lemma checkn_step prefix n F i : Forall (.∈ X) (names_n prefix i n) -> has_n prefix i n F = true -> (i + n <= 1000)%nat ->
  step (checkn_loop D prefix i n) F F.
Proof.
  revert i. induction n as [|n IH]; intros i Hn Hh Hi; [apply step_ret|].
  apply Forall_cons in Hn as [Hf Hn]. apply andb_prop in Hh as [HF%bool_decide_eq_true Hh]. cbn [checkn_loop]. iIntros "H".
  iDestruct (own_take with "H") as "(Hd & Hp & H)"; [done|]. rewrite HF.
  iApply (wpp_checkint with "Hp"); [done|by apply Hgood|lia|]. iIntros "Hp".
  iApply (IH (Datatypes.S i)); [done..|lia|]. iApply ("H" with "[//]"). by rewrite HF.
Qed.

Lemma unlinkn_step prefix n F i : Forall (.∈ X) (names_n prefix i n) -> there_n prefix i n F = true ->
  step (unlinkn_loop D prefix i n) F (without_n prefix i n F).
Proof.
  revert i F. induction n as [|n IH]; intros i F Hn Hh; [apply step_ret|].
  apply Forall_cons in Hn as [Hf Hn]. apply andb_prop in Hh as [[c HF]%bool_decide_eq_true Hh]. cbn [unlinkn_loop without_n]. iIntros "H".
  iDestruct (own_take with "H") as "(Hd & Hp & H)"; [done|]. rewrite HF.
  iApply wpp_sprintf; [by eapply good_path; [|apply Hgood]|].
  iApply (wpp_unlink with "Hp"); [done|]. iIntros (a Ha) "Hp". iApply wpp_exit_if; [by rewrite Ha|].
  iApply (IH (Datatypes.S i)); [done..|]. iApply ("H" with "[] [Hp]").
  - iPureIntro. intros m Hm. by apply lookup_delete_ne.
  - by rewrite lookup_delete_eq.
Qed.
End here.
End step.
End steps.
