(* ===== verification/FsTestParts.v ===== *)
(** * FsTestParts: the parts of the tests that one process runs *)

From iris.proofmode Require Import proofmode.
From iris.base_logic.lib Require Import invariants ghost_map ghost_var token.
From S2P Require Import Prelude CppString FsTest FsTestSpec FsTestCells FsTestLogic FsTestRules FsTestFiles FsTestSteps.
Import Names.

(** The names that the tests with one directory use. *)
Definition names_a : list path :=
  [f1; f2; f3; fx1; fx2; bf; www] ++ names_n aa 0 10 ++ names_n bb 0 10 ++ names_n xx 0 10 ++ names_n yy 0 10 ++
  names_n zz 0 10 ++ names_n p1 0 5 ++ names_n p2 0 5 ++ names_n p3 0 5 ++ names_n p4 0 5.
Definition X_a : gset path := list_to_set names_a.

(** A decidable fact about closed terms. *)
Ltac compute_it := apply (bool_decide_unpack _); vm_compute; exact I.

Lemma elem_it (n : path) (X : gset path) : bool_decide (n ∈ X) = true -> n ∈ X.
Proof. apply bool_decide_eq_true_1. Qed.
Lemma elems_it (l : list path) (X : gset path) : forallb (fun n => bool_decide (n ∈ X)) l = true -> Forall (.∈ X) l.
Proof. intros H. apply Forall_forall. intros n Hn. apply elem_it. rewrite forallb_forall in H. apply H. by apply list_elem_of_In. Qed.
Lemma subset_it (X Y : gset path) : forallb (fun n => bool_decide (n ∈ Y)) (elements X) = true -> X ⊆ Y.
Proof. intros H%elems_it n Hn. rewrite Forall_forall in H. apply H. by apply elem_of_elements. Qed.

#[global] Instance good_dec n : Decision (good n).
Proof. unfold good, plain, visible. apply _. Defined.

Lemma names_a_good n : n ∈ X_a -> good n.
Proof.
  intros Hn%elem_of_list_to_set. assert (H : Forall good names_a) by compute_it. rewrite Forall_forall in H. by apply H.
Qed.

Lemma names_good (X : gset path) : X ⊆ X_a -> forall n, n ∈ X -> good n.
Proof. intros HX n Hn. apply names_a_good. by apply HX. Qed.

Lemma small len (data : list byte) : 65535 <= Z.of_nat len -> (Z.of_nat (length data) <=? 65535) = true -> (length data <= len)%nat.
Proof. intros Hl H%Z.leb_le. lia. Qed.

(** The next step of a part, its files being closed terms. *)
Ltac side :=
  lazymatch goal with
  | |- forall n, _ -> good n => apply names_good, subset_it; vm_compute; reflexivity
  | |- _ ⊆ _ => apply subset_it; vm_compute; reflexivity
  | |- Forall (.∈ _) _ => apply elems_it; vm_compute; reflexivity
  | |- _ ∈ _ => apply elem_it; vm_compute; reflexivity
  | |- mounted _ _ _ => assumption
  | |- all_names _ _ _ => assumption
  | |- (length _ <= _)%nat => apply small; [assumption|vm_compute; reflexivity]
  | |- (_ <= _)%nat => lia
  | |- _ = true => vm_compute; reflexivity
  | |- _ => compute_it
  end.
Ltac one_step :=
  lazymatch goal with
  | |- step _ _ _ _ _ _ (create1 _ _ _) _ _ => apply create1_step; side
  | |- step _ _ _ _ _ _ (check1 _ _ _) _ _ => apply check1_step; side
  | |- step _ _ _ _ _ _ (append1 _ _ _) _ _ => eapply append1_step; [side..|vm_compute; reflexivity|side|side]
  | |- step _ _ _ _ _ _ (unlink1 _ _) _ _ => apply unlink1_step; side
  | |- step _ _ _ _ _ _ (checknot _ _) _ _ => apply checknot_step; side
  | |- step _ _ _ _ _ _ (dircheck _ _) _ _ => apply dircheck_step; side
  | |- step _ _ _ _ _ _ (createn _ _ _ _) _ _ => apply createn_step; side
  | |- step _ _ _ _ _ _ (checkn _ _ _) _ _ => apply checkn_step; side
  | |- step _ _ _ _ _ _ (unlinkn _ _ _) _ _ => apply unlinkn_step; side
  end.
Ltac steps := repeat (eapply step_seq; [one_step|]); eapply step_eq; [one_step|compute_it].

Section parts.
Context (place : path -> path) (U : gset path) (len : nat) `{!fsG Σ}.
Context (d D1 D2 : path) (HX : all_names U d X_a) (H1 : mounted place D1 d) (H2 : mounted place D2 d).
Context (Hlen : 65535 <= Z.of_nat len) (pid : Z).
Local Abbreviation step := (step place U len d X_a pid).

Lemma create_then_read_step : step (create_then_read D1 D2) ∅ {[f1 := aaa]}.
Proof. unfold create_then_read. steps. Qed.

Lemma unlink_part_step : step (unlink_part D1 D2) {[f1 := aaa]} ∅.
Proof. unfold unlink_part. steps. Qed.

Lemma append_part_step : step (append_part D1 D2) ∅ {[f1 := aaabbbccc]}.
Proof. unfold append_part. steps. Qed.

Lemma readdir_part_step : step (readdir_part D1 D2) {[f1 := aaabbbccc]} ∅.
Proof. unfold readdir_part. steps. Qed.

Lemma many_creates_step : step (many_creates D1 D2) ∅ ∅.
Proof. unfold many_creates. steps. Qed.

Lemma write_20000_step : step (write_20000 D1 D2) ∅ ∅.
Proof. unfold write_20000. steps. Qed.
End parts.
