(* ===== verification/FsTestForks.v ===== *)
(** * FsTestForks: the parts of the tests that two processes run on files of their own *)

From iris.proofmode Require Import proofmode.
From iris.base_logic.lib Require Import invariants ghost_map ghost_var token.
From S2P Require Import Prelude CppString FsTest FsTestSpec FsTestCells FsTestLogic FsTestRules FsTestFiles FsTestSteps FsTestParts.
Import Names.

Section forks.
Context (place : path -> path) (U : gset path) (len : nat) `{!fsG Σ}.
Implicit Types (F : files) (X : gset path) (q : Z).
Local Abbreviation WPP := (wpp place U len).

Lemma own_cells_split d X X1 F Sf : X1 ⊆ X -> own_cells d X F Sf ⊣⊢ own_cells d X1 F Sf ∗ own_cells d (X ∖ X1) F Sf.
Proof. intros HX. rewrite /own_cells {1}(union_difference_L X1 X HX) big_sepS_union //. set_solver. Qed.

Lemma own_split d X X1 F : X1 ⊆ X -> own d X F ⊣⊢ own d X1 F ∗ own d (X ∖ X1) F.
Proof.
  intros HX. rewrite /own (own_cells_split _ _ _ _ _ HX). iSplit; [iIntros "[#$ [$ $]]"|iIntros "[[#$ $] [_ $]]"].
Qed.

(** The same files, as far as [X] goes. *)
Definition same_on X F F' : Prop := Forall (fun n => F !! n = F' !! n) (elements X).
Lemma same_it X F F' : forallb (fun n => bool_decide (F !! n = F' !! n)) (elements X) = true -> same_on X F F'.
Proof.
  intros H. apply Forall_forall. intros n Hn. rewrite forallb_forall in H. eapply bool_decide_eq_true_1, H. by apply list_elem_of_In.
Qed.
Lemma own_same d X F F' : same_on X F F' -> own d X F ⊢ own d X F'.
Proof.
  intros H. rewrite /own (own_cells_ext _ _ F F' _ (fun _ => ∅)) // => n Hn. split; [|done].
  rewrite /same_on Forall_forall in H. apply H. by apply elem_of_elements.
Qed.

Section pair.
Context (d : path) (X : gset path) (pid par : Z).

(** A part of a test that may fork. *)
Definition part (p : prog unit) F F' : Prop :=
  own d X F ∗ process pid par None ⊢ WPP pid p (fun _ => own d X F' ∗ process pid par None).

Lemma part_seq p r F F' F'' : part p F F' -> part r F' F'' -> part (p;; r) F F''.
Proof.
  intros Hp Hq. rewrite /part Hp -wpp_bind. iIntros "H". iApply (wpp_mono with "[] H"). iIntros (_). iApply Hq.
Qed.

Lemma step_part p F F' : step place U len d X pid p F F' -> part p F F'.
Proof.
  intros H. rewrite /part H. iIntros "[H Hp]". iApply (wpp_mono with "[Hp] H"). iIntros (_) "$". done.
Qed.

(** A child works on the files [X1] while the parent works on the others. *)
Lemma fork_join X1 child mid rest F F1 F2 F' F'' :
  X1 ⊆ X ->
  (forall q, step place U len d X1 q child F F1) ->
  step place U len d (X ∖ X1) pid mid F F2 ->
  same_on X1 F1 F' -> same_on (X ∖ X1) F2 F' ->
  part rest F' F'' ->
  part (q ← fork_child child; mid;; reap q;; rest) F F''.
Proof.
  iIntros (HX Hc Hm H1 H2 Hr) "[Ho Hp]". iDestruct (own_split _ _ _ _ HX with "Ho") as "[Ho1 Ho2]".
  iApply wpp_bind. iApply (wpp_fork_child _ _ _ _ _ _ (fun _ => own d X1 F1) with "Hp"). iIntros (q Hq _) "Hp !>".
  iSplitL "Ho1"; [by iApply Hc|]. iIntros "Hc !>". iApply wpp_bind. iDestruct (Hm with "Ho2") as "H".
  iApply (wpp_mono with "[Hc Hp] H"). iIntros (_) "Ho2". iApply wpp_bind.
  iApply (wpp_reap with "Hc [//]"). iIntros "Ho1". iApply Hr. iFrame "Hp". iApply own_split; [exact HX|].
  iSplitL "Ho1"; [by iApply (own_same with "Ho1")|by iApply (own_same with "Ho2")].
Qed.
End pair.

Section one_dir.
Context (d D1 D2 : path) (HX : all_names U d X_a) (H1 : mounted place D1 d) (H2 : mounted place D2 d).
Context (Hlen : 65535 <= Z.of_nat len) (pid par : Z).
Local Abbreviation part := (part d X_a pid par).

Definition set_n (prefix : list byte) (n : nat) : gset path := list_to_set (names_n prefix 0 n).

Lemma concurrent_creates_part : part (concurrent_creates D1 D2) ∅ ∅.
Proof.
  unfold concurrent_creates.
  eapply (fork_join _ _ _ _ (set_n xx 10) _ _ _ _ _ _ (with_n xx 0 10 (with_n yy 0 10 ∅))).
  - side.
  - intros q. one_step.
  - one_step.
  - apply same_it; vm_compute; reflexivity.
  - apply same_it; vm_compute; reflexivity.
  - apply step_part. steps.
Qed.

Lemma create_delete_part : part (create_delete D1 D2) ∅ ∅.
Proof.
  unfold create_delete. eapply part_seq; [apply step_part; one_step|]. eapply part_seq; [apply step_part; one_step|].
  eapply (fork_join _ _ _ _ (set_n p1 5 ∪ set_n p3 5) _ _ _ _ _ _ (with_n p2 0 5 (with_n p3 0 5 (with_n p4 0 5 ∅)))).
  - side.
  - intros q. eapply step_seq; one_step.
  - one_step.
  - apply same_it; vm_compute; reflexivity.
  - apply same_it; vm_compute; reflexivity.
  - apply step_part. steps.
Qed.
End one_dir.
End forks.
