(* ===== verification/FsTestShared.v ===== *)
(** * FsTestShared: what two processes share until both are done

    Each of two processes has a stage; [B v w] is what they share when their stages are
    [v] and [w].  A process moves its own stage while it has the shared part in hand, and
    whoever has both stages in the end takes the shared part back. *)

From iris.proofmode Require Import proofmode.
From iris.base_logic.lib Require Import invariants ghost_var.
From S2P Require Import Prelude CppString FsTest FsTestLogic.

Section shared.
Context `{!fsG Σ}.
Implicit Types (v w : nat * Z) (γ : gname) (B : nat * Z -> nat * Z -> iProp Σ).

Definition sharedN : namespace := nroot .@ "shared".
Definition shared_body γ γ' B : iProp Σ :=
  (∃ v w, ghost_var γ (1/2) v ∗ ghost_var γ' (1/2) w ∗ B v w) ∨ (∃ v w, ghost_var γ 1 v ∗ ghost_var γ' 1 w).
Definition shared γ γ' B : iProp Σ := inv sharedN (shared_body γ γ' B).
Definition at_stage γ v : iProp Σ := ghost_var γ (1/2) v.

Lemma shared_body_flip γ γ' B B' : (forall v w, B v w ⊢ B' w v) -> shared_body γ γ' B ⊢ shared_body γ' γ B'.
Proof.
  iIntros (HB) "[(%v & %w & Hv & Hw & H)|(%v & %w & Hv & Hw)]".
  - iLeft. iExists w, v. iFrame "Hv Hw". by iApply HB.
  - iRight. iExists w, v. iFrame.
Qed.

Lemma shared_flip γ γ' B B' : (forall v w, B v w ⊣⊢ B' w v) -> shared γ γ' B ⊢ shared γ' γ B'.
Proof.
  iIntros (HB) "H". iApply (inv_iff with "H"). iIntros "!> !>".
  iSplit; iIntros "H"; iApply (shared_body_flip with "H"); intros v w; by rewrite HB.
Qed.

Lemma shared_start γ γ' B v w : at_stage γ v -∗ at_stage γ' w -∗ B v w ={⊤}=∗ shared γ γ' B.
Proof. iIntros "Hv Hw H". iApply inv_alloc. iIntros "!>". iLeft. iExists v, w. iFrame. Qed.

Lemma stage_alloc v : ⊢ |==> ∃ γ, at_stage γ v ∗ at_stage γ v.
Proof. iMod (ghost_var_alloc v) as (γ) "[H1 H2]". iModIntro. iExists γ. iFrame. Qed.

Lemma not_over γ γ' v : at_stage γ v -∗ (∃ v w, ghost_var γ 1 v ∗ ghost_var γ' 1 w) -∗ False.
Proof.
  iIntros "Hv (%v' & %w & Hv' & _)". iDestruct (ghost_var_valid_2 with "Hv Hv'") as %[Hq _]. done.
Qed.

Section timeless.
Context γ γ' B `{HB : !∀ v w, Timeless (B v w)}.

Lemma shared_access v :
  shared γ γ' B -∗ at_stage γ v ={⊤,∅}=∗ ∃ w, B v w ∗ (∀ v', B v' w ={∅,⊤}=∗ at_stage γ v').
Proof using HB.
  iIntros "#Hi Hv". iInv "Hi" as ">[(%v1 & %w & Hv1 & Hw & H)|H]" "Hclose"; last first.
  { iDestruct (not_over with "Hv H") as "[]". }
  iDestruct (ghost_var_agree with "Hv Hv1") as %<-. iApply fupd_mask_intro; [set_solver|]. iIntros "Hm".
  iExists w. iFrame "H". iIntros (v') "H". iMod "Hm" as "_". iMod (ghost_var_update_halves v' with "Hv Hv1") as "[$ Hv]".
  iApply "Hclose". iLeft. iExists v', w. iFrame.
Qed.

Lemma shared_end v w : shared γ γ' B -∗ at_stage γ v -∗ at_stage γ' w ={⊤}=∗ B v w.
Proof using HB.
  iIntros "#Hi Hv Hw". iInv "Hi" as ">[(%v1 & %w1 & Hv1 & Hw1 & H)|H]" "Hclose"; last first.
  { iDestruct (not_over with "Hv H") as "[]". }
  iDestruct (ghost_var_agree with "Hv Hv1") as %<-. iDestruct (ghost_var_agree with "Hw Hw1") as %<-.
  iCombine "Hv Hv1" as "Hv". iCombine "Hw Hw1" as "Hw". iMod ("Hclose" with "[Hv Hw]") as "_"; [|by iModIntro].
  iRight. iExists _, _. iFrame.
Qed.
End timeless.
End shared.
