(* ===== verification/FsTestRaces.v ===== *)
(** * FsTestRaces: two processes that create the same files

    Both processes run [createn] with the same prefix.  The files are in an invariant;
    a process's stage counts three steps per file: [creat], [write], [close]. *)

From iris.proofmode Require Import proofmode.
From iris.base_logic.lib Require Import invariants ghost_map ghost_var token.
From S2P Require Import Prelude CppString FsTest FsTestSpec FsTestCells FsTestLogic FsTestRules FsTestFiles FsTestSteps FsTestParts FsTestForks FsTestShared.
Import Names.
#[local] Opaque X_a.

(** ** Stages *)

Definition zname (i : nat) : path := nth_name zz i.
Definition zs : gset path := set_n zz 10.

Lemma zname_inj i j : (i < 1000)%nat -> (j < 1000)%nat -> zname i = zname j -> i = j.
Proof. intros Hi Hj E%app_inv_head. injection E as E. apply dec_inj in E; lia. Qed.

Lemma elem_of_names_n prefix i m n : n ∈ names_n prefix i m <-> exists j, (i <= j < i + m)%nat /\ n = nth_name prefix j.
Proof.
  revert i. induction m as [|m IH]; intros i; cbn [names_n].
  - split; [by intros ?%elem_of_nil|]. intros (j & ? & _). lia.
  - rewrite elem_of_cons IH. split.
    + intros [->|(j & ? & ->)]; [exists i|exists j]; (split; [lia|done]).
    + intros (j & Hj & ->). destruct (decide (j = i)) as [->|]; [by left|]. right. exists j. split; [lia|done].
Qed.

Lemma elem_of_zs n : n ∈ zs <-> exists i, (i < 10)%nat /\ n = zname i.
Proof.
  rewrite elem_of_list_to_set elem_of_names_n. split; intros (j & Hj & ->); exists j; (split; [lia|done]).
Qed.

Lemma zname_zs i : (i < 10)%nat -> zname i ∈ zs.
Proof. intros Hi. apply elem_of_zs. eauto. Qed.

(** The descriptor that process [q] has open on file [n] at stage [v]. *)
Definition opens (q : Z) (v : nat * Z) (n : path) : gset (Z * Z) :=
  if bool_decide (v.1 mod 3 <> 0 /\ n = zname (v.1 / 3))%nat then {[(q, v.2)]} else ∅.

Lemma opens_idle q i fd n : opens q ((3 * i)%nat, fd) n = ∅.
Proof. rewrite /opens bool_decide_false //. cbn [fst]. rewrite Nat.mul_comm Nat.Div0.mod_mul. naive_solver. Qed.

Lemma stage_div i k : (k < 3)%nat -> ((3 * i + k) mod 3 = k /\ (3 * i + k) / 3 = i)%nat.
Proof.
  intros Hk. rewrite (Nat.add_comm (3 * i)) (Nat.mul_comm 3) Nat.Div0.mod_add Nat.div_add; [|lia].
  rewrite Nat.mod_small // Nat.div_small //.
Qed.

Lemma opens_here q i k fd : (0 < k < 3)%nat -> opens q ((3 * i + k)%nat, fd) (zname i) = {[(q, fd)]}.
Proof. intros Hk. rewrite /opens. cbn [fst snd]. destruct (stage_div i k) as [-> ->]; [lia|]. rewrite bool_decide_true //. split; [lia|done]. Qed.

Lemma opens_other q i k fd n : (k < 3)%nat -> n <> zname i -> opens q ((3 * i + k)%nat, fd) n = ∅.
Proof. intros Hk Hn. rewrite /opens. cbn [fst snd]. destruct (stage_div i k) as [-> ->]; [lia|]. rewrite bool_decide_false //. tauto. Qed.

(** What file [i] may hold when the processes are at stages [t] and [u]. *)
Definition settled (i t u : nat) (x : option (list byte)) : Prop :=
  (x = None /\ (t <= 3 * i)%nat /\ (u <= 3 * i)%nat) \/
  (x = Some (int_bytes i) /\ (3 * i < t \/ 3 * i < u)%nat) \/
  (x = Some [] /\ (t = 3 * i + 1 \/ u = 3 * i + 1)%nat).

Record zz_ok (t u : nat) (F : files) : Prop := {
  zo_settled : forall i, (i < 10)%nat -> settled i t u (F !! zname i);
  zo_only : forall n, n ∉ zs -> F !! n = None;
}.

Lemma zz_ok_comm t u F : zz_ok t u F -> zz_ok u t F.
Proof. intros [H1 H2]. split; [|done]. intros i Hi. specialize (H1 i Hi). unfold settled in *. naive_solver. Qed.

Lemma zz_ok_move t t' u i F x : zz_ok t u F -> (i < 10)%nat ->
  (3 * i <= t)%nat -> (t <= t')%nat -> (t' <= 3 * i + 3)%nat -> settled i t' u (Some x) ->
  zz_ok t' u (<[zname i := x]> F).
Proof.
  intros [H1 H2] Hi Ht Htt Ht' Hx. split.
  - intros j Hj. destruct (decide (j = i)) as [->|Hne]; [by rewrite lookup_insert_eq|].
    rewrite lookup_insert_ne; [|intros E%zname_inj; lia]. specialize (H1 j Hj). unfold settled in *.
    destruct H1 as [(-> & ? & ?)|[(-> & ?)|(-> & ?)]]; [left|right; left|right; right]; (split; [done|lia]).
  - intros n Hn. rewrite lookup_insert_ne; [by apply H2|]. intros <-. apply Hn. by apply zname_zs.
Qed.

(** A file that a process has created and not closed. *)
Lemma zz_ok_there t u i F : zz_ok t u F -> (i < 10)%nat -> (3 * i < t)%nat ->
  exists c, F !! zname i = Some c /\ (c = [] \/ c = int_bytes i).
Proof.
  intros [H1 _] Hi Ht. destruct (H1 i Hi) as [(_ & ? & _)|[(-> & _)|(-> & _)]]; [lia|eauto..].
Qed.

Lemma zz_ok_written t u i F : zz_ok t u F -> (i < 10)%nat -> t = (3 * i + 2)%nat ->
  zz_ok (3 * i + 3) u F.
Proof.
  intros [H1 H2] Hi ->. split; [|done]. intros j Hj. specialize (H1 j Hj). unfold settled in *.
  destruct H1 as [(-> & ? & ?)|[(-> & ?)|(-> & ?)]]; [left|right; left|right; right]; (split; [done|lia]).
Qed.

(** A file that the other process has made. *)
Lemma zz_ok_skip u i F : zz_ok (3 * i) u F -> (i < 10)%nat -> F !! zname i <> None -> zz_ok (3 * i + 3) u F.
Proof.
  intros [H1 H2] Hi HF. split; [|done]. intros j Hj. specialize (H1 j Hj). unfold settled in *.
  destruct (decide (j = i)) as [->|Hne].
  - destruct H1 as [(E & _)|[(-> & _)|(-> & ?)]]; [done|right; left|right; right]; (split; [done|lia]).
  - destruct H1 as [(-> & ? & ?)|[(-> & ?)|(-> & ?)]]; [left|right; left|right; right]; (split; [done|lia]).
Qed.

Lemma zz_ok_start : zz_ok 0 0 ∅.
Proof. split; [|done]. intros i _. left. rewrite lookup_empty. split; [done|lia]. Qed.

Lemma zz_ok_end F : zz_ok 30 30 F -> same_on zs F (with_n zz 0 10 ∅).
Proof.
  intros [H1 _]. assert (H : forall i, (i < 10)%nat -> F !! zname i = Some (int_bytes i)).
  { intros i Hi. destruct (H1 i Hi) as [(_ & ? & _)|[(-> & _)|(_ & ?)]]; [lia|done|lia]. }
  assert (H' : Forall (fun i => (with_n zz 0 10 ∅ : files) !! zname i = Some (int_bytes i)) (seq 0 10)) by compute_it.
  apply Forall_forall. intros n Hn. apply elem_of_elements, elem_of_zs in Hn as (i & Hi & ->).
  rewrite Forall_forall in H'. rewrite H // H' //. apply elem_of_seq. lia.
Qed.

(** ** The race *)

Lemma overwrite_same c i : c = [] \/ c = int_bytes i -> overwrite c 0 (int_bytes i) = int_bytes i.
Proof.
  intros [-> | ->]; [apply overwrite_nil|reflexivity].
Qed.

Section race.
Context (place : path -> path) (U : gset path) (len : nat) `{!fsG Σ}.
Implicit Types (F : files) (q : Z) (v w : nat * Z) (γ : gname).
Local Abbreviation WPP := (wpp place U len).
Context (d : path) (Hlen : 65535 <= Z.of_nat len).

(** What the processes [q] and [q'] share. *)
Definition race_files q q' v w : iProp Σ :=
  ∃ F, ⌜zz_ok v.1 w.1 F⌝ ∗ own_cells d zs F (fun n => opens q v n ∪ opens q' w n).
Definition race γ γ' q q' : iProp Σ := shared γ γ' (race_files q q').

#[local] Instance race_timeless q q' v w : Timeless (race_files q q' v w).
Proof. rewrite /race_files /own_cells. apply _. Qed.

Lemma race_comm γ γ' q q' : race γ γ' q q' ⊢ race γ' γ q' q.
Proof.
  apply shared_flip. intros v w. iSplit; iIntros "(%F & %Hok & Hc)"; iExists F;
    (iSplit; [by iPureIntro; apply zz_ok_comm|]); iApply (own_cells_ext with "Hc"); (intros n _; split; [done|]); set_solver.
Qed.

(** One call on file [i] moves the process from stage [3 i + k] to [3 i + k']. *)
Lemma race_move γ γ' q q' i k fd : (i < 10)%nat -> (k < 3)%nat ->
  race γ γ' q q' -∗ at_stage γ ((3 * i + k)%nat, fd) ={⊤,∅}=∗
  ∃ (u : nat) F, ⌜zz_ok (3 * i + k) u F⌝ ∗ ∃ S, ⌜S = ∅ \/ exists fd', S = {[(q', fd')]}⌝ ∗
    file_at (join d (zname i)) (File <$> F !! zname i) ((if k is 0%nat then ∅ else {[(q, fd)]}) ∪ S) ∗
    (∀ k' fd' F', ⌜(k < k' <= 3)%nat /\ zz_ok (3 * i + k') u F' /\ forall n, n <> zname i -> F' !! n = F !! n⌝ -∗
       file_at (join d (zname i)) (File <$> F' !! zname i) ((if bool_decide (k' = 3%nat) then ∅ else {[(q, fd')]}) ∪ S)
       ={∅,⊤}=∗ at_stage γ ((3 * i + k')%nat, fd')).
Proof.
  iIntros (Hi Hk) "Hr Hv". iMod (shared_access with "Hr Hv") as (w) "[(%F & %Hok & Hc) H]". iModIntro. cbn [fst] in Hok.
  iDestruct (own_cells_take _ _ _ _ (zname i) with "Hc") as "[Hf Hback]"; [by apply zname_zs|].
  iExists w.1, F. iSplit; [done|]. iExists (opens q' w (zname i)). iSplit.
  { iPureIntro. rewrite /opens. case_bool_decide; [right; by eexists|by left]. }
  iSplitL "Hf".
  { destruct k as [|k]; [by rewrite Nat.add_0_r opens_idle|]. rewrite opens_here; [done|lia]. }
  iIntros (k' fd' F' (Hk' & Hok' & HF)) "Hf". iApply ("H" $! ((3 * i + k')%nat, fd')). iExists F'. iSplit; [done|].
  iApply ("Hback" with "[] [Hf]").
  - iPureIntro. intros n Hn. split; [by apply HF|]. rewrite (opens_other q i k) //.
    destruct (decide (k' = 3%nat)) as [->|]; [|rewrite opens_other //; lia].
    replace (3 * i + 3)%nat with (3 * (i + 1))%nat by lia. by rewrite opens_idle.
  - case_bool_decide as Hk3.
    + subst k'. replace (3 * i + 3)%nat with (3 * (i + 1))%nat by lia. by rewrite opens_idle.
    + rewrite opens_here; [done|lia].
Qed.

Lemma race_creat {A} γ γ' q q' D i fd (k : answer -> prog A) Q : mounted place D d -> (i < 10)%nat ->
  is_dir d -∗ race γ γ' q q' -∗ at_stage γ ((3 * i)%nat, fd) -∗
  ((∀ a, ⌜0 <= a_ret a⌝ -∗ at_stage γ ((3 * i + 1)%nat, a_ret a) -∗
     ofd q (a_ret a) (mk_ofile (join d (zname i)) 0 false) -∗ WPP q (k a) Q) ∧
   (∀ a, ⌜a_ret a = -1 /\ a_errno a = EEXIST⌝ -∗ at_stage γ ((3 * S i)%nat, fd) -∗ WPP q (k a) Q)) -∗
  WPP q (sys (Creat (join D (zname i))) ≫= k) Q.
Proof.
  iIntros (HD Hi) "#Hd #Hr Hv H". iApply wpp_sys_bind. iApply (sys_ok_mono with "[H]"); last first.
  - iApply (sys_creat _ _ _ _ _ d (zname i)
      (fun fd => at_stage γ ((3 * i + 1)%nat, fd) ∗ ofd q fd (mk_ofile (join d (zname i)) 0 false))%I
      (at_stage γ ((3 * S i)%nat, fd)) with "Hd");
      [apply HD|apply names_good with zs; [side|by apply zname_zs]|].
    rewrite -{1}(Nat.add_0_r (3 * i)). iMod (race_move with "Hr Hv") as (u F) "(%Hok & %S & _ & Hf & H)"; [lia..|].
    iModIntro. iExists _, _. iFrame "Hf". iSplit; [by destruct (F !! _)|]. iSplit.
    + iIntros (fd' Hfd') "Hf $". iMod ("H" $! 1%nat fd' (<[zname i := []]> F) with "[] [Hf]") as "H".
      * iPureIntro. split_and!; [lia..| |].
        -- apply (zz_ok_move (3 * i + 0)); [done|lia..|]. right. right. split; [done|lia].
        -- intros n Hn. by rewrite lookup_insert_ne.
      * rewrite lookup_insert_eq bool_decide_false //. by rewrite (union_empty_l_L S) (union_comm_L S).
      * done.
    + iIntros (Hx) "Hf". iMod ("H" $! 3%nat fd F with "[] [Hf]") as "H".
      * iPureIntro. split_and!; [lia..| |done]. rewrite Nat.add_0_r in Hok. apply zz_ok_skip; [done..|]. by destruct (F !! _).
      * by rewrite bool_decide_true.
      * by replace (3 * i + 3)%nat with (3 * Datatypes.S i)%nat by lia.
  - iIntros (a) "[(%Ha & Hv & Hfd)|[%Ha Hv]]".
    + iDestruct "H" as "[H _]". iApply ("H" $! a Ha with "Hv Hfd").
    + iDestruct "H" as "[_ H]". iApply ("H" $! a Ha with "Hv").
Qed.

Lemma race_write {A} γ γ' q q' i fd (k : answer -> prog A) Q : (i < 10)%nat ->
  race γ γ' q q' -∗ at_stage γ ((3 * i + 1)%nat, fd) -∗ ofd q fd (mk_ofile (join d (zname i)) 0 false) -∗
  (∀ a, ⌜a_ret a = 4⌝ -∗ at_stage γ ((3 * i + 2)%nat, fd) -∗
     ofd q fd (mk_ofile (join d (zname i)) 4 false) -∗ WPP q (k a) Q) -∗
  WPP q (sys (Write fd (int_bytes i)) ≫= k) Q.
Proof.
  iIntros (Hi) "#Hr Hv Hfd H". iApply wpp_sys_bind. iApply (sys_write with "Hfd"); [done|].
  iMod (race_move with "Hr Hv") as (u F) "(%Hok & %S & _ & Hf & Hback)"; [lia..|].
  destruct (zz_ok_there _ _ i _ Hok) as (c & HF & Hc); [lia..|]. iModIntro. iExists c, _. rewrite HF. iFrame "Hf".
  rewrite overwrite_same //. iSplit; [iPureIntro; rewrite length_le_enc; lia|]. iIntros "Hf Hfd".
  iMod ("Hback" $! 2%nat fd (<[zname i := int_bytes i]> F) with "[] [Hf]") as "Hv".
  - iPureIntro. split_and!; [lia..| |].
    + apply (zz_ok_move (3 * i + 1)); [done|lia..|]. right. left. split; [done|lia].
    + intros n Hn. by rewrite lookup_insert_ne.
  - by rewrite lookup_insert_eq bool_decide_false.
  - iIntros "!>" (a Ha). rewrite length_le_enc in Ha. iApply ("H" $! a Ha with "Hv Hfd").
Qed.

Lemma race_close {A} γ γ' q q' i fd off (k : answer -> prog A) Q : (i < 10)%nat -> q <> q' ->
  race γ γ' q q' -∗ at_stage γ ((3 * i + 2)%nat, fd) -∗ ofd q fd (mk_ofile (join d (zname i)) off false) -∗
  (∀ a, ⌜a_ret a = 0⌝ -∗ at_stage γ ((3 * S i)%nat, fd) -∗ WPP q (k a) Q) -∗
  WPP q (sys (Close fd) ≫= k) Q.
Proof.
  iIntros (Hi Hq) "#Hr Hv Hfd H". iApply wpp_sys_bind. iApply (sys_close with "Hfd").
  iMod (race_move with "Hr Hv") as (u F) "(%Hok & %S & %HS & Hf & Hback)"; [lia..|].
  iModIntro. iExists _, _. iFrame "Hf". iIntros "Hf".
  iMod ("Hback" $! 3%nat fd F with "[] [Hf]") as "Hv".
  - iPureIntro. split_and!; [lia..| |done]. by apply (zz_ok_written (3 * i + 2)).
  - rewrite bool_decide_true //. replace (∅ ∪ S) with (({[(q, fd)]} ∪ S) ∖ {[(q, fd)]}); [done|].
    destruct HS as [-> |[fd' ->]]; set_solver.
  - iIntros "!>" (a Ha). replace (3 * Datatypes.S i)%nat with (3 * i + 3)%nat by lia. iApply ("H" $! a Ha with "Hv").
Qed.

Lemma createn_race γ γ' q q' D n i fd : mounted place D d -> q <> q' -> (i + n = 10)%nat ->
  is_dir d -∗ race γ γ' q q' -∗ at_stage γ ((3 * i)%nat, fd) -∗
  WPP q (createn_loop D zz true i n) (fun _ => ∃ fd, at_stage γ (30%nat, fd))%I.
Proof.
  intros HD Hq. revert i fd. induction n as [|n IH]; intros i fd Hi; iIntros "#Hd #Hr Hv".
  { replace (3 * i)%nat with 30%nat by lia. cbn. iModIntro. by iExists fd. }
  cbn [createn_loop]. iApply wpp_sprintf.
  { eapply good_path; [done|]. apply names_good with zs; [side|apply (zname_zs i); lia]. }
  iApply (race_creat with "Hd Hr Hv"); [done|lia|]. iSplit; last first.
  { iIntros (a [-> ->]) "Hv". iApply (IH (Datatypes.S i) with "Hd Hr Hv"). lia. }
  iIntros (a Ha) "Hv Hfd". assert (E : (a_ret a <? 0) = false) by by apply Z.ltb_ge. rewrite E. cbn [andb].
  iApply wpp_bind. iApply wpp_exit_if; [done|].
  iApply (race_write with "Hr Hv Hfd"); [lia|]. iIntros (b Hb) "Hv Hfd". iApply wpp_exit_if; [by rewrite Hb|].
  iApply (race_close with "Hr Hv Hfd"); [lia|done|]. iIntros (z Hz) "Hv". iApply wpp_exit_if_last; [by rewrite Hz|].
  iApply (IH (Datatypes.S i) with "Hd Hr Hv"). lia.
Qed.

(** Taking the files back. *)
Lemma race_end γ γ' q q' fd fd' :
  is_dir d -∗ race γ γ' q q' -∗ at_stage γ (30%nat, fd) -∗ at_stage γ' (30%nat, fd') ={⊤}=∗
  own d zs (with_n zz 0 10 ∅).
Proof.
  iIntros "#Hd Hr Hv Hw". iMod (shared_end with "Hr Hv Hw") as "(%F & %Hok & Hc)".
  iModIntro. iApply own_same; [by apply zz_ok_end|]. iFrame "Hd". iApply (own_cells_ext with "Hc").
  intros n _. split; [done|].
  by rewrite (opens_idle _ 10) (opens_idle _ 10) union_empty_l_L.
Qed.

Lemma zz_listed u F : zz_ok 30 u F -> Z.of_nat (length (listed X_a F)) = 10.
Proof.
  intros Hok. rewrite /listed (filter_elements_ext _ _ (.∈ zs)); [by vm_compute|]. intros n _. rewrite elem_of_zs. split.
  - intros HF. destruct (decide (n ∈ zs)) as [Hn|Hn]; [by apply elem_of_zs|]. rewrite (zo_only _ _ _ Hok) // in HF.
  - intros (i & Hi & ->). destruct (zz_ok_there _ _ i _ Hok) as (c & -> & _); [lia..|done].
Qed.

(** Listing the directory in the middle of the race. *)
Lemma dircheck_race γ γ' q q' D fd (Q : unit -> iProp Σ) : mounted place D d -> all_names U d X_a ->
  is_dir d -∗ race γ γ' q q' -∗ at_stage γ (30%nat, fd) -∗ own d (X_a ∖ zs) ∅ -∗
  (at_stage γ (30%nat, fd) -∗ own d (X_a ∖ zs) ∅ -∗ Q tt) -∗
  WPP q (dircheck D 10) Q.
Proof.
  iIntros (HD HX) "#Hd #Hr Hv [_ Ho] HQ". iApply (wpp_dircheck with "Hd"); [done..|].
  iMod (shared_access with "Hr Hv") as (w) "[(%F & %Hok & Hc) Hclose]". iModIntro.
  assert (Hsub : zs ⊆ X_a) by side.
  iExists F, (fun n => if bool_decide (n ∈ zs) then opens q (30%nat, fd) n ∪ opens q' w n else ∅).
  rewrite (own_cells_split _ _ _ _ _ Hsub).
  iSplitL "Hc Ho"; [iSplitL "Hc"|].
  - iApply (own_cells_ext with "Hc"). intros n Hn. by rewrite bool_decide_true.
  - iApply (own_cells_ext with "Ho"). intros n [_ Hn]%elem_of_difference. rewrite bool_decide_false //.
    split; [by rewrite (zo_only _ _ _ Hok)|done].
  - iSplit; [iPureIntro; by eapply zz_listed|]. iIntros "[Hc Ho]".
    iMod ("Hclose" $! (30%nat, fd) with "[Hc]") as "Hv".
    { iExists F. iSplit; [done|]. iApply (own_cells_ext with "Hc"). intros n Hn. by rewrite bool_decide_true. }
    iModIntro. iApply ("HQ" with "Hv"). iFrame "Hd". iApply (own_cells_ext with "Ho").
    intros n [_ Hn]%elem_of_difference. rewrite bool_decide_false //. split; [by rewrite (zo_only _ _ _ Hok)|done].
Qed.

Lemma race_start γ γ' q q' :
  own d zs ∅ -∗ at_stage γ (0%nat, 0) -∗ at_stage γ' (0%nat, 0) ={⊤}=∗ race γ γ' q q'.
Proof.
  iIntros "[_ Hc] Hv Hw". iApply (shared_start with "Hv Hw"). iExists ∅. iSplit; [iPureIntro; apply zz_ok_start|]. iApply (own_cells_ext with "Hc"). intros n _. split; [done|].
  by rewrite (opens_idle _ 0) (opens_idle _ 0) union_empty_l_L.
Qed.

Lemma race_part pid par DA DB rest F : mounted place DA d -> mounted place DB d -> all_names U d X_a ->
  part place U len d X_a pid par rest (with_n zz 0 10 ∅) F ->
  part place U len d X_a pid par
    (q ← fork_child (createn DB zz 10 true); createn DA zz 10 true;; dircheck DA 10;; reap q;; rest) ∅ F.
Proof.
  iIntros (HA HB HX Hr) "[Ho Hp]". iDestruct (own_split _ _ zs with "Ho") as "[Hz Ho]"; [side|].
  iDestruct "Hz" as "[#Hd Hz]". iApply fupd_wpp.
  iMod (stage_alloc (0%nat, 0)) as (γ) "[Hv Hv1]". iMod (stage_alloc (0%nat, 0)) as (γ') "[Hw Hw1]".
  iModIntro. iApply wpp_bind.
  iApply (wpp_fork_child _ _ _ _ _ _ (fun _ => ∃ fd, at_stage γ' (30%nat, fd))%I with "Hp").
  iIntros (q Hq Hne) "Hp". iMod (race_start γ γ' pid q with "[$Hd $Hz] Hv1 Hw1") as "#Hrace". iModIntro. iSplitL "Hw".
  { iApply (createn_race _ _ _ _ _ 10 0 with "Hd [] Hw"); [done..|]. by iApply race_comm. }
  iIntros "Hc !>". iApply wpp_bind.
  iDestruct (createn_race _ _ _ _ DA 10 0 with "Hd Hrace Hv") as "H"; [done..|].
  iApply (wpp_mono with "[Hc Hp Ho] H"). iIntros (_) "[%fd Hv]". iApply wpp_bind.
  iApply (dircheck_race with "Hd Hrace Hv Ho"); [done..|]. iIntros "Hv Ho". iApply wpp_bind.
  iApply (wpp_reap with "Hc [//]"). iIntros "[%fd' Hw]". iApply fupd_wpp.
  iMod (race_end with "Hd Hrace Hv Hw") as "Hz". iModIntro. iApply Hr. iFrame "Hp". iApply (own_split _ _ zs); [side|].
  iFrame "Hz". iApply (own_same with "Ho"). apply same_it; vm_compute; reflexivity.
Qed.

Lemma concurrent_same_part pid par D1 D2 : mounted place D1 d -> mounted place D2 d -> all_names U d X_a ->
  part place U len d X_a pid par (concurrent_same D1 D2) ∅ ∅.
Proof. intros H1 H2 HX. apply race_part; [done..|]. apply step_part. steps. Qed.

Lemma concurrent_same_server_part pid par D1 : mounted place D1 d -> all_names U d X_a ->
  part place U len d X_a pid par (concurrent_same_server D1) ∅ ∅.
Proof. intros H1 HX. apply race_part; [done..|]. apply step_part. steps. Qed.
End race.
