(* ===== verification/FsTestWrites.v ===== *)
(** * FsTestWrites: two processes that write to different parts of one file

    A process's stage is 0 before it opens the file, [n + 1] when it has written [n]
    bytes, and 66 when it has closed the file. *)

From iris.proofmode Require Import proofmode.
From iris.base_logic.lib Require Import invariants ghost_map ghost_var token.
From S2P Require Import Prelude CppString FsTest FsTestSpec FsTestCells FsTestLogic FsTestRules FsTestFiles FsTestSteps FsTestParts FsTestForks FsTestShared.
Import Names.

Lemma overwrite_one c off b : (off < length c)%nat -> overwrite c off [b] = <[off := b]> c.
Proof.
  intros H. rewrite /overwrite insert_take_drop // (_ : off - length c = 0)%nat; [|lia].
  rewrite app_nil_r /= Nat.add_1_r //.
Qed.

(** Its first bytes are written. *)
Definition written (start : Z) (ch : byte) (n : nat) (c : list byte) : Prop :=
  forall k, (k < n)%nat -> c !! (Z.to_nat start + k)%nat = Some ch.

Lemma written_other start ch n c off b : written start ch n c ->
  (off < Z.to_nat start \/ Z.to_nat start + n <= off)%nat -> written start ch n (<[off := b]> c).
Proof. intros H Ho k Hk. rewrite list_lookup_insert_ne; [by apply H|lia]. Qed.

Lemma written_next start ch n c : written start ch n c -> (Z.to_nat start + n < length c)%nat ->
  written start ch (S n) (<[(Z.to_nat start + n)%nat := ch]> c).
Proof.
  intros H Hl k Hk. destruct (decide (k = n)) as [->|]; [by apply list_lookup_insert_eq|].
  rewrite list_lookup_insert_ne; [apply H; lia|lia].
Qed.

(** A writer: where it starts and what it writes. *)
Record writer := mk_writer { w_pid : Z; w_start : Z; w_byte : byte }.

Definition done_by (t : nat) : nat := Nat.min (t - 1) 64.
Definition w_open (a : writer) (v : nat * Z) : gset (Z * Z) :=
  if bool_decide (1 <= v.1 <= 65)%nat then {[(w_pid a, v.2)]} else ∅.
Lemma w_open_in a t fd : (1 <= t <= 65)%nat -> w_open a (t, fd) = {[(w_pid a, fd)]}.
Proof. intros H. rewrite /w_open bool_decide_true //. Qed.
Lemma w_open_out a t fd : t = 0%nat \/ t = 66%nat -> w_open a (t, fd) = ∅.
Proof. intros H. rewrite /w_open bool_decide_false //. cbn [fst]. lia. Qed.
Definition apart (a b : writer) : Prop := w_start a + 64 <= w_start b \/ w_start b + 64 <= w_start a.
Definition fits (a : writer) : Prop := 0 <= w_start a <= 65000.

Record writes_ok (a b : writer) (t u : nat) (c : list byte) : Prop := {
  wo_len : Z.of_nat (length c) = 65535;
  wo_a : written (w_start a) (w_byte a) (done_by t) c;
  wo_b : written (w_start b) (w_byte b) (done_by u) c;
}.

Lemma writes_ok_next a b n u c : writes_ok a b (S n) u c -> (n < 64)%nat -> fits a -> fits b -> apart a b ->
  writes_ok a b (S (S n)) u (overwrite c (Z.to_nat (w_start a) + n) [w_byte a]).
Proof.
  intros [Hl Ha Hb] Hn Fa Fb Hap. unfold fits, apart in *. rewrite overwrite_one; [|lia]. split.
  - by rewrite length_insert.
  - replace (done_by (S (S n))) with (S n) by (unfold done_by; lia). replace (done_by (S n)) with n in Ha by (unfold done_by; lia).
    apply written_next; [done|lia].
  - apply written_other; [done|]. unfold done_by. lia.
Qed.

Lemma huge_len : Z.of_nat (length huge) = 65535.
Proof. vm_compute. reflexivity. Qed.
Lemma huge_nil : huge <> [].
Proof. intros E. apply (f_equal (Z.of_nat ∘ length)) in E. cbv beta delta [compose] in E. rewrite huge_len in E. done. Qed.

Section writes.
Context (place : path -> path) (U : gset path) (len : nat) `{!fsG Σ}.
Implicit Types (F : files) (q : Z) (v w : nat * Z) (γ : gname) (a b : writer).
Local Abbreviation WPP := (wpp place U len).
Context (d : path) (Hlen : 65535 <= Z.of_nat len).
Local Abbreviation fl := (join d www).

Definition written_file a b v w : iProp Σ :=
  ∃ c, ⌜writes_ok a b v.1 w.1 c⌝ ∗ file_at fl (Some (File c)) (w_open a v ∪ w_open b w).
Definition writes γ γ' a b : iProp Σ := shared γ γ' (written_file a b).

Lemma writes_comm γ γ' a b : writes γ γ' a b ⊢ writes γ' γ b a.
Proof.
  apply shared_flip. intros v w. iSplit; iIntros "(%c & %Hok & Hf)"; iExists c; rewrite (union_comm_L (w_open _ _));
    (iFrame "Hf"; iPureIntro; by destruct Hok).
Qed.

Lemma writes_write {A} γ γ' a b n fd (k : answer -> prog A) Q : (n < 64)%nat -> fits a -> fits b -> apart a b ->
  writes γ γ' a b -∗ at_stage γ (S n, fd) -∗ ofd (w_pid a) fd (mk_ofile fl (Z.to_nat (w_start a) + n) false) -∗
  (∀ r, ⌜a_ret r = 1⌝ -∗ at_stage γ (S (S n), fd) -∗ ofd (w_pid a) fd (mk_ofile fl (Z.to_nat (w_start a) + S n) false) -∗
     WPP (w_pid a) (k r) Q) -∗
  WPP (w_pid a) (sys (Write fd [w_byte a]) ≫= k) Q.
Proof.
  iIntros (Hn Fa Fb Hap) "#Hr Hv Hfd H". iApply wpp_sys_bind. iApply (sys_write with "Hfd"); [done|].
  iMod (shared_access with "Hr Hv") as (w) "[(%c & %Hok & Hf) Hback]". iModIntro. iExists c, _. iFrame "Hf".
  pose proof (writes_ok_next _ _ _ _ _ Hok Hn Fa Fb Hap) as Hok'. pose proof (wo_len _ _ _ _ _ Hok') as Hl.
  iSplit; [iPureIntro; lia|]. iIntros "Hf Hfd". iMod ("Hback" $! (S (S n), fd) with "[Hf]") as "Hv".
  { iExists _. iSplit; [done|]. rewrite !w_open_in; [done|lia..]. }
  iIntros "!>" (r Hr). iApply ("H" $! r Hr with "Hv"). by rewrite -Nat.add_assoc Nat.add_1_r.
Qed.

Lemma write1_loop_race γ γ' a b n m fd : (n + m = 64)%nat -> fits a -> fits b -> apart a b ->
  writes γ γ' a b -∗ at_stage γ (S n, fd) -∗ ofd (w_pid a) fd (mk_ofile fl (Z.to_nat (w_start a) + n) false) -∗
  WPP (w_pid a) (write1_loop fd m (w_byte a))
    (fun _ => at_stage γ (65%nat, fd) ∗ ∃ off, ofd (w_pid a) fd (mk_ofile fl off false))%I.
Proof.
  intros Hnm Fa Fb Hap. revert n Hnm. induction m as [|m IH]; intros n Hnm; iIntros "#Hr Hv Hfd".
  { replace n with 64%nat by lia. cbn. iModIntro. iFrame "Hv". by iExists _. }
  cbn [write1_loop]. iApply (writes_write with "Hr Hv Hfd"); [lia|done..|]. iIntros (r Hr) "Hv Hfd".
  iApply wpp_exit_if; [by rewrite Hr|]. iApply wpp_sys_bind. iApply (sys_fsync with "Hfd"). iIntros "Hfd" (z Hz).
  iApply wpp_exit_if; [by rewrite Hz|]. iApply (IH (S n) with "Hr Hv Hfd"). lia.
Qed.

Lemma writes_open {A} γ γ' a b D fd fg (k : answer -> prog A) Q : mounted place D d -> fg <> O_WRONLY_APPEND ->
  writes γ γ' a b -∗ at_stage γ (0%nat, fd) -∗
  ((∀ r, ⌜0 <= a_ret r⌝ -∗ at_stage γ (1%nat, a_ret r) -∗ ofd (w_pid a) (a_ret r) (mk_ofile fl 0 false) -∗ WPP (w_pid a) (k r) Q) ∧
   (∀ r, ⌜fg = O_WRONLY_CREAT /\ a_ret r = -1 /\ a_errno r = EEXIST⌝ -∗ at_stage γ (0%nat, fd) -∗ WPP (w_pid a) (k r) Q)) -∗
  WPP (w_pid a) (sys (Open (join D www) fg) ≫= k) Q.
Proof.
  iIntros (HD Hfg) "#Hr Hv H". iApply wpp_sys_bind. iApply (sys_ok_mono with "[H]"); last first.
  - iApply (sys_open _ _ _ _ _ fg fl
      (fun fd => at_stage γ (1%nat, fd) ∗ ofd (w_pid a) fd (mk_ofile fl 0 false))%I
      (⌜fg = O_WRONLY_CREAT⌝ ∗ at_stage γ (0%nat, fd))%I); [apply HD|].
    iMod (shared_access with "Hr Hv") as (w) "[(%c & %Hok & Hf) Hback]". iModIntro. iExists c, _. iFrame "Hf". iSplit.
    + iIntros (fd' Hfd') "Hf Hfd". iMod ("Hback" $! (1%nat, fd') with "[Hf]") as "$"; [|iModIntro; by destruct fg].
      iExists c. iSplit; [iPureIntro; by destruct Hok|].
      rewrite w_open_out; [|by left]. rewrite w_open_in; [|lia]. by rewrite union_empty_l_L union_comm_L.
    + iIntros (Hc) "Hf". iMod ("Hback" $! (0%nat, fd) with "[Hf]") as "$"; [|done]. iExists c. by iFrame "Hf".
  - iIntros (r) "[(%Hr & Hv & Hfd)|(%Hr & %Hc & Hv)]".
    + iDestruct "H" as "[H _]". iApply ("H" $! r Hr with "Hv Hfd").
    + iDestruct "H" as "[_ H]". iApply ("H" $! r with "[//] Hv").
Qed.

(** [write1] once the file is open. *)
Lemma write1_opened γ γ' a b r : w_pid a <> w_pid b -> fits a -> fits b -> apart a b -> 0 <= a_ret r ->
  writes γ γ' a b -∗ at_stage γ (1%nat, a_ret r) -∗ ofd (w_pid a) (a_ret r) (mk_ofile fl 0 false) -∗
  WPP (w_pid a) (exit_if (a_ret r <? 0);;
    z ← sys (Lseek (a_ret r) (w_start a));
    exit_if (negb (a_ret z =? w_start a));;
    write1_loop (a_ret r) 64 (w_byte a);;
    z ← sys (Close (a_ret r));
    exit_if (negb (a_ret z =? 0))) (fun _ => ∃ fd, at_stage γ (66%nat, fd))%I.
Proof.
  iIntros (Hab Fa Fb Hap Hr) "#Hr Hv Hfd". iApply wpp_exit_if; [by apply Z.ltb_ge|].
  iApply wpp_sys_bind. iApply (sys_lseek with "Hfd"); [unfold fits in Fa; lia|]. iIntros "Hfd" (z Hz).
  iApply wpp_exit_if; [by rewrite Hz Z.eqb_refl|]. iApply wpp_bind.
  rewrite -(Nat.add_0_r (Z.to_nat (w_start a))).
  iDestruct (write1_loop_race _ _ _ _ 0 64 with "Hr Hv Hfd") as "H"; [done..|].
  iApply (wpp_mono with "[] H"). iIntros (_) "[Hv [%off Hfd]]". iApply wpp_sys_bind. iApply (sys_close with "Hfd").
  iMod (shared_access with "Hr Hv") as (w) "[(%c & %Hok & Hf) Hback]". iModIntro. iExists _, _. iFrame "Hf". iIntros "Hf".
  iMod ("Hback" $! (66%nat, a_ret r) with "[Hf]") as "Hv".
  { iExists c. iSplit; [iPureIntro; by destruct Hok|]. rewrite w_open_in; [|lia]. rewrite w_open_out; [|by right].
    replace (({[(w_pid a, a_ret r)]} ∪ w_open b w) ∖ {[(w_pid a, a_ret r)]}) with (∅ ∪ w_open b w); [done|].
    rewrite /w_open. case_bool_decide; set_solver. }
  iIntros "!>" (y Hy). iApply wpp_exit_if_last; [by rewrite Hy|]. by iExists _.
Qed.

Lemma write1_race γ γ' a b D fd : mounted place D d -> w_pid a <> w_pid b -> fits a -> fits b -> apart a b ->
  writes γ γ' a b -∗ at_stage γ (0%nat, fd) -∗
  WPP (w_pid a) (write1 D www (w_start a) 64 (w_byte a)) (fun _ => ∃ fd, at_stage γ (66%nat, fd))%I.
Proof.
  iIntros (HD Hab Fa Fb Hap) "#Hr Hv". iApply wpp_sprintf; [eapply good_path; [done|]; apply names_a_good; side|].
  iApply (writes_open with "Hr Hv"); [done..|]. iSplit.
  - iIntros (r Hr) "Hv Hfd". assert (E : (a_ret r <? 0) = false) by by apply Z.ltb_ge.
    rewrite {1}E. cbn [andb mbind prog_bind]. by iApply (write1_opened with "Hr Hv Hfd").
  - iIntros (r (_ & -> & ->)) "Hv". iApply (writes_open with "Hr Hv"); [done..|]. iSplit.
    + iIntros (r' Hr) "Hv Hfd". by iApply (write1_opened with "Hr Hv Hfd").
    + by iIntros (r' (? & _)).
Qed.

(** ** Reading it back *)

Lemma checkread_loop_ok pid fd c S start ch n m : (n + m = 64)%nat -> written start ch 64 c ->
  file_at fl (Some (File c)) S -∗ ofd pid fd (mk_ofile fl (Z.to_nat start + n) false) -∗
  WPP pid (checkread_loop fd m ch)
    (fun _ => file_at fl (Some (File c)) S ∗ ∃ off, ofd pid fd (mk_ofile fl off false))%I.
Proof.
  intros Hnm Hw. revert n Hnm. induction m as [|m IH]; intros n Hnm; iIntros "Hf Hfd".
  { cbn. iModIntro. iFrame "Hf". by iExists _. }
  cbn [checkread_loop]. iApply (wpp_read with "Hf Hfd"); [done|]. iIntros (r [Hd Hr]) "Hf Hfd".
  assert (E : take (Z.to_nat 1) (drop (Z.to_nat start + n) c) = [ch]).
  { assert (H : c !! (Z.to_nat start + n)%nat = Some ch) by (apply Hw; lia). by rewrite (drop_S _ _ _ H). }
  rewrite E in Hd, Hr. rewrite E. iApply wpp_exit_if; [by rewrite Hr|].
  iApply wpp_exit_if; [by rewrite Hd bool_decide_true|].
  iApply (IH (Datatypes.S n) with "Hf [Hfd]"); [lia|]. cbn [length]. by rewrite -Nat.add_assoc Nat.add_1_r.
Qed.

Lemma wpp_checkread pid D c start ch (Q : unit -> iProp Σ) : mounted place D d -> 0 <= start -> written start ch 64 c ->
  file_at fl (Some (File c)) ∅ -∗ (file_at fl (Some (File c)) ∅ -∗ Q tt) -∗
  WPP pid (checkread D www start 64 ch) Q.
Proof.
  iIntros (HD H0 Hw) "Hf HQ". iApply wpp_sprintf; [eapply good_path; [done|]; apply names_a_good; side|].
  iApply (wpp_open with "Hf"); [apply HD|done|]. iIntros (r Hr) "Hf Hfd". iApply wpp_exit_if; [by apply Z.ltb_ge|].
  iApply wpp_sys_bind. iApply (sys_lseek with "Hfd"); [done|]. iIntros "Hfd" (z Hz).
  iApply wpp_exit_if; [by rewrite Hz Z.eqb_refl|]. iApply wpp_bind. rewrite -(Nat.add_0_r (Z.to_nat start)).
  iDestruct (checkread_loop_ok _ _ _ _ _ ch 0 64 with "Hf Hfd") as "H"; [done..|].
  iApply (wpp_mono with "[HQ] H"). iIntros (_) "[Hf [%off Hfd]]". iApply (wpp_close with "Hf Hfd"). iIntros (y Hy) "Hf".
  cbn. iModIntro. by iApply "HQ".
Qed.

Lemma writes_start γ γ' a b :
  file_at fl (Some (File huge)) ∅ -∗ at_stage γ (0%nat, 0) -∗ at_stage γ' (0%nat, 0) ={⊤}=∗ writes γ γ' a b.
Proof.
  iIntros "Hf Hv Hw". iApply (shared_start with "Hv Hw"). iExists huge. rewrite !w_open_out; [|by left..]. rewrite union_empty_l_L.
  iFrame "Hf". iPureIntro. split; [apply huge_len| |]; intros k Hk; exfalso; revert Hk; unfold done_by; cbn; lia.
Qed.

Lemma concurrent_writes_part pid par D1 D2 : mounted place D1 d -> mounted place D2 d ->
  own d X_a ∅ ∗ process pid par None ⊢ WPP pid (concurrent_writes D1 D2) (fun _ => process pid par None).
Proof.
  iIntros (H1 H2) "[Ho Hp]". rewrite /concurrent_writes. iApply wpp_bind.
  iDestruct (create1_step place U len d X_a names_a_good pid D1 H1 www huge ∅ with "Ho") as "H";
    [side|apply lookup_empty|apply huge_nil|pose proof huge_len; lia|].
  iApply (wpp_mono with "[Hp] H"). iIntros (_) "Ho". iDestruct (own_take _ _ _ www with "Ho") as "(_ & Hf & _)"; [side|].
  rewrite lookup_insert_eq. iApply fupd_wpp.
  iMod (stage_alloc (0%nat, 0)) as (γ) "[Hv Hv1]". iMod (stage_alloc (0%nat, 0)) as (γ') "[Hw Hw1]". iModIntro. iApply wpp_bind.
  iApply (wpp_fork_child _ _ _ _ _ _ (fun _ => ∃ fd, at_stage γ' (66%nat, fd))%I with "Hp").
  iIntros (q Hq Hne) "Hp". pose (a := mk_writer pid 0 x31). pose (b := mk_writer q 10000 x32).
  assert (Fa : fits a) by (unfold fits; cbn; lia). assert (Fb : fits b) by (unfold fits; cbn; lia).
  assert (Hab : apart a b) by (left; cbn; lia). assert (Hba : apart b a) by (right; cbn; lia).
  iMod (writes_start γ γ' a b with "Hf Hv1 Hw1") as "#Hr". iModIntro. iSplitL "Hw".
  { iApply (write1_race _ _ b a with "[] Hw"); [done..|]. by iApply writes_comm. }
  iIntros "Hc !>". iApply wpp_bind. iDestruct (write1_race _ _ a b with "Hr Hv") as "H"; [exact H1|cbn; congruence|done..|].
  iApply (wpp_mono with "[Hc Hp] H"). iIntros (_) "[%fd Hv]". iApply wpp_bind. iApply (wpp_reap with "Hc [//]").
  iIntros "[%fd' Hw]". iApply fupd_wpp. iMod (shared_end with "Hr Hv Hw") as "(%c & %Hok & Hf)". iModIntro.
  rewrite !w_open_out; [|by right..]. rewrite union_empty_l_L. destruct Hok as [_ Wa Wb].
  iApply wpp_bind. iApply (wpp_checkread with "Hf"); [exact H1|lia|exact Wa|]. iIntros "Hf".
  iApply wpp_bind. iApply (wpp_checkread with "Hf"); [exact H2|lia|exact Wa|]. iIntros "Hf".
  iApply wpp_bind. iApply (wpp_checkread with "Hf"); [exact H1|lia|exact Wb|]. iIntros "Hf".
  iApply (wpp_checkread with "Hf"); [exact H2|lia|exact Wb|]. iIntros "_". iFrame "Hp".
Qed.
End writes.
