(* ===== verification/FsTestMains.v ===== *)
(** * FsTestMains: the test programs

    [main] of each test, with the directories it makes, from a file system that does not
    have them. *)

From iris.proofmode Require Import proofmode.
From iris.base_logic.lib Require Import invariants ghost_map ghost_var token.
From S2P Require Import Prelude CppString FsTest FsTestSpec FsTestCells FsTestLogic FsTestRules FsTestFiles FsTestSteps FsTestParts FsTestForks FsTestShared FsTestRaces FsTestWrites.
Import Names.
#[local] Opaque X_a.

(** ** Directories *)

Definition dir_name (prefix : path) (pid : Z) : path := prefix ++ dec pid.
(** A mount point: the rest of the path is a path inside the file system. *)
Definition mount (place : path -> path) (argv : path) : Prop := (forall x, place (join argv x) = x) /\ (length argv <= 400)%nat.

Lemma join_assoc a b c : join (join a b) c = join a (join b c).
Proof. rewrite /join -app_assoc //. Qed.
Lemma join_inj d n n' : join d n = join d n' -> n = n'.
Proof. intros E%app_inv_head. by injection E. Qed.
Lemma join_ne d n : join d n <> d.
Proof. intros E%(f_equal length). rewrite length_join in E. lia. Qed.

Section dir.
Context (place : path -> path) (prefix : path) (pid : Z) (Hpid : 0 < pid < 2 ^ 31).
Context (Hpre : prefix ∈ [d; da; db]).

Lemma prefix_short : plain prefix /\ (length prefix <= 2)%nat.
Proof.
  assert (H : Forall (fun p => plain p /\ (length p <= 2)%nat) [d; da; db]).
  { repeat constructor; try done; compute_it. }
  rewrite Forall_forall in H. by apply H.
Qed.

Lemma dir_name_plain : plain (dir_name prefix pid).
Proof using Hpid Hpre.
  destruct prefix_short as [[H1 H2] _]. split.
  - intros [E _]%app_eq_nil. done.
  - rewrite elem_of_app. intros [H|H]; [done|]. revert H. apply dec_no_slash. lia.
Qed.

Lemma work_dir_short argv : mount place argv -> (length (work_dir argv prefix pid) < 470)%nat.
Proof using Hpre.
  intros [_ Hl]. rewrite /work_dir length_join length_app. destruct prefix_short as [_ Hp].
  pose proof (length_dec_le pid) as Hd. lia.
Qed.

Lemma work_dir_mounted argv : mount place argv -> mounted place (work_dir argv prefix pid) (dir_name prefix pid).
Proof using Hpre.
  intros H. pose proof (work_dir_short argv H) as Hl. destruct H as [H _]. split_and!; [apply H| |done].
  intros n. rewrite /work_dir join_assoc. apply H.
Qed.
End dir.

(** ** What the tests start from *)

(** Directory [dn] is not there, nor anything in it. *)
Definition absent (s : fs) (dn : path) : Prop := nodes s !! dn = None /\ forall n, nodes s !! join dn n = None.

(** The paths that a directory [dn] with the names [X] adds. *)
Definition dir_paths (dn : path) (X : gset path) : gset path := {[dn]} ∪ set_map (join dn) X.

Lemma elem_of_dir_paths dn X p : p ∈ dir_paths dn X <-> p = dn \/ exists n, n ∈ X /\ p = join dn n.
Proof. rewrite /dir_paths elem_of_union elem_of_singleton elem_of_map. naive_solver. Qed.

Lemma absent_all_names s dn X V : absent s dn -> (forall n, n ∈ X -> good n) -> (forall n, plain n -> join dn n ∉ V) ->
  all_names (dom (nodes s) ∪ dir_paths dn X ∪ V) dn X.
Proof.
  intros [H1 H2] HX HV. split.
  - intros n Hn. destruct (HX n Hn) as ([? ?] & ? & _). done.
  - intros n Hn Hs Hv. rewrite 2!elem_of_union elem_of_dir_paths. intros [[Hd|[E|(n' & Hn' & E)]]|Hd].
    + apply elem_of_dom in Hd as [x Hx]. rewrite H2 in Hx. done.
    + by apply join_ne in E.
    + by apply join_inj in E as ->.
    + by destruct (HV n).
Qed.

(** All the files made but the last removed. *)
Definition last_of (nf : nat) (prefix : path) : files := without_n prefix 0 (nf - 1) (with_n prefix 0 nf ∅).

Definition many (nf : nat) (prefix : path) : bool :=
  let X := set_n prefix nf in
  forallb (fun n => bool_decide (n ∈ X)) (names_n prefix 0 nf) &&
  forallb (fun n => bool_decide (n ∈ X)) (names_n prefix 0 (nf - 1)) &&
  missing_n prefix 0 nf ∅ && there_n prefix 0 (nf - 1) (with_n prefix 0 nf ∅) && (Z.of_nat (length (listed X (last_of nf prefix))) =? 1).

Lemma many_true nf prefix : nf ∈ [10; 100]%nat -> prefix ∈ [xx; yy] -> many nf prefix = true.
Proof.
  assert (H : forallb (fun n => forallb (many n) [xx; yy]) [10; 100]%nat = true) by (vm_compute; reflexivity).
  intros Hn Hp. rewrite forallb_forall in H. specialize (H nf (proj1 (list_elem_of_In _ _) Hn)).
  rewrite forallb_forall in H. apply H. by apply list_elem_of_In.
Qed.

Section mains.
Context (place : path -> path) (U : gset path) (len : nat) `{!fsG Σ}.
Context (s : fs) (argv1 argv2 : path) (pid : Z) (Hpid : 0 < pid < 2 ^ 31) (Hlen : 65535 <= Z.of_nat len).
Context (M1 : mount place argv1) (M2 : mount place argv2).
Local Abbreviation WPP := (wpp place U len).

Definition untouched (V : gset path) : iProp Σ := [∗ set] x ∈ V, file_at x (nodes s !! x) ∅.

Lemma take_dir V dn X : absent s dn -> dir_paths dn X ⊆ V ->
  untouched V ⊢ file_at dn None ∅ ∗ own_cells dn X ∅ (fun _ => ∅) ∗ untouched (V ∖ dir_paths dn X).
Proof.
  intros [H1 H2] HV. rewrite /untouched {1}(union_difference_L _ _ HV) big_sepS_union; [|set_solver].
  iIntros "[H $]". rewrite /dir_paths big_sepS_union; [|].
  - iDestruct "H" as "[Hd H]". rewrite big_sepS_singleton H1. iFrame "Hd".
    rewrite big_opS_set_map. iApply (big_sepS_mono with "H").
    intros n _. rewrite H2 lookup_empty. done.
  - intros p Hp [n [E _]]%elem_of_map. apply elem_of_singleton in Hp as ->. by apply (join_ne dn n).
Qed.

Lemma wpp_mkdir {A} argv prefix (k : answer -> prog A) Q : mount place argv -> prefix ∈ [d; da; db] ->
  file_at (dir_name prefix pid) None ∅ -∗
  (∀ a, ⌜a_ret a = 0⌝ -∗ is_dir (dir_name prefix pid) -∗ WPP pid (k a) Q) -∗
  WPP pid (sys (Mkdir (work_dir argv prefix pid)) ≫= k) Q.
Proof.
  iIntros (HM Hp) "Hf H". iApply wpp_sys_bind. iApply (sys_mkdir with "Hf").
  - apply (work_dir_mounted place prefix pid Hp argv HM).
  - by apply dir_name_plain.
  - iIntros "Hd" (a Ha). iApply ("H" $! a Ha with "Hd").
Qed.

Lemma wpp_access {A} argv prefix (k : answer -> prog A) Q : mount place argv -> prefix ∈ [d; da; db] ->
  is_dir (dir_name prefix pid) -∗ (∀ a, ⌜a_ret a = 0⌝ -∗ WPP pid (k a) Q) -∗
  WPP pid (sys (Access (work_dir argv prefix pid)) ≫= k) Q.
Proof.
  iIntros (HM Hp) "Hd H". iApply wpp_sys_bind. iApply (sys_access with "Hd").
  - apply (work_dir_mounted place prefix pid Hp argv HM).
  - iIntros (a Ha). by iApply "H".
Qed.

Lemma sprintf_dir {A} argv prefix (k : path -> prog A) Q : mount place argv -> prefix ∈ [d; da; db] ->
  WPP pid (k (work_dir argv prefix pid)) Q ⊢ WPP pid (sprintf512 (work_dir argv prefix pid) ≫= k) Q.
Proof. intros HM Hp. apply wpp_sprintf. pose proof (work_dir_short place prefix pid Hp argv HM). lia. Qed.

(** ** One directory *)

Section one_dir.
Local Abbreviation dn := (dir_name d pid).
Context (Habs : absent s dn) (HU : U = dom (nodes s) ∪ dir_paths dn X_a).
Local Abbreviation D1 := (work_dir argv1 d pid).
Local Abbreviation D2 := (work_dir argv2 d pid).

Lemma d_listed : d ∈ [d; da; db].
Proof. by left. Qed.

Lemma all_names_a : all_names U dn X_a.
Proof. rewrite HU -(union_empty_r_L (_ ∪ _)). apply absent_all_names; [done|apply names_a_good|set_solver]. Qed.

Lemma one_dir_ok {A} (k : path * path -> prog A) Q :
  untouched U -∗ (own dn X_a ∅ -∗ WPP pid (k (D1, D2)) Q) -∗ WPP pid (one_dir argv1 argv2 pid ≫= k) Q.
Proof.
  iIntros "HV H". iDestruct (take_dir U dn X_a with "HV") as "(Hf & Hc & _)"; [done|set_solver|].
  iApply wpp_bind. iApply sprintf_dir; [done|apply d_listed|].
  iApply (wpp_mkdir with "Hf"); [done|apply d_listed|]. iIntros (a Ha) "#Hd". iApply wpp_exit_if; [by rewrite Ha|].
  iApply sprintf_dir; [done|apply d_listed|]. iApply (wpp_access with "Hd"); [done|apply d_listed|]. iIntros (b Hb).
  iApply wpp_exit_if; [by rewrite Hb|]. cbn. iModIntro. iApply "H". by iFrame "Hd Hc".
Qed.

Local Abbreviation part := (part place U len dn X_a pid 0).

(** The parts one after another. *)
Lemma part_then (p q : prog unit) F F' Q : part p F F' ->
  (own dn X_a F' ∗ process pid 0 None ⊢ WPP pid q Q) -> own dn X_a F ∗ process pid 0 None ⊢ WPP pid (p;; q) Q.
Proof.
  intros Hp Hq. rewrite Hp -wpp_bind. iIntros "H". iApply (wpp_mono with "[] H"). iIntros (_). iApply Hq.
Qed.

Lemma mounts : mounted place D1 dn /\ mounted place D2 dn.
Proof. split; apply work_dir_mounted; [apply d_listed|done|apply d_listed|done]. Qed.

Lemma sequential_ok (q : prog unit) Q :
  (own dn X_a ∅ ∗ process pid 0 None ⊢ WPP pid q Q) ->
  own dn X_a ∅ ∗ process pid 0 None ⊢ WPP pid
    (create_then_read D1 D2;; unlink_part D1 D2;; append_part D1 D2;; readdir_part D1 D2;; many_creates D1 D2;;
     write_20000 D1 D2;; q) Q.
Proof.
  intros Hq. destruct mounts as [HD1 HD2]. pose proof all_names_a as HX.
  eapply part_then; [apply step_part; by apply create_then_read_step|].
  eapply part_then; [apply step_part; by apply unlink_part_step|].
  eapply part_then; [apply step_part; by apply append_part_step|].
  eapply part_then; [apply step_part; by apply readdir_part_step|].
  eapply part_then; [apply step_part; by apply many_creates_step|].
  eapply part_then; [apply step_part; by apply write_20000_step|]. done.
Qed.

Lemma concurrent_ok :
  own dn X_a ∅ ∗ process pid 0 None ⊢ WPP pid
    (concurrent_creates D1 D2;; concurrent_same D1 D2;; create_delete D1 D2;; concurrent_same_server D1;;
     concurrent_writes D1 D2;; Exit 0) (fun _ : unit => False)%I.
Proof.
  destruct mounts as [HD1 HD2]. pose proof all_names_a as HX.
  eapply part_then; [by apply concurrent_creates_part|]. eapply part_then; [by apply concurrent_same_part|].
  eapply part_then; [by apply create_delete_part|]. eapply part_then; [by apply concurrent_same_server_part|].
  rewrite -wpp_bind (concurrent_writes_part place U len dn Hlen pid 0 D1 D2 HD1 HD2). iIntros "H". iApply (wpp_mono with "[] H"). iIntros (_). iApply main_exits.
Qed.

Lemma part1_g_ok : untouched U ∗ process pid 0 None ⊢ WPP pid (part1_g argv1 argv2 pid) (fun _ => False)%I.
Proof.
  iIntros "[HV Hp]". iApply (one_dir_ok with "HV"). iIntros "Ho". iApply sequential_ok; [|by iFrame "Ho Hp"].
  iIntros "[_ Hp]". by iApply main_exits.
Qed.

Lemma part2_a_ok : untouched U ∗ process pid 0 None ⊢ WPP pid (part2_a argv1 argv2 pid) (fun _ => False)%I.
Proof.
  iIntros "[HV Hp]". iApply (one_dir_ok with "HV"). iIntros "Ho". iApply concurrent_ok. by iFrame "Ho Hp".
Qed.

Lemma lab3_a_ok : untouched U ∗ process pid 0 None ⊢ WPP pid (lab3_a argv1 argv2 pid) (fun _ => False)%I.
Proof.
  iIntros "[HV Hp]". iApply (one_dir_ok with "HV"). iIntros "Ho". iApply sequential_ok; [|by iFrame "Ho Hp"].
  apply concurrent_ok.
Qed.
End one_dir.

(** ** Two directories *)

Section two_dirs.
Local Abbreviation dna := (dir_name da pid).
Local Abbreviation dnb := (dir_name db pid).
Context (nf : nat) (Hnf : nf ∈ [10; 100]%nat) (Ha : absent s dna) (Hb : absent s dnb).
Context (HU : U = dom (nodes s) ∪ dir_paths dna (set_n yy nf) ∪ dir_paths dnb (set_n xx nf)).

Lemma da_db : da ∈ [d; da; db] /\ db ∈ [d; da; db].
Proof. split; [by right; left|by do 2 right; left]. Qed.

(** The second byte of a path tells the directories apart. *)
Lemma second_a n : dna !! 1%nat = Some x61 /\ join dna n !! 1%nat = Some x61.
Proof. split; reflexivity. Qed.
Lemma second_b n : dnb !! 1%nat = Some x62 /\ join dnb n !! 1%nat = Some x62.
Proof. split; reflexivity. Qed.

Lemma dir_paths_a p X : p ∈ dir_paths dna X -> p !! 1%nat = Some x61.
Proof. rewrite elem_of_dir_paths. intros [-> |(n & _ & ->)]; [apply (second_a [])|apply second_a]. Qed.
Lemma dir_paths_b p X : p ∈ dir_paths dnb X -> p !! 1%nat = Some x62.
Proof. rewrite elem_of_dir_paths. intros [-> |(n & _ & ->)]; [apply (second_b [])|apply second_b]. Qed.

Lemma disjoint_dirs X Y : dir_paths dna X ## dir_paths dnb Y.
Proof. intros p H1%dir_paths_a H2%dir_paths_b. rewrite H1 in H2. discriminate. Qed.

Lemma set_n_good prefix : prefix ∈ [xx; yy] -> forall n, n ∈ set_n prefix nf -> good n.
Proof.
  intros Hp n Hn%elem_of_list_to_set%elem_of_names_n.
  assert (H : Forall (fun p => Forall good (names_n p 0 100)) [xx; yy]) by compute_it.
  rewrite Forall_forall in H. specialize (H _ Hp). rewrite Forall_forall in H. apply H, elem_of_names_n.
  destruct Hn as (j & Hj & ->). exists j. split; [|done].
  assert (nf <= 100)%nat; [|lia]. apply elem_of_cons in Hnf as [-> |Hnf']; [lia|]. apply list_elem_of_singleton in Hnf' as ->. lia.
Qed.

Lemma all_names_b : all_names U dna (set_n yy nf) /\ all_names U dnb (set_n xx nf).
Proof.
  rewrite HU. split.
  - apply absent_all_names; [done|apply set_n_good; by right; left|]. intros n _ H%dir_paths_b.
    destruct (second_a n) as [_ E]. rewrite E in H. discriminate.
  - rewrite -(assoc_L (∪)) (union_comm_L (dir_paths dna _)) (assoc_L (∪)).
    apply absent_all_names; [done|apply set_n_good; by left|]. intros n _ H%dir_paths_a.
    destruct (second_b n) as [_ E]. rewrite E in H. discriminate.
Qed.

Lemma many_ok prefix : prefix ∈ [xx; yy] ->
  Forall (.∈ set_n prefix nf) (names_n prefix 0 nf) /\ Forall (.∈ set_n prefix nf) (names_n prefix 0 (nf - 1)) /\
  missing_n prefix 0 nf ∅ = true /\ there_n prefix 0 (nf - 1) (with_n prefix 0 nf ∅) = true /\ Z.of_nat (length (listed (set_n prefix nf) (last_of nf prefix))) = 1.
Proof.
  intros Hp. assert (H : many nf prefix = true) by by apply many_true.
  apply andb_prop in H as [H H5]. apply andb_prop in H as [H H4]. apply andb_prop in H as [H H3]. apply andb_prop in H as [H1 H2].
  split_and!; [by apply elems_it..|exact H3|exact H4|by apply Z.eqb_eq].
Qed.

Lemma create_many_step q D dn prefix : prefix ∈ [xx; yy] -> mounted place D dn ->
  step place U len dn (set_n prefix nf) q (createn D prefix nf false) ∅ (with_n prefix 0 nf ∅).
Proof.
  intros Hp HD. destruct (many_ok prefix Hp) as (Hn & _ & Hm & _). apply createn_step; [by apply set_n_good|done..|lia].
Qed.

Lemma remove_most_step q D dn prefix : prefix ∈ [xx; yy] -> mounted place D dn ->
  step place U len dn (set_n prefix nf) q (unlinkn D prefix (nf - 1)) (with_n prefix 0 nf ∅) (last_of nf prefix).
Proof.
  intros Hp HD. destruct (many_ok prefix Hp) as (_ & Hn & _ & Ht & _). apply unlinkn_step; [by apply set_n_good|done..].
Qed.

Lemma dircheck_last q D dn prefix : prefix ∈ [xx; yy] -> mounted place D dn -> all_names U dn (set_n prefix nf) ->
  step place U len dn (set_n prefix nf) q (dircheck D 1) (last_of nf prefix) (last_of nf prefix).
Proof.
  intros Hp HD HX. destruct (many_ok prefix Hp) as (_ & _ & _ & _ & Hl).
  apply dircheck_step; [by apply set_n_good|done..|lia].
Qed.

#[local] Opaque set_n last_of.
Lemma two_dirs_in_U :
  dir_paths dna (set_n yy nf) ⊆ U /\ dir_paths dnb (set_n xx nf) ⊆ U ∖ dir_paths dna (set_n yy nf).
Proof.
  pose proof (disjoint_dirs (set_n yy nf) (set_n xx nf)) as Hdis. rewrite HU. split.
  - intros p Hp. apply elem_of_union_l, elem_of_union_r, Hp.
  - intros p Hp. apply elem_of_difference. split; [apply elem_of_union_r, Hp|]. intros Hp'. exact (Hdis p Hp' Hp).
Qed.

Lemma two_dirs_ok : untouched U ∗ process pid 0 None ⊢ WPP pid (two_dirs nf argv1 argv2 pid) (fun _ => False)%I.
Proof.
  iIntros "[HV Hp]". destruct da_db as [Lda Ldb]. destruct all_names_b as [Na Nb]. destruct two_dirs_in_U as [Ua Ub].
  assert (HD1 : mounted place (work_dir argv1 da pid) dna) by by apply work_dir_mounted.
  assert (HD2 : mounted place (work_dir argv2 db pid) dnb) by by apply work_dir_mounted.
  iDestruct (take_dir U dna (set_n yy nf) with "HV") as "(Hfa & Hca & HV)"; [exact Ha|exact Ua|].
  iDestruct (take_dir _ dnb (set_n xx nf) with "HV") as "(Hfb & Hcb & _)"; [exact Hb|exact Ub|].
  iApply sprintf_dir; [done..|]. iApply (wpp_mkdir with "Hfa"); [done..|]. iIntros (r1 Hr1) "#Hda".
  iApply wpp_exit_if; [by rewrite Hr1|].
  iApply sprintf_dir; [done..|]. iApply (wpp_mkdir with "Hfb"); [done..|]. iIntros (r2 Hr2) "#Hdb".
  iApply wpp_exit_if; [by rewrite Hr2|].
  iApply sprintf_dir; [done..|]. iApply (wpp_access with "Hda"); [done..|]. iIntros (r3 Hr3).
  iApply wpp_exit_if; [by rewrite Hr3|]. iApply wpp_bind.
  iApply (wpp_fork_child _ _ _ _ _ _ (fun _ => own dnb (set_n xx nf) (last_of nf xx)) with "Hp").
  iIntros (q Hq Hne) "Hp !>". iSplitL "Hcb".
  { iApply (step_seq _ _ _ _ _ _ _ _ ∅ (with_n xx 0 nf ∅));
      [apply create_many_step; [by left|exact HD2]|apply remove_most_step; [by left|exact HD2]|]. by iFrame "Hdb Hcb". }
  iIntros "Hc !>". iAssert (own dna (set_n yy nf) ∅) with "[Hca]" as "Ho"; [by iFrame "Hda Hca"|].
  iApply wpp_bind. iDestruct (create_many_step pid _ _ yy with "Ho") as "H"; [by right; left|exact HD1|].
  iApply (wpp_mono with "[Hp Hc] H"). iIntros (_) "Ho".
  iApply wpp_bind. iDestruct (remove_most_step pid _ _ yy with "Ho") as "H"; [by right; left|exact HD1|].
  iApply (wpp_mono with "[Hp Hc] H"). iIntros (_) "Ho". iApply wpp_bind. iApply (wpp_reap with "Hc [//]"). iIntros "Hb".
  iApply wpp_bind. iDestruct (dircheck_last pid _ _ yy with "Ho") as "H"; [by right; left|exact HD1|exact Na|].
  iApply (wpp_mono with "[Hp Hb] H"). iIntros (_) "_".
  iApply wpp_bind. iDestruct (dircheck_last pid _ _ xx with "Hb") as "H"; [by left|exact HD2|exact Nb|].
  iApply (wpp_mono with "[Hp] H"). iIntros (_) "_". by iApply main_exits.
Qed.
End two_dirs.
End mains.
