(* ===== verification/FsTestMemory.v ===== *)
(** * FsTestMemory: a kernel whose file system is in memory

    An executable kernel that behaves as the tests expect: it satisfies [KernelOK] for any
    paths and any length. *)

From Stdlib Require Import ZArith Lia.
From S2P Require Import Prelude CppString FsTest FsTestSpec FsTestCells.
#[local] Set Default Goal Selector "!".

(** The smallest descriptor that is not in use. *)
Fixpoint first_free {A} (m : gmap (Z * Z) A) (pid fd : Z) (fuel : nat) : Z :=
  match fuel with
  | O => fd
  | S fuel => if bool_decide (is_Some (m !! (pid, fd))) then first_free m pid (fd + 1) fuel else fd
  end.
Definition new_fd {A} (m : gmap (Z * Z) A) (pid : Z) : Z := first_free m pid 0 (size m).
Definition mem_fd (s : fs) (pid : Z) : Z := new_fd (ofiles s) pid.

Lemma first_free_spec {A} (m : gmap (Z * Z) A) pid n fd : 0 <= fd -> (exists fd', fd <= fd' <= fd + Z.of_nat n /\ m !! (pid, fd') = None) ->
  0 <= first_free m pid fd n /\ m !! (pid, first_free m pid fd n) = None.
Proof.
  revert fd. induction n as [|n IH]; intros fd H0 (fd' & Hr & Hn); cbn [first_free].
  - split; [done|]. by replace fd with fd' by lia.
  - case_bool_decide as Hs; [|split; [done|by apply eq_None_not_Some]]. apply IH; [lia|]. exists fd'. split; [|done].
    destruct (decide (fd' = fd)) as [->|]; [|lia]. rewrite Hn in Hs. by destruct Hs.
Qed.

Lemma new_fd_spec {A} (m : gmap (Z * Z) A) pid : 0 <= new_fd m pid /\ m !! (pid, new_fd m pid) = None.
Proof.
  apply first_free_spec; [lia|]. set (n := size m).
  destruct (decide (Exists (fun i => m !! (pid, Z.of_nat i) = None) (seq 0 (S n)))) as [H|H].
  - apply Exists_exists in H as (i & [_ Hi]%elem_of_seq & E). exists (Z.of_nat i). split; [lia|done].
  - exfalso. assert (Hs : (list_to_set ((fun i => (pid, Z.of_nat i)) <$> seq 0 (S n)) : gset (Z * Z)) ⊆ dom m).
    { intros k (i & -> & Hi)%elem_of_list_to_set%list_elem_of_fmap. apply elem_of_dom. apply not_eq_None_Some.
      intros E. apply H, Exists_exists. eauto. }
    apply subseteq_size in Hs. rewrite size_list_to_set, length_fmap, length_seq, size_dom in Hs; [lia|].
    apply NoDup_fmap_2; [|apply NoDup_seq]. intros i j [= E]. lia.
Qed.

(** The last component of a path in directory [d]. *)
Definition entry_of (d p : path) : option path :=
  if bool_decide (take (S (length d)) p = d ++ [slash]) then
    let n := drop (S (length d)) p in if bool_decide (n <> [] /\ slash ∉ n) then Some n else None
  else None.
Definition mem_list (s : fs) (d : path) : list path := omap (entry_of d) (elements (dom (nodes s))).

Section memory.
Context (place : path -> path).

Definition mem_new (s : fs) (p : path) (pid : Z) : result (answer * fs) :=
  let fd := mem_fd s pid in
  Ok (ans fd 0 [] [], set_ofile (set_node s p (File [])) pid fd (mk_ofile p 0 false)).

Definition mem_kern (pid : Z) (e : syscall) (s : fs) : result (answer * fs) :=
  match e with
  | Creat p => mem_new s (place p) pid
  | Open p f =>
      match nodes s !! place p with
      | Some _ =>
          let fd := mem_fd s pid in
          Ok (ans fd 0 [] [], set_ofile s pid fd (mk_ofile (place p) 0 (if f is O_WRONLY_APPEND then true else false)))
      | None => if f is O_WRONLY_CREAT then mem_new s (place p) pid else Ok (ans (-1) ENOENT [] [], s)
      end
  | Write fd data =>
      match ofiles s !! (pid, fd) with
      | Some (mk_ofile p off app) =>
          match nodes s !! p with
          | Some (File c) =>
              let off := if app : bool then length c else off in
              Ok (ans (Z.of_nat (length data)) 0 [] [],
                  set_ofile (set_node s p (File (overwrite c off data))) pid fd (mk_ofile p (off + length data) app))
          | _ => Ok (ans (-1) 0 [] [], s)
          end
      | None => Ok (ans (-1) 0 [] [], s)
      end
  | Read fd n =>
      match ofiles s !! (pid, fd) with
      | Some (mk_ofile p off app) =>
          match nodes s !! p with
          | Some (File c) =>
              let data := take (Z.to_nat n) (drop off c) in
              Ok (ans (Z.of_nat (length data)) 0 data [], set_ofile s pid fd (mk_ofile p (off + length data) app))
          | _ => Ok (ans (-1) 0 [] [], s)
          end
      | None => Ok (ans (-1) 0 [] [], s)
      end
  | Lseek fd o =>
      match ofiles s !! (pid, fd) with
      | Some (mk_ofile p _ app) => Ok (ans o 0 [] [], set_ofile s pid fd (mk_ofile p (Z.to_nat o) app))
      | None => Ok (ans (-1) 0 [] [], s)
      end
  | Fsync _ => Ok (ans 0 0 [] [], s)
  | Close fd => Ok (ans 0 0 [] [], mk_fs (nodes s) (delete (pid, fd) (ofiles s)))
  | Unlink p => Ok (ans 0 0 [] [], mk_fs (delete (place p) (nodes s)) (ofiles s))
  | Mkdir p => Ok (ans 0 0 [] [], set_node s (place p) Dir)
  | Access _ => Ok (ans 0 0 [] [], s)
  | Readdir p => Ok (ans 0 0 [] (mem_list s (place p)), s)
  end.

Lemma entry_of_spec d p n : entry_of d p = Some n <-> p = join d n /\ n <> [] /\ slash ∉ n.
Proof.
  unfold entry_of, join. split.
  - case_bool_decide as Hd; [|done]. case_bool_decide as Hn; [|done]. intros [= <-]. split; [|done].
    rewrite <- (take_drop (S (length d)) p) at 1. rewrite Hd, <- app_assoc. done.
  - intros (-> & Hn). replace (d ++ slash :: n) with ((d ++ [slash]) ++ n) by by rewrite <- app_assoc.
    assert (El : S (length d) = length (d ++ [slash])) by (rewrite length_app; cbn; lia).
    rewrite El, take_app_length, drop_app_length, !bool_decide_true by done. done.
Qed.

Lemma mem_list_ok s d : lists s d (mem_list s d) /\ plain_names (mem_list s d).
Proof.
  assert (Hmem : forall n, n ∈ mem_list s d <-> is_Some (nodes s !! join d n) /\ n <> [] /\ slash ∉ n).
  { intros n. unfold mem_list. rewrite list_elem_of_omap. split.
    - intros (p & Hp & (-> & Hn)%entry_of_spec). apply elem_of_elements, elem_of_dom in Hp. done.
    - intros (Hs & Hn). exists (join d n). split; [by apply elem_of_elements, elem_of_dom|by apply entry_of_spec]. }
  split; [split|].
  - apply NoDup_filter. unfold mem_list. assert (Hnd : NoDup (elements (dom (nodes s)))) by apply NoDup_elements.
    induction Hnd as [|p l Hp _ IH]; [constructor|]. cbn [omap list_omap]. destruct (entry_of d p) as [n|] eqn:E; [|done].
    apply NoDup_cons. split; [|done]. intros (p' & Hp' & E')%list_elem_of_omap.
    apply entry_of_spec in E as [-> _]. apply entry_of_spec in E' as [-> _]. done.
  - intros n _ Hn Hs. rewrite Hmem. tauto.
  - apply Forall_forall. intros n Hn%Hmem. tauto.
Qed.

#[export] Instance mem_ok U len : KernelOK place mem_kern U len.
Proof.
  refine {| k_shows := fun w s : fs => w = s |}. intros pid e w s -> _ [(a & s' & Hp) _] _.
  destruct (new_fd_spec (ofiles s) pid) as [Hfd Hnew].
  destruct Hp as [s p fd er H1 H2|s p c H1 H2|s p f c fd er H1|s p fd er H1 H2|s p c H1|s p f H0 H1 H2|s fd data p off app c er H1 H2 H3
    |s fd n p off app c er data H1 H2 H3 H4|s fd o p off app er H1|s fd o er H1|s fd o er H1|s p c er H1|s p er H1 H2|s p n er H1
    |s p er l H1 H2 H3]; cbn [mem_kern]; unfold mem_new.
  - do 3 eexists. split; [reflexivity|]. split; [|reflexivity]. by apply px_creat.
  - do 3 eexists. split; [reflexivity|]. split; [|reflexivity]. apply px_creat; [done|congruence|done..].
  - rewrite H1. do 3 eexists. split; [reflexivity|]. split; [|reflexivity]. by eapply px_open.
  - rewrite H2. do 3 eexists. split; [reflexivity|]. split; [|reflexivity]. by apply px_open_create.
  - rewrite H1. do 3 eexists. split; [reflexivity|]. split; [|reflexivity]. by eapply (px_open _ _ _ _ O_WRONLY_CREAT).
  - rewrite H1. exists (ans (-1) ENOENT [] []), s, s. split; [by destruct f|]. split; [|reflexivity]. by apply px_open_missing.
  - rewrite H1, H2. do 3 eexists. split; [reflexivity|]. split; [|reflexivity]. by apply px_write.
  - rewrite H1, H2. do 3 eexists. split; [reflexivity|]. split; [|reflexivity]. by eapply px_read.
  - rewrite H1. do 3 eexists. split; [reflexivity|]. split; [|reflexivity]. by eapply px_lseek.
  - do 3 eexists. split; [reflexivity|]. split; [|reflexivity]. by eapply px_fsync.
  - do 3 eexists. split; [reflexivity|]. split; [|reflexivity]. by eapply px_close.
  - do 3 eexists. split; [reflexivity|]. split; [|reflexivity]. by eapply px_unlink.
  - do 3 eexists. split; [reflexivity|]. split; [|reflexivity]. by apply px_mkdir.
  - do 3 eexists. split; [reflexivity|]. split; [|reflexivity]. by eapply px_access.
  - do 3 eexists. split; [reflexivity|]. split; [|reflexivity]. by apply px_readdir; [|apply mem_list_ok..].
Defined.
End memory.
