(* ===== verification/FsTestProps.v ===== *)
(** * FsTestProps: the file system tests pass on a kernel that behaves *)

From iris.proofmode Require Import proofmode.
From iris.base_logic.lib Require Import ghost_map.
From S2P Require Import Prelude CppString FsTest FsTestSpec FsTestCells FsTestEnds FsTestLogic FsTestRules FsTestFiles FsTestSteps FsTestParts FsTestForks FsTestMains FsTestMemory.
Import Names.
#[local] Opaque X_a set_n.

(** Two mount points of the file system, no file open, no file too long. *)
Record ready (place : path -> path) (argv1 argv2 : path) (len : nat) (pid : Z) (s : fs) : Prop := {
  r_mount1 : mount place argv1;
  r_mount2 : mount place argv2;
  r_pid : 0 < pid < 2 ^ 31;
  r_len : 65535 <= Z.of_nat len;
  r_closed : ofiles s = ∅;
  r_sizes : forall p c, nodes s !! p = Some (File c) -> (length c <= len)%nat;
}.

Lemma program_succeeds {W} (kern : Z -> syscall -> W -> result (answer * W)) place U len
    (HK : KernelOK place kern U len) pid p w s :
  0 < pid -> (exists n, within p n) -> k_shows w s -> dom (nodes s) ⊆ U ->
  (forall p c, nodes s !! p = Some (File c) -> (length c <= len)%nat) -> ofiles s = ∅ ->
  (forall `{!fsG fsΣ}, untouched s U ∗ process pid 0 None ⊢ wpp place U len pid p (fun _ => False)%I) ->
  succeeds kern (start pid p w).
Proof.
  intros Hpid [n Hn] Hs Hd Hl Ho Hp. apply (fine_succeeds kern pid p w n); [done..|]. intros l m Hr.
  eapply (processes_fine kern place U len pid p w s); [done|by split|done| |exact Hr]. intros ?. apply Hp.
Qed.

Lemma one_dir_program {W} (kern : Z -> syscall -> W -> result (answer * W)) place argv1 argv2 len pid w s test
    (HK : KernelOK place kern (dom (nodes s) ∪ dir_paths (dir_name d pid) X_a) len) :
  test = part1_g \/ test = part2_a \/ test = lab3_a ->
  ready place argv1 argv2 len pid s -> k_shows w s -> absent s (dir_name d pid) ->
  succeeds kern (start pid (main_of test [argv1; argv2] pid) w).
Proof.
  intros Ht [M1 M2 Hpid Hlen Ho Hl] Hs Ha.
  eapply (program_succeeds kern place _ len HK); [lia| |exact Hs|apply union_subseteq_l|exact Hl|exact Ho|intros ?].
  - destruct Ht as [-> | [-> | ->]]; [apply part1_g_ends|apply part2_a_ends|apply lab3_a_ends].
  - destruct Ht as [-> | [-> | ->]]; [by apply part1_g_ok|by apply part2_a_ok|by apply lab3_a_ok].
Qed.

Lemma two_dirs_program {W} (kern : Z -> syscall -> W -> result (answer * W)) place argv1 argv2 len pid w s nf
    (HK : KernelOK place kern
       (dom (nodes s) ∪ dir_paths (dir_name da pid) (set_n yy nf) ∪ dir_paths (dir_name db pid) (set_n xx nf)) len) :
  nf ∈ [10; 100]%nat ->
  ready place argv1 argv2 len pid s -> k_shows w s -> absent s (dir_name da pid) -> absent s (dir_name db pid) ->
  succeeds kern (start pid (main_of (two_dirs nf) [argv1; argv2] pid) w).
Proof.
  intros Hn [M1 M2 Hpid Hlen Ho Hl] Hs Ha Hb. eapply (program_succeeds kern place _ len HK); [lia| |exact Hs| |exact Hl|exact Ho|intros ?].
  - apply two_dirs_ends.
  - intros p Hp. apply elem_of_union_l, elem_of_union_l, Hp.
  - by apply two_dirs_ok.
Qed.

(** C8: On a kernel that behaves, the tests with one directory succeed: whatever their
    processes' interleaving, every run ends, nothing undefined happens, no call is made that
    the kernel cannot serve, and every process exits with status 0. *)
Theorem one_dir_tests_succeed {W} (kern : Z -> syscall -> W -> result (answer * W)) place argv1 argv2 len pid w s
    (HK : KernelOK place kern (dom (nodes s) ∪ dir_paths (dir_name d pid) X_a) len) :
  ready place argv1 argv2 len pid s -> k_shows w s -> absent s (dir_name d pid) ->
  succeeds kern (start pid (main_of part1_g [argv1; argv2] pid) w) /\
  succeeds kern (start pid (main_of part2_a [argv1; argv2] pid) w) /\
  succeeds kern (start pid (main_of lab3_a [argv1; argv2] pid) w).
Proof.
  intros Hr Hs Ha. split_and!; (eapply (one_dir_program kern place _ _ len pid w s _ HK); [|exact Hr|exact Hs|exact Ha]).
  - by left.
  - by right; left.
  - by right; right.
Qed.

(** C9: So do the tests with two directories, with a hundred files in each and with ten. *)
Theorem two_dirs_tests_succeed {W} (kern : Z -> syscall -> W -> result (answer * W)) place argv1 argv2 len pid w s nf test
    (HK : KernelOK place kern
       (dom (nodes s) ∪ dir_paths (dir_name da pid) (set_n yy nf) ∪ dir_paths (dir_name db pid) (set_n xx nf)) len) :
  (nf = 100%nat /\ test = lab3_b) \/ (nf = 10%nat /\ test = part2_b) ->
  ready place argv1 argv2 len pid s -> k_shows w s -> absent s (dir_name da pid) -> absent s (dir_name db pid) ->
  succeeds kern (start pid (main_of test [argv1; argv2] pid) w).
Proof.
  intros Ht. assert (Hn : nf ∈ [10; 100]%nat /\ test = two_dirs nf) by (destruct Ht as [[-> ->]|[-> ->]]; (split; [set_solver|done])).
  destruct Hn as [Hn ->]. by apply two_dirs_program.
Qed.

(** ** What [check1] compares *)

Lemma take_cstr n s : take n (cstr s) = cstr (take n s).
Proof.
  revert n. induction s as [|b s IH]; intros [|n]; [done..|]. cbn. case_bool_decide; [done|]. cbn. by rewrite IH.
Qed.

Lemma check1_ok `{!fsG Σ} (place : path -> path) (U V : gset path) (len : nat) (D d' f c inp : path) (pid : Z) (s : fs) :
  mounted place D d' -> good f -> Z.of_nat (length inp) <= 20999 -> length c = length inp ->
  take (length (join D f)) c = take (length (join D f)) inp -> nodes s !! join d' f = Some (File c) -> join d' f ∈ V ->
  untouched s V ∗ process pid 0 None ⊢ wpp place U len pid (check1 D f inp;; Exit 0) (fun _ : unit => False)%I.
Proof.
  iIntros (HD Hf Hl Hc Ht Hn HV) "[H Hp]". iDestruct (big_sepS_elem_of _ _ _ HV with "H") as "Hf". rewrite Hn.
  iApply wpp_bind. iApply (wpp_check1_prefix with "Hf"); [done..| |].
  - rewrite /strncmp_differ !take_cstr Ht bool_decide_true //.
  - iIntros "_". by iApply main_exits.
Qed.

(** C39: [check1] passes on a file that has the right size and only its first bytes right, as
    many as the path of the file has characters. *)
Theorem check1_compares_prefix {W} (kern : Z -> syscall -> W -> result (answer * W)) place len pid w s D d' f c inp
    (HK : KernelOK place kern (dom (nodes s)) len) :
  0 < pid -> k_shows w s -> ofiles s = ∅ -> (forall p c, nodes s !! p = Some (File c) -> (length c <= len)%nat) ->
  mounted place D d' -> good f -> nodes s !! join d' f = Some (File c) ->
  Z.of_nat (length inp) <= 20999 -> length c = length inp ->
  take (length (join D f)) c = take (length (join D f)) inp ->
  succeeds kern (start pid (check1 D f inp;; Exit 0) w).
Proof.
  intros Hpid Hs Ho Hl HD Hf Hn Hli Hc Ht. eapply (program_succeeds kern place _ len HK); [done| |exact Hs|done|exact Hl|exact Ho|intros ?].
  - destruct check1_ends as [n Hb]. eexists. eapply within_bind; [apply Hb|]. intros _. apply (in_exit 0 0).
  - eapply check1_ok; try done. by apply elem_of_dom.
Qed.

(** ** Witnesses: the kernel with its file system in memory, mounted as "1" and as "2" *)

Definition w_place (p : path) : path := drop 2 p.
Definition w_argv1 : path := [x31].
Definition w_argv2 : path := [x32].
Definition w_len : nat := Z.to_nat 65535.
Definition w_empty : fs := mk_fs ∅ ∅.

Lemma w_ready : ready w_place w_argv1 w_argv2 w_len 7 w_empty.
Proof.
  split; [split; [done|cbn; lia]..|lia|rewrite /w_len; lia|done|]. intros p c. rewrite lookup_empty. done.
Qed.
Lemma w_absent dn : absent w_empty dn.
Proof. split; [|intros n]; apply lookup_empty. Qed.

Lemma one_dir_tests_succeed_witness :
  ready w_place w_argv1 w_argv2 w_len 7 w_empty /\
  succeeds (mem_kern w_place) (start 7 (main_of part1_g [w_argv1; w_argv2] 7) w_empty) /\
  succeeds (mem_kern w_place) (start 7 (main_of part2_a [w_argv1; w_argv2] 7) w_empty) /\
  succeeds (mem_kern w_place) (start 7 (main_of lab3_a [w_argv1; w_argv2] 7) w_empty).
Proof.
  split; [exact w_ready|].
  exact (one_dir_tests_succeed (mem_kern w_place) w_place w_argv1 w_argv2 w_len 7 w_empty w_empty (mem_ok _ _ _)
    w_ready eq_refl (w_absent _)).
Defined.

Lemma two_dirs_tests_succeed_witness :
  ready w_place w_argv1 w_argv2 w_len 7 w_empty /\
  succeeds (mem_kern w_place) (start 7 (main_of lab3_b [w_argv1; w_argv2] 7) w_empty) /\
  succeeds (mem_kern w_place) (start 7 (main_of part2_b [w_argv1; w_argv2] 7) w_empty).
Proof.
  split; [exact w_ready|]. split.
  - exact (two_dirs_tests_succeed (mem_kern w_place) w_place w_argv1 w_argv2 w_len 7 w_empty w_empty 100 lab3_b (mem_ok _ _ _)
      (or_introl (conj eq_refl eq_refl)) w_ready eq_refl (w_absent _) (w_absent _)).
  - exact (two_dirs_tests_succeed (mem_kern w_place) w_place w_argv1 w_argv2 w_len 7 w_empty w_empty 10 part2_b (mem_ok _ _ _)
      (or_intror (conj eq_refl eq_refl)) w_ready eq_refl (w_absent _) (w_absent _)).
Defined.

(** "1/d/f1" has six characters; the file ends with another letter than the test wrote. *)
Definition w_dir : path := [x31; slash] ++ d.
Definition w_wrong : list byte := take 8 aaabbbccc ++ [x64].
Definition w_file : fs := mk_fs {[d := Dir; join d f1 := File w_wrong]} ∅.

Lemma check1_compares_prefix_witness :
  w_wrong <> aaabbbccc /\ nodes w_file !! join d f1 = Some (File w_wrong) /\
  succeeds (mem_kern w_place) (start 7 (check1 w_dir f1 aaabbbccc;; Exit 0) w_file).
Proof.
  split; [discriminate|]. split; [vm_compute; reflexivity|].
  apply (check1_compares_prefix (mem_kern w_place) w_place w_len 7 w_file w_file w_dir d f1 w_wrong aaabbbccc (mem_ok _ _ _)).
  - lia.
  - exact eq_refl.
  - exact eq_refl.
  - intros p c Hp. cbn [w_file nodes] in Hp. apply lookup_insert_Some in Hp as [[_ [=]]|[_ Hp]]. apply lookup_singleton_Some in Hp as [_ [= <-]].
    apply Nat2Z.inj_le. rewrite /w_len Z2Nat.id; [vm_compute; discriminate|lia].
  - split_and!; [done..|vm_compute; lia].
  - compute_it.
  - vm_compute. reflexivity.
  - vm_compute. discriminate.
  - reflexivity.
  - reflexivity.
Defined.
