(* ===== verification/LockSystem.v ===== *)
(** * LockSystem: clients and server of the caching lock protocol together

    One lock, any number of clients with any number of threads each, the caching
    lock server, and the calls on their way between them.  Calls are served and
    answered in any order and are neither lost nor repeated, nor do they fail.  Whether
    a thread that waits on a condition variable goes on only when it has been signalled,
    or at any time, as POSIX allows, is a parameter of the step relation; the invariant
    is one of the first case, and says, for each client, which of its states go with its
    standing at the server. *)

From Stdlib Require Import ZArith Lia.
From S2P Require Import Prelude LockServer LockClient.

Import Client.

(** ** The system *)

(** What the server does after it has unlocked its mutex: it reads the client to
    call from the lock, then the call is on its way. *)
Inductive note :=
| RevokePending | RetryPending
| Revoke (c : list byte) | Retry (c : list byte).

Record system := mk_sys { srv : Cache.server; cls : list byte -> client; net : list note }.

Definition upd (c : list byte) (k : client) (f : list byte -> client) : list byte -> client :=
  fun c' => if decide (c' = c) then k else f c'.

(** When a wait on a condition variable may end: once it has been signalled, or also
    without a signal. *)
Inductive wakeups := Signalled | Spurious.
Definition may_wake (wk : wakeups) (signalled : bool) : bool :=
  signalled || match wk with Signalled => false | Spurious => true end.

Section system.
Context (lid : Z) (wk : wakeups).

Definition sys_new : system := mk_sys Cache.server_new (fun _ => client_new) [].

Definition set_pc (k : client) (t : Z) (p : pc) : client := mk_client (lk k) (<[t := p]> (pcs k)) (rv k).

Inductive sys_step : system -> system -> Prop :=
| st_acquire y c t :
    c <> [] -> mutex_free (cls y c) -> pcs (cls y c) !! t = None ->
    sys_step y (mk_sys (srv y) (upd c (acquire (cls y c) t) (cls y)) (net y))
| st_wake y c t p b :
    mutex_free (cls y c) -> pcs (cls y c) !! t = Some (Waiting p b) -> may_wake wk b = true ->
    sys_step y (mk_sys (srv y) (upd c (acquire_woken (cls y c) t p) (cls y)) (net y))
| st_serve_acquire y c t ret need_revoke s' :
    c <> [] -> pcs (cls y c) !! t = Some Calling ->
    Cache.acquire (srv y) lid c = Ok (ret, need_revoke, s') ->
    sys_step y (mk_sys s' (upd c (set_pc (cls y c) t (Answered ret)) (cls y))
                  (net y ++ if need_revoke : bool then [RevokePending] else []))
| st_answer y c t ret :
    mutex_free (cls y c) -> pcs (cls y c) !! t = Some (Answered ret) ->
    sys_step y (mk_sys (srv y) (upd c (acquire_answer (cls y c) t ret) (cls y)) (net y))
| st_release y c t r k' :
    mutex_free (cls y c) -> pcs (cls y c) !! t = Some Holding -> release (cls y c) t = Ok (r, k') ->
    sys_step y (mk_sys (srv y) (upd c k' (cls y)) (net y))
| st_serve_release y c t ret s' :
    pcs (cls y c) !! t = Some Releasing -> Cache.release (srv y) lid c = Ok (ret, s') ->
    sys_step y (mk_sys s' (upd c (set_pc (cls y c) t (Released ret)) (cls y))
                  (net y ++ if ret =? lock_OK then [RetryPending] else []))
| st_release_answer y c t ret k' :
    mutex_free (cls y c) -> pcs (cls y c) !! t = Some (Released ret) -> release_answer (cls y c) t = Ok k' ->
    sys_step y (mk_sys (srv y) (upd c k' (cls y)) (net y))
| st_send_revoke y n1 n2 :
    net y = n1 ++ RevokePending :: n2 ->
    sys_step y (mk_sys (srv y) (cls y) (n1 ++ Revoke (Cache.revoke_target (srv y) lid) :: n2))
| st_send_retry y n1 n2 :
    net y = n1 ++ RetryPending :: n2 ->
    sys_step y (mk_sys (srv y) (cls y) (n1 ++ Retry (Cache.retry_target (srv y) lid) :: n2))
| st_revoke y c n1 n2 :
    mutex_free (cls y c) -> net y = n1 ++ Revoke c :: n2 ->
    sys_step y (mk_sys (srv y) (upd c (revoke_handler (cls y c)) (cls y)) (n1 ++ n2))
| st_serve_revoked y c ret s' :
    rv (cls y c) = Some None -> Cache.release (srv y) lid c = Ok (ret, s') ->
    sys_step y (mk_sys s' (upd c (mk_client (lk (cls y c)) (pcs (cls y c)) (Some (Some ret))) (cls y))
                  (net y ++ if ret =? lock_OK then [RetryPending] else []))
| st_revoke_answer y c ret :
    mutex_free (cls y c) -> rv (cls y c) = Some (Some ret) ->
    sys_step y (mk_sys (srv y) (upd c (revoke_answer (cls y c)) (cls y)) (net y))
| st_retry y c n1 n2 k' :
    mutex_free (cls y c) -> net y = n1 ++ Retry c :: n2 -> retry_handler (cls y c) = Ok k' ->
    sys_step y (mk_sys (srv y) (upd c k' (cls y)) (n1 ++ n2)).

End system.

(** ** What a client is to the server *)

(** Whether the owner has been asked to give the lock back. *)
Inductive revocation := NotAsked | OnItsWay | Asked.
(** A client with no business at the server, one that waits, the one that may try
    again (whether its retry call is still on its way), and the owner. *)
Inductive role := Stranger | Waiter | Retryer (out : bool) | Owner (v : revocation).

(** The standing of a client that neither has nor is offered the lock. *)
Definition standing (w : list (list byte)) (c : list byte) : role :=
  if decide (c ∈ w) then Waiter else Stranger.

Definition role_of (l : Cache.lock_t) (n : list note) (c : list byte) : role :=
  match Cache.st l with
  | Cache.FREE => Stranger
  | Cache.LOCKED => if decide (c = Cache.holder l) then Owner NotAsked else Stranger
  | Cache.REVOKING =>
      if decide (c = Cache.holder l) then Owner (if n is [] then Asked else OnItsWay)
      else standing (Cache.waiter l) c
  | Cache.RETRYING =>
      if decide (c = Cache.retryer l) then Retryer (if n is [] then false else true)
      else standing (Cache.waiter l) c
  end.

(** At most one call is on its way, and it is the right one. *)
Definition net_ok (l : Cache.lock_t) (n : list note) : Prop :=
  match Cache.st l with
  | Cache.FREE | Cache.LOCKED => n = []
  | Cache.REVOKING => n = [] \/ n = [RevokePending] \/ n = [Revoke (Cache.holder l)]
  | Cache.RETRYING => n = [] \/ n = [RetryPending] \/ n = [Retry (Cache.retryer l)]
  end.

(** ** The states of a client *)

(** Thread [t] is at [p], the threads [q] wait behind it, and there are no others. *)
Definition shape (m : gmap Z pc) (t : Z) (p : pc) (q : list Z) : Prop :=
  NoDup (t :: q) /\
  forall t', m !! t' = if decide (t' = t) then Some p
                       else if decide (t' ∈ q) then Some (Waiting AtQueue false) else None.

Definition asked (v : revocation) : bool := if v is Asked then true else false.

Inductive client_ok : role -> client -> Prop :=
| ok_idle l :
    l = None \/ l = Some lock_new -> client_ok Stranger (mk_client l ∅ None)
| ok_woken p m t q :
    p <> AtRetry -> shape m t (Waiting p true) q ->
    client_ok Stranger (mk_client (Some (mk_lock false false NONE (t :: q))) m None)
| ok_calling r m t q :
    r = Stranger \/ r = Retryer false -> shape m t Calling q ->
    client_ok r (mk_client (Some (mk_lock false false ACQUIRING (t :: q))) m None)
| ok_waiting r f p m t q :
    r = Waiter /\ f = false \/ r = Retryer (negb f) -> p = Answered lock_RETRY \/ p = Waiting AtRetry f ->
    shape m t p q ->
    client_ok r (mk_client (Some (mk_lock false f ACQUIRING (t :: q))) m None)
| ok_granted v m t q :
    shape m t (Answered lock_OK) q ->
    client_ok (Owner v) (mk_client (Some (mk_lock (asked v) false ACQUIRING (t :: q))) m None)
| ok_free v :
    v <> Asked -> client_ok (Owner v) (mk_client (Some (mk_lock false false FREE [])) ∅ None)
| ok_held v p m t q :
    p = Holding \/ p = Waiting AtQueue true -> shape m t p q ->
    client_ok (Owner v) (mk_client (Some (mk_lock (asked v) false LOCKED (t :: q))) m None)
| ok_releasing r p m t q :
    r = Owner Asked /\ p = Releasing \/ r = Stranger /\ (exists ret, p = Released ret) -> shape m t p q ->
    client_ok r (mk_client (Some (mk_lock true false RELEASING (t :: q))) m None)
| ok_revoking r a m q :
    r = Owner Asked /\ a = None \/ r = Stranger /\ (exists ret, a = Some ret) ->
    q = [] /\ m = ∅ \/ (exists t q', q = t :: q' /\ shape m t (Waiting AtEmpty false) q') ->
    client_ok r (mk_client (Some (mk_lock false false RELEASING q)) m (Some a)).

(** ** Shapes *)

Lemma shape_front m t p q : shape m t p q -> m !! t = Some p.
Proof. intros [_ Hm]. by rewrite Hm, decide_True. Qed.

Lemma shape_inv m t p q t' p' : shape m t p q -> m !! t' = Some p' ->
  t' = t /\ p' = p \/ t' <> t /\ t' ∈ q /\ p' = Waiting AtQueue false.
Proof.
  intros [_ Hm]. rewrite Hm. destruct (decide (t' = t)); [intros [= <-]; auto|].
  destruct (decide (t' ∈ q)); [intros [= <-]; auto|done].
Qed.

Lemma shape_set m t p p' q : shape m t p q -> shape (<[t := p']> m) t p' q.
Proof.
  intros [Hnd Hm]. split; [done|]. intros t'. destruct (decide (t' = t)) as [->|Hne].
  - by rewrite lookup_insert_eq.
  - rewrite lookup_insert_ne, Hm by done. by rewrite decide_False.
Qed.

Lemma shape_none m t p q t' : shape m t p q -> m !! t' = None -> t' <> t /\ t' ∉ q.
Proof.
  intros [_ Hm]. rewrite Hm. destruct (decide (t' = t)); [done|]. by destruct (decide (t' ∈ q)).
Qed.

Lemma shape_push m t p q t' : shape m t p q -> m !! t' = None ->
  shape (<[t' := Waiting AtQueue false]> m) t p (q ++ [t']).
Proof.
  intros Hs Hn. destruct (shape_none _ _ _ _ _ Hs Hn) as [Hne Hq]. destruct Hs as [Hnd Hm]. split.
  - apply NoDup_cons in Hnd as [Ht Hnd]. apply NoDup_cons. split; [set_solver|].
    apply NoDup_app. split_and!; [done|set_solver|apply NoDup_singleton].
  - intros t''. destruct (decide (t'' = t')) as [->|Hne'].
    + rewrite lookup_insert_eq, decide_False by done. by rewrite decide_True by set_solver.
    + rewrite lookup_insert_ne, Hm by done. destruct (decide (t'' = t)); [done|].
      destruct (decide (t'' ∈ q)); [by rewrite decide_True by set_solver|].
      by rewrite decide_False by set_solver.
Qed.

Lemma shape_new t p : shape (<[t := p]> ∅) t p [].
Proof.
  split; [apply NoDup_singleton|]. intros t'. rewrite lookup_insert, lookup_empty.
  destruct (decide (t = t')) as [->|Hne]; [by rewrite decide_True|]. rewrite decide_False by congruence.
  by rewrite decide_False by set_solver.
Qed.

Lemma shape_signal m t p b q : shape m t (Waiting p b) q -> shape (signal t m) t (Waiting p true) q.
Proof. intros Hs. unfold signal. rewrite (shape_front _ _ _ _ Hs). by eapply shape_set. Qed.

Lemma shape_pop m t p t1 q : shape m t p (t1 :: q) -> shape (signal t1 (delete t m)) t1 (Waiting AtQueue true) q.
Proof.
  intros [Hnd Hm]. apply shape_signal with (b := false). apply NoDup_cons in Hnd as [Ht Hnd]. split; [done|].
  intros t'. destruct (decide (t' = t)) as [->|Hne].
  - rewrite lookup_delete_eq. rewrite !decide_False; [done|set_solver..].
  - rewrite lookup_delete_ne, Hm, decide_False by done. destruct (decide (t' = t1)) as [->|Hne1].
    + by rewrite decide_True by set_solver.
    + destruct (decide (t' ∈ q)); [by rewrite decide_True by set_solver|by rewrite decide_False by set_solver].
Qed.

Lemma shape_last m t p : shape m t p [] -> delete t m = ∅.
Proof.
  intros [_ Hm]. apply map_eq. intros t'. rewrite lookup_empty. destruct (decide (t' = t)) as [->|Hne].
  - by rewrite lookup_delete_eq.
  - rewrite lookup_delete_ne, Hm, decide_False by done. by rewrite decide_False by set_solver.
Qed.

(** ** The client's steps *)

#[local] Hint Constructors client_ok : core.
#[local] Hint Resolve shape_set shape_push shape_new shape_signal shape_pop : core.

Ltac find_thread Hs Ht :=
  destruct (shape_inv _ _ _ _ _ _ Hs Ht) as [[-> ?]|(_ & _ & ?)]; simplify_eq.

(** The nine states of a client. *)
Ltac client_cases H :=
  destruct H as [l Hl|p m t0 q Hp Hs|r m t0 q Hr Hs|r f p m t0 q Hr Hp Hs|v m t0 q Hs|v Hv
    |v p m t0 q Hp Hs|r p m t0 q Hr Hs|r a m q Hr Hq].

(** Closes the states in which no thread is where [Ht] says. *)
Ltac other_states Ht :=
  try solve
    [ done
    | repeat match goal with
        | H : _ \/ _ |- _ => destruct H
        | H : _ /\ _ |- _ => destruct H
        | H : exists _, _ |- _ => destruct H
        end; subst; done || match goal with Hs : shape _ _ _ _ |- _ => find_thread Hs Ht end ].

Lemma acquire_server_eq k l t : acquire_server k l t = goto k (set_state l ACQUIRING) t Calling.
Proof. unfold acquire_server, acquire_loop. by rewrite bool_decide_true. Qed.
Arguments acquire_server : simpl never.

(** Runs the client's code on a known state. *)
Ltac client_simp :=
  unfold lock_of; cbn; rewrite ?acquire_server_eq;
  unfold goto, set_state, set_queue, set_retry, set_revoke, lock_new;
  cbn [default from_option Datatypes.id lk pcs rv revoke_later retry_earlier state queue Datatypes.app].

Lemma acquire_ok r k t : client_ok r k -> pcs k !! t = None -> client_ok r (acquire k t).
Proof.
  intros Hk. client_cases Hk; cbn [pcs]; intros Hn; unfold acquire; try (client_simp; eauto; fail).
  - destruct Hl as [-> | ->]; client_simp; eauto.
  - client_simp. destruct v; [apply (ok_held NotAsked Holding)|apply (ok_held OnItsWay Holding)|]; auto || done.
  - destruct Hq as [[-> ->]|(t1 & q' & -> & Hs)]; client_simp; apply ok_revoking; auto; right; eauto 10.
Qed.

Lemma acquire_woken_ok r k t w :
  client_ok r k -> pcs k !! t = Some (Waiting w true) -> client_ok r (acquire_woken k t w).
Proof.
  intros Hk. client_cases Hk; cbn [pcs]; intros Ht; unfold acquire_woken, acquire_loop; other_states Ht.
  - find_thread Hs Ht. destruct p; [client_simp; eauto..|done].
  - destruct Hp as [-> | ->]; find_thread Hs Ht. client_simp. rewrite bool_decide_true by done.
    destruct Hr as [[_ ?]|Hr]; [done|]. cbn in Hr. eauto.
  - destruct Hp as [-> | ->]; find_thread Hs Ht. client_simp. apply (ok_held v Holding); eauto.
Qed.

Lemma acquire_answer_ok r k t ret :
  client_ok r k -> pcs k !! t = Some (Answered ret) -> client_ok r (acquire_answer k t ret).
Proof.
  intros Hk. client_cases Hk; cbn [pcs]; intros Ht; unfold acquire_answer, acquire_loop; other_states Ht.
  - destruct Hp as [-> | ->]; find_thread Hs Ht. destruct f; client_simp.
    + rewrite bool_decide_true by done. destruct Hr as [[_ ?]|Hr]; [done|]. cbn in Hr. eauto.
    + eapply ok_waiting; eauto.
  - find_thread Hs Ht. client_simp. apply (ok_held v Holding); eauto.
Qed.

Lemma release_ok r k t : client_ok r k -> pcs k !! t = Some Holding ->
  exists v k', release k t = Ok (v, k') /\ client_ok r k'.
Proof.
  intros Hk. client_cases Hk; cbn [pcs]; intros Ht; unfold release; cbn [lk]; other_states Ht.
  destruct Hp as [-> | ->]; find_thread Hs Ht. cbn [revoke_later].
  destruct v; cbn [asked]; unfold release_finish; client_simp;
    [destruct q as [|t1 q]|destruct q as [|t1 q]|]; eexists _, _; (split; [reflexivity|]).
  - rewrite (shape_last _ _ _ Hs). by apply ok_free.
  - apply (ok_held NotAsked (Waiting AtQueue true)); eauto.
  - rewrite (shape_last _ _ _ Hs). by apply ok_free.
  - apply (ok_held OnItsWay (Waiting AtQueue true)); eauto.
  - eapply ok_releasing; eauto.
Qed.

Lemma release_answer_ok r k t ret : client_ok r k -> pcs k !! t = Some (Released ret) ->
  exists k', release_answer k t = Ok k' /\ client_ok r k'.
Proof.
  intros Hk. client_cases Hk; cbn [pcs]; intros Ht; unfold release_answer, release_finish; other_states Ht.
  destruct Hr as [[_ ->]|[-> [ret' ->]]]; find_thread Hs Ht. client_simp.
  destruct q as [|t1 q]; eexists; (split; [reflexivity|]).
  - rewrite (shape_last _ _ _ Hs). apply ok_idle. by right.
  - apply (ok_woken AtQueue); eauto.
Qed.

Lemma revoke_answer_ok r k ret : client_ok r k -> rv k = Some (Some ret) -> client_ok r (revoke_answer k).
Proof.
  intros Hk. client_cases Hk; cbn [rv]; intros Ha; try done. injection Ha as ->.
  destruct Hr as [[_ ?]|[-> _]]; [done|]. unfold revoke_answer.
  destruct Hq as [[-> ->]|(t1 & q' & -> & Hs)]; client_simp.
  - apply ok_idle. by right.
  - apply (ok_woken AtEmpty); eauto.
Qed.

Lemma revoke_handler_ok k : client_ok (Owner OnItsWay) k -> client_ok (Owner Asked) (revoke_handler k).
Proof.
  intros Hk. remember (Owner OnItsWay) as r0 eqn:Er. client_cases Hk; simplify_eq; unfold revoke_handler.
  - destruct Hr as [?|?]; done.
  - destruct Hr as [[? _]|?]; done.
  - client_simp. rewrite bool_decide_false by done. by apply (ok_granted Asked).
  - client_simp. rewrite bool_decide_true by done. apply ok_revoking; auto.
  - client_simp. rewrite bool_decide_false by done. by apply (ok_held Asked p).
  - destruct Hr as [[? _]|[? _]]; done.
  - destruct Hr as [[? _]|[? _]]; done.
Qed.

Lemma retry_handler_ok k : client_ok (Retryer true) k ->
  exists k', retry_handler k = Ok k' /\ client_ok (Retryer false) k'.
Proof.
  intros Hk. remember (Retryer true) as r0 eqn:Er. client_cases Hk; simplify_eq; unfold retry_handler.
  - destruct Hr as [?|?]; done.
  - destruct Hr as [[? _]|Hr]; [done|]. destruct f; [done|]. client_simp. eexists. split; [reflexivity|].
    destruct Hp as [-> | ->].
    + assert (signal t0 m = m) as -> by (unfold signal; by rewrite (shape_front _ _ _ _ Hs)).
      apply (ok_waiting (Retryer false) true (Answered lock_RETRY)); [by right|by left|done].
    + apply (ok_waiting (Retryer false) true (Waiting AtRetry true)); [by right|by right|eauto].
  - destruct Hr as [[? _]|[? _]]; done.
  - destruct Hr as [[? _]|[? _]]; done.
Qed.

(** A client that calls [acquire]. *)
Lemma calling_role r k t : client_ok r k -> pcs k !! t = Some Calling ->
  (r = Stranger \/ r = Retryer false) /\
  client_ok Waiter (set_pc k t (Answered lock_RETRY)) /\
  forall v, v <> Asked -> client_ok (Owner v) (set_pc k t (Answered lock_OK)).
Proof.
  intros Hk. client_cases Hk; cbn [pcs]; intros Ht; other_states Ht.
  find_thread Hs Ht. split; [done|]. unfold set_pc. cbn [lk pcs rv].
  split; [apply (ok_waiting Waiter false (Answered lock_RETRY)); eauto|].
  intros v Hv. destruct v; [eapply (ok_granted NotAsked)|eapply (ok_granted OnItsWay)|]; eauto || done.
Qed.

(** A client that calls [release], in either way. *)
Lemma releasing_role r k t : client_ok r k -> pcs k !! t = Some Releasing ->
  r = Owner Asked /\ forall ret, client_ok Stranger (set_pc k t (Released ret)).
Proof.
  intros Hk. client_cases Hk; cbn [pcs]; intros Ht; other_states Ht.
  destruct Hr as [[-> ->]|[_ [ret' ->]]]; find_thread Hs Ht. split; [done|]. intros ret.
  unfold set_pc. cbn [lk pcs rv]. eapply ok_releasing; eauto.
Qed.

Lemma revoking_role r k : client_ok r k -> rv k = Some None ->
  r = Owner Asked /\ forall ret, client_ok Stranger (mk_client (lk k) (pcs k) (Some (Some ret))).
Proof.
  intros Hk. client_cases Hk; cbn [rv]; intros Ha; try done. injection Ha as ->.
  destruct Hr as [[-> _]|[_ [ret ?]]]; [|done]. split; [done|]. intros ret. cbn [lk pcs].
  apply ok_revoking; eauto.
Qed.

(** A client whose standing changes while it does nothing. *)
Lemma owner_asked_soon k : client_ok (Owner NotAsked) k -> client_ok (Owner OnItsWay) k.
Proof.
  intros Hk. remember (Owner NotAsked) as r0 eqn:Er. client_cases Hk; simplify_eq.
  - destruct Hr as [?|?]; done.
  - destruct Hr as [[? _]|?]; done.
  - by apply (ok_granted OnItsWay).
  - by apply ok_free.
  - by apply (ok_held OnItsWay p).
  - destruct Hr as [[? _]|[? _]]; done.
  - destruct Hr as [[? _]|[? _]]; done.
Qed.

Lemma waiter_chosen k : client_ok Waiter k -> client_ok (Retryer true) k.
Proof.
  intros Hk. remember Waiter as r0 eqn:Er. client_cases Hk; simplify_eq.
  - destruct Hr as [?|?]; done.
  - destruct Hr as [[_ ->]|?]; [|done]. apply (ok_waiting (Retryer true) false p); auto.
  - destruct Hr as [[? _]|[? _]]; done.
  - destruct Hr as [[? _]|[? _]]; done.
Qed.

Section invariant.
Context (lid : Z).

Definition the_lock (s : Cache.server) : Cache.lock_t := default Cache.lock_new (Cache.lock_pool s !! lid).

Record sys_inv (y : system) : Prop := {
  sv_lock : Cache.lock_inv (the_lock (srv y));
  sv_net : net_ok (the_lock (srv y)) (net y);
  sv_clients : forall c, client_ok (role_of (the_lock (srv y)) (net y) c) (cls y c);
}.

(** ** The server's steps *)

(** How the standing of a client may change by the call of another. *)
Inductive drift : role -> role -> Prop :=
| drift_same r : drift r r
| drift_owner : drift (Owner NotAsked) (Owner OnItsWay)
| drift_waiter : drift Waiter (Retryer true).

Lemma drift_ok r r' k : drift r r' -> client_ok r k -> client_ok r' k.
Proof. destruct 1; [done|apply owner_asked_soon|apply waiter_chosen]. Qed.

Lemma drift_eq r r' : r = r' -> drift r r'.
Proof. intros ->. constructor. Qed.

Lemma standing_in w c : c ∈ w -> standing w c = Waiter.
Proof. intros. unfold standing. by rewrite decide_True. Qed.
Lemma standing_out w c : c ∉ w -> standing w c = Stranger.
Proof. intros. unfold standing. by rewrite decide_False. Qed.
Lemma standing_insert w c : standing (Cache.set_insert c w) c = Waiter.
Proof. apply standing_in, Cache.elem_of_set_insert. auto. Qed.
Lemma standing_insert_ne w c c' : c' <> c -> standing (Cache.set_insert c w) c' = standing w c'.
Proof. intros. apply decide_ext. rewrite Cache.elem_of_set_insert. tauto. Qed.
Lemma standing_erase_ne w c c' : c' <> c -> standing (Cache.set_erase c w) c' = standing w c'.
Proof. intros. apply decide_ext. rewrite Cache.elem_of_set_erase. tauto. Qed.

(** Computes the standing of a client in a known state of the lock. *)
Ltac roles :=
  unfold role_of; cbn [Cache.st Cache.holder Cache.retryer Cache.waiter];
  rewrite ?decide_True, ?decide_False by congruence;
  rewrite ?standing_insert, ?standing_insert_ne, ?standing_erase_ne by congruence.

Lemma serve_acquire_lock s c ret need s' : Cache.acquire s lid c = Ok (ret, need, s') ->
  Cache.lock_acquire (the_lock s) c = Ok (ret, need, the_lock s').
Proof.
  unfold Cache.acquire, the_lock. intros ([[r v] l] & E & E')%bind_ok. injection E' as <- <- <-. rewrite E.
  cbn [Cache.lock_pool]. by rewrite lookup_insert_eq.
Qed.

(** What a call of [acquire] does to the standing of its caller and the others. *)
Definition acquire_effect (l : Cache.lock_t) (n : list note) (c : list byte) (ret : Z) (need : bool)
    (l' : Cache.lock_t) : Prop :=
  let n' := n ++ if need then [RevokePending] else [] in
  net_ok l' n' /\
  (ret = lock_OK /\ (exists v, v <> Asked /\ role_of l' n' c = Owner v) \/
   ret = lock_RETRY /\ role_of l' n' c = Waiter) /\
  forall c', c' <> c -> drift (role_of l n c') (role_of l' n' c').

Lemma acquire_held h c : c <> h -> h <> [] ->
  acquire_effect (Cache.mk_lock h [] [] Cache.LOCKED) [] c lock_RETRY true
    (Cache.mk_lock h [] (Cache.set_insert c []) Cache.REVOKING).
Proof.
  intros Hch _. split; [right; by left|]. split; [right; split; [done|]; by roles|]. intros c' Hne.
  unfold role_of. cbn [Cache.st Cache.holder Cache.waiter Datatypes.app].
  destruct (decide (c' = h)); [constructor|]. rewrite standing_insert_ne, standing_out by (done || apply not_elem_of_nil).
  constructor.
Qed.

Lemma acquire_queued h r w st n c : st = Cache.REVOKING /\ c <> h \/ st = Cache.RETRYING /\ c <> r ->
  net_ok (Cache.mk_lock h r w st) n ->
  acquire_effect (Cache.mk_lock h r w st) n c lock_RETRY false (Cache.mk_lock h r (Cache.set_insert c w) st).
Proof.
  intros Hst Hn. unfold acquire_effect. rewrite app_nil_r.
  split; [by destruct Hst as [[-> _]|[-> _]]|].
  split; [right; split; [done|]; destruct Hst as [[-> ?]|[-> ?]]; by roles|].
  intros c' Hne. apply drift_eq. destruct Hst as [[-> ?]|[-> ?]]; by roles.
Qed.

Lemma acquire_granted h r w c : Cache.lock_inv (Cache.mk_lock h c w Cache.RETRYING) ->
  acquire_effect (Cache.mk_lock h c w Cache.RETRYING) [] c lock_OK (negb (Cache.is_empty w))
    (Cache.mk_lock c r w (if negb (Cache.is_empty w) then Cache.REVOKING else Cache.LOCKED)).
Proof.
  intros (_ & _ & _ & Hcw). destruct w as [|b w]; cbn [Cache.is_empty negb].
  - split; [done|]. split; [left; split; [done|]; exists NotAsked; split; [done|]; by roles|].
    intros c' Hne. apply drift_eq. roles. apply standing_out, not_elem_of_nil.
  - split; [right; by left|]. split; [left; split; [done|]; exists OnItsWay; split; [done|]; by roles|].
    intros c' Hne. apply drift_eq. by roles.
Qed.

Lemma acquire_roles l n c ret need l' :
  Cache.lock_inv l -> net_ok l n -> role_of l n c = Stranger \/ role_of l n c = Retryer false ->
  Cache.lock_acquire l c = Ok (ret, need, l') -> acquire_effect l n c ret need l'.
Proof.
  intros Hl Hnet Hrole. destruct l as [h r w st]. pose proof Hl as [_ Hk]. revert Hrole.
  unfold role_of, Cache.lock_acquire. cbn [Cache.st Cache.holder Cache.retryer Cache.waiter] in *.
  destruct st; intros Hrole.
  - intros (x & _ & E)%bind_ok. injection E as <- <- <-. cbn in Hnet. subst n. destruct Hk as (_ & _ & ->).
    split; [done|]. split; [left; split; [done|]; exists NotAsked; split; [done|]; by roles|].
    intros c' Hne. apply drift_eq. by roles.
  - destruct Hk as (Hh & -> & ->). cbn in Hnet. subst n.
    intros (x & _ & (y & _ & E)%bind_ok)%bind_ok. injection E as <- <- <-.
    apply acquire_held; [|done]. intros ->. rewrite decide_True in Hrole by done. naive_solver.
  - intros (x & _ & (y & _ & E)%bind_ok)%bind_ok. injection E as <- <- <-.
    apply acquire_queued; [|done]. left. split; [done|]. intros ->.
    rewrite decide_True in Hrole by done. naive_solver.
  - case_bool_decide as Hr.
    + subst r. rewrite decide_True in Hrole by done. assert (n = []) as -> by (destruct n; naive_solver).
      pose proof (acquire_granted h [] w c Hl) as He. destruct (Cache.is_empty w); cbn [negb] in *;
        intros [= <- <- <-]; exact He.
    + intros [= <- <- <-]. apply acquire_queued; auto.
Qed.

Lemma serve_release_lock s c ret s' : Cache.release s lid c = Ok (ret, s') ->
  role_of (the_lock s) [] c <> Stranger ->
  ret = lock_OK /\ Cache.lock_release (the_lock s) c = Ok (the_lock s').
Proof.
  unfold Cache.release, the_lock. destruct (Cache.lock_pool s !! lid) as [l|]; [|by cbn].
  intros (l' & E & E')%bind_ok _. injection E' as <- <-. cbn [Cache.lock_pool default from_option Datatypes.id].
  by rewrite lookup_insert_eq.
Qed.

Lemma release_roles l n c l' :
  Cache.lock_inv l -> role_of l n c = Owner Asked -> Cache.lock_release l c = Ok l' ->
  n = [] /\ net_ok l' [RetryPending] /\ role_of l' [RetryPending] c = Stranger /\
  forall c', c' <> c -> drift (role_of l n c') (role_of l' [RetryPending] c').
Proof.
  intros Hl Hrole. pose proof (Cache.lock_release_spec l c l' Hl) as Hspec. destruct l as [h r w st].
  unfold Cache.lock_release. intros E. destruct (Hspec E) as (Hl' & _ & _ & _). revert E.
  intros (x & Hs%Cache.verify_ok%bool_decide_eq_true & (y & Hh%Cache.verify_ok%bool_decide_eq_true &
    (r' & Hr & E)%bind_ok)%bind_ok)%bind_ok.
  cbn [Cache.st Cache.holder Cache.retryer Cache.waiter] in *. subst st h.
  destruct w as [|r0 w]; [done|]. cbn in Hr. injection Hr as <-. injection E as <-.
  pose proof Hl as (_ & _ & _ & _ & Hcw). cbn [Cache.st Cache.holder Cache.retryer Cache.waiter] in Hcw.
  unfold role_of in Hrole. cbn [Cache.st Cache.holder] in Hrole. rewrite decide_True in Hrole by done.
  split; [by destruct n|]. split; [right; by left|].
  assert (c <> r0) as Hne0 by (intros ->; apply Hcw; left). split.
  - roles. by apply standing_out.
  - intros c' Hne. unfold role_of. cbn [Cache.st Cache.holder Cache.retryer Cache.waiter].
    rewrite decide_False by done. destruct (decide (c' = r0)) as [->|Hne'].
    + rewrite standing_in by left. constructor.
    + rewrite standing_erase_ne by done. constructor.
Qed.

(** ** The invariant *)

Lemma upd_ok (ro : list byte -> role) c k f :
  client_ok (ro c) k -> (forall c', c' <> c -> client_ok (ro c') (f c')) -> forall c', client_ok (ro c') (upd c k f c').
Proof. intros Hk Hf c'. unfold upd. destruct (decide (c' = c)) as [->|Hne]; auto. Qed.

(** A step of one client alone. *)
Lemma inv_client y c k : sys_inv y -> client_ok (role_of (the_lock (srv y)) (net y) c) k ->
  sys_inv (mk_sys (srv y) (upd c k (cls y)) (net y)).
Proof. intros [Hl Hn Hc] Hk. split; [done..|]. cbn [srv cls net]. apply upd_ok; auto. Qed.

(** A step of the server for client [c]. *)
Lemma inv_server y c k s' n' : sys_inv y -> Cache.lock_inv (the_lock s') -> net_ok (the_lock s') n' ->
  client_ok (role_of (the_lock s') n' c) k ->
  (forall c', c' <> c -> drift (role_of (the_lock (srv y)) (net y) c') (role_of (the_lock s') n' c')) ->
  sys_inv (mk_sys s' (upd c k (cls y)) n').
Proof.
  intros [_ _ Hc] Hl Hn Hk Hd. split; [done..|]. cbn [srv cls net]. apply upd_ok; [done|].
  intros c' Hne. eapply drift_ok; [by apply Hd|done].
Qed.

(** The server accepts a release by the owner it has asked. *)
Lemma inv_release y c ret s' k : sys_inv y -> role_of (the_lock (srv y)) (net y) c = Owner Asked ->
  Cache.release (srv y) lid c = Ok (ret, s') -> client_ok Stranger k ->
  sys_inv (mk_sys s' (upd c k (cls y)) (net y ++ if ret =? lock_OK then [RetryPending] else [])).
Proof.
  intros Hy Hrole E Hk. assert (role_of (the_lock (srv y)) [] c <> Stranger) as Hns.
  { revert Hrole. unfold role_of, standing. destruct (Cache.st _); repeat case_decide; done. }
  destruct (serve_release_lock _ _ _ _ E Hns) as [-> Er].
  destruct (release_roles _ _ _ _ (sv_lock _ Hy) Hrole Er) as (En & Hnet & Hc & Hd).
  destruct (Cache.lock_release_spec _ _ _ (sv_lock _ Hy) Er) as (Hl' & _).
  rewrite En. cbn [Datatypes.app Z.eqb lock_OK]. apply inv_server; [done..|by rewrite Hc|]. by rewrite En in *.
Qed.

(** Only the note of the state of the lock is on its way. *)
Lemma net_one l n1 x n2 : net_ok l (n1 ++ x :: n2) -> n1 = [] /\ n2 = [] /\
  (Cache.st l = Cache.REVOKING /\ (x = RevokePending \/ x = Revoke (Cache.holder l)) \/
   Cache.st l = Cache.RETRYING /\ (x = RetryPending \/ x = Retry (Cache.retryer l))).
Proof.
  assert (forall z, n1 ++ x :: n2 = [z] -> n1 = [] /\ n2 = [] /\ x = z) as Hone.
  { intros z E. destruct n1 as [|a n1]; [by injection E as -> ->|]. injection E as _ E. by destruct n1. }
  assert (n1 ++ x :: n2 <> []) as Hne by by destruct n1.
  unfold net_ok. destruct (Cache.st l); try done.
  - intros [?|[(-> & -> & ->)%Hone|(-> & -> & ->)%Hone]]; naive_solver.
  - intros [?|[(-> & -> & ->)%Hone|(-> & -> & ->)%Hone]]; naive_solver.
Qed.

(** A pending call reads its target. *)
Lemma inv_send y x : sys_inv y -> net y <> [] -> net_ok (the_lock (srv y)) [x] ->
  sys_inv (mk_sys (srv y) (cls y) [x]).
Proof.
  intros [Hl Hn Hc] Hne Hx. split; [done..|]. cbn [srv cls net]. intros c. specialize (Hc c).
  revert Hc. unfold role_of. by destruct (Cache.st _), (net y).
Qed.

(** A call to the client arrives. *)
Lemma inv_arrive y c k : sys_inv y -> net y <> [] ->
  client_ok (role_of (the_lock (srv y)) [] c) k ->
  (forall c', c' <> c -> role_of (the_lock (srv y)) [] c' = role_of (the_lock (srv y)) (net y) c') ->
  sys_inv (mk_sys (srv y) (upd c k (cls y)) []).
Proof.
  intros Hy Hne Hk Hd. apply inv_server; [done|apply Hy| |done|].
  - pose proof (sv_net _ Hy) as Hn. unfold net_ok in *. destruct (Cache.st _); auto.
  - intros c' Hc. apply drift_eq. by rewrite Hd.
Qed.

Lemma sys_step_inv y y' : sys_inv y -> sys_step lid Signalled y y' -> sys_inv y'.
Proof.
  intros Hy Hstep. destruct Hstep as [y c t _ _ Ht|y c t p b _ Ht Hb|y c t ret need s' Hc Ht E|y c t ret _ Ht
    |y c t r k' _ Ht E|y c t ret s' Ht E|y c t ret k' _ Ht E|y n1 n2 En|y n1 n2 En|y c n1 n2 _ En|y c ret s' Ht E
    |y c ret _ Ht|y c n1 n2 k' _ En E]; pose proof (sv_clients _ Hy) as Hcl.
  - apply inv_client; [done|]. by apply acquire_ok.
  - apply inv_client; [done|]. apply acquire_woken_ok; [done|]. by destruct b.
  - destruct (calling_role _ _ _ (Hcl c) Ht) as (Hrole & Hwait & Hown).
    apply serve_acquire_lock in E.
    destruct (acquire_roles _ _ _ _ _ _ (sv_lock _ Hy) (sv_net _ Hy) Hrole E) as (Hn & Hr & Hd).
    destruct (Cache.lock_acquire_spec _ _ _ _ _ (sv_lock _ Hy) Hc E) as [Hl _].
    apply inv_server; [done..| |done].
    destruct Hr as [(-> & v & Hv & ->)|(-> & ->)]; [by apply Hown|done].
  - apply inv_client; [done|]. by apply acquire_answer_ok.
  - destruct (release_ok _ _ _ (Hcl c) Ht) as (v & k1 & E1 & Hk). rewrite E in E1. injection E1 as -> ->.
    by apply inv_client.
  - destruct (releasing_role _ _ _ (Hcl c) Ht) as (Hrole & Hk). by apply inv_release.
  - destruct (release_answer_ok _ _ _ _ (Hcl c) Ht) as (k1 & E1 & Hk). rewrite E in E1. injection E1 as ->.
    by apply inv_client.
  - pose proof (sv_net _ Hy) as Hn. rewrite En in Hn. apply net_one in Hn as (-> & -> & Hx).
    apply inv_send; [done|by rewrite En|]. destruct Hx as [[Hs _]|[_ [?|?]]]; [|done..].
    unfold net_ok. rewrite Hs. by right; right.
  - pose proof (sv_net _ Hy) as Hn. rewrite En in Hn. apply net_one in Hn as (-> & -> & Hx).
    apply inv_send; [done|by rewrite En|]. destruct Hx as [[_ [?|?]]|[Hs _]]; [done..|].
    unfold net_ok. rewrite Hs. by right; right.
  - pose proof (sv_net _ Hy) as Hn. rewrite En in Hn. apply net_one in Hn as (-> & -> & Hx).
    destruct Hx as [[Hs [?|[= ->]]]|[_ [?|?]]]; [done| |done..]. specialize (Hcl (Cache.holder (the_lock (srv y)))).
    apply inv_arrive; [done|by rewrite En| |].
    + unfold role_of. rewrite Hs, decide_True by done. apply revoke_handler_ok.
      unfold role_of in Hcl. by rewrite Hs, decide_True, En in Hcl.
    + intros c' Hne. unfold role_of. by rewrite Hs, !decide_False.
  - destruct (revoking_role _ _ (Hcl c) Ht) as (Hrole & Hk). by apply inv_release.
  - apply inv_client; [done|]. by eapply revoke_answer_ok.
  - pose proof (sv_net _ Hy) as Hn. rewrite En in Hn. apply net_one in Hn as (-> & -> & Hx).
    destruct Hx as [[_ [?|?]]|[Hs [?|[= ->]]]]; [done..|]. specialize (Hcl (Cache.retryer (the_lock (srv y)))).
    unfold role_of in Hcl. rewrite Hs, decide_True, En in Hcl by done.
    destruct (retry_handler_ok _ Hcl) as (k1 & E1 & Hk). rewrite E in E1. injection E1 as ->.
    apply inv_arrive; [done|by rewrite En| |].
    + unfold role_of. by rewrite Hs, decide_True.
    + intros c' Hne. unfold role_of. by rewrite Hs, !decide_False.
Qed.

Lemma sys_new_inv : sys_inv sys_new.
Proof.
  split; cbn.
  - apply Cache.lock_new_inv.
  - done.
  - intros c. apply ok_idle. by left.
Qed.

Lemma reachable_inv y : rtc (sys_step lid Signalled) sys_new y -> sys_inv y.
Proof.
  apply rtc_invariant; [eauto using sys_step_inv|apply sys_new_inv].
Qed.

(** ** What the invariant gives *)

Lemma holding_owner r k t : client_ok r k -> pcs k !! t = Some Holding ->
  (exists v, r = Owner v) /\ forall t', pcs k !! t' = Some Holding -> t' = t.
Proof.
  intros Hk. client_cases Hk; cbn [pcs]; intros Ht; other_states Ht.
  destruct Hp as [-> | ->]; find_thread Hs Ht. split; [eauto|]. intros t' Ht'. by find_thread Hs Ht'.
Qed.

Lemma holding_locked r k t : client_ok r k -> pcs k !! t = Some Holding ->
  exists l, lk k = Some l /\ state l = LOCKED.
Proof.
  intros Hk. client_cases Hk; cbn [pcs lk]; intros Ht; other_states Ht. by eexists.
Qed.

Lemma no_leak r k : client_ok r k -> mutex_free k.
Proof.
  intros Hk t p0 Ht ->. revert Ht. client_cases Hk; cbn [pcs]; intros Ht; other_states Ht.
Qed.

Lemma role_owner l n c v : role_of l n c = Owner v -> Cache.owner l = Some c /\
  (v = Asked -> Cache.st l = Cache.REVOKING).
Proof.
  unfold role_of, Cache.owner, standing. destruct (Cache.st l); repeat case_decide; intros E; simplify_eq; try done.
Qed.

Lemma holding_unique y c t c' t' : sys_inv y ->
  pcs (cls y c) !! t = Some Holding -> pcs (cls y c') !! t' = Some Holding -> c = c' /\ t = t'.
Proof.
  intros Hy Ht Ht'. pose proof (sv_clients _ Hy) as Hc.
  destruct (holding_owner _ _ _ (Hc c) Ht) as [[v Hv] Hone].
  destruct (holding_owner _ _ _ (Hc c') Ht') as [[v' Hv'] _].
  apply role_owner in Hv as [Ho _]. apply role_owner in Hv' as [Ho' _]. rewrite Ho in Ho'. injection Ho' as <-.
  split; [done|]. symmetry. by apply Hone.
Qed.

Lemma role_not_owner l n c : role_of l n c = Stranger \/ role_of l n c = Retryer false -> Cache.owner l <> Some c.
Proof.
  unfold role_of, Cache.owner, standing. destruct (Cache.st l); repeat case_decide; naive_solver.
Qed.

(** The server answers the calls of a client in good standing. *)
Lemma acquire_answered y c : sys_inv y -> c <> [] ->
  role_of (the_lock (srv y)) (net y) c = Stranger \/ role_of (the_lock (srv y)) (net y) c = Retryer false ->
  exists r, Cache.acquire (srv y) lid c = Ok r.
Proof.
  intros Hy Hc Hr%role_not_owner. destruct (Cache.lock_acquire_total _ c (sv_lock _ Hy) Hc Hr) as [[[ret b] l] E].
  unfold Cache.acquire. fold (the_lock (srv y)). rewrite E. by eexists.
Qed.

Lemma release_answered y c : sys_inv y -> role_of (the_lock (srv y)) (net y) c = Owner Asked ->
  exists s', Cache.release (srv y) lid c = Ok (lock_OK, s').
Proof.
  intros Hy Hr. destruct (role_owner _ _ _ _ Hr) as [Ho Hs]. specialize (Hs eq_refl).
  pose proof (sv_lock _ Hy) as Hl. unfold the_lock, Cache.release in *.
  destruct (Cache.lock_pool (srv y) !! lid) as [l|]; [|done]. cbn [default from_option Datatypes.id] in *.
  destruct (Cache.lock_release_total l c Hl Hs) as [l' ->]; [|by eexists].
  unfold Cache.owner in Ho. rewrite Hs in Ho. by injection Ho.
Qed.

Lemma retry_answered y c : sys_inv y -> Retry c ∈ net y -> exists k, retry_handler (cls y c) = Ok k.
Proof.
  intros Hy Hin. apply list_elem_of_split in Hin as (n1 & n2 & En). pose proof (sv_net _ Hy) as Hn.
  rewrite En in Hn. apply net_one in Hn as (-> & -> & [[_ [?|?]]|[Hs [?|[= ->]]]]); [done..|].
  pose proof (sv_clients _ Hy (Cache.retryer (the_lock (srv y)))) as Hc.
  unfold role_of in Hc. rewrite Hs, decide_True, En in Hc by done.
  destruct (retry_handler_ok _ Hc) as (k & E & _). eauto.
Qed.

End invariant.
