(* ===== verification/LockProgress.v ===== *)
(** * LockProgress: the caching protocol does not get stuck

    [internal] steps are those that no thread outside the lock client has asked for:
    they start no [acquire] and no [release].  As long as a thread is inside the lock
    client, either such a step is possible or some thread holds the lock. *)

From Stdlib Require Import ZArith Lia.
From S2P Require Import Prelude LockServer LockClient LockSystem.
Import Client.

(** No thread enters the client, and none that holds the lock lets it go. *)
Definition keeps (m m' : gmap Z pc) : Prop :=
  forall t, (m !! t = None -> m' !! t = None) /\ (m !! t = Some Holding -> m' !! t = Some Holding).
Definition internal (y y' : system) : Prop := forall c, keeps (pcs (cls y c)) (pcs (cls y' c)).

Lemma keeps_refl m : keeps m m.
Proof. by intros t. Qed.

Lemma keeps_insert m t p0 p : m !! t = Some p0 -> p0 <> Holding -> keeps m (<[t := p]> m).
Proof.
  intros Ht Hp t'. destruct (decide (t' = t)) as [->|Hne]; [rewrite Ht; split; congruence|].
  by rewrite lookup_insert_ne.
Qed.

Lemma keeps_signal m t : keeps m (signal t m).
Proof.
  unfold signal. destruct (m !! t) as [[]|] eqn:Ht; try apply keeps_refl. by eapply keeps_insert.
Qed.

Lemma keeps_delete m t p0 : m !! t = Some p0 -> p0 <> Holding -> keeps m (delete t m).
Proof.
  intros Ht Hp t'. destruct (decide (t' = t)) as [->|Hne]; [rewrite Ht; split; congruence|].
  by rewrite lookup_delete_ne.
Qed.

Lemma keeps_trans m1 m2 m3 : keeps m1 m2 -> keeps m2 m3 -> keeps m1 m3.
Proof. intros H1 H2 t. destruct (H1 t), (H2 t). auto. Qed.

Lemma internal_upd y s' c k' n' : keeps (pcs (cls y c)) (pcs k') -> internal y (mk_sys s' (upd c k' (cls y)) n').
Proof.
  intros Hk c'. cbn [cls]. unfold upd. destruct (decide (c' = c)) as [->|Hne]; [done|apply keeps_refl].
Qed.

(** A thread inside is acquiring the lock, or holds it, or is releasing it. *)
Definition getting (p : pc) : bool := match p with Releasing | Released _ => false | _ => true end.

(** What the parts of the methods do to the threads. *)
Lemma acquire_loop_getting k l t : exists p, acquire_loop k l t = goto k l t p /\ getting p = true.
Proof. unfold acquire_loop. case_bool_decide; eauto. Qed.

Lemma acquire_getting k t : exists l p, acquire k t = goto k l t p /\ getting p = true.
Proof.
  unfold acquire, acquire_server.
  destruct (acquire_loop_getting k (set_state (set_queue (lock_of k) (queue (lock_of k) ++ [t])) ACQUIRING) t) as (p & -> & E).
  destruct (queue (lock_of k)), (state (lock_of k)); eauto 10.
Qed.

Lemma acquire_woken_getting k t w : exists l p, acquire_woken k t w = goto k l t p /\ getting p = true.
Proof.
  unfold acquire_woken, acquire_server.
  destruct (acquire_loop_getting k (set_state (lock_of k) ACQUIRING) t) as (p & -> & E),
    (acquire_loop_getting k (set_retry (lock_of k) false) t) as (p' & -> & E').
  destruct w, (state (lock_of k)); eauto 10.
Qed.

Lemma acquire_answer_getting k t ret : exists l p, acquire_answer k t ret = goto k l t p /\ getting p = true.
Proof.
  unfold acquire_answer.
  destruct (acquire_loop_getting k (lock_of k) t) as (p & -> & E),
    (acquire_loop_getting k (set_retry (lock_of k) false) t) as (p' & -> & E').
  destruct (ret =? lock_OK), (ret =? lock_RETRY), (negb (retry_earlier (lock_of k))); eauto 10.
Qed.

Lemma release_finish_keeps k l t p0 k' : pcs k !! t = Some p0 -> p0 <> Holding -> release_finish k l t = Ok k' ->
  keeps (pcs k) (pcs k').
Proof.
  intros Ht Hp. unfold release_finish. destruct (queue l) as [|t0 [|t1 q]]; [done|intros [= <-]..]; cbn [pcs].
  - by eapply keeps_delete.
  - eapply keeps_trans; [by eapply keeps_delete|apply keeps_signal].
Qed.

(** ** Enabled steps *)

Section progress.
Context (lid : Z).

(** Something inside goes on, or a thread has the lock. *)
Definition alive (y : system) : Prop :=
  (exists c t, pcs (cls y c) !! t = Some Holding) \/ exists y', sys_step lid Signalled y y' /\ internal y y'.

Context (y : system) (Hy : sys_inv lid y).

Lemma free_mutex c : mutex_free (cls y c).
Proof. eapply no_leak, (sv_clients _ _ Hy c). Qed.

Lemma net_alive : net y <> [] -> alive y.
Proof.
  intros Hn. pose proof (sv_net _ _ Hy) as Hok. destruct (net y) as [|x n] eqn:En; [done|].
  assert (net y = [] ++ x :: n) as En' by done. right. destruct x as [| |c|c].
  - eexists. split; [by eapply st_send_revoke|]. intros c. apply keeps_refl.
  - eexists. split; [by eapply st_send_retry|]. intros c. apply keeps_refl.
  - eexists. split; [eapply (st_revoke lid Signalled y c []); [apply free_mutex|exact En']|].
    apply internal_upd. unfold revoke_handler. case_bool_decide; apply keeps_refl.
  - destruct (retry_answered lid y c Hy) as [k' E]; [rewrite En; left|].
    eexists. split; [eapply (st_retry lid Signalled y c []); [apply free_mutex|exact En'|exact E]|].
    apply internal_upd. unfold retry_handler in E. destruct (queue _); [done|]. injection E as <-. apply keeps_signal.
Qed.

Lemma wake_alive c t p : pcs (cls y c) !! t = Some (Waiting p true) -> alive y.
Proof.
  intros Ht. right. eexists. split; [apply (st_wake lid Signalled y c t p true); [apply free_mutex|exact Ht|reflexivity]|].
  apply internal_upd. destruct (acquire_woken_getting (cls y c) t p) as (l & q & -> & _). by eapply keeps_insert.
Qed.

Lemma answer_alive c t ret : pcs (cls y c) !! t = Some (Answered ret) -> alive y.
Proof.
  intros Ht. right. eexists. split; [apply (st_answer lid Signalled y c t ret); [apply free_mutex|exact Ht]|].
  apply internal_upd. destruct (acquire_answer_getting (cls y c) t ret) as (l & q & -> & _). by eapply keeps_insert.
Qed.

Lemma call_alive c t : c <> [] -> pcs (cls y c) !! t = Some Calling -> alive y.
Proof.
  intros Hc Ht. right. destruct (calling_role _ _ _ (sv_clients _ _ Hy c) Ht) as [Hr _].
  destruct (acquire_answered lid y c Hy Hc Hr) as [[[ret nr] s'] E].
  eexists. split; [by apply (st_serve_acquire lid Signalled y c t ret nr s')|]. apply internal_upd. by eapply keeps_insert.
Qed.

Lemma releasing_alive c t : pcs (cls y c) !! t = Some Releasing -> alive y.
Proof.
  intros Ht. right. destruct (releasing_role _ _ _ (sv_clients _ _ Hy c) Ht) as [Hr _].
  destruct (release_answered lid y c Hy Hr) as [s' E].
  eexists. split; [by apply (st_serve_release lid Signalled y c t lock_OK s')|]. apply internal_upd. by eapply keeps_insert.
Qed.

Lemma released_alive c t ret : pcs (cls y c) !! t = Some (Released ret) -> alive y.
Proof.
  intros Ht. right. destruct (release_answer_ok _ _ _ _ (sv_clients _ _ Hy c) Ht) as (k' & E & _).
  eexists. split; [by apply (st_release_answer lid Signalled y c t ret k'); [apply free_mutex|..]|].
  apply internal_upd. by eapply release_finish_keeps.
Qed.

Lemma revoking_alive c a : rv (cls y c) = Some a -> alive y.
Proof.
  intros Hv. right. destruct a as [ret|].
  - eexists. split; [apply (st_revoke_answer lid Signalled y c ret); [apply free_mutex|exact Hv]|]. apply internal_upd.
    unfold revoke_answer. cbn [pcs]. destruct (queue _); [apply keeps_refl|apply keeps_signal].
  - destruct (revoking_role _ _ (sv_clients _ _ Hy c) Hv) as [Hr _].
    destruct (release_answered lid y c Hy Hr) as [s' E].
    eexists. split; [by apply (st_serve_revoked lid Signalled y c lock_OK s')|]. apply internal_upd. apply keeps_refl.
Qed.

(** A client other than one that waits for others, or that has the lock for later. *)
Lemma role_alive c r : c <> [] -> role_of (the_lock lid (srv y)) (net y) c = r -> client_ok r (cls y c) ->
  (exists t, pcs (cls y c) !! t <> None) \/ r <> Stranger ->
  r = Waiter \/ r = Owner NotAsked /\ pcs (cls y c) = ∅ \/ alive y.
Proof.
  intros Hc Er Hk Hin. remember (cls y c) as k eqn:Ek. symmetry in Ek.
  assert (forall m t p q, pcs k = m -> shape m t p q -> pcs (cls y c) !! t = Some p) as Hat
    by (intros m t p q <- Hs; rewrite Ek; by eapply shape_front).
  client_cases Hk; cbn [pcs] in *.
  - destruct Hin as [[t Ht]|Hr]; [|done]. by rewrite lookup_empty in Ht.
  - right. right. eapply wake_alive; eauto.
  - right. right. eapply call_alive; eauto.
  - destruct Hr as [[-> _]| ->]; [by left|]. right. right. destruct Hp as [-> | ->]; [eapply answer_alive; eauto|].
    destruct f; [eapply wake_alive; eauto|]. apply net_alive. intros En. rewrite En in Er. cbn in Er.
    unfold role_of, standing in Er. destruct (Cache.st _); repeat case_decide; simplify_eq.
  - right. right. eapply answer_alive; eauto.
  - destruct v; [by right; left| |done]. right. right. apply net_alive. intros En. rewrite En in Er.
    unfold role_of, standing in Er. destruct (Cache.st _); repeat case_decide; simplify_eq.
  - right. right. destruct Hp as [-> | ->]; [|eapply wake_alive; eauto]. left. exists c, t0. eauto.
  - right. right. destruct Hr as [[_ ->]|[_ [ret ->]]]; [eapply releasing_alive; eauto|eapply released_alive; eauto].
  - right. right. eapply (revoking_alive c a). by rewrite Ek.
Qed.

Lemma no_deadlock c t p : c <> [] -> pcs (cls y c) !! t = Some p -> alive y.
Proof.
  intros Hc Ht.
  destruct (role_alive c _ Hc eq_refl (sv_clients _ _ Hy c)) as [Hw|[[_ He]|Ha]];
    [left; exists t; by rewrite Ht| |by rewrite He, lookup_empty in Ht|done].
  pose proof (sv_lock _ _ Hy) as [Hne Hl]. set (l := the_lock lid (srv y)) in *.
  assert (exists c', c' <> [] /\ role_of l (net y) c' <> Stranger /\ role_of l (net y) c' <> Waiter /\
    role_of l (net y) c' <> Owner NotAsked) as (c' & Hc' & H1 & H2 & H3).
  { unfold role_of in Hw |- *. destruct (Cache.st l).
    - done.
    - by case_decide.
    - destruct Hl as (Hh & _). exists (Cache.holder l). rewrite decide_True by done. split; [done|]. by destruct (net y).
    - destruct Hl as (_ & Hr & _). exists (Cache.retryer l). by rewrite decide_True by done. }
  destruct (role_alive c' _ Hc' eq_refl (sv_clients _ _ Hy c')) as [?|[[? _]|?]]; [by right|done..].
Qed.

End progress.
