(* ===== verification/LockQuiesce.v ===== *)
(** * LockQuiesce: the caching protocol comes to rest

    Left alone, clients and server stop: there is no infinite sequence of
    [internal] steps.  Each client has some work to do until its first thread has the
    lock or its lock is back at the server, and each step does some of it. *)

From Stdlib Require Import ZArith Lia.
From S2P Require Import Prelude LockServer LockClient LockSystem LockProgress.
Import Client.

(** ** The work before a client *)

(** For the thread at the head of the queue. *)
Definition ahead (r : role) (l : lock_t) (p : pc) : nat :=
  match p with
  | Holding | Leaked => 0
  | Calling => if r is Retryer false then 12 else 40
  | Answered ret => if ret =? lock_OK then 4 else if retry_earlier l then 16 else 24
  | Waiting AtRetry b => if b then 16 else 20
  | Waiting _ _ => match state l with LOCKED => 4 | NONE => 44 | _ => 0 end
  | Releasing => 8
  | Released _ => 4
  end.

(** Threads that will have to call the server once the lock is back. *)
Definition left_over (k : client) (l : lock_t) : bool :=
  bool_decide (state l = RELEASING) &&
  match rv k, queue l with Some _, _ :: _ | None, _ :: _ :: _ => true | _, _ => false end.

Definition work (r : role) (k : client) : nat :=
  let l := lock_of k in
  match rv k with
  | Some None => 8
  | Some (Some _) => 4
  | None =>
      match queue l with
      | [] => if bool_decide (state l = FREE) then 12 else 0
      | t :: _ => if pcs k !! t is Some p then ahead r l p else 0
      end
  end + if left_over k l then 48 else 0.

Definition note_work (x : note) : nat := match x with RevokePending | RetryPending => 2 | _ => 1 end.
Definition net_work (n : list note) : nat := sum_list_with note_work n.

Ltac work_simp :=
  unfold work, left_over, lock_of, ahead; cbn [default from_option Datatypes.id lk pcs rv revoke_later retry_earlier state queue];
  rewrite ?lookup_insert_eq; repeat (case_bool_decide; try done); cbn [andb Nat.add].

Lemma woken_works r k t w : client_ok r k -> pcs k !! t = Some (Waiting w true) ->
  (work r (acquire_woken k t w) < work r k)%nat.
Proof.
  intros Hk. client_cases Hk; cbn [pcs]; intros Ht; unfold acquire_woken, acquire_loop; other_states Ht.
  - find_thread Hs Ht. pose proof (shape_front _ _ _ _ Hs) as Hf.
    destruct p; [client_simp; work_simp; rewrite ?Hf; lia..|done].
  - destruct Hp as [-> | ->]; find_thread Hs Ht. pose proof (shape_front _ _ _ _ Hs) as Hf.
    destruct Hr as [[_ ?]|Hr]; [done|]. cbn in Hr. subst r. client_simp. rewrite bool_decide_true by done.
    work_simp. rewrite Hf. lia.
  - destruct Hp as [-> | ->]; find_thread Hs Ht. pose proof (shape_front _ _ _ _ Hs) as Hf.
    client_simp. work_simp. rewrite Hf. lia.
Qed.

Lemma answer_works r k t ret : client_ok r k -> pcs k !! t = Some (Answered ret) ->
  (work r (acquire_answer k t ret) < work r k)%nat.
Proof.
  intros Hk. client_cases Hk; cbn [pcs]; intros Ht; unfold acquire_answer, acquire_loop; other_states Ht.
  - destruct Hp as [-> | ->]; find_thread Hs Ht. pose proof (shape_front _ _ _ _ Hs) as Hf. destruct f; client_simp.
    + rewrite bool_decide_true by done. destruct Hr as [[_ ?]|Hr]; [done|]. cbn in Hr. subst r.
      work_simp. rewrite Hf. cbn. lia.
    + work_simp. rewrite Hf. cbn. lia.
  - find_thread Hs Ht. pose proof (shape_front _ _ _ _ Hs) as Hf. client_simp. work_simp. rewrite Hf. cbn. lia.
Qed.

Lemma release_answer_works r k t ret k' : client_ok r k -> pcs k !! t = Some (Released ret) ->
  release_answer k t = Ok k' -> (work r k' < work r k)%nat.
Proof.
  intros Hk. client_cases Hk; cbn [pcs]; intros Ht; unfold release_answer, release_finish; other_states Ht.
  destruct Hr as [[_ ->]|[-> [ret' ->]]]; find_thread Hs Ht. client_simp. pose proof (shape_front _ _ _ _ Hs) as Hf.
  destruct q as [|t1 q]; intros [= <-].
  - work_simp. rewrite Hf. lia.
  - pose proof (shape_front _ _ _ _ (shape_pop _ _ _ _ _ Hs)) as Hf'. work_simp. rewrite Hf, Hf'. lia.
Qed.

Lemma revoke_answer_works r k ret : client_ok r k -> rv k = Some (Some ret) ->
  (work r (revoke_answer k) < work r k)%nat.
Proof.
  intros Hk. client_cases Hk; cbn [rv]; intros Ha; try done. injection Ha as ->.
  destruct Hr as [[_ ?]|[-> _]]; [done|]. unfold revoke_answer.
  destruct Hq as [[-> ->]|(t1 & q' & -> & Hs)]; client_simp.
  - work_simp. lia.
  - pose proof (shape_front _ _ _ _ (shape_signal _ _ _ _ _ Hs)) as Hf. work_simp. rewrite Hf. lia.
Qed.

(** The calls that the server has served: what they may have added to the net is less. *)
Lemma call_works r r' k t ret : client_ok r k -> pcs k !! t = Some Calling ->
  ret = lock_OK \/ ret = lock_RETRY /\ r <> Retryer false ->
  (work r' (set_pc k t (Answered ret)) + 3 <= work r k)%nat.
Proof.
  intros Hk. client_cases Hk; cbn [pcs]; intros Ht Hret; other_states Ht.
  find_thread Hs Ht. pose proof (shape_front _ _ _ _ Hs) as Hf. unfold set_pc. work_simp. rewrite Hf.
  destruct Hr as [-> | ->], Hret as [->|[-> ?]]; try done; cbn; lia.
Qed.

Lemma releasing_works r r' k t ret : client_ok r k -> pcs k !! t = Some Releasing ->
  (work r' (set_pc k t (Released ret)) + 3 <= work r k)%nat.
Proof.
  intros Hk. client_cases Hk; cbn [pcs]; intros Ht; other_states Ht.
  destruct Hr as [[-> ->]|[_ [ret' ->]]]; find_thread Hs Ht. pose proof (shape_front _ _ _ _ Hs) as Hf.
  unfold set_pc. work_simp. rewrite Hf. destruct q; lia.
Qed.

Lemma revoking_works r r' k ret : rv k = Some None ->
  (work r' (mk_client (lk k) (pcs k) (Some (Some ret))) + 3 <= work r k)%nat.
Proof.
  intros Hv. unfold work, left_over, lock_of. cbn [lk pcs rv]. rewrite Hv. lia.
Qed.

(** The calls that have arrived at the client. *)
Lemma revoke_works r' k : client_ok (Owner OnItsWay) k -> (work r' (revoke_handler k) <= work (Owner OnItsWay) k)%nat.
Proof.
  intros Hk. remember (Owner OnItsWay) as r0 eqn:Er. client_cases Hk; simplify_eq; unfold revoke_handler.
  - destruct Hr as [?|?]; done.
  - destruct Hr as [[? _]|?]; done.
  - pose proof (shape_front _ _ _ _ Hs) as Hf. client_simp. rewrite bool_decide_false by done. work_simp. rewrite Hf. cbn. lia.
  - client_simp. rewrite bool_decide_true by done. work_simp. lia.
  - pose proof (shape_front _ _ _ _ Hs) as Hf. client_simp. rewrite bool_decide_false by done. work_simp. rewrite Hf.
    destruct Hp as [-> | ->]; lia.
  - destruct Hr as [[? _]|[? _]]; done.
  - destruct Hr as [[? _]|[? _]]; done.
Qed.

Lemma retry_works r' k k' : client_ok (Retryer true) k -> retry_handler k = Ok k' ->
  (work r' k' <= work (Retryer true) k)%nat.
Proof.
  intros Hk. remember (Retryer true) as r0 eqn:Er. client_cases Hk; simplify_eq; unfold retry_handler.
  - destruct Hr as [?|?]; done.
  - destruct Hr as [[? _]|Hr]; [done|]. destruct f; [done|]. client_simp. intros [= <-].
    pose proof (shape_front _ _ _ _ Hs) as Hf. destruct Hp as [-> | ->].
    + assert (signal t0 m = m) as -> by (unfold signal; by rewrite Hf). work_simp. rewrite Hf. cbn. lia.
    + pose proof (shape_front _ _ _ _ (shape_signal _ _ _ _ _ Hs)) as Hf'. work_simp. rewrite Hf, Hf'. lia.
  - destruct Hr as [[? _]|[? _]]; done.
  - destruct Hr as [[? _]|[? _]]; done.
Qed.

(** A change of standing while the client does nothing is no work. *)
Lemma drift_works r r' k : drift r r' -> work r' k = work r k.
Proof. by destruct 1. Qed.

(** ** Steps from outside *)

Lemma acquire_enters k t : pcs (acquire k t) !! t <> None.
Proof. destruct (acquire_getting k t) as (l & p & -> & _). cbn [goto pcs]. by rewrite lookup_insert_eq. Qed.

Lemma release_leaves k t r k' : release k t = Ok (r, k') -> pcs k' !! t <> Some Holding.
Proof.
  unfold release, release_finish. destruct (lk k) as [l|].
  - destruct (revoke_later l); [intros [= <- <-]; cbn [goto pcs]; by rewrite lookup_insert_eq|].
    cbn. destruct (queue l) as [|t0 [|t1 q]]; [done|intros [= <- <-]; cbn [pcs]..]; [by rewrite lookup_delete_eq|].
    destruct (keeps_signal (delete t (pcs k)) t1 t) as [Hn _]. rewrite Hn; [done|]. apply lookup_delete_eq.
  - intros [= <- <-]. cbn [pcs]. by rewrite lookup_delete_eq.
Qed.

(** ** The work before the system *)

Lemma sum_change {A} (f g : A -> nat) c cs : NoDup cs -> c ∈ cs -> (forall c', c' <> c -> f c' = g c') ->
  (sum_list_with f cs + g c = sum_list_with g cs + f c)%nat.
Proof.
  intros Hnd Hin Hfg. induction Hnd as [|a cs Ha Hnd IH]; [by apply elem_of_nil in Hin|]. cbn [sum_list_with].
  apply elem_of_cons in Hin as [<-|Hin].
  - assert (sum_list_with f cs = sum_list_with g cs) as ->; [|lia]. clear IH. induction cs as [|b cs IHc]; [done|].
    cbn [sum_list_with]. rewrite IHc; [|set_solver|by inversion Hnd]. rewrite Hfg; [done|]. set_solver.
  - specialize (IH Hin). rewrite (Hfg a) by set_solver. lia.
Qed.

Section measure.
Context (lid : Z) (cs : list (list byte)) (Hnd : NoDup cs).

Definition rest (y y' : system) : Prop := sys_step lid Signalled y y' /\ internal y y'.

(** Only the clients [cs] have used the lock. *)
Definition covers (y : system) : Prop := forall c, c ∉ cs -> cls y c = client_new.

Definition role_in (y : system) : list byte -> role := role_of (the_lock lid (srv y)) (net y).
Definition total (y : system) : nat :=
  net_work (net y) + sum_list_with (fun c => work (role_in y c) (cls y c)) cs.

Lemma client_new_role r : client_ok r client_new -> r = Stranger.
Proof. unfold client_new. by inversion 1. Qed.

Lemma used_covered y c : sys_inv lid y -> covers y -> cls y c <> client_new \/ role_in y c <> Stranger -> c ∈ cs.
Proof.
  intros Hy Hcs Hu. destruct (decide (c ∈ cs)) as [Hin|Hin]; [done|]. destruct Hu as [Hu|Hu].
  - by destruct Hu; apply Hcs.
  - destruct Hu. apply client_new_role. rewrite <- (Hcs c Hin). apply (sv_clients _ _ Hy).
Qed.

Lemma total_step y c k s' n' : c ∈ cs -> covers y ->
  (forall c', c' <> c -> drift (role_in y c') (role_of (the_lock lid s') n' c')) ->
  (net_work n' + work (role_of (the_lock lid s') n' c) k < net_work (net y) + work (role_in y c) (cls y c))%nat ->
  (total (mk_sys s' (upd c k (cls y)) n') < total y)%nat /\ covers (mk_sys s' (upd c k (cls y)) n').
Proof.
  intros Hin Hcs Hd Hw. split.
  - unfold total, role_in at 1. cbn [srv cls net].
    pose proof (sum_change (fun c' => work (role_of (the_lock lid s') n' c') (upd c k (cls y) c'))
      (fun c' => work (role_in y c') (cls y c')) c cs Hnd Hin) as E.
    cbn beta in E. unfold upd in E at 3. rewrite decide_True in E by done. rewrite (Nat.add_comm (sum_list_with _ cs)) in E.
    lapply E; [lia|]. intros c' Hne. unfold upd. rewrite decide_False by done. by apply drift_works, Hd.
  - intros c' Hc'. cbn [cls]. unfold upd. rewrite decide_False by (intros ->; done). by apply Hcs.
Qed.

Lemma total_client y c k : c ∈ cs -> covers y -> (work (role_in y c) k < work (role_in y c) (cls y c))%nat ->
  (total (mk_sys (srv y) (upd c k (cls y)) (net y)) < total y)%nat /\
  covers (mk_sys (srv y) (upd c k (cls y)) (net y)).
Proof. intros Hin Hcs Hw. apply total_step; [done..|intros; constructor|]. fold (role_in y c). lia. Qed.

Lemma thread_covered y c t p : sys_inv lid y -> covers y -> pcs (cls y c) !! t = Some p -> c ∈ cs.
Proof.
  intros Hy Hcs Ht. eapply used_covered; [done..|]. left. intros E. rewrite E in Ht.
  change (pcs client_new) with (∅ : gmap Z pc) in Ht. by rewrite lookup_empty in Ht.
Qed.

Lemma revoke_covered y c a : sys_inv lid y -> covers y -> rv (cls y c) = Some a -> c ∈ cs.
Proof. intros Hy Hcs Ht. eapply used_covered; [done..|]. left. intros E. by rewrite E in Ht. Qed.

(** The caller of acquire that has been told to try again gets the lock. *)
Lemma retryer_granted l n c ret need l' : role_of l n c = Retryer false -> Cache.lock_acquire l c = Ok (ret, need, l') ->
  ret = lock_OK.
Proof.
  unfold role_of, standing, Cache.lock_acquire. destruct (Cache.st l); repeat case_decide; intros E; simplify_eq.
  destruct n; [|done]. rewrite bool_decide_true by done. by destruct (negb _); intros [= <- _ _].
Qed.

Lemma serve_acquire_total y c t ret need s' : sys_inv lid y -> covers y -> pcs (cls y c) !! t = Some Calling ->
  Cache.acquire (srv y) lid c = Ok (ret, need, s') ->
  let y' := mk_sys s' (upd c (set_pc (cls y c) t (Answered ret)) (cls y)) (net y ++ if need : bool then [RevokePending] else []) in
  (total y' < total y)%nat /\ covers y'.
Proof.
  intros Hy Hcs Ht E%serve_acquire_lock. pose proof (sv_clients _ _ Hy c) as Hk.
  destruct (calling_role _ _ _ Hk Ht) as (Hrole & _).
  destruct (acquire_roles _ _ _ _ _ _ (sv_lock _ _ Hy) (sv_net _ _ Hy) Hrole E) as (_ & Hr & Hd).
  apply total_step; [by eapply thread_covered|done|exact Hd|].
  assert (ret = lock_OK \/ ret = lock_RETRY /\ role_in y c <> Retryer false) as Hret.
  { destruct Hr as [[-> _]|[-> _]]; [by left|]. right. split; [done|]. intros Hf.
    by pose proof (retryer_granted _ _ _ _ _ _ Hf E). }
  pose proof (call_works (role_in y c) (role_of (the_lock lid s') (net y ++ if need then [RevokePending] else []) c)
    _ t ret Hk Ht Hret). unfold net_work. rewrite sum_list_with_app. destruct need; cbn [sum_list_with note_work]; lia.
Qed.

Lemma serve_release_total y c ret s' k : sys_inv lid y -> covers y -> role_in y c = Owner Asked ->
  Cache.release (srv y) lid c = Ok (ret, s') ->
  (forall r, (work r k + 3 <= work (role_in y c) (cls y c))%nat) ->
  let y' := mk_sys s' (upd c k (cls y)) (net y ++ if ret =? lock_OK then [RetryPending] else []) in
  (total y' < total y)%nat /\ covers y'.
Proof.
  intros Hy Hcs Hrole E Hw. assert (role_of (the_lock lid (srv y)) [] c <> Stranger) as Hns.
  { revert Hrole. unfold role_in, role_of, standing. destruct (Cache.st _); repeat case_decide; done. }
  destruct (serve_release_lock _ _ _ _ _ E Hns) as [-> Er].
  destruct (release_roles _ _ _ _ (sv_lock _ _ Hy) Hrole Er) as (En & _ & _ & Hd).
  cbv zeta. rewrite En. cbn [Datatypes.app Z.eqb lock_OK].
  apply total_step; [|done|unfold role_in; by rewrite En in *|].
  - apply (used_covered y); [done..|]. right. by rewrite Hrole.
  - specialize (Hw (role_of (the_lock lid s') [RetryPending] c)). rewrite En. cbn [net_work sum_list_with note_work]. lia.
Qed.

(** A call on its way reads its target. *)
Lemma send_total y n1 x n2 x' : sys_inv lid y -> covers y -> net y = n1 ++ x :: n2 -> (note_work x' < note_work x)%nat ->
  (total (mk_sys (srv y) (cls y) (n1 ++ x' :: n2)) < total y)%nat /\ covers (mk_sys (srv y) (cls y) (n1 ++ x' :: n2)).
Proof.
  intros Hy Hcs En Hx. split; [|done]. pose proof (sv_net _ _ Hy) as Hn. rewrite En in Hn.
  apply net_one in Hn as (-> & -> & _). unfold total, role_in. cbn [srv cls net]. rewrite En.
  change (net_work [x'] + sum_list_with (fun c => work (role_of (the_lock lid (srv y)) [x] c) (cls y c)) cs <
    net_work [x] + sum_list_with (fun c => work (role_of (the_lock lid (srv y)) [x] c) (cls y c)) cs)%nat.
  cbn [net_work sum_list_with]. lia.
Qed.

(** A call arrives. *)
Lemma arrive_total y c k x : sys_inv lid y -> covers y -> net y = [x] -> role_in y c <> Stranger ->
  (forall c', c' <> c -> role_of (the_lock lid (srv y)) [] c' = role_in y c') ->
  (forall r, (work r k <= work (role_in y c) (cls y c))%nat) ->
  (total (mk_sys (srv y) (upd c k (cls y)) []) < total y)%nat /\ covers (mk_sys (srv y) (upd c k (cls y)) []).
Proof.
  intros Hy Hcs En Hc Hd Hw. apply total_step; [apply (used_covered y); auto|done| |].
  - intros c' Hne. rewrite Hd by done. constructor.
  - specialize (Hw (role_of (the_lock lid (srv y)) [] c)). rewrite En. destruct x; cbn [net_work sum_list_with note_work]; lia.
Qed.

Lemma revoke_total y c n1 n2 : sys_inv lid y -> covers y -> net y = n1 ++ Revoke c :: n2 ->
  let y' := mk_sys (srv y) (upd c (revoke_handler (cls y c)) (cls y)) (n1 ++ n2) in
  (total y' < total y)%nat /\ covers y'.
Proof.
  intros Hy Hcs En. pose proof (sv_net _ _ Hy) as Hn. rewrite En in Hn. apply net_one in Hn as (-> & -> & Hx).
  destruct Hx as [[Hs [?|[= ->]]]|[_ [?|?]]]; [done| |done..]. set (h := Cache.holder _) in *.
  assert (role_in y h = Owner OnItsWay) as Hr by (unfold role_in, role_of; by rewrite Hs, decide_True, En).
  pose proof (sv_clients _ _ Hy h) as Hk. fold (role_in y h) in Hk. rewrite Hr in Hk.
  eapply arrive_total; [done..|by rewrite Hr| |intros r; rewrite Hr; by apply revoke_works].
  intros c' Hne. unfold role_in, role_of. by rewrite Hs, !decide_False.
Qed.

Lemma retry_total y c n1 n2 k' : sys_inv lid y -> covers y -> net y = n1 ++ Retry c :: n2 ->
  retry_handler (cls y c) = Ok k' ->
  let y' := mk_sys (srv y) (upd c k' (cls y)) (n1 ++ n2) in (total y' < total y)%nat /\ covers y'.
Proof.
  intros Hy Hcs En E. pose proof (sv_net _ _ Hy) as Hn. rewrite En in Hn. apply net_one in Hn as (-> & -> & Hx).
  destruct Hx as [[_ [?|?]]|[Hs [?|[= ->]]]]; [done..|]. set (h := Cache.retryer _) in *.
  assert (role_in y h = Retryer true) as Hr by (unfold role_in, role_of; by rewrite Hs, decide_True, En).
  pose proof (sv_clients _ _ Hy h) as Hk. fold (role_in y h) in Hk. rewrite Hr in Hk.
  eapply arrive_total; [done..|by rewrite Hr| |intros r; rewrite Hr; by apply retry_works].
  intros c' Hne. unfold role_in, role_of. by rewrite Hs, !decide_False.
Qed.

Lemma rest_works y y' : sys_inv lid y -> covers y -> rest y y' -> (total y' < total y)%nat /\ covers y'.
Proof.
  intros Hy Hcs [Hstep Hi]. pose proof (sv_clients _ _ Hy) as Hcl.
  destruct Hstep as [y c t _ _ Ht|y c t p b _ Ht Hb|y c t ret need s' Hc Ht E|y c t ret _ Ht
    |y c t r k' _ Ht E|y c t ret s' Ht E|y c t ret k' _ Ht E|y n1 n2 En|y n1 n2 En|y c n1 n2 _ En|y c ret s' Ht E
    |y c ret _ Ht|y c n1 n2 k' _ En E].
  - destruct (Hi c t) as [Hn _]. specialize (Hn Ht). cbn [cls] in Hn. unfold upd in Hn. rewrite decide_True in Hn by done.
    by apply acquire_enters in Hn.
  - destruct b; [|done]. apply total_client; [by eapply thread_covered|done|apply woken_works; [apply Hcl|done]].
  - by apply serve_acquire_total.
  - apply total_client; [by eapply thread_covered|done|apply answer_works; [apply Hcl|done]].
  - destruct (Hi c t) as [_ Hn]. specialize (Hn Ht). cbn [cls] in Hn. unfold upd in Hn. rewrite decide_True in Hn by done.
    by apply release_leaves in E.
  - apply serve_release_total; [done..|by eapply releasing_role; [apply Hcl|]|done|]. intros r. apply releasing_works; [apply Hcl|done].
  - apply total_client; [by eapply thread_covered|done|eapply release_answer_works; [apply Hcl|done..]].
  - eapply send_total; [done..|cbn; lia].
  - eapply send_total; [done..|cbn; lia].
  - by apply revoke_total.
  - apply serve_release_total; [done..|by eapply revoking_role; [apply Hcl|]|done|]. intros r. by apply revoking_works.
  - apply total_client; [by eapply revoke_covered|done|eapply revoke_answer_works; [apply Hcl|done]].
  - by apply retry_total.
Qed.

Lemma rest_ends y : sys_inv lid y -> covers y -> Acc (flip rest) y.
Proof.
  remember (total y) as n eqn:En. revert y En. induction (lt_wf n) as [n _ IH]. intros y -> Hy Hcs.
  constructor. intros y' Hs. destruct (rest_works y y' Hy Hcs Hs) as [Hlt Hcs'].
  apply (IH (total y') Hlt); [done|by eapply sys_step_inv, Hs|done].
Qed.

End measure.

(** In every reachable state finitely many clients have used the lock. *)
Lemma step_one_client lid y y' : sys_step lid Signalled y y' -> exists c, forall c', c' <> c -> cls y' c' = cls y c'.
Proof.
  destruct 1; cbn [cls]; try (eexists; intros c' Hne; unfold upd; rewrite decide_False by exact Hne; reflexivity);
    by exists [].
Qed.

Lemma reachable_covers lid y : rtc (sys_step lid Signalled) sys_new y -> exists cs, NoDup cs /\ covers cs y.
Proof.
  apply (rtc_invariant _ (fun y => exists cs, NoDup cs /\ covers cs y)).
  - intros y1 y2 Hs (cs & Hnd & Hcs). destruct (step_one_client _ _ _ Hs) as [c Hc].
    exists (remove_dups (c :: cs)). split; [apply NoDup_remove_dups|]. intros c' Hn.
    rewrite elem_of_remove_dups in Hn. rewrite Hc by set_solver. apply Hcs. set_solver.
  - exists []. split; [constructor|]. by intros c _.
Qed.
