(* ===== verification/LockTester.v ===== *)
(** * LockTester: the lock tester (src/lock_tester.cc) on the caching lock system

    The tests are programs of four instructions.  Threads run them against the lock
    clients, with one [LockSystem.system] for each lock, and share the counters of
    [check_grant] and [check_release], which end the process when the same lock has
    been granted twice.  [tester_step] interleaves the threads with the steps of the
    lock protocol; a phase ends when all its threads have been joined. *)

From Stdlib Require Import ZArith Lia.
From S2P Require Import Prelude LockServer LockClient LockSystem LockProgress.
Import Client.

(** ** The tests *)

(** A call of acquire or release of client [lc[i]], and the two checks. *)
Inductive instr :=
| IAcquire (i : nat) (lid : Z)
| IGrant (lid : Z)
| ICheck (lid : Z)
| IRelease (i : nat) (lid : Z).
#[export] Instance instr_eq_dec : EqDecision instr.
Proof. solve_decision. Defined.

Definition nt : nat := 6.
Definition lock_a : Z := 1.
Definition lock_b : Z := 2.

(** [ct]; [exit(1)] is [Abort]. *)
Definition slot (lid : Z) : nat := Z.to_nat (Z.land lid 0xff).
Definition ct_new : list Z := replicate 256 0.
Definition check_grant (ct : list Z) (lid : Z) : result (list Z) :=
  n ← deref (ct !! slot lid);
  if negb (n =? 0) then Abort else Ok (<[slot lid := n + 1]> ct).
Definition check_release (ct : list Z) (lid : Z) : result (list Z) :=
  n ← deref (ct !! slot lid);
  if negb (n =? 1) then Abort else Ok (<[slot lid := n - 1]> ct).

Definition test1 : list instr :=
  [IAcquire 0 lock_a; IGrant lock_a; IRelease 0 lock_a; ICheck lock_a;
   IAcquire 0 lock_a; IGrant lock_a; IRelease 0 lock_a; ICheck lock_a;
   IAcquire 0 lock_a; IGrant lock_a; IAcquire 0 lock_b; IGrant lock_b;
   IRelease 0 lock_b; ICheck lock_b; IRelease 0 lock_a; ICheck lock_a].

Definition test2 (i : nat) : list instr :=
  [IAcquire i lock_a; IGrant lock_a; ICheck lock_a; IRelease i lock_a].

Definition test3 (i : nat) : list instr :=
  concat (replicate 10 [IAcquire i lock_a; IGrant lock_a; ICheck lock_a; IRelease i lock_a]).

Definition test4 (i : nat) : list instr :=
  concat (replicate 10 [IAcquire 0 lock_a; IGrant lock_a; ICheck lock_a; IRelease 0 lock_a]).

Definition test5 (i : nat) : list instr :=
  let c := if (i <? 5)%nat then 0%nat else 1%nat in
  concat (replicate 10 [IAcquire c lock_a; IGrant lock_a; ICheck lock_a; IRelease c lock_a]).

(** [main] after its set-up: the threads of each phase. *)
Definition phases (test : Z) : list (list (list instr)) :=
  let run k := (test =? 0) || (test =? k) in
  (if run 1 then [[test1]] else []) ++
  (if run 2 then [test2 <$> seq 0 nt] else []) ++
  (if run 3 then [test3 <$> seq 0 nt] else []) ++
  (if run 4 then [test4 <$> seq 0 2] else []) ++
  (if run 5 then [test5 <$> seq 0 nt] else []).

(** ** Running them *)

Record tester := mk_tester {
  tt_locks : Z -> system; tt_ct : list Z; tt_threads : list (list instr); tt_rest : list (list (list instr));
}.
Definition tester_new (test : Z) : tester := mk_tester (fun _ => sys_new) ct_new [] (phases test).

Definition set_lock (x : tester) (lid : Z) (y : system) : tester :=
  mk_tester (fun l => if decide (l = lid) then y else tt_locks x l) (tt_ct x) (tt_threads x) (tt_rest x).
(** Thread [j] has done its next instruction. *)
Definition set_prog (x : tester) (j : nat) (p : list instr) (ct : list Z) : tester :=
  mk_tester (tt_locks x) ct (<[j := p]> (tt_threads x)) (tt_rest x).

Section tester.
(** The names of the clients [lc[i]]. *)
Context (cname : nat -> list byte).

Definition at_lock (x : tester) (i : nat) (lid : Z) : client := cls (tt_locks x lid) (cname i).
Definition with_client (x : tester) (i : nat) (lid : Z) (k : client) : tester :=
  let y := tt_locks x lid in set_lock x lid (mk_sys (srv y) (upd (cname i) k (cls y)) (net y)).

(** When the waits of the clients may end. *)
Context (wk : wakeups).

Inductive tester_step : tester -> tester -> Prop :=
| ts_internal x lid y' :
    sys_step lid wk (tt_locks x lid) y' -> internal (tt_locks x lid) y' -> tester_step x (set_lock x lid y')
| ts_acquire x j i lid p :
    tt_threads x !! j = Some (IAcquire i lid :: p) -> mutex_free (at_lock x i lid) ->
    pcs (at_lock x i lid) !! Z.of_nat j = None ->
    tester_step x (with_client x i lid (acquire (at_lock x i lid) (Z.of_nat j)))
| ts_acquired x j i lid p :
    tt_threads x !! j = Some (IAcquire i lid :: p) -> pcs (at_lock x i lid) !! Z.of_nat j = Some Holding ->
    tester_step x (set_prog x j p (tt_ct x))
| ts_grant x j lid p ct' :
    tt_threads x !! j = Some (IGrant lid :: p) -> check_grant (tt_ct x) lid = Ok ct' ->
    tester_step x (set_prog x j p ct')
| ts_check x j lid p ct' :
    tt_threads x !! j = Some (ICheck lid :: p) -> check_release (tt_ct x) lid = Ok ct' ->
    tester_step x (set_prog x j p ct')
| ts_release x j i lid p r k' :
    tt_threads x !! j = Some (IRelease i lid :: p) -> mutex_free (at_lock x i lid) ->
    pcs (at_lock x i lid) !! Z.of_nat j = Some Holding -> release (at_lock x i lid) (Z.of_nat j) = Ok (r, k') ->
    tester_step x (with_client x i lid k')
| ts_released x j i lid p :
    tt_threads x !! j = Some (IRelease i lid :: p) -> pcs (at_lock x i lid) !! Z.of_nat j = None ->
    tester_step x (set_prog x j p (tt_ct x))
| ts_join x ps rest :
    Forall (fun p => p = []) (tt_threads x) -> tt_rest x = ps :: rest ->
    tester_step x (mk_tester (tt_locks x) (tt_ct x) ps rest).

Definition finished (x : tester) : Prop := Forall (fun p => p = []) (tt_threads x) /\ tt_rest x = [].

(** The next instruction of a thread is a check that does not pass. *)
Definition fails (x : tester) : Prop := exists j lid p,
  (tt_threads x !! j = Some (IGrant lid :: p) /\ forall ct, check_grant (tt_ct x) lid <> Ok ct) \/
  (tt_threads x !! j = Some (ICheck lid :: p) /\ forall ct, check_release (tt_ct x) lid <> Ok ct).

End tester.
