(* ===== verification/LockTesterFacts.v ===== *)
(** * LockTesterFacts: the lock tester finds nothing wrong

    What a thread has to do tells which locks it holds: those it will release before
    it acquires them again.  In the phases with several threads a thread counts as
    granted only while it holds the lock, so the counters are never off; the phase
    with one thread is run through. *)

From Stdlib Require Import ZArith Lia.
From S2P Require Import Prelude LockServer LockClient LockSystem LockProgress LockTester.
Import Client.

Ltac split_bools := repeat match goal with H : _ && _ = true |- _ => apply andb_true_iff in H as [? ?] end.

(** ** Programs *)

(** Whether the next use of a lock is to acquire it (or to release it). *)
Fixpoint next_use (i : nat) (lid : Z) (p : list instr) : option bool :=
  match p with
  | [] => None
  | IAcquire i' lid' :: p => if decide (i' = i /\ lid' = lid) then Some true else next_use i lid p
  | IRelease i' lid' :: p => if decide (i' = i /\ lid' = lid) then Some false else next_use i lid p
  | _ :: p => next_use i lid p
  end.

(** Whether the next check of a lock is the one at its release. *)
Fixpoint counted (lid : Z) (p : list instr) : bool :=
  match p with
  | [] => false
  | IGrant lid' :: p => if decide (lid' = lid) then false else counted lid p
  | ICheck lid' :: p => if decide (lid' = lid) then true else counted lid p
  | _ :: p => counted lid p
  end.

(** Calls of acquire and release alternate. *)
Fixpoint paired (p : list instr) : bool :=
  match p with
  | [] => true
  | IAcquire i lid :: p => bool_decide (next_use i lid p = Some false) && paired p
  | IRelease i lid :: p => negb (bool_decide (next_use i lid p = Some false)) && paired p
  | _ :: p => paired p
  end.

(** No lock is released that has not been acquired. *)
Definition closed (p : list instr) : bool :=
  forallb (fun x => match x with IRelease i lid => negb (bool_decide (next_use i lid p = Some false)) | _ => true end) p.

Definition held (lid : Z) (p : list instr) : bool :=
  existsb (fun i => bool_decide (next_use i lid p = Some false)) (seq 0 nt).

(** The checks of a lock are made while it is held. *)
Fixpoint guarded (p : list instr) : bool :=
  match p with
  | [] => true
  | IGrant lid :: p => (0 <=? lid) && (lid <? 256) && held lid p && counted lid p && guarded p
  | ICheck lid :: p => (0 <=? lid) && (lid <? 256) && held lid p && negb (counted lid p) && guarded p
  | IAcquire _ lid :: p | IRelease _ lid :: p => negb (counted lid p) && guarded p
  end.

(** A thread that uses a lock has no greater one, apart from it. *)
Definition below (i : nat) (lid : Z) (p : list instr) : bool :=
  forallb (fun x => match x with
    | IRelease i' lid' =>
        negb (bool_decide (next_use i' lid' p = Some false)) || bool_decide (i' = i /\ lid' = lid) || (lid' <? lid)
    | _ => true end) p.
Fixpoint ordered (p : list instr) : bool :=
  match p with
  | [] => true
  | IAcquire i lid :: p | IRelease i lid :: p => (lid <? 256) && below i lid p && ordered p
  | _ :: p => ordered p
  end.

(** The checks of one thread, run through. *)
Fixpoint run_checks (p : list instr) (ct : list Z) : result (list Z) :=
  match p with
  | [] => Ok ct
  | IGrant lid :: p => ct ← check_grant ct lid; run_checks p ct
  | ICheck lid :: p => ct ← check_release ct lid; run_checks p ct
  | _ :: p => run_checks p ct
  end.

Definition phase_ok (ps : list (list instr)) : Prop :=
  Forall (fun p => paired p && ordered p && closed p = true) ps /\
  (Forall (fun p => guarded p = true) ps \/ exists p, ps = [p] /\ run_checks p ct_new = Ok ct_new).

Lemma phases_ok test : Forall phase_ok (phases test).
Proof.
  unfold phases. repeat apply Forall_app_2; (case_match; [|constructor]); apply Forall_singleton.
  1: { split; [by repeat constructor|]. right. exists test1. split; [done|]. by vm_compute. }
  all: split; [by repeat constructor|left; by repeat constructor].
Qed.

Lemma next_use_release i lid p : next_use i lid p = Some false -> IRelease i lid ∈ p.
Proof.
  induction p as [|x p IH]; [done|]. cbn [next_use]. destruct x; try case_decide as Hd; try (intros E; right; auto; fail).
  - done.
  - destruct Hd as [-> ->]. left.
Qed.

Lemma closed_next p i lid : closed p = true -> next_use i lid p <> Some false.
Proof.
  intros Hc E. pose proof (next_use_release _ _ _ E) as Hin. unfold closed in Hc. rewrite forallb_forall in Hc.
  specialize (Hc _ (proj1 (list_elem_of_In _ _) Hin)). cbn in Hc. by rewrite bool_decide_true in Hc.
Qed.

Lemma below_next i lid p i' lid' : below i lid p = true -> next_use i' lid' p = Some false ->
  i' = i /\ lid' = lid \/ lid' < lid.
Proof.
  intros Hc E. pose proof (next_use_release _ _ _ E) as Hin. unfold below in Hc. rewrite forallb_forall in Hc.
  specialize (Hc _ (proj1 (list_elem_of_In _ _) Hin)). cbn in Hc. rewrite (bool_decide_true (next_use _ _ _ = _)) in Hc by done.
  cbn in Hc. apply orb_true_iff in Hc as [Hc%bool_decide_eq_true|Hc]; [by left|right; lia].
Qed.

Lemma held_next lid p : held lid p = true -> exists i, next_use i lid p = Some false.
Proof. unfold held. intros (i & _ & Hi%bool_decide_eq_true)%existsb_exists. eauto. Qed.

(** A thread that is counted holds the lock. *)
Lemma counted_held lid p : guarded p = true -> counted lid p = true ->
  0 <= lid < 256 /\ exists i, next_use i lid p = Some false /\ head p <> Some (IRelease i lid).
Proof.
  induction p as [|x p IH]; [done|]. cbn [guarded counted]. intros Hg Hc. destruct x as [i' l|l|l|i' l].
  - apply andb_true_iff in Hg as [Hn Hg]. destruct (IH Hg Hc) as (Hr & i & Hi & _). split; [done|].
    exists i. cbn [next_use]. rewrite decide_False; [done|]. intros [_ ->]. by rewrite Hc in Hn.
  - destruct (decide (l = lid)) as [->|Hne]; [done|]. rewrite !andb_true_iff in Hg. destruct Hg as [_ Hg].
    destruct (IH Hg Hc) as (Hr & i & Hi & _). split; [done|]. by exists i.
  - rewrite !andb_true_iff in Hg. destruct Hg as [[[[H1 H2] Hh] _] Hg]. destruct (decide (l = lid)) as [->|Hne].
    + destruct (held_next _ _ Hh) as [i Hi]. split; [lia|]. by exists i.
    + destruct (IH Hg Hc) as (Hr & i & Hi & _). split; [done|]. by exists i.
  - apply andb_true_iff in Hg as [Hn Hg]. destruct (IH Hg Hc) as (Hr & i & Hi & _). split; [done|].
    assert (l <> lid) as Hne by (intros ->; by rewrite Hc in Hn).
    exists i. cbn [next_use head]. rewrite decide_False by (by intros [_ ?]). split; [done|]. congruence.
Qed.

(** ** Counting threads *)

Definition cnt (lid : Z) (ps : list (list instr)) : Z := Z.of_nat (length (filter (fun p => counted lid p = true) ps)).

Lemma cnt_insert lid ps j p p' : ps !! j = Some p ->
  cnt lid (<[j := p']> ps) = cnt lid ps - (if counted lid p then 1 else 0) + (if counted lid p' then 1 else 0).
Proof.
  unfold cnt. revert j. induction ps as [|q ps IH]; intros j Hj; [done|]. destruct j as [|j].
  - injection Hj as ->. change (<[0%nat := p']> (p :: ps)) with (p' :: ps). rewrite !filter_cons.
    destruct (counted lid p), (counted lid p'); repeat case_decide; cbn [length]; lia || done.
  - change (<[Datatypes.S j := p']> (q :: ps)) with (q :: <[j := p']> ps). rewrite !filter_cons.
    specialize (IH j Hj). case_decide; cbn [length]; lia.
Qed.

Lemma cnt_zero lid ps : (forall j p, ps !! j = Some p -> counted lid p = false) -> cnt lid ps = 0.
Proof.
  intros Hp. unfold cnt. rewrite (elem_of_nil_inv (filter _ ps)); [done|].
  intros p [Hc [j Hj]%list_elem_of_lookup_1]%list_elem_of_filter. rewrite (Hp j p Hj) in Hc. done.
Qed.

Lemma cnt_one lid ps j p : ps !! j = Some p -> counted lid p = true ->
  (forall j' p', ps !! j' = Some p' -> counted lid p' = true -> j' = j) -> cnt lid ps = 1.
Proof.
  intros Hj Hc Hu. pose proof (cnt_insert lid ps j p [] Hj) as E. rewrite Hc in E. cbn [counted] in E.
  assert (cnt lid (<[j := []]> ps) = 0) as E0; [|lia]. apply cnt_zero. intros j' p' Hj'.
  destruct (decide (j' = j)) as [->|Hne].
  - rewrite list_lookup_insert_eq in Hj' by (by eapply lookup_lt_Some). by injection Hj' as <-.
  - rewrite list_lookup_insert_ne in Hj' by done. destruct (counted lid p') eqn:E1; [|done].
    by destruct Hne; eapply Hu.
Qed.

Lemma slot_small lid : 0 <= lid < 256 -> slot lid = Z.to_nat lid.
Proof. intros Hl. unfold slot. change 0xff with (Z.ones 8). rewrite Z.land_ones, Z.mod_small; [done|lia..]. Qed.

(** ** The invariant *)

(** [release] touches no other thread that is outside or has the lock. *)
Lemma release_others k t r k' t' : release k t = Ok (r, k') -> t' <> t ->
  (pcs k !! t' = None -> pcs k' !! t' = None) /\ (pcs k !! t' = Some Holding -> pcs k' !! t' = Some Holding).
Proof.
  intros E Hne. unfold release, release_finish in E. destruct (lk k) as [l|].
  - destruct (revoke_later l); [injection E as <- <-; cbn [goto pcs]; by rewrite lookup_insert_ne|].
    cbn in E. destruct (queue l) as [|t0 [|t1 q]]; [done|injection E as <- <-; cbn [pcs]..].
    + by rewrite lookup_delete_ne.
    + pose proof (keeps_signal (delete t (pcs k)) t1 t') as Hk. by rewrite lookup_delete_ne in Hk.
  - injection E as <- <-. cbn [pcs]. by rewrite lookup_delete_ne.
Qed.

(** What is left of a thread's program tells which locks it has. *)
Definition uses (i : nat) (lid : Z) (p : list instr) : Prop :=
  next_use i lid p = Some false \/ head p = Some (IAcquire i lid).
Definition has (i : nat) (lid : Z) (p : list instr) : Prop :=
  next_use i lid p = Some false /\ head p <> Some (IRelease i lid).

(** The counters agree with the threads: always, or at the end of the phase. *)
Definition counters_ok (ps : list (list instr)) (ct : list Z) : Prop :=
  Forall (fun p => guarded p = true) ps /\ length ct = 256%nat /\
    (forall lid, 0 <= lid < 256 -> ct !! Z.to_nat lid = Some (cnt lid ps)) \/
  exists p, ps = [p] /\ run_checks p ct = Ok ct_new.

Section invariant.
Context (cname : nat -> list byte) (Hinj : Inj (=) (=) cname) (Hname : forall i, cname i <> []).

Record tinv (x : tester) : Prop := {
  ti_locks : forall lid, sys_inv lid (tt_locks x lid);
  ti_progs : Forall (fun p => paired p && ordered p = true) (tt_threads x);
  ti_rest : Forall phase_ok (tt_rest x);
  ti_inside : forall lid c t, pcs (cls (tt_locks x lid) c) !! t <> None ->
    exists j i p, t = Z.of_nat j /\ c = cname i /\ tt_threads x !! j = Some p /\ uses i lid p;
  ti_held : forall j p i lid, tt_threads x !! j = Some p -> has i lid p ->
    pcs (at_lock cname x i lid) !! Z.of_nat j = Some Holding;
  ti_ct : counters_ok (tt_threads x) (tt_ct x);
}.

Lemma tester_new_inv test : tinv (tester_new test).
Proof.
  split; cbn [tester_new tt_locks tt_threads tt_rest tt_ct].
  - intros lid. apply sys_new_inv.
  - constructor.
  - apply phases_ok.
  - intros lid c t Ht. destruct Ht. apply lookup_empty.
  - done.
  - left. split; [constructor|]. split; [reflexivity|]. intros lid Hl. unfold ct_new.
    rewrite lookup_replicate_2 by lia. done.
Qed.

(** A step of lock [lid] that moves no thread but [t] of client [c] in or out. *)
Lemma lock_moves x lid y' : tinv x -> sys_inv lid y' ->
  (forall c t, pcs (cls (tt_locks x lid) c) !! t = None -> pcs (cls y' c) !! t <> None ->
    exists j i p, t = Z.of_nat j /\ c = cname i /\ tt_threads x !! j = Some p /\ uses i lid p) ->
  (forall j p i, tt_threads x !! j = Some p -> has i lid p ->
    pcs (cls (tt_locks x lid) (cname i)) !! Z.of_nat j = Some Holding ->
    pcs (cls y' (cname i)) !! Z.of_nat j = Some Holding) ->
  tinv (set_lock x lid y').
Proof.
  intros Hx Hy Hin Hheld. destruct Hx as [H1 H2 H3 H4 H5 H6].
  split; cbn [set_lock tt_locks tt_threads tt_rest tt_ct]; [|done|done| | |done].
  - intros l. by case_decide; subst.
  - intros l c t Ht. case_decide as Hl; [subst l|by apply H4].
    destruct (pcs (cls (tt_locks x lid) c) !! t) eqn:E; [|by apply Hin]. apply H4. by rewrite E.
  - intros j p i l Hj Hh. unfold at_lock. cbn [set_lock tt_locks]. case_decide as Hl; [subst l|by apply (H5 j p i l)].
    apply (Hheld j p i Hj Hh). by apply (H5 j p i lid).
Qed.

(** A thread goes on to the rest of its program. *)
Lemma prog_moves x j z p ct' : tinv x -> tt_threads x !! j = Some (z :: p) ->
  (forall i lid, uses i lid (z :: p) -> pcs (at_lock cname x i lid) !! Z.of_nat j <> None -> uses i lid p) ->
  (forall i lid, has i lid p -> pcs (at_lock cname x i lid) !! Z.of_nat j = Some Holding) ->
  counters_ok (<[j := p]> (tt_threads x)) ct' ->
  tinv (set_prog x j p ct').
Proof.
  intros [H1 H2 H3 H4 H5 H6] Hj Hin Hheld Hct.
  assert (forall j' q, <[j := p]> (tt_threads x) !! j' = Some q ->
    j' = j /\ q = p \/ j' <> j /\ tt_threads x !! j' = Some q) as Hcase.
  { intros j' q [[-> [<- _]]|[? ?]]%list_lookup_insert_Some; auto. }
  split; cbn [set_prog tt_locks tt_threads tt_rest tt_ct]; [done| |done| | |done].
  - apply Forall_insert; [done|]. pose proof (Forall_lookup_1 _ _ _ _ H2 Hj) as Hp.
    cbn beta in Hp |- *. destruct z; cbn [paired ordered] in Hp; split_bools; by apply andb_true_iff.
  - intros lid c t Ht. destruct (H4 lid c t Ht) as (j' & i & q & -> & -> & Hj' & Hu).
    destruct (decide (j' = j)) as [->|Hne].
    + rewrite Hj in Hj'. injection Hj' as <-. exists j, i, p.
      rewrite list_lookup_insert_eq by (by eapply lookup_lt_Some). split_and!; auto.
    + exists j', i, q. by rewrite list_lookup_insert_ne.
  - intros j' q i lid [[-> ->]|[Hne Hj']]%Hcase Hh; [by apply Hheld|by apply (H5 j' q i lid)].
Qed.

(** ** The counters *)

Lemma cnt_nil ps lid : Forall (fun p => p = []) ps -> cnt lid ps = 0.
Proof. intros Hp. apply cnt_zero. intros j p Hj. by rewrite (Forall_lookup_1 _ _ _ _ Hp Hj). Qed.

(** At the end of a phase they are all zero. *)
Lemma counters_end ps ct : counters_ok ps ct -> Forall (fun p => p = []) ps -> ct = ct_new.
Proof.
  intros [(_ & Hl & Hct)|(p & -> & E)] Hp.
  - apply list_eq. intros n. destruct (decide (n < 256)%nat) as [Hn|Hn].
    + specialize (Hct (Z.of_nat n)). rewrite Nat2Z.id, (cnt_nil _ _ Hp) in Hct. rewrite Hct by lia.
      unfold ct_new. by rewrite lookup_replicate_2.
    + rewrite !lookup_ge_None_2; [done| |]; [unfold ct_new; rewrite length_replicate; lia|lia].
  - apply Forall_singleton in Hp as ->. by injection E.
Qed.

Lemma counters_start ps : phase_ok ps -> counters_ok ps ct_new.
Proof.
  intros [Hp [Hg|(p & -> & E)]]; [left|right; eauto]. split; [done|]. unfold ct_new.
  split; [apply length_replicate|]. intros lid Hl. rewrite lookup_replicate_2 by lia. f_equal. symmetry.
  apply cnt_zero. intros j p Hj. destruct (counted lid p) eqn:E; [|done].
  destruct (counted_held lid p (Forall_lookup_1 _ _ _ _ Hg Hj) E) as (_ & i & Hi & _).
  pose proof (Forall_lookup_1 _ _ _ _ Hp Hj) as Hc. apply andb_true_iff in Hc as [_ Hc].
  by destruct (closed_next p i lid Hc).
Qed.

(** A call of acquire or release changes nothing for them. *)
Lemma counters_use ps ct j z p : counters_ok ps ct -> ps !! j = Some (z :: p) ->
  (exists i lid, z = IAcquire i lid \/ z = IRelease i lid) -> counters_ok (<[j := p]> ps) ct.
Proof.
  intros [(Hg & Hl & Hct)|(q & -> & E)] Hj Hz.
  - left. split; [|split; [done|]].
    + apply Forall_insert; [done|]. pose proof (Forall_lookup_1 _ _ _ _ Hg Hj) as Hp.
      destruct Hz as (i & lid & [-> | ->]); cbn [guarded] in Hp; apply andb_true_iff in Hp as [_ Hp]; exact Hp.
    + intros lid Hr. rewrite (Hct lid Hr), (cnt_insert lid ps j _ p Hj).
      assert (counted lid (z :: p) = counted lid p) as -> by (by destruct Hz as (? & ? & [-> | ->])). f_equal. lia.
  - right. exists p. destruct j as [|j]; [|done]. injection Hj as ->. split; [done|].
    by destruct Hz as (? & ? & [-> | ->]).
Qed.

Lemma counters_insert ps ct j z p lid n d : ps !! j = Some (z :: p) -> guarded p = true -> 0 <= lid < 256 ->
  Forall (fun p => guarded p = true) ps -> length ct = 256%nat ->
  (forall lid, 0 <= lid < 256 -> ct !! Z.to_nat lid = Some (cnt lid ps)) -> ct !! slot lid = Some n ->
  (forall l, (if counted l p then 1 else 0) - (if counted l (z :: p) then 1 else 0) = if decide (l = lid) then d else 0) ->
  counters_ok (<[j := p]> ps) (<[slot lid := n + d]> ct).
Proof.
  intros Hj Hg Hr Hgs Hl Hct Hn Hd. left. split; [by apply Forall_insert|]. split; [by rewrite length_insert|].
  intros l Hrl. rewrite (cnt_insert l ps j _ p Hj). specialize (Hd l). specialize (Hct l Hrl).
  rewrite slot_small in * by done. destruct (decide (l = lid)) as [->|Hne].
  - rewrite list_lookup_insert_eq by lia. f_equal. rewrite Hct in Hn. injection Hn as <-. lia.
  - rewrite list_lookup_insert_ne by lia. rewrite Hct. f_equal. lia.
Qed.

Lemma counters_grant ps ct j lid p ct' : counters_ok ps ct -> ps !! j = Some (IGrant lid :: p) ->
  check_grant ct lid = Ok ct' -> counters_ok (<[j := p]> ps) ct'.
Proof.
  intros [(Hg & Hl & Hct)|(q & -> & E)] Hj Ec.
  - pose proof (Forall_lookup_1 _ _ _ _ Hg Hj) as Hp. cbn [guarded] in Hp. rewrite !andb_true_iff in Hp.
    destruct Hp as [[[[H1 H2] _] Hc] Hp]. unfold check_grant in Ec. destruct (ct !! slot lid) as [n|] eqn:En; [|done].
    cbn in Ec. destruct (negb (n =? 0)); [done|]. injection Ec as <-.
    eapply counters_insert; eauto; [lia|]. intros l. cbn [counted]. destruct (decide (lid = l)) as [->|Hne].
    + by rewrite Hc, decide_True.
    + rewrite decide_False by congruence. destruct (counted l p); lia.
  - right. exists p. destruct j as [|j]; [|done]. injection Hj as ->. split; [done|].
    cbn [run_checks] in E. by rewrite Ec in E.
Qed.

Lemma counters_check ps ct j lid p ct' : counters_ok ps ct -> ps !! j = Some (ICheck lid :: p) ->
  check_release ct lid = Ok ct' -> counters_ok (<[j := p]> ps) ct'.
Proof.
  intros [(Hg & Hl & Hct)|(q & -> & E)] Hj Ec.
  - pose proof (Forall_lookup_1 _ _ _ _ Hg Hj) as Hp. cbn [guarded] in Hp. rewrite !andb_true_iff in Hp.
    destruct Hp as [[[[H1 H2] _] Hc%negb_true_iff] Hp]. unfold check_release in Ec.
    destruct (ct !! slot lid) as [n|] eqn:En; [|done].
    cbn in Ec. destruct (negb (n =? 1)); [done|]. injection Ec as <-. change (n - 1) with (n + -1).
    eapply counters_insert; eauto; [lia|]. intros l. cbn [counted]. destruct (decide (lid = l)) as [->|Hne].
    + by rewrite Hc, decide_True.
    + rewrite decide_False by congruence. destruct (counted l p); lia.
  - right. exists p. destruct j as [|j]; [|done]. injection Hj as ->. split; [done|].
    cbn [run_checks] in E. by rewrite Ec in E.
Qed.

(** ** Every step keeps the invariant *)

Lemma next_use_other z p i lid : z <> IAcquire i lid -> z <> IRelease i lid -> next_use i lid (z :: p) = next_use i lid p.
Proof.
  intros H1 H2. destruct z as [i' l| | |i' l]; [| done..|]; cbn [next_use];
    (destruct (decide (i' = i /\ l = lid)) as [[-> ->]|]; [congruence|done]).
Qed.

Lemma has_cons z p i lid : z <> IAcquire i lid -> z <> IRelease i lid -> next_use i lid p = Some false -> has i lid (z :: p).
Proof. intros H1 H2 E. split; [by rewrite next_use_other|]. cbn. congruence. Qed.

Lemma uses_tail z p i lid : z <> IAcquire i lid -> z <> IRelease i lid -> uses i lid (z :: p) -> uses i lid p.
Proof. intros H1 H2 [E|E]; [left; by rewrite next_use_other in E|by injection E as ->]. Qed.

(** The three steps of the threads at a lock. *)
Lemma internal_inv x lid y' : tinv x -> sys_step lid Signalled (tt_locks x lid) y' -> internal (tt_locks x lid) y' ->
  tinv (set_lock x lid y').
Proof.
  intros Hx Hs Hi. apply lock_moves; [done|eapply sys_step_inv; [apply (ti_locks _ Hx)|exact Hs]|..].
  - intros c t Hn Ht. by destruct Ht; apply Hi.
  - intros j p i _ _. apply Hi.
Qed.

Lemma acquire_inv x j i lid p : tinv x -> tt_threads x !! j = Some (IAcquire i lid :: p) ->
  pcs (at_lock cname x i lid) !! Z.of_nat j = None ->
  tinv (with_client cname x i lid (acquire (at_lock cname x i lid) (Z.of_nat j))).
Proof.
  intros Hx Hj Hn. pose proof (ti_locks _ Hx lid) as Hy. apply lock_moves; [done| |..].
  - eapply sys_step_inv; [done|]. apply st_acquire; [apply Hname|by apply (free_mutex lid)|exact Hn].
  - intros c t Ht. cbn [cls]. unfold upd. case_decide as Hc; [subst c|done].
    destruct (acquire_getting (at_lock cname x i lid) (Z.of_nat j)) as (l & q & -> & _). cbn [goto pcs].
    destruct (decide (t = Z.of_nat j)) as [->|Hne]; [|by rewrite lookup_insert_ne].
    intros _. exists j, i, (IAcquire i lid :: p). split_and!; try done. by right.
  - intros j' p' i' _ _ Ht. cbn [cls]. unfold upd. case_decide as Hc; [|done]. rewrite Hc in Ht.
    destruct (acquire_getting (at_lock cname x i lid) (Z.of_nat j)) as (l & q & -> & _). cbn [goto pcs].
    rewrite lookup_insert_ne; [done|]. intros E. unfold at_lock in Hn. congruence.
Qed.

Lemma release_inv x j i lid p r k' : tinv x -> tt_threads x !! j = Some (IRelease i lid :: p) ->
  pcs (at_lock cname x i lid) !! Z.of_nat j = Some Holding ->
  release (at_lock cname x i lid) (Z.of_nat j) = Ok (r, k') -> tinv (with_client cname x i lid k').
Proof.
  intros Hx Hj Ht E. pose proof (ti_locks _ Hx lid) as Hy. apply lock_moves; [done| |..].
  - eapply sys_step_inv; [done|]. eapply st_release; [by apply (free_mutex lid)|exact Ht|exact E].
  - intros c t Hn. cbn [cls]. unfold upd. case_decide as Hc; [subst c|done]. intros Hk. destruct Hk.
    eapply release_others; [exact E| |exact Hn]. intros ->. unfold at_lock in Ht. congruence.
  - intros j' p' i' Hj' [_ Hh] Ht'. cbn [cls]. unfold upd. case_decide as Hc; [|done].
    apply Hinj in Hc as ->. eapply release_others; [exact E| |exact Ht'].
    intros Ej%Nat2Z.inj. subst j'. rewrite Hj in Hj'. by injection Hj' as <-.
Qed.

(** The steps of the threads between two calls. *)
Lemma paired_head x j z p : tinv x -> tt_threads x !! j = Some (z :: p) -> paired (z :: p) = true /\ ordered (z :: p) = true.
Proof. intros Hx Hj. apply andb_true_iff. exact (Forall_lookup_1 _ _ _ _ (ti_progs _ Hx) Hj). Qed.

Lemma acquired_inv x j i lid p : tinv x -> tt_threads x !! j = Some (IAcquire i lid :: p) ->
  pcs (at_lock cname x i lid) !! Z.of_nat j = Some Holding -> tinv (set_prog x j p (tt_ct x)).
Proof.
  intros Hx Hj Ht. destruct (paired_head _ _ _ _ Hx Hj) as [Hp _]. cbn [paired] in Hp. split_bools.
  match goal with H : bool_decide _ = true |- _ => apply bool_decide_eq_true in H; rename H into Hu end.
  eapply prog_moves; [done|exact Hj| | |].
  - intros i' l' Hu' _. destruct (decide (IAcquire i lid = IAcquire i' l')) as [[= -> ->]|Hne]; [by left|].
    by apply (uses_tail (IAcquire i lid)).
  - intros i' l' [Hu' _]. destruct (decide (IAcquire i lid = IAcquire i' l')) as [[= -> ->]|Hne]; [done|].
    apply (ti_held _ Hx j _ i' l' Hj). by apply has_cons.
  - eapply counters_use; [apply (ti_ct _ Hx)|exact Hj|eauto].
Qed.

Lemma released_inv x j i lid p : tinv x -> tt_threads x !! j = Some (IRelease i lid :: p) ->
  pcs (at_lock cname x i lid) !! Z.of_nat j = None -> tinv (set_prog x j p (tt_ct x)).
Proof.
  intros Hx Hj Ht. destruct (paired_head _ _ _ _ Hx Hj) as [Hp _]. cbn [paired] in Hp. split_bools.
  match goal with H : negb (bool_decide _) = true |- _ => apply negb_true_iff, bool_decide_eq_false in H; rename H into Hu end.
  eapply prog_moves; [done|exact Hj| | |].
  - intros i' l' Hu' Hin. destruct (decide (IRelease i lid = IRelease i' l')) as [[= -> ->]|Hne]; [done|].
    by apply (uses_tail (IRelease i lid)).
  - intros i' l' [Hu' _]. destruct (decide (IRelease i lid = IRelease i' l')) as [[= -> ->]|Hne]; [done|].
    apply (ti_held _ Hx j _ i' l' Hj). by apply has_cons.
  - eapply counters_use; [apply (ti_ct _ Hx)|exact Hj|eauto].
Qed.

Lemma check_inv x j z p ct' : tinv x -> tt_threads x !! j = Some (z :: p) ->
  (exists lid, z = IGrant lid /\ check_grant (tt_ct x) lid = Ok ct' \/ z = ICheck lid /\ check_release (tt_ct x) lid = Ok ct') ->
  tinv (set_prog x j p ct').
Proof.
  intros Hx Hj Hz. assert (forall i lid, z <> IAcquire i lid /\ z <> IRelease i lid) as Hne
    by (by destruct Hz as (? & [[-> _]|[-> _]])).
  eapply prog_moves; [done|exact Hj| | |].
  - intros i l Hu _. destruct (Hne i l). by apply (uses_tail z).
  - intros i l [Hu _]. apply (ti_held _ Hx j _ i l Hj). destruct (Hne i l). by apply has_cons.
  - destruct Hz as (lid & [[-> E]|[-> E]]); [eapply counters_grant|eapply counters_check]; eauto; apply (ti_ct _ Hx).
Qed.

Lemma join_inv x ps rest : tinv x -> Forall (fun p => p = []) (tt_threads x) -> tt_rest x = ps :: rest ->
  tinv (mk_tester (tt_locks x) (tt_ct x) ps rest).
Proof.
  intros Hx Hend Hrest. pose proof (ti_rest _ Hx) as Hr. rewrite Hrest in Hr. apply Forall_cons in Hr as [Hps Hr].
  rewrite (counters_end _ _ (ti_ct _ Hx) Hend).
  split; cbn [tt_locks tt_threads tt_rest tt_ct]; [apply (ti_locks _ Hx)| |done| | |by apply counters_start].
  - eapply Forall_impl; [apply Hps|]. intros p Hp. cbn beta in Hp. by apply andb_true_iff in Hp as [Hp _].
  - intros lid c t Ht. destruct (ti_inside _ Hx lid c t Ht) as (j & i & p & _ & _ & Hj & Hu).
    rewrite (Forall_lookup_1 _ _ _ _ Hend Hj) in Hu. by destruct Hu.
  - intros j p i lid Hj [Hu _]. pose proof (Forall_lookup_1 _ _ _ _ (proj1 Hps) Hj) as Hp. cbn beta in Hp.
    apply andb_true_iff in Hp as [_ Hp]. by destruct (closed_next p i lid Hp).
Qed.

Lemma tester_step_inv x x' : tinv x -> tester_step cname Signalled x x' -> tinv x'.
Proof.
  intros Hx Hs. destruct Hs; eauto using internal_inv, acquire_inv, acquired_inv, release_inv, released_inv, join_inv;
    eapply check_inv; eauto.
Qed.

Lemma tester_inv test x : rtc (tester_step cname Signalled) (tester_new test) x -> tinv x.
Proof.
  apply rtc_invariant; [eauto using tester_step_inv|apply tester_new_inv].
Qed.

(** ** The checks pass *)

(** Two threads that have a lock are the same. *)
Lemma has_unique x lid j p i j' p' i' : tinv x -> tt_threads x !! j = Some p -> has i lid p ->
  tt_threads x !! j' = Some p' -> has i' lid p' -> j = j'.
Proof.
  intros Hx Hj Hh Hj' Hh'. apply Nat2Z.inj.
  eapply holding_unique; [apply (ti_locks _ Hx lid)|by apply (ti_held _ Hx j p i lid)|by apply (ti_held _ Hx j' p' i' lid)].
Qed.

(** A thread that is counted is the one that makes a check. *)
Lemma counted_is x lid j z p j' p' : tinv x -> Forall (fun p => guarded p = true) (tt_threads x) ->
  tt_threads x !! j = Some (z :: p) -> z = IGrant lid \/ z = ICheck lid -> held lid p = true ->
  tt_threads x !! j' = Some p' -> counted lid p' = true -> j' = j.
Proof.
  intros Hx Hg Hj Hz Hh Hj' Hc. destruct (held_next _ _ Hh) as [i Hi].
  destruct (counted_held lid p' (Forall_lookup_1 _ _ _ _ Hg Hj') Hc) as (_ & i' & Hh').
  eapply has_unique; [done|exact Hj'|exact Hh'|exact Hj|]. by apply (has_cons z p i lid); destruct Hz; subst.
Qed.

Lemma never_fails x : tinv x -> ~ fails x.
Proof.
  intros Hx (j & lid & p & Hf). destruct (ti_ct _ Hx) as [(Hg & Hl & Hct)|(q & Hq & E)].
  - assert (exists z, tt_threads x !! j = Some (z :: p) /\ (z = IGrant lid \/ z = ICheck lid)) as (z & Hj & Hz)
      by (destruct Hf as [[Hj _]|[Hj _]]; eauto).
    assert (0 <= lid < 256 /\ held lid p = true) as [Hr Hh].
    { pose proof (Forall_lookup_1 _ _ _ _ Hg Hj) as Hp. cbn beta in Hp.
      destruct Hz; subst z; cbn [guarded] in Hp; split_bools; by split; [lia|]. }
    pose proof (fun j' p' => counted_is x lid j z p j' p' Hx Hg Hj Hz Hh) as Hu.
    specialize (Hct lid Hr). rewrite <- slot_small in Hct by done.
    destruct Hf as [[Hj' Hn]|[Hj' Hn]]; eapply Hn; rewrite Hj in Hj'; injection Hj' as ->.
    + unfold check_grant. rewrite Hct. cbn. rewrite cnt_zero; [reflexivity|]. intros j' p' Hj'.
      destruct (counted lid p') eqn:Ec; [|done]. rewrite (Hu j' p' Hj' Ec), Hj in Hj'. injection Hj' as <-.
      cbn [counted] in Ec. by rewrite decide_True in Ec.
    + unfold check_release. rewrite Hct. cbn. rewrite (cnt_one lid _ j _ Hj); [reflexivity| |done].
      cbn [counted]. by rewrite decide_True.
  - rewrite Hq in Hf. destruct j as [|j]; [|by destruct Hf as [[? _]|[? _]]].
    destruct Hf as [[[= ->] Hn]|[[= ->] Hn]]; cbn [run_checks] in E;
      [destruct (check_grant _ _) as [ct| | |] eqn:Ec|destruct (check_release _ _) as [ct| | |] eqn:Ec];
      try done; by apply (Hn ct).
Qed.

(** ** Some thread goes on *)

Definition goes_on (x : tester) : Prop := exists x', tester_step cname Signalled x x'.

Lemma check_goes_on x j z p : tinv x -> tt_threads x !! j = Some (z :: p) ->
  (exists lid, z = IGrant lid \/ z = ICheck lid) -> goes_on x.
Proof.
  intros Hx Hj (lid & Hz). pose proof (never_fails x Hx) as Hf. destruct Hz; subst z.
  - destruct (check_grant (tt_ct x) lid) as [ct| | |] eqn:Ec; [eexists; by eapply ts_grant|..];
      destruct Hf; exists j, lid, p; left; split; auto; by rewrite Ec.
  - destruct (check_release (tt_ct x) lid) as [ct| | |] eqn:Ec; [eexists; by eapply ts_check|..];
      destruct Hf; exists j, lid, p; right; split; auto; by rewrite Ec.
Qed.

Lemma release_goes_on x j i lid p : tinv x -> tt_threads x !! j = Some (IRelease i lid :: p) ->
  pcs (at_lock cname x i lid) !! Z.of_nat j = Some Holding -> goes_on x.
Proof.
  intros Hx Hj Ht. pose proof (ti_locks _ Hx lid) as Hy.
  destruct (release_ok _ _ _ (sv_clients _ _ Hy (cname i)) Ht) as (v & k' & E & _).
  eexists. eapply ts_release; [exact Hj|by apply (free_mutex lid)|exact Ht|exact E].
Qed.

(** A thread that waits at a lock waits for one that has it, which waits at a
    greater lock if it waits. *)
Lemma use_goes_on n x j z p i lid : tinv x -> (Z.to_nat (256 - lid) <= n)%nat ->
  tt_threads x !! j = Some (z :: p) -> z = IAcquire i lid \/ z = IRelease i lid -> goes_on x.
Proof.
  intros Hx. revert j z p i lid. induction n as [|n IH]; intros j z p i lid Hn Hj Hz.
  { destruct (paired_head _ _ _ _ Hx Hj) as [_ Ho]. destruct Hz; subst z; cbn [ordered] in Ho; split_bools; lia. }
  pose proof (ti_locks _ Hx lid) as Hy.
  assert (pcs (at_lock cname x i lid) !! Z.of_nat j = None -> goes_on x) as Hnone.
  { intros Ht. destruct Hz; subst z; eexists; [|by eapply ts_released].
    eapply ts_acquire; [exact Hj|by apply (free_mutex lid)|exact Ht]. }
  destruct (pcs (at_lock cname x i lid) !! Z.of_nat j) as [q|] eqn:Ht; [|by apply Hnone].
  destruct (no_deadlock lid _ Hy (cname i) _ q (Hname i) Ht) as [(c & t & Hh)|(y' & Hs & Hi)];
    [|eexists; by eapply ts_internal].
  destruct (ti_inside _ Hx lid c t) as (j' & i' & p' & -> & -> & Hj' & Hu); [by rewrite Hh|].
  destruct p' as [|z' p']; [by destruct Hu|].
  destruct (paired_head _ _ _ _ Hx Hj') as [_ Ho].
  destruct z' as [i2 l2|l2|l2|i2 l2]; [| by eapply check_goes_on; eauto..|]; cbn [ordered] in Ho; split_bools.
  - destruct (decide (i2 = i' /\ l2 = lid)) as [[-> ->]|Hne]; [eexists; by eapply ts_acquired|].
    destruct Hu as [Hu|[= -> ->]]; [|naive_solver]. cbn [next_use] in Hu. rewrite decide_False in Hu by done.
    edestruct (below_next i2 l2 p' i' lid) as [[-> ->]|Hlt]; [done..|naive_solver|]. eapply (IH j' _ _ i2 l2); [lia|exact Hj'|by left].
  - destruct (decide (i2 = i' /\ l2 = lid)) as [[-> ->]|Hne]; [by eapply release_goes_on|].
    destruct Hu as [Hu|?]; [|done]. cbn [next_use] in Hu. rewrite decide_False in Hu by done.
    edestruct (below_next i2 l2 p' i' lid) as [[-> ->]|Hlt]; [done..|naive_solver|]. eapply (IH j' _ _ i2 l2); [lia|exact Hj'|by right].
Qed.

Lemma tester_goes_on x : tinv x -> finished x \/ goes_on x.
Proof.
  intros Hx. destruct (decide (Forall (fun p => p = []) (tt_threads x))) as [Hend|Hmore].
  - destruct (tt_rest x) as [|ps rest] eqn:Er; [by left|]. right. eexists. by eapply ts_join.
  - right. apply not_Forall_Exists, Exists_exists in Hmore as (p & [j Hj]%list_elem_of_lookup_1 & Hp); [|apply _].
    destruct p as [|z p]; [by destruct Hp|]. destruct z; [eapply use_goes_on|eapply check_goes_on|eapply check_goes_on|eapply use_goes_on]; eauto.
Qed.

End invariant.
