(* ===== verification/LockTesterEnds.v ===== *)
(** * LockTesterEnds: every run of the lock tester ends

    A thread's call of acquire or release goes on inside the lock client until the
    lock is held or given up, and the protocol comes to rest between the calls
    ([LockQuiesce]); so there is no infinite run of the tester. *)

From Stdlib Require Import ZArith Lia.
From S2P Require Import Prelude LockServer LockClient LockSystem LockProgress LockQuiesce LockTester LockTesterFacts.
Import Client.

(** ** Acquiring and releasing *)

(** A thread that acquires the lock stays inside; one that releases it does not get it. *)
Definition advance (a b : option pc) : Prop :=
  match a with
  | None => b = None
  | Some p => if getting p then exists p', b = Some p' /\ getting p' = true
              else b = None \/ exists p', b = Some p' /\ getting p' = false
  end.
Definition advances (m m' : gmap Z pc) : Prop := forall t, advance (m !! t) (m' !! t).

Lemma advance_refl a : advance a a.
Proof. destruct a as [p|]; [|done]. cbn. destruct (getting p) eqn:E; eauto. Qed.

Lemma advance_trans a b c : advance a b -> advance b c -> advance a c.
Proof.
  destruct a as [p|]; cbn; [|by intros ->]. destruct (getting p).
  - intros (p' & -> & E). cbn. by rewrite E.
  - intros [->|(p' & -> & E)]; cbn; [by left|]. by rewrite E.
Qed.

Lemma advances_insert m t p0 p : m !! t = Some p0 -> getting p0 = getting p -> advances m (<[t := p]> m).
Proof.
  intros Ht E t'. destruct (decide (t' = t)) as [->|Hne]; [|rewrite lookup_insert_ne by done; apply advance_refl].
  rewrite Ht, lookup_insert_eq. cbn. rewrite E. destruct (getting p) eqn:E'; eauto.
Qed.

Lemma advances_signal m t : advances m (signal t m).
Proof.
  unfold signal. destruct (m !! t) as [[]|] eqn:Ht; try (intros t'; apply advance_refl). by eapply advances_insert.
Qed.

Lemma advances_delete m t p0 : m !! t = Some p0 -> getting p0 = false -> advances m (delete t m).
Proof.
  intros Ht E t'. destruct (decide (t' = t)) as [->|Hne]; [|rewrite lookup_delete_ne by done; apply advance_refl].
  rewrite Ht, lookup_delete_eq. cbn. rewrite E. by left.
Qed.

Lemma release_finish_advances k l t p0 k' : pcs k !! t = Some p0 -> getting p0 = false -> release_finish k l t = Ok k' ->
  advances (pcs k) (pcs k').
Proof.
  intros Ht Hp. unfold release_finish. destruct (queue l) as [|t0 [|t1 q]]; [done|intros [= <-]..]; cbn [pcs].
  - by eapply advances_delete.
  - intros t'. eapply advance_trans; [by eapply advances_delete|apply advances_signal].
Qed.

(** Without a step from outside all threads go on in this way. *)
Lemma rest_advances lid y y' : rest lid y y' -> forall c, advances (pcs (cls y c)) (pcs (cls y' c)).
Proof.
  assert (forall y c k s n, advances (pcs (cls y c)) (pcs k) ->
    forall c', advances (pcs (cls y c')) (pcs (cls (mk_sys s (upd c k (cls y)) n) c'))) as Hupd.
  { intros y0 c k s n Hk c'. cbn [cls]. unfold upd. case_decide as E; [by subst|intros t; apply advance_refl]. }
  intros [Hstep Hi]. destruct Hstep as [y c t _ _ Ht|y c t p b _ Ht Hb|y c t ret need s' Hc Ht E|y c t ret _ Ht
    |y c t r k' _ Ht E|y c t ret s' Ht E|y c t ret k' _ Ht E|y n1 n2 En|y n1 n2 En|y c n1 n2 _ En|y c ret s' Ht E
    |y c ret _ Ht|y c n1 n2 k' _ En E]; try (intros c t; apply advance_refl); apply Hupd.
  - destruct (Hi c t) as [Hn _]. specialize (Hn Ht). cbn [cls] in Hn. unfold upd in Hn. rewrite decide_True in Hn by done.
    by apply acquire_enters in Hn.
  - destruct b; [|done]. destruct (acquire_woken_getting (cls y c) t p) as (l & q & -> & Hq). by eapply advances_insert.
  - by eapply advances_insert.
  - destruct (acquire_answer_getting (cls y c) t ret) as (l & q & -> & Hq). by eapply advances_insert.
  - destruct (Hi c t) as [_ Hn]. specialize (Hn Ht). cbn [cls] in Hn. unfold upd in Hn. rewrite decide_True in Hn by done.
    by apply release_leaves in E.
  - by eapply advances_insert.
  - by eapply release_finish_advances.
  - unfold revoke_handler. case_bool_decide; intros t; apply advance_refl.
  - intros t. apply advance_refl.
  - unfold revoke_answer. cbn [pcs]. destruct (queue _); [intros t; apply advance_refl|apply advances_signal].
  - unfold retry_handler in E. destruct (queue _); [done|]. injection E as <-. apply advances_signal.
Qed.

Lemma release_advances k t r k' t' : release k t = Ok (r, k') -> t' <> t -> advance (pcs k !! t') (pcs k' !! t').
Proof.
  intros E Hne. unfold release, release_finish in E. destruct (lk k) as [l|].
  - destruct (revoke_later l); [injection E as <- <-; cbn [goto pcs]; rewrite lookup_insert_ne by done; apply advance_refl|].
    cbn in E. destruct (queue l) as [|t0 [|t1 q]]; [done|injection E as <- <-; cbn [pcs]..].
    + rewrite lookup_delete_ne by done. apply advance_refl.
    + pose proof (advances_signal (delete t (pcs k)) t1 t') as Hk. by rewrite lookup_delete_ne in Hk.
  - injection E as <- <-. cbn [pcs]. rewrite lookup_delete_ne by done. apply advance_refl.
Qed.

(** ** Where the threads of the tester are *)

Section ends.
Context (cname : nat -> list byte) (Hinj : Inj (=) (=) cname) (Hname : forall i, cname i <> []).

Notation at_lock := (at_lock cname).
Notation tinv := (tinv cname).
Notation tester_step := (tester_step cname Signalled).

(** A thread inside a call of acquire is acquiring, one inside a call of release is releasing. *)
Definition sides (x : tester) : Prop := forall j z p i lid q, tt_threads x !! j = Some (z :: p) ->
  pcs (at_lock x i lid) !! Z.of_nat j = Some q ->
  (z = IAcquire i lid -> getting q = true) /\ (z = IRelease i lid -> q = Holding \/ getting q = false).

(** A step at lock [lid] of the threads other than the one that acts. *)
Definition lock_advances (x : tester) (lid : Z) (y' : system) (me : nat -> nat -> Prop) : Prop :=
  forall i j, ~ me i j ->
    advance (pcs (at_lock x i lid) !! Z.of_nat j) (pcs (cls y' (cname i)) !! Z.of_nat j) /\
    (pcs (at_lock x i lid) !! Z.of_nat j = Some Holding -> pcs (cls y' (cname i)) !! Z.of_nat j = Some Holding).

Lemma sides_lock x lid y' me : sides x -> lock_advances x lid y' me ->
  (forall i j q, me i j -> pcs (cls y' (cname i)) !! Z.of_nat j = Some q ->
    exists z p, tt_threads x !! j = Some (z :: p) /\
      (z = IAcquire i lid -> getting q = true) /\ (z = IRelease i lid -> q = Holding \/ getting q = false)) ->
  (forall i j, Decision (me i j)) -> sides (set_lock x lid y').
Proof.
  intros Hx Hadv Hme Hdec j z p i l q Hj Hq. unfold LockTester.at_lock in Hq. cbn [set_lock tt_locks tt_threads] in *.
  case_decide as Hl; [subst l|by apply (Hx j z p i l q Hj)]. destruct (Hdec i j) as [Hm|Hm].
  - destruct (Hme i j q Hm Hq) as (z' & p' & Hj' & Hs). rewrite Hj in Hj'. by injection Hj' as <- <-.
  - destruct (Hadv i j Hm) as [Ha Hh]. destruct (pcs (at_lock x i lid) !! Z.of_nat j) as [q0|] eqn:E; [|cbn in Ha; congruence].
    destruct (Hx j z p i lid q0 Hj E) as [H1 H2]. rewrite Hq in *. cbn in Ha.
    split; intros Hz; [specialize (H1 Hz); rewrite H1 in Ha|destruct (H2 Hz) as [->|H3]].
    + by destruct Ha as (? & [= <-] & ?).
    + left. by injection (Hh eq_refl).
    + rewrite H3 in Ha. right. by destruct Ha as [?|(? & [= <-] & ?)].
Qed.

(** When an instruction is done the thread is ready for the next. *)
Lemma sides_prog x j z p ct' : tinv x -> sides x -> tt_threads x !! j = Some (z :: p) ->
  (forall i lid, z = IRelease i lid -> pcs (at_lock x i lid) !! Z.of_nat j = None) ->
  (forall i lid, z = IAcquire i lid -> pcs (at_lock x i lid) !! Z.of_nat j = Some Holding) ->
  sides (set_prog x j p ct').
Proof.
  intros Hx Hs Hj Hrel Hacq j' z' p' i lid q Hj' Hq. cbn [set_prog tt_threads] in Hj'.
  change (pcs (at_lock x i lid) !! Z.of_nat j' = Some q) in Hq.
  apply list_lookup_insert_Some in Hj' as [(-> & -> & _)|[Hne Hj']]; [|by apply (Hs j' z' p' i lid q)].
  destruct (decide (z = IRelease i lid)) as [E1|Hr]; [rewrite (Hrel _ _ E1) in Hq; done|]. split; intros ->.
  - destruct (ti_inside _ _ Hx lid (cname i) (Z.of_nat j')) as (j1 & i1 & p1 & Ej%Nat2Z.inj & Ei%Hinj & Hj1 & Hu);
      [by intros E; unfold LockTester.at_lock in Hq; rewrite E in Hq|].
    subst j1 i1. rewrite Hj in Hj1. injection Hj1 as <-. destruct (decide (z = IAcquire i lid)) as [->|Ha].
    + destruct (paired_head _ _ _ _ _ Hx Hj) as [Hp _]. cbn [paired next_use] in Hp. rewrite decide_True in Hp by done.
      by rewrite bool_decide_false in Hp.
    + destruct Hu as [Hu|Hu]; [|by injection Hu]. rewrite next_use_other in Hu by done.
      cbn [next_use] in Hu. by rewrite decide_True in Hu.
  - left. destruct (decide (z = IAcquire i lid)) as [->|Ha]; [rewrite (Hacq _ _ eq_refl) in Hq; by injection Hq|].
    assert (has i lid (z :: IRelease i lid :: p')) as Hh
      by (apply has_cons; [done..|cbn [next_use]; by rewrite decide_True]).
    rewrite (ti_held _ _ Hx j' _ i lid Hj Hh) in Hq. by injection Hq.
Qed.

(** Who acts, for the three kinds of steps at a lock. *)
Lemma internal_lock x lid y' : rest lid (tt_locks x lid) y' -> lock_advances x lid y' (fun _ _ => False).
Proof. intros Hr i j _. split; [by apply (rest_advances lid)|]. apply Hr. Qed.

Lemma acquire_lock x i lid j : pcs (at_lock x i lid) !! Z.of_nat j = None ->
  lock_advances x lid (mk_sys (srv (tt_locks x lid)) (upd (cname i) (acquire (at_lock x i lid) (Z.of_nat j)) (cls (tt_locks x lid)))
    (net (tt_locks x lid))) (fun i' j' => i' = i /\ j' = j).
Proof.
  intros Hn i' j' Hme. cbn [cls]. unfold upd. case_decide as Hc; [|split; [apply advance_refl|done]]. apply Hinj in Hc as ->.
  destruct (acquire_getting (at_lock x i lid) (Z.of_nat j)) as (l & q & -> & _). cbn [goto pcs].
  rewrite lookup_insert_ne by (intros E%Nat2Z.inj; by apply Hme). split; [apply advance_refl|done].
Qed.

Lemma release_lock x i lid j r k' : release (at_lock x i lid) (Z.of_nat j) = Ok (r, k') ->
  lock_advances x lid (mk_sys (srv (tt_locks x lid)) (upd (cname i) k' (cls (tt_locks x lid))) (net (tt_locks x lid)))
    (fun i' j' => i' = i /\ j' = j).
Proof.
  intros E i' j' Hme. cbn [cls]. unfold upd. case_decide as Hc; [|split; [apply advance_refl|done]]. apply Hinj in Hc as ->.
  assert (Z.of_nat j' <> Z.of_nat j) as Hne by (intros Ej%Nat2Z.inj; tauto).
  split; [by eapply release_advances|by eapply release_others].
Qed.

Lemma release_gives_up k t r k' q : release k t = Ok (r, k') -> pcs k' !! t = Some q -> getting q = false.
Proof.
  unfold release, release_finish. destruct (lk k) as [l|].
  - destruct (revoke_later l); [intros [= <- <-]; cbn [goto pcs]; rewrite lookup_insert_eq; by intros [= <-]|].
    cbn. destruct (queue l) as [|t0 [|t1 q0]]; [done|intros [= <- <-]; cbn [pcs]..]; [by rewrite lookup_delete_eq|].
    destruct (keeps_signal (delete t (pcs k)) t1 t) as [Hn _]. rewrite Hn; [done|]. apply lookup_delete_eq.
  - intros [= <- <-]. cbn [pcs]. by rewrite lookup_delete_eq.
Qed.

Lemma sides_step x x' : tinv x -> sides x -> tester_step x x' -> sides x'.
Proof.
  intros Hx Hs Hstep. destruct Hstep as [x lid y' Hst Hi|x j i lid p Hj _ Hn|x j i lid p Hj Ht|x j lid p ct' Hj _
    |x j lid p ct' Hj _|x j i lid p r k' Hj _ Ht E|x j i lid p Hj Ht|x ps rest Hend Hr].
  - eapply sides_lock; [done|by apply internal_lock|done|apply _].
  - eapply sides_lock; [done|by apply acquire_lock| |apply _]. intros i' j' q [-> ->] Hq. cbn [cls] in Hq.
    unfold upd in Hq. rewrite decide_True in Hq by done.
    destruct (acquire_getting (at_lock x i lid) (Z.of_nat j)) as (l & q' & E & Hg). rewrite E in Hq. cbn [goto pcs] in Hq.
    rewrite lookup_insert_eq in Hq. injection Hq as <-. by exists (IAcquire i lid), p.
  - eapply sides_prog; [done|done|exact Hj|done|]. by intros i' l' [= <- <-].
  - by eapply sides_prog.
  - by eapply sides_prog.
  - eapply sides_lock; [done|by eapply release_lock| |apply _]. intros i' j' q [-> ->] Hq. cbn [cls] in Hq.
    unfold upd in Hq. rewrite decide_True in Hq by done. exists (IRelease i lid), p. split; [done|]. split; [done|].
    intros _. right. by eapply release_gives_up.
  - eapply sides_prog; [done|done|exact Hj| |done]. by intros i' l' [= <- <-].
  - intros j z p i lid q _ Hq. destruct (ti_inside _ _ Hx lid (cname i) (Z.of_nat j)) as (j1 & i1 & p1 & _ & _ & Hj1 & Hu);
      [intros E; unfold LockTester.at_lock in Hq; cbn [tt_locks] in Hq; by rewrite E in Hq|].
    rewrite (Forall_lookup_1 _ _ _ _ Hend Hj1) in Hu. by destruct Hu.
Qed.

(** ** The instructions left *)

Definition called (x : tester) (j : nat) (z : instr) : bool :=
  match z with
  | IAcquire i lid => bool_decide (pcs (at_lock x i lid) !! Z.of_nat j <> None)
  | IRelease i lid => bool_decide (pcs (at_lock x i lid) !! Z.of_nat j <> Some Holding)
  | _ => false
  end.
Definition left_of (x : tester) (j : nat) : nat :=
  match tt_threads x !! j with
  | Some (z :: p) => 2 * length p + if called x j z then 1 else 2
  | _ => 0
  end.
Definition phase_size (ps : list (list instr)) : nat := S (sum_list_with (fun p => 2 * length p)%nat ps).
Definition left_in (x : tester) : nat :=
  sum_list_with (left_of x) (seq 0 (length (tt_threads x))) + sum_list_with phase_size (tt_rest x).

Lemma sum_le {A} (f g : A -> nat) l : (forall a, f a <= g a)%nat -> (sum_list_with f l <= sum_list_with g l)%nat.
Proof. intros Hfg. induction l as [|a l IH]; cbn; [lia|]. specialize (Hfg a). lia. Qed.

Lemma sum_lt {A} (f g : A -> nat) l a : (forall a, f a <= g a)%nat -> a ∈ l -> (f a < g a)%nat ->
  (sum_list_with f l < sum_list_with g l)%nat.
Proof.
  intros Hfg Hin Hlt. induction l as [|b l IH]; [by apply elem_of_nil in Hin|]. cbn.
  pose proof (sum_le f g l Hfg). specialize (Hfg b). apply elem_of_cons in Hin as [<-|Hin]; [lia|]. specialize (IH Hin). lia.
Qed.

(** One thread has gone on, the others have not gone back. *)
Lemma left_in_lt x x' j : length (tt_threads x') = length (tt_threads x) -> tt_rest x' = tt_rest x ->
  (forall j', left_of x' j' <= left_of x j')%nat -> (left_of x' j < left_of x j)%nat -> (left_in x' < left_in x)%nat.
Proof.
  intros Hl Hr Hle Hlt. unfold left_in. rewrite Hl, Hr.
  pose proof (sum_lt (left_of x') (left_of x) (seq 0 (length (tt_threads x))) j Hle) as H. lapply H; [lia|].
  rewrite elem_of_seq. split; [lia|]. unfold left_of in Hlt. destruct (tt_threads x !! j) eqn:E; [|lia].
  apply lookup_lt_Some in E. lia.
Qed.

Lemma called_lock x lid y' me j z p : sides x -> lock_advances x lid y' me -> tt_threads x !! j = Some (z :: p) ->
  (forall i, z = IAcquire i lid \/ z = IRelease i lid -> ~ me i j) ->
  called x j z = true -> called (set_lock x lid y') j z = true.
Proof.
  intros Hs Hadv Hj Hme. unfold called, LockTester.at_lock. cbn [set_lock tt_locks].
  destruct z as [i l| | |i l]; [| done..|]; (case_decide as Hl; [subst l|done]);
    intros Hc%bool_decide_eq_true; apply bool_decide_eq_true; destruct (Hadv i j) as [Ha _]; auto;
    (destruct (pcs (at_lock x i lid) !! Z.of_nat j) as [q|] eqn:E; unfold LockTester.at_lock in E; rewrite E in Hc; [|try done]).
  - destruct (Hs j _ p i lid q Hj E) as [Hg _]. cbn in Ha. rewrite Hg in Ha by done. by destruct Ha as (q' & -> & _).
  - destruct (Hs j _ p i lid q Hj E) as [_ Hg]. cbn in Ha. destruct (Hg eq_refl) as [->|Hf]; [done|].
    rewrite Hf in Ha. destruct Ha as [->|(q' & -> & E')]; [done|]. by intros [= ->].
  - cbn in Ha. by rewrite Ha.
Qed.

Lemma left_of_lock x lid y' me : sides x -> lock_advances x lid y' me ->
  (forall i j z p, me i j -> tt_threads x !! j = Some (z :: p) -> called x j z = false) ->
  forall j, (left_of (set_lock x lid y') j <= left_of x j)%nat.
Proof.
  intros Hs Hadv Hme j. unfold left_of at 1 2. change (tt_threads (set_lock x lid y')) with (tt_threads x).
  destruct (tt_threads x !! j) as [[|z p]|] eqn:Hj; [lia| |lia].
  destruct (called x j z) eqn:E; [|destruct (called (set_lock x lid y') j z); lia].
  rewrite (called_lock x lid y' me j z p Hs Hadv Hj); [lia| |done].
  intros i _ Hm. by rewrite (Hme i j z p Hm Hj) in E.
Qed.

(** A thread that has done an instruction. *)
Lemma left_in_prog x j z p ct' : tt_threads x !! j = Some (z :: p) -> (left_in (set_prog x j p ct') < left_in x)%nat.
Proof.
  intros Hj. assert (left_of (set_prog x j p ct') j < left_of x j)%nat as Hlt.
  { unfold left_of. cbn [set_prog tt_threads]. rewrite list_lookup_insert_eq, Hj by (by eapply lookup_lt_Some).
    destruct p as [|z' p]; cbn [length]; [destruct (called x j z); lia|].
    destruct (called x j z), (called _ j z'); lia. }
  apply left_in_lt with j; [cbn [set_prog tt_threads]; apply length_insert|done| |done].
  intros j'. destruct (decide (j' = j)) as [->|Hne]; [lia|]. unfold left_of. cbn [set_prog tt_threads].
  by rewrite list_lookup_insert_ne.
Qed.

(** A thread that has entered a call. *)
Lemma left_in_lock x lid y' me i j z p : sides x -> lock_advances x lid y' me ->
  (forall i' j', me i' j' <-> i' = i /\ j' = j) -> tt_threads x !! j = Some (z :: p) -> called x j z = false ->
  called (set_lock x lid y') j z = true -> (left_in (set_lock x lid y') < left_in x)%nat.
Proof.
  intros Hs Hadv Hme Hj Hn Hc. apply left_in_lt with j; [done..| |].
  - eapply left_of_lock; [done..|]. intros i' j' z' p' [-> ->]%Hme Hj'. rewrite Hj in Hj'. by injection Hj' as <- <-.
  - unfold left_of. change (tt_threads (set_lock x lid y')) with (tt_threads x). rewrite Hj, Hn, Hc. lia.
Qed.

Lemma left_in_join x ps rest : Forall (fun p => p = []) (tt_threads x) -> tt_rest x = ps :: rest ->
  (left_in (mk_tester (tt_locks x) (tt_ct x) ps rest) < left_in x)%nat.
Proof.
  intros _ Hr. unfold left_in. rewrite Hr. cbn [tt_threads tt_rest sum_list_with]. unfold phase_size at 2.
  set (x' := mk_tester (tt_locks x) (tt_ct x) ps rest).
  assert (sum_list_with (left_of x') (seq 0 (length ps)) <= sum_list_with (fun p => 2 * length p) ps)%nat; [|lia].
  assert (forall k qs, drop k ps = qs ->
    sum_list_with (left_of x') (seq k (length qs)) <= sum_list_with (fun p => 2 * length p) qs)%nat as H; [|by apply (H 0%nat)].
  intros k qs. revert k. induction qs as [|p qs IH]; intros k Hk; cbn [length seq sum_list_with]; [lia|].
  assert (ps !! k = Some p) as Hp by (rewrite <- (Nat.add_0_r k), <- lookup_drop, Hk; done).
  specialize (IH (S k)). rewrite <- Nat.add_1_r, <- drop_drop, Hk in IH. specialize (IH eq_refl).
  assert (left_of x' k <= 2 * length p)%nat; [|rewrite Nat.add_1_r in IH; lia].
  unfold left_of. cbn [x' tt_threads]. rewrite Hp. destruct p as [|z p]; [lia|]. cbn [length].
  destruct (called _ k z); lia.
Qed.

(** ** The protocol between the calls *)

(** The locks and the clients that have been used. *)
Definition spans (L : list Z) (cs : list (list byte)) (x : tester) : Prop :=
  (forall lid, lid ∉ L -> tt_locks x lid = sys_new) /\ forall lid, covers cs (tt_locks x lid).

Lemma spans_more L cs L' cs' x : L ⊆ L' -> cs ⊆ cs' -> spans L cs x -> spans L' cs' x.
Proof. intros HL Hcs [H1 H2]. split; [intros lid Hn; apply H1; set_solver|]. intros lid c Hc. apply H2. set_solver. Qed.

Lemma spans_client L cs x i lid k : spans L cs x -> lid ∈ L -> cname i ∈ cs -> spans L cs (with_client cname x i lid k).
Proof.
  intros [H1 H2] HL Hc. unfold with_client. split; intros l; cbn [set_lock tt_locks].
  - intros Hn. rewrite decide_False by (by intros ->). by apply H1.
  - case_decide; [subst l|apply H2]. intros c Hn. cbn [cls]. unfold upd. rewrite decide_False by (by intros ->). by apply H2.
Qed.

Definition total_of (L : list Z) (cs : list (list byte)) (x : tester) : nat :=
  sum_list_with (fun lid => total lid cs (tt_locks x lid)) L.

Lemma new_at_rest lid y' : ~ rest lid sys_new y'.
Proof.
  intros Hr. destruct (rest_works lid [] (NoDup_nil_2) sys_new y') as [Hlt _]; [apply sys_new_inv|by intros c _|done|].
  cbn in Hlt. lia.
Qed.

Lemma internal_total L cs x lid y' : NoDup L -> NoDup cs -> tinv x -> spans L cs x -> rest lid (tt_locks x lid) y' ->
  (total_of L cs (set_lock x lid y') < total_of L cs x)%nat /\ spans L cs (set_lock x lid y').
Proof.
  intros HL Hcs Hx [H1 H2] Hr.
  assert (lid ∈ L) as Hin by (destruct (decide (lid ∈ L)) as [|Hn]; [done|rewrite (H1 lid Hn) in Hr; by apply new_at_rest in Hr]).
  destruct (rest_works lid cs Hcs _ _ (ti_locks _ _ Hx lid) (H2 lid) Hr) as [Hlt Hc]. split.
  - apply sum_lt with lid; [|done|]; cbn [set_lock tt_locks]; [|by rewrite decide_True].
    intros l. case_decide; [subst l|]; lia.
  - split; intros l; cbn [set_lock tt_locks]; [intros Hn; rewrite decide_False by (by intros ->); by apply H1|].
    by case_decide; [subst l|].
Qed.

(** A step is one of the protocol, or an instruction gets done or begun. *)
Lemma step_or_instr L cs x x' : spans L cs x -> tinv x -> sides x -> tester_step x x' ->
  (exists lid y', x' = set_lock x lid y' /\ rest lid (tt_locks x lid) y') \/
  (left_in x' < left_in x)%nat /\ exists L' cs', spans L' cs' x'.
Proof.
  intros Hsp Hx Hs Hstep. destruct Hstep as [x lid y' Hst Hi|x j i lid p Hj _ Hn|x j i lid p Hj Ht|x j lid p ct' Hj _
    |x j lid p ct' Hj _|x j i lid p r k' Hj _ Ht E|x j i lid p Hj Ht|x ps rest Hend Hr];
    [left; by exists lid, y'|right..].
  all: try (split; [by eapply left_in_prog|by exists L, cs]).
  - split; [|exists (lid :: L), (cname i :: cs); apply spans_client; [eapply spans_more, Hsp|..]; set_solver].
    eapply left_in_lock with (j := j); [done|by apply acquire_lock|done|exact Hj|..]; cbn [called].
    + apply bool_decide_eq_false. intros Hc. by apply Hc.
    + apply bool_decide_eq_true. unfold LockTester.at_lock at 1. cbn [set_lock tt_locks]. rewrite decide_True by done.
      cbn [cls]. unfold upd. rewrite decide_True by done. apply acquire_enters.
  - split; [|exists (lid :: L), (cname i :: cs); apply spans_client; [eapply spans_more, Hsp|..]; set_solver].
    eapply left_in_lock with (j := j); [done|by eapply release_lock|done|exact Hj|..]; cbn [called].
    + apply bool_decide_eq_false. intros Hc. by apply Hc.
    + apply bool_decide_eq_true. unfold LockTester.at_lock at 1. cbn [set_lock tt_locks]. rewrite decide_True by done.
      cbn [cls]. unfold upd. rewrite decide_True by done. by eapply release_leaves.
  - split; [by apply left_in_join|by exists L, cs].
Qed.

Lemma tester_ends x L cs : tinv x -> sides x -> spans L cs x -> Acc (flip tester_step) x.
Proof.
  remember (left_in x) as n eqn:En. revert x L cs En. induction (lt_wf n) as [n _ IHn]. intros x L0 cs0 En Hx Hs Hsp0.
  assert (exists L cs, NoDup L /\ NoDup cs /\ spans L cs x) as (L & cs & HL & Hcs & Hsp).
  { exists (remove_dups L0), (remove_dups cs0). split_and!; [apply NoDup_remove_dups..|].
    eapply spans_more, Hsp0; intros a; by rewrite elem_of_remove_dups. }
  assert (left_in x <= n)%nat as Hn by lia. clear Hsp0 En. remember (total_of L cs x) as m eqn:Em. revert x Em Hx Hs Hsp Hn.
  induction (lt_wf m) as [m _ IHm]. intros x -> Hx Hs Hsp Hn. constructor. intros x' Hstep. cbn in Hstep.
  pose proof (tester_step_inv cname Hinj Hname x x' Hx Hstep) as Hx'. pose proof (sides_step x x' Hx Hs Hstep) as Hs'.
  destruct (step_or_instr L cs x x' Hsp Hx Hs Hstep) as [(lid & y' & -> & Hr)|(Hlt & L' & cs' & Hsp')].
  - destruct (internal_total L cs x lid y' HL Hcs Hx Hsp Hr) as [Ht Hsp']. apply (IHm _ Ht); [done..|].
    transitivity (left_in x); [|done]. unfold left_in. apply Nat.add_le_mono_r. apply sum_le.
    eapply left_of_lock; [done|by apply internal_lock|done].
  - eapply (IHn (left_in x')); [lia|done..].
Qed.

Lemma sides_new test : sides (tester_new test).
Proof. by intros j z p i lid q Hj. Qed.

Lemma reachable_ends test x : rtc tester_step (tester_new test) x -> Acc (flip tester_step) x.
Proof.
  intros Hs. assert (tinv x /\ sides x /\ exists L cs, spans L cs x) as (Hx & Hx' & L & cs & Hsp);
    [|by eapply tester_ends].
  revert Hs. apply (rtc_invariant _ (fun x => tinv x /\ sides x /\ exists L cs, spans L cs x)).
  - intros a b Hab (Ha & Hsa & L & cs & Hsp). split_and!; [by eapply tester_step_inv|by eapply sides_step|].
    destruct (step_or_instr L cs a b Hsp Ha Hsa Hab) as [(lid & y' & -> & Hr)|[_ H]]; [|done].
    exists (remove_dups L), (remove_dups cs). eapply internal_total; [apply NoDup_remove_dups..|done| |done].
    eapply spans_more, Hsp; intros c; by rewrite elem_of_remove_dups.
  - split_and!; [apply tester_new_inv|apply sides_new|]. exists [], []. by split.
Qed.

End ends.
