(* ===== verification/LockProps.v ===== *)
(** * LockProps: the guarantees of the lock servers

    Clients and server of the caching protocol together keep the threads of all
    clients apart, no check of theirs fails, and they neither deadlock nor run for
    ever; the lock tester passes.  The caching server grants a lock
    to one client at a time and hands it over to a waiting client.  The first
    server grants a new lock twice. *)

From Stdlib Require Import ZArith Lia.
From S2P Require Import Prelude LockServer LockClient LockSystem LockProgress LockQuiesce.
From S2P Require Import LockTester LockTesterFacts LockTesterEnds.
From S2P Require Import CppString Marshall MarshallFacts RpcServer Sockaddr RpcClient RpcStub.
From S2P Require Import RpcLink LockRemote LockCallbacks Demo Handle HandleFacts.
Import Client.

(** C15: whatever sequence of requests the caching server answers, in its log a lock
    is granted only when no client has it, and taken back only from the client
    that has it; the owners it ends with are those the log says. *)
Theorem locks_exclusive es log sv :
  Forall Cache.event_ok es -> Cache.serve_all Cache.server_new es = Ok (log, sv) ->
  Cache.spec_run ∅ log = Some (Cache.owners sv).
Proof.
  intros He E. destruct (Cache.requests_refine es Cache.server_new log sv) as [_ Hs]; [|done|exact E|].
  - intros lid k Hk. cbn in Hk. by rewrite lookup_empty in Hk.
  - by rewrite <- Hs.
Qed.

Definition demo_events : list Cache.event :=
  [Cache.EvAcquire 5 [x61]; Cache.EvAcquire 5 [x62]; Cache.EvRelease 5 [x61]; Cache.EvAcquire 5 [x62]].

Lemma locks_exclusive_witness :
  exists log sv, Cache.serve_all Cache.server_new demo_events = Ok (log, sv) /\
    snd <$> log = [lock_OK; lock_RETRY; lock_OK; lock_OK] /\ Cache.spec_run ∅ log = Some (Cache.owners sv).
Proof.
  assert (exists log sv, Cache.serve_all Cache.server_new demo_events = Ok (log, sv) /\
    snd <$> log = [lock_OK; lock_RETRY; lock_OK; lock_OK]) as (log & sv & E & Hl).
  { eexists _, _. split; [vm_compute; reflexivity|reflexivity]. }
  exists log, sv. split; [exact E|]. split; [exact Hl|].
  apply (locks_exclusive demo_events log sv); [|exact E].
  repeat (apply Forall_cons; split; [discriminate|]). by apply Forall_nil.
Defined.

(** When a client gives a lock back, the server names one of the clients that
    were waiting as the next one, and that client is granted the lock when it
    asks again, while every other client is told to wait. *)
Theorem release_hands_over sv lid id sv' :
  Cache.server_inv sv -> is_Some (Cache.lock_pool sv !! lid) -> Cache.release sv lid id = Ok (lock_OK, sv') ->
  let next := Cache.retry_target sv' lid in
  next ∈ Cache.waiter (default Cache.lock_new (Cache.lock_pool sv !! lid)) /\
  (exists rv sv'', Cache.acquire sv' lid next = Ok (lock_OK, rv, sv'') /\ Cache.owners sv'' !! lid = Some next) /\
  forall other, other <> next -> exists sv'', Cache.acquire sv' lid other = Ok (lock_RETRY, false, sv'') /\
    Cache.owners sv'' !! lid = None.
Proof.
  intros Hi [k Hk] E next. unfold Cache.release in E. rewrite Hk in E.
  apply bind_ok in E as (k' & Er & E). injection E as <-.
  destruct (Cache.lock_release_spec k id k' (Hi lid k Hk) Er) as (_ & _ & _ & Hw).
  assert (Cache.st k' = Cache.RETRYING) as Hs.
  { unfold Cache.lock_release in Er. do 2 apply bind_ok in Er as (? & _ & Er).
    apply bind_ok in Er as (r & _ & Er). by injection Er as <-. }
  assert (next = Cache.retryer k') as Hn
    by (unfold next, Cache.retry_target; cbn; by rewrite lookup_insert_eq).
  rewrite Hk. split_and!.
  - by rewrite Hn.
  - rewrite Hn. unfold Cache.acquire, Cache.lock_acquire. cbn [Cache.lock_pool]. rewrite lookup_insert_eq.
    cbn [default from_option Datatypes.id]. rewrite Hs, bool_decide_true by done.
    destruct (negb _); eexists _, _; (split; [reflexivity|]); rewrite Cache.owner_lookup; cbn;
      rewrite lookup_insert_eq; done.
  - intros other Ho. rewrite Hn in Ho. unfold Cache.acquire, Cache.lock_acquire. cbn [Cache.lock_pool].
    rewrite lookup_insert_eq. cbn [default from_option Datatypes.id].
    rewrite Hs, bool_decide_false by congruence. eexists. split; [reflexivity|].
    rewrite Cache.owner_lookup. cbn. by rewrite lookup_insert_eq.
Qed.

(** A lock held by a, for which b and c wait. *)
Definition contended : Cache.server :=
  Cache.mk_server 0 {[5 := Cache.mk_lock [x61] [] [[x62]; [x63]] Cache.REVOKING]}.

Lemma contended_inv : Cache.server_inv contended.
Proof.
  intros lid k Hk. cbn in Hk. apply lookup_singleton_Some in Hk as [_ <-].
  unfold Cache.lock_inv. cbn. split; [set_solver|]. split_and!; [done..|set_solver].
Qed.

Lemma release_hands_over_witness :
  exists sv' rv sv'', Cache.release contended 5 [x61] = Ok (lock_OK, sv') /\
    Cache.acquire sv' 5 [x62] = Ok (lock_OK, rv, sv'').
Proof.
  assert (exists sv', Cache.release contended 5 [x61] = Ok (lock_OK, sv') /\ Cache.retry_target sv' 5 = [x62])
    as (sv' & E & Ht) by (eexists; split; [vm_compute; reflexivity|reflexivity]).
  destruct (release_hands_over contended 5 [x61] sv' contended_inv) as (_ & (rv & sv'' & E2 & _) & _);
    [by eexists|exact E|].
  rewrite Ht in E2. exists sv', rv, sv''. exact (conj E E2).
Defined.

(** The caching server answers every acquisition by a named client that does
    not have the lock, and every release by the client that has it after it has
    been asked for; none of its checks fails. *)
Theorem requests_never_abort sv lid id :
  Cache.server_inv sv -> id <> [] ->
  (Cache.owners sv !! lid <> Some id -> exists r, Cache.acquire sv lid id = Ok r) /\
  (forall k, Cache.lock_pool sv !! lid = Some k -> Cache.st k = Cache.REVOKING -> Cache.holder k = id ->
    exists sv', Cache.release sv lid id = Ok (lock_OK, sv')).
Proof.
  intros Hi Hid. split.
  - rewrite Cache.owner_lookup. intros Ho.
    destruct (Cache.lock_acquire_total _ id (Cache.server_inv_lookup sv lid Hi) Hid Ho) as [[[ret b] k] E].
    unfold Cache.acquire. rewrite E. by eexists.
  - intros k Hk Hs Hh. unfold Cache.release. rewrite Hk.
    destruct (Cache.lock_release_total k id (Hi lid k Hk) Hs Hh) as [k' ->]. by eexists.
Qed.

Lemma requests_never_abort_witness :
  (exists r, Cache.acquire contended 5 [x64] = Ok r) /\ (exists sv', Cache.release contended 5 [x61] = Ok (lock_OK, sv')).
Proof.
  destruct (requests_never_abort contended 5 [x64] contended_inv) as [H1 _]; [discriminate|].
  destruct (requests_never_abort contended 5 [x61] contended_inv) as [_ H2]; [discriminate|].
  split; [apply H1; vm_compute; discriminate|]. by apply (H2 (Cache.mk_lock [x61] [] [[x62]; [x63]] Cache.REVOKING)).
Defined.

(** The first lock server grants a lock nobody has asked for before to two
    clients in a row, with no release in between; only then is it held. *)
Theorem first_lock_granted_twice ls lid clt1 clt2 clt3 :
  Basic.lock_pool ls !! lid = None ->
  exists ls1 ls2, Basic.acquire ls clt1 lid = Some (lock_OK, ls1) /\
    Basic.acquire ls1 clt2 lid = Some (lock_OK, ls2) /\ Basic.acquire ls2 clt3 lid = None.
Proof.
  intros Hn. unfold Basic.acquire. rewrite Hn. eexists _, _. split; [reflexivity|]. cbn [Basic.lock_pool].
  rewrite lookup_insert_eq. split; [reflexivity|]. cbn [Basic.lock_pool]. by rewrite lookup_insert_eq.
Qed.

Lemma first_lock_granted_twice_witness :
  exists ls1 ls2, Basic.acquire Basic.ls_new 1 5 = Some (lock_OK, ls1) /\
    Basic.acquire ls1 2 5 = Some (lock_OK, ls2) /\ Basic.acquire ls2 3 5 = None.
Proof. apply (first_lock_granted_twice Basic.ls_new 5 1 2 3). reflexivity. Defined.

(** ** The caching protocol *)

(** C5: as long as waits on condition variables end only when signalled and no call
    between clients and server is lost or fails, no two threads hold the lock at the
    same time, be they of one client or of two, with any number of clients and threads
    and calls served, answered and delivered in any order. *)
Theorem threads_exclude_each_other lid y c t c' t' :
  rtc (sys_step lid Signalled) sys_new y ->
  pcs (cls y c) !! t = Some Holding -> pcs (cls y c') !! t' = Some Holding -> c = c' /\ t = t'.
Proof.
  intros Hy%reachable_inv. by apply holding_unique with (lid := lid).
Qed.

(** C14: in every state the caching clients and the server can reach together, by waits
    that end only when signalled and calls that are not lost and do not fail, the
    server's checks hold for every call under way, a release of the lock finds the
    queue it expects, a retry finds a thread to wake, and no client has returned
    from [acquire] with its mutex locked. *)
Theorem protocol_never_fails lid y c :
  rtc (sys_step lid Signalled) sys_new y -> c <> [] ->
  (forall t, pcs (cls y c) !! t = Some Calling -> exists r, Cache.acquire (srv y) lid c = Ok r) /\
  (forall t, pcs (cls y c) !! t = Some Releasing \/ rv (cls y c) = Some None ->
    exists s', Cache.release (srv y) lid c = Ok (lock_OK, s')) /\
  (forall t, pcs (cls y c) !! t = Some Holding -> exists r, release (cls y c) t = Ok r) /\
  (forall t ret, pcs (cls y c) !! t = Some (Released ret) -> exists k, release_answer (cls y c) t = Ok k) /\
  (Retry c ∈ net y -> exists k, retry_handler (cls y c) = Ok k) /\
  mutex_free (cls y c).
Proof.
  intros Hy%reachable_inv Hne. pose proof (sv_clients _ _ Hy c) as Hc. split_and!.
  - intros t Ht. destruct (calling_role _ _ _ Hc Ht) as [Hr _]. by apply (acquire_answered lid y).
  - intros t Ht. apply (release_answered lid y); [done|].
    destruct Ht as [Ht|Ht]; [exact (proj1 (releasing_role _ _ t Hc Ht))|exact (proj1 (revoking_role _ _ Hc Ht))].
  - intros t Ht. destruct (release_ok _ _ _ Hc Ht) as (v & k & E & _). eauto.
  - intros t ret Ht. destruct (release_answer_ok _ _ _ _ Hc Ht) as (k & E & _). eauto.
  - intros Hin. apply (retry_answered lid y c Hy Hin).
  - exact (no_leak _ _ Hc).
Qed.

(** A run in which thread 1 of client a gets the lock, thread 2 of a queues up
    behind it, and client b asks for the lock. *)
Lemma contention lid : exists y, rtc (sys_step lid Signalled) sys_new y /\
  pcs (cls y [x61]) !! 1 = Some Holding /\ pcs (cls y [x61]) !! 2 = Some (Waiting AtQueue false) /\
  pcs (cls y [x62]) !! 7 = Some Calling.
Proof.
  eexists. split.
  - eapply rtc_l; [apply (st_acquire lid Signalled _ [x61] 1); [done|by apply (bool_decide_unpack _); vm_compute|done]|].
    eapply rtc_l; [eapply (st_serve_acquire lid Signalled _ [x61] 1); [done|reflexivity|]|].
    { unfold Cache.acquire. cbn [sys_new srv Cache.server_new Cache.lock_pool]. rewrite lookup_empty. reflexivity. }
    eapply rtc_l; [apply (st_answer lid Signalled _ [x61] 1 0); [by apply (bool_decide_unpack _); vm_compute|reflexivity]|].
    eapply rtc_l; [apply (st_acquire lid Signalled _ [x61] 2); [done|by apply (bool_decide_unpack _); vm_compute|reflexivity]|].
    eapply rtc_l; [apply (st_acquire lid Signalled _ [x62] 7); [done|by apply (bool_decide_unpack _); vm_compute|reflexivity]|].
    apply rtc_refl.
  - split; [reflexivity|]. split; reflexivity.
Qed.

Lemma threads_exclude_each_other_witness :
  exists y, rtc (sys_step 5 Signalled) sys_new y /\ pcs (cls y [x61]) !! 1 = Some Holding /\
    forall c' t', pcs (cls y c') !! t' = Some Holding -> [x61] = c' /\ 1 = t'.
Proof.
  destruct (contention 5) as (y & Hy & H1 & _). exists y. split; [exact Hy|]. split; [exact H1|].
  intros c' t' H2. exact (threads_exclude_each_other 5 y [x61] 1 c' t' Hy H1 H2).
Defined.

Lemma protocol_never_fails_witness :
  exists y r, rtc (sys_step 5 Signalled) sys_new y /\ pcs (cls y [x62]) !! 7 = Some Calling /\
    Cache.acquire (srv y) 5 [x62] = Ok r.
Proof.
  destruct (contention 5) as (y & Hy & _ & _ & H7).
  destruct (protocol_never_fails 5 y [x62] Hy) as (Ha & _); [discriminate|].
  destruct (Ha 7 H7) as [r E]. exists y, r. exact (conj Hy (conj H7 E)).
Defined.

(** C7: the protocol does not deadlock and does not go round in circles, as long as waits
    end only when signalled and no call is lost or fails.  In every state the caching
    clients and the server can reach together in this way, they take only
    finitely many steps before a thread calls [acquire] or [release] again, and when
    they have come to rest and a thread is still inside the lock client, some thread
    holds the lock. *)
Theorem protocol_comes_to_rest lid y c t :
  rtc (sys_step lid Signalled) sys_new y -> c <> [] -> pcs (cls y c) !! t <> None ->
  Acc (flip (rest lid)) y /\ ((exists y', rest lid y y') \/ exists c' t', pcs (cls y c') !! t' = Some Holding).
Proof.
  intros Hy Hc Ht. pose proof (reachable_inv _ _ Hy) as Hi. split.
  - destruct (reachable_covers _ _ Hy) as (cs & Hnd & Hcs). by eapply rest_ends.
  - destruct (pcs (cls y c) !! t) as [p|] eqn:E; [|done].
    destruct (no_deadlock lid y Hi c t p Hc E) as [?|?]; [by right|by left].
Qed.

Lemma protocol_comes_to_rest_witness :
  exists y, rtc (sys_step 5 Signalled) sys_new y /\ pcs (cls y [x62]) !! 7 = Some Calling /\ Acc (flip (rest 5)) y.
Proof.
  destruct (contention 5) as (y & Hy & _ & _ & H7). exists y. split; [exact Hy|]. split; [exact H7|].
  apply (protocol_comes_to_rest 5 y [x62] 7 Hy); [discriminate|]. rewrite H7. discriminate.
Defined.

(** C6: the lock tester passes on clients with different names, as long as waits on
    condition variables end only when signalled and no call is lost, repeated or fails.
    Whichever tests it is asked to run, and however its threads and the messages of the
    clients are scheduled otherwise, no check of it ever finds a lock granted twice or released
    without being held; every run ends, and it ends with all tests passed. *)
Theorem tester_passes (cname : nat -> list byte) test x :
  Inj (=) (=) cname -> (forall i, cname i <> []) -> rtc (tester_step cname Signalled) (tester_new test) x ->
  ~ fails x /\ Acc (flip (tester_step cname Signalled)) x /\ (finished x \/ exists x', tester_step cname Signalled x x').
Proof.
  intros Hinj Hname Hx. pose proof (tester_inv cname Hinj Hname test x Hx) as Hi. split_and!.
  - by eapply never_fails.
  - by eapply reachable_ends.
  - by apply tester_goes_on.
Qed.

(** The six clients, and the start of all tests. *)
Definition demo_names (i : nat) : list byte := replicate (Datatypes.S i) x61.

Lemma tester_passes_witness : exists x,
  rtc (tester_step demo_names Signalled) (tester_new 0) x /\ tt_threads x = [test1] /\ length (tt_rest x) = 4%nat /\
  ~ fails x /\ Acc (flip (tester_step demo_names Signalled)) x.
Proof.
  set (x := mk_tester (fun _ => sys_new) ct_new [test1] (tail (phases 0))).
  assert (rtc (tester_step demo_names Signalled) (tester_new 0) x) as Hx.
  { eapply rtc_l; [|apply rtc_refl]. exact (ts_join demo_names Signalled (tester_new 0) [test1] (tail (phases 0)) (Forall_nil_2 _) eq_refl). }
  destruct (tester_passes demo_names 0 x) as (Hf & Ha & _).
  - intros i j E. apply (f_equal length) in E. unfold demo_names in E. rewrite !length_replicate in E. lia.
  - intros i. discriminate.
  - exact Hx.
  - exists x. split_and!; [exact Hx|reflexivity|reflexivity|exact Hf|exact Ha].
Defined.

(** A step that a system without spurious wakeups can take, one with them can take. *)
Lemma signalled_spurious lid y y' : sys_step lid Signalled y y' -> sys_step lid Spurious y y'.
Proof.
  destruct 1; try (econstructor; eassumption). eapply st_wake; [eassumption..|]. by destruct b.
Qed.

(** C34: the clients rely on condition variables that wake nobody unasked, although POSIX
    allows it: when waits may also end without a signal, a state can be reached in which
    two threads of one client hold the lock. *)
Theorem spurious_wakeup_breaks_exclusion lid :
  exists y c t t', rtc (sys_step lid Spurious) sys_new y /\ t <> t' /\
    pcs (cls y c) !! t = Some Holding /\ pcs (cls y c) !! t' = Some Holding.
Proof.
  destruct (contention lid) as (y & Hy & H1 & H2 & _). pose proof (reachable_inv _ _ Hy) as Hi.
  pose proof (sv_clients _ _ Hi [x61]) as Hc. destruct (holding_locked _ _ _ Hc H1) as (l & Hl & Hs).
  eexists _, [x61], 1, 2. split; [|split; [lia|]].
  - eapply rtc_r; [eapply rtc_subrel; [|exact Hy]; intros ? ?; apply signalled_spurious|].
    by apply (st_wake lid Spurious y [x61] 2 AtQueue false); [apply (free_mutex lid)|exact H2|].
  - cbn [cls]. unfold upd. rewrite decide_True by done. unfold acquire_woken, lock_of. rewrite Hl.
    cbn [default from_option Datatypes.id]. rewrite Hs. cbn [goto pcs].
    split; [by rewrite lookup_insert_ne by lia|by rewrite lookup_insert_eq].
Qed.

(** ** The handles through which the server calls its clients *)

(** C24: however threads make, use and destroy handles, bind and ask for clients to
    be dropped, no handle ever points to a freed object: every operation on the
    manager succeeds, the count of a [hinfo] is the number of handles on it, and no
    two addresses share an [rpcc].  Once no handle is left, the failure of a bind
    is not remembered. *)
Theorem handles_stay_valid y :
  rtc handle_step hsys_new y ->
  (forall m p, Z.of_nat (size (handles y)) < INT_MAX -> exists h g, handle_new (mg y) m p = Ok (h, g)) /\
  (forall x p c ret, binding y !! x = Some (p, c) -> exists r g, safebind_end (mg y) p c ret = Ok (r, g)) /\
  (forall x h, handles y !! x = Some h -> binding y !! x = None -> exists g, handle_destroy (mg y) h = Ok g) /\
  (forall m, exists g, delete_handle (mg y) m = Ok g) /\
  (forall x p, handles y !! x = Some (Some p) -> exists h, hinfos (mg y) !! p = Some h /\
    hmap (mg y) !! hi_m h = Some p /\ hi_refcnt h = Z.of_nat (refs (handles y) p) /\
    forall c p' h', hi_cl h = Some c -> hinfos (mg y) !! p' = Some h' -> hi_cl h' = Some c -> c ∈ rpccs (mg y) /\ p' = p) /\
  (handles y = ∅ -> forall p h, hinfos (mg y) !! p = Some h -> hi_del h = false).
Proof.
  intros Hv%hsys_reachable_inv. split_and!.
  - intros m p Hsz. by apply new_handle_total.
  - intros x p c ret Hx. destruct (bind_end_ok y x p c ret Hv Hx) as (g & E & _). eauto.
  - intros x h Hx Hb. destruct (destroy_handle_ok y x h Hv Hx Hb) as (g & E & _). eauto.
  - intros m. destruct (delete_handle_ok y m Hv) as (g & E & _). eauto.
  - intros x p Hx. destruct (hv_live y Hv x p Hx) as [h Hp]. destruct (hv_info y Hv p h Hp) as (Hm & Hr & _).
    exists h. split_and!; [done..|]. intros c p' h' Hc Hp' Hc'.
    assert (owns y (InInfo p) c /\ owns y (InInfo p') c) as [Ho Ho'] by (split; [by exists h|by exists h']).
    split; [apply hv_owned; eauto|]. pose proof (hv_once y Hv _ _ _ Ho' Ho). congruence.
  - intros E p h Hp. destruct (hv_info y Hv p h Hp) as (_ & Hr & _ & Hd). destruct (hi_del h); [|done].
    specialize (Hd eq_refl). rewrite E, refs_zero in Hr by (intros; by rewrite lookup_empty). lia.
Qed.

(** Two handles for one address, one of which is binding. *)
Lemma handles_stay_valid_witness : exists y,
  rtc handle_step hsys_new y /\ handles y = {[1 := Some 100; 2 := Some 100]} /\ binding y = {[1 := (100, 7)]} /\
  (exists r g, safebind_end (mg y) 100 7 0 = Ok (r, g)) /\
  (exists h, hinfos (mg y) !! 100 = Some h /\ hi_refcnt h = 2).
Proof.
  set (h := mk_hinfo None 2 false [x61]).
  set (y := mk_hsys (mk_mgr {[[x61] := 100]} {[100 := h]} {[7]}) {[1 := Some 100; 2 := Some 100]} {[1 := (100, 7)]}).
  set (y1 := mk_hsys (mk_mgr {[[x61] := 100]} {[100 := mk_hinfo None 1 false [x61]]} ∅) {[1 := Some 100]} ∅).
  set (y2 := mk_hsys (mk_mgr {[[x61] := 100]} {[100 := h]} ∅) {[1 := Some 100; 2 := Some 100]} ∅).
  assert (rtc handle_step hsys_new y) as Hy.
  { apply (rtc_l _ _ y1); [exact (step_new hsys_new 1 [x61] 100 (Some 100) (mg y1) eq_refl eq_refl eq_refl)|].
    apply (rtc_l _ _ y2); [exact (step_new y1 2 [x61] 200 (Some 100) (mg y2) eq_refl eq_refl eq_refl)|].
    apply rtc_once. refine (step_bind y2 1 (Some 100) 7 100 (mg y) eq_refl _ _ eq_refl); [by intros ? ? ?|by vm_compute]. }
  exists y. split; [exact Hy|]. split; [reflexivity|]. split; [reflexivity|].
  destruct (handles_stay_valid y Hy) as (_ & Hb & _). split; [by apply (Hb 1 100 7 0)|].
  by exists h.
Defined.

(** The caching server calls a client through the one [rpcc] it keeps for the
    client's address: a first call binds a new one, or answers that the call
    failed and keeps nothing when it cannot be bound; a later call uses the one
    that is there without binding.  The clients of other addresses are untouched. *)
Theorem call_client_reuses g cid func lid p c ret call :
  idle g -> hinfos g !! p = None -> c ∉ rpccs g ->
  (forall c0, bound_to g cid = Some c0 -> exists g', call_client g cid func lid p c ret call = Ok (call c0 func lid, g') /\
    idle g' /\ bound_to g' cid = Some c0 /\ forall m, m <> cid -> bound_to g' m = bound_to g m) /\
  (bound_to g cid = None -> 0 <= ret -> exists g', call_client g cid func lid p c ret call = Ok (call c func lid, g') /\
    idle g' /\ bound_to g' cid = Some c /\ forall m, m <> cid -> bound_to g' m = bound_to g m) /\
  (bound_to g cid = None -> ret < 0 -> exists g', call_client g cid func lid p c ret call = Ok (lock_RPCERR, g') /\
    idle g' /\ bound_to g' cid = None /\ forall m, m <> cid -> bound_to g' m = bound_to g m).
Proof.
  intros Hi Hp Hc. destruct (call_client_spec g cid func lid p c ret call Hi Hp Hc) as (g' & H).
  split_and!.
  - intros c0 E. rewrite E in H. eauto.
  - intros E Hr. rewrite E, (proj2 (Z.ltb_ge ret 0)) in H by lia. eauto.
  - intros E Hr. rewrite E, (proj2 (Z.ltb_lt ret 0)) in H by lia. eauto.
Qed.

Lemma call_client_reuses_witness :
  exists g g', call_client mgr_new [x61] 0x8001 5 100 7 0 (fun _ _ _ => 0) = Ok (0, g) /\
    bound_to g [x61] = Some 7 /\ call_client g [x61] 0x8002 5 200 8 (-1) (fun cl _ _ => cl) = Ok (7, g').
Proof.
  destruct (call_client_reuses mgr_new [x61] 0x8001 5 100 7 0 (fun _ _ _ => 0)) as (_ & H1 & _);
    [apply hsys_new_inv|done|done|].
  destruct (H1 eq_refl ltac:(lia)) as (g & E1 & Hi & Hb & _).
  assert (hinfos g !! 200 = None /\ 8 ∉ rpccs g) as [Hp Hc].
  { set (G := mk_mgr {[[x61] := 100]} {[100 := mk_hinfo (Some 7) 0 false [x61]]} {[7]}).
    assert (call_client mgr_new [x61] 0x8001 5 100 7 0 (fun _ _ _ => 0) = Ok (0, G)) as E by (vm_compute; reflexivity).
    rewrite E in E1. injection E1 as <-. split; [reflexivity|]. by vm_compute. }
  destruct (call_client_reuses g [x61] 0x8002 5 200 8 (-1) (fun cl _ _ => cl) Hi Hp Hc) as (H2 & _).
  destruct (H2 7 Hb) as (g' & E2 & _). exists g, g'. exact (conj E1 (conj Hb E2)).
Defined.

(** ** Names and calls over the network *)

(** C33: the name a caching client makes up for itself and sends with its requests is
    the address it listens on: the server's [make_sockaddr] turns it back into the
    local host and the very port, which is one an ordinary process may open; the
    name is never empty, and clients with different ports have different names. *)
Theorem client_name_resolves inet_addr gethostbyname rnd rnd' :
  0 <= rnd -> 0 <= rnd' -> inet_addr localhost <> INADDR_NONE ->
  make_sockaddr inet_addr gethostbyname (lock_client_id rnd) =
    Ok (mk_sockaddr (inet_addr localhost) (htons (rlock_port rnd))) /\
  htons (htons (rlock_port rnd)) = rlock_port rnd /\ 1024 <= rlock_port rnd < 32768 /\
  lock_client_id rnd <> [] /\ (lock_client_id rnd = lock_client_id rnd' -> rlock_port rnd = rlock_port rnd').
Proof.
  intros Hr Hr' Ha. pose proof (rlock_port_range rnd Hr) as Hp. pose proof (rlock_port_range rnd' Hr') as Hp'.
  split_and!; [|by apply htons_htons; lia|lia|lia|done|].
  - unfold make_sockaddr, lock_client_id. change (localhost ++ [colon] ++ ?x) with (localhost ++ colon :: x).
    assert (colon ∉ localhost) as Hc by (apply (bool_decide_unpack _); vm_compute; exact I).
    rewrite find_char_app by done.
    change (0 + Z.of_nat (length localhost)) with 9. cbv zeta.
    change (9 =? npos) with false. change (200 <=? 9) with false. cbv iota.
    change (take (Z.to_nat 9) (localhost ++ colon :: ?x)) with localhost.
    change (drop (Z.to_nat 9 + 1) (localhost ++ colon :: ?x)) with x.
    unfold make_sockaddr2. rewrite (proj2 (Z.eqb_neq _ _) Ha). cbn [negb]. rewrite bind_Ok.
    by rewrite atoi_dec by (unfold INT_MAX; lia).
  - unfold lock_client_id. intros E%app_inv_head. injection E as E. apply dec_inj in E; lia.
Qed.

Lemma client_name_resolves_witness :
  make_sockaddr (fun _ => 0x0100007f) (fun _ => None) (lock_client_id 33000) =
    Ok (mk_sockaddr 0x0100007f (htons 2024)).
Proof.
  destruct (client_name_resolves (fun _ => 0x0100007f) (fun _ => None) 33000 1) as [E _];
    [lia|lia|discriminate|]. exact E.
Defined.

(** C26: over a working connection, a caching client's calls are the server's
    operations: [acquire] and [release] return the status the operation returns and
    leave the server with its state, with the call to the holder or to the next
    client that the operation asks for. *)
Theorem lock_calls_remote `{HeapMem} answer compare conn (l : link lhost) lid id :
  link_ok l -> lock_registered answer (k_srv l) -> c_xid (k_cl l) < 2 ^ 31 - 2 -> 0 <= lid < 2 ^ 64 ->
  Z.of_nat (length id) <= 2 ^ 20 -> (forall call r, - 2 ^ 31 <= answer call r < 2 ^ 31) ->
  (forall ret nr sv', Cache.acquire (lh_sv (k_app l)) lid id = Ok (ret, nr, sv') ->
    exists l', cache_call (direct_call compare conn) lock_acquire_proc lid id l = Ok (ret, l') /\ link_ok l' /\
      k_app l' = mk_lhost sv' (lh_calls (k_app l) ++ if nr : bool then [(rlock_revoke, Cache.revoke_target sv' lid, lid)] else [])) /\
  (forall ret sv', Cache.release (lh_sv (k_app l)) lid id = Ok (ret, sv') ->
    exists l', cache_call (direct_call compare conn) lock_release_proc lid id l = Ok (ret, l') /\ link_ok l' /\
      k_app l' = mk_lhost sv' (lh_calls (k_app l) ++ if ret =? lock_OK then [(rlock_retry, Cache.retry_target sv' lid, lid)] else [])).
Proof.
  intros Hl [Hst Hrel Hacq] Hx Hlid Hid Hans. split.
  - intros ret nr sv' E.
    destruct (cache_call_spec compare conn l lock_acquire_proc meth_acquire lid id ret stack_int
      (mk_lhost sv' (lh_calls (k_app l) ++ if nr : bool then [(rlock_revoke, Cache.revoke_target sv' lid, lid)] else [])))
      as (l' & E' & Hl' & Ha & _); try done.
    + unfold meth_acquire. rewrite E. done.
    + destruct (acquire_status _ _ _ _ _ _ E) as [-> | ->]; done.
    + apply stack_int_range.
    + eauto.
  - intros ret sv' E. pose proof (release_status _ _ _ _ _ E) as Hs.
    set (call := (rlock_retry, Cache.retry_target sv' lid, lid)).
    destruct (cache_call_spec compare conn l lock_release_proc (meth_release answer) lid id ret
      (if ret =? lock_OK then answer call stack_int else stack_int)
      (mk_lhost sv' (lh_calls (k_app l) ++ if ret =? lock_OK then [call] else []))) as (l' & E' & Hl' & Ha & _); try done.
    + unfold meth_release. rewrite E, bind_Ok. destruct Hs as [-> | ->]; cbn; [done|by rewrite app_nil_r].
    + destruct Hs as [-> | ->]; done.
    + destruct (ret =? lock_OK); [done|apply stack_int_range].
    + eauto.
Qed.

(** A first client asks for lock 5 over the network. *)
Lemma lock_calls_remote_witness :
  exists l l' : link lhost, cache_call (H := zero_heap) (@direct_call zero_heap lhost Z.sub 3) lock_acquire_proc 5 [x61] l =
    Ok (lock_OK, l') /\ Cache.owners (lh_sv (k_app l')) !! 5 = Some [x61].
Proof.
  destruct (@lock_main_registered zero_heap (fun _ r => 0) 5 0) as (s & _ & Hreg & Hn & Hw & Hb).
  destruct (@connect_ok zero_heap lhost Z.sub 3 s (mk_lhost Cache.server_new []) 9) as (l & _ & Hl & Ha & Hp & Hx);
    [reflexivity|by rewrite Hn|exact Hw|exact Hb|].
  destruct (@lock_calls_remote zero_heap (fun _ r => 0) Z.sub 3 l 5 [x61] Hl) as [H _];
    [by destruct Hreg; split; rewrite Hp|by rewrite Hx|lia|cbn; lia|lia|].
  destruct (H lock_OK false (Cache.mk_server 0 {[5 := Cache.mk_lock [x61] [] [] Cache.LOCKED]})) as (l' & E & _ & Ha').
  - rewrite Ha. reflexivity.
  - exists l, l'. split; [exact E|]. rewrite Ha'. reflexivity.
Defined.

(** C27: over a working connection the calls of the lock server reach the handlers of
    a caching client.  A revoke of a lock the client keeps free gives it back: the
    client has it no more, its first waiting thread is woken, the server reserves the
    lock for a client that waits and calls that one.  A revoke of a lock in use is
    remembered, and nothing is sent.  A retry is remembered and wakes the first
    thread.  The client's other locks are left alone. *)
Theorem callbacks_reach_client `{HeapMem} answer compare conn (l : link chost) lid r0 :
  link_ok l -> rlock_registered compare conn (k_srv l) -> c_xid (k_cl l) < 2 ^ 31 - 2 -> 0 <= lid < 2 ^ 64 ->
  let k := pool_at (k_app l) lid in
  let up := ch_up (k_app l) in
  (forall rt w ws, state (lock_of k) = FREE ->
    link_ok up -> lock_registered answer (k_srv up) -> c_xid (k_cl up) < 2 ^ 31 - 2 ->
    Z.of_nat (length (ch_id (k_app l))) <= 2 ^ 20 -> (forall call r, - 2 ^ 31 <= answer call r < 2 ^ 31) ->
    Cache.lock_pool (lh_sv (k_app up)) !! lid = Some (Cache.mk_lock (ch_id (k_app l)) rt (w :: ws) Cache.REVOKING) ->
    exists r l', rlock_call (direct_call compare conn) rlock_revoke lid r0 l = Ok (rlock_OK, r, l') /\ link_ok l' /\
      let k' := pool_at (k_app l') lid in
      let srv' := k_app (ch_up (k_app l')) in
      state (lock_of k') = NONE /\ queue (lock_of k') = queue (lock_of k) /\
      pcs k' = match queue (lock_of k) with [] => pcs k | t :: _ => signal t (pcs k) end /\
      (forall lid', lid' <> lid -> pool_at (k_app l') lid' = pool_at (k_app l) lid') /\
      Cache.owners (lh_sv srv') = delete lid (Cache.owners (lh_sv (k_app up))) /\
      lh_calls srv' = lh_calls (k_app up) ++ [(rlock_retry, w, lid)]) /\
  (state (lock_of k) <> FREE ->
    exists r l', rlock_call (direct_call compare conn) rlock_revoke lid r0 l = Ok (rlock_OK, r, l') /\ link_ok l' /\
      k_app l' = set_pool (k_app l) lid (mk_client (Some (set_revoke (lock_of k) true)) (pcs k) (rv k)) up) /\
  (forall t q, queue (lock_of k) = t :: q ->
    exists r l', rlock_call (direct_call compare conn) rlock_retry lid r0 l = Ok (rlock_OK, r, l') /\ link_ok l' /\
      k_app l' = set_pool (k_app l) lid (mk_client (Some (set_retry (lock_of k) true)) (signal t (pcs k)) (rv k)) up).
Proof.
  intros Hl [Hrv Hrt] Hx Hlid k up. split_and!.
  - intros rt w ws Hfree Hup Hreg Hxu Hid Hans Hlk.
    destruct (release_remote compare conn answer up lid _ rt w ws Hup Hreg Hxu Hlid Hid Hans Hlk) as (up' & E & _ & Ha).
    destruct (rlock_call_spec compare conn l rlock_revoke (meth_revoke compare conn) lid r0 rlock_OK stack_int
      (set_pool (k_app l) lid (revoke_answer (revoke_handler k)) up')) as (l' & E' & Hl' & Ha'); try done.
    { unfold meth_revoke. fold k up. rewrite bool_decide_true by done. by rewrite E, bind_Ok. }
    { apply stack_int_range. }
    exists stack_int, l'. split; [exact E'|]. split; [exact Hl'|]. rewrite Ha', pool_at_set. cbn [ch_up set_pool]. rewrite Ha.
    unfold revoke_handler. rewrite bool_decide_true by done. split_and!; try done.
    + intros lid' Hne. by apply pool_at_other.
    + cbn [lh_sv Cache.owners Cache.lock_pool]. unfold Cache.owners. cbn [Cache.lock_pool]. by rewrite omap_insert_None.
  - intros Hfree.
    destruct (rlock_call_spec compare conn l rlock_revoke (meth_revoke compare conn) lid r0 rlock_OK stack_int
      (set_pool (k_app l) lid (revoke_handler k) up)) as (l' & E' & Hl' & Ha'); try done.
    { unfold meth_revoke. fold k up. by rewrite bool_decide_false. }
    { apply stack_int_range. }
    exists stack_int, l'. unfold revoke_handler in Ha'. rewrite bool_decide_false in Ha' by done. done.
  - intros t q Hq.
    destruct (rlock_call_spec compare conn l rlock_retry meth_retry lid r0 rlock_OK stack_int
      (set_pool (k_app l) lid (mk_client (Some (set_retry (lock_of k) true)) (signal t (pcs k)) (rv k)) up))
      as (l' & E' & Hl' & Ha'); try done; [| |by exists stack_int, l'].
    { unfold meth_retry, retry_handler. fold k up. cbn [set_retry queue]. by rewrite Hq, bind_Ok. }
    { apply stack_int_range. }
Qed.

(** A client that keeps lock 5 free is told to give it back, for a client "b". *)
Lemma callbacks_reach_client_witness :
  exists (l l' : link chost) r,
    rlock_call (H := zero_heap) (@direct_call zero_heap chost Z.sub 3) rlock_revoke 5 0 l = Ok (rlock_OK, r, l') /\
    state (lock_of (pool_at (k_app l') 5)) = NONE /\
    lh_calls (k_app (ch_up (k_app l'))) = [(rlock_retry, [x62], 5)].
Proof.
  destruct (@lock_main_registered zero_heap (fun _ r => 0) 5 0) as (s & _ & Hreg & Hn & Hw & Hb).
  set (id := lock_client_id 7).
  set (host := mk_lhost (Cache.mk_server 0 {[5 := Cache.mk_lock id [] [[x62]] Cache.REVOKING]}) []).
  destruct (@lock_client_cache_new_ok zero_heap Z.sub 3 (fun _ => 1) (fun _ => None) [x33] (mk_sockaddr 1 (htons 3)) s host 9 7 8)
    as (rls & h & _ & Hr & Hn' & Hw' & Hb' & Hid & _ & Hup & Ha & Hp & Hx);
    [reflexivity|reflexivity|by rewrite Hn|exact Hw|exact Hb|].
  set (k := mk_client (Some (mk_lock false false FREE [])) ∅ None).
  destruct (@connect_ok zero_heap chost Z.sub 3 rls (set_pool h 5 k (ch_up h)) 9) as (l & _ & Hl & Hla & Hlp & Hlx);
    [reflexivity|by rewrite Hn'|exact Hw'|exact Hb'|].
  destruct (@callbacks_reach_client zero_heap (fun _ r => 0) Z.sub 3 l 5 0 Hl) as [Hfree _];
    [by destruct Hr; split; rewrite Hlp|by rewrite Hlx|lia|].
  rewrite Hla in Hfree. rewrite pool_at_set in Hfree. cbn [set_pool ch_up ch_id] in Hfree.
  destruct (Hfree [] [x62] []) as (r & l' & E & _ & Hst & _ & _ & _ & _ & Hc);
    [reflexivity|exact Hup|by destruct Hreg; split; rewrite Hp|by rewrite Hx|by rewrite Hid|lia|by rewrite Ha, Hid|].
  exists l, l', r. split; [exact E|]. split; [exact Hst|]. rewrite Hc, Ha. reflexivity.
Defined.

(** ** The demonstration programs *)

(** The demonstration programs work together: the server registers its method,
    and a client that can resolve the server's address binds to it, calls the method
    and gets the 0 that it then prints. *)
Theorem demo_programs_run `{HeapMem} compare conn inet_addr gethostbyname dst a nonce count cnonce :
  make_sockaddr inet_addr gethostbyname dst = Ok a -> 0 < u32 cnonce ->
  exists s, demo_main nonce count = Ok s /\
    demo_client_main compare conn inet_addr gethostbyname dst s cnonce 0 = Ok 0.
Proof.
  intros Ha Hc. destruct (demo_main_registered nonce count) as (s & Es & Hp & Hn & Hw & Hb).
  exists s. split; [exact Es|]. clear Es.
  destruct (connect_ok compare conn s tt cnonce) as (l & E & Hl & _ & Hp' & Hx);
    [exact Hc|rewrite Hn; auto with ranges|exact Hw|exact Hb|].
  unfold demo_client_main, demo_client_new. rewrite Ha, bind_Ok, E, bind_Ok. run_ok.
  destruct (demo_client_stat_spec compare conn l (c_clt_nonce (k_cl l)) 1) as (l' & -> & _ & _);
    [exact Hl|rewrite Hx; lia|by rewrite Hp'|pose proof (lk_clt _ (lk_conn _ Hl)); lia|lia|].
  by rewrite bind_Ok.
Qed.

Lemma demo_programs_run_witness :
  exists s, @demo_main zero_heap 5 0 = Ok s /\
    @demo_client_main zero_heap Z.sub 3 (fun _ => 0x0100007f) (fun _ => None) [x33; x37; x37; x32] s 9 0 = Ok 0.
Proof.
  refine (@demo_programs_run zero_heap Z.sub 3 _ _ [x33; x37; x37; x32] (mk_sockaddr 0x0100007f (htons 3772)) 5 0 9 _ _);
    vm_compute; reflexivity.
Defined.

(** The lock demonstration does not: its stub sends the number of the client before
    that of the lock, and the method of the caching server takes the lock alone. *)
Example lock_demo_aborts :
  (s ← @lock_main zero_heap (fun _ r => r) 5 0;
   @lock_demo_main zero_heap Z.sub 3 (fun _ => 0x0100007f) (fun _ => None) [x33; x37; x37; x32] s
     (mk_lhost Cache.server_new []) 9 0) = Abort.
Proof. vm_compute. reflexivity. Qed.
